(** * pddl2dypdl: the SAS+ to DyPDL translator of [sas2dypdl.py] and the
    search loop of its driver

    A shallow embedding of [Sas2DypdlTransformer] and the properties of the
    translator that its specification states.

    The file has three parts.
    - The program: the text primitives of the interpreter that the parser
      relies on ([splitlines], [split], [int], [float]), the line-oriented
      SAS+ parser ([_parse]), the encoder ([_handle_variables],
      [_handle_operators], [_handle_goal], [transform]), the axiom
      stratifier ([_handle_axioms]) and the loop of the driver that writes
      the plans ([__main__.py]).
    - The notions used in the statements, and sample documents.
    - The properties.

    Conventions of the embedding.
    - A Python [str] is a [string] read as a sequence of code points below
      256; the value [None] that [get_line] yields at the end of the input is
      the [None] of [option string] (type [line]).
    - A Python [int] is a [Z]; a Python [float] is a binary64 value, a
      [spec_float] of the Standard Library.
    - A [dict] is an association list in insertion order with unique keys:
      assigning to a key that is present keeps its position.
    - A raised exception is a value of [exn]; a computation that may raise
      returns a [result].  A loop that may run forever takes a bound on its
      number of iterations and returns [None] when the bound is reached.
    - The modelling API is recorded as the calls that the encoder makes.  On
      a fresh model the names given to [add_int_var] are pairwise distinct,
      as shown among the properties, so that its refusal of a name in use is
      not modelled.  The integers of the API have 32 bits: [add_int_var]
      raises [OverflowError] for a target outside 32 bits, an effect value
      outside 32 bits raises [TypeError], a cost outside 32 bits makes the
      cost expression continuous, which [add_transition] refuses with
      [RuntimeError], and a comparison of an integer variable with an
      integer outside 32 bits compares with the nearest binary64 value.
    - The solver is outside the program: the loop of the driver runs on the
      list of the answers that [search_next] gives, in order.  The file
      system is a map from paths to contents that accepts every write. *)

From Stdlib Require Import ZArith List String Ascii Bool Lia PeanoNat.
From Stdlib Require Import DecimalString.
From Stdlib Require Import Floats.SpecFloat.
From Stdlib Require Import Relations.Relation_Operators.
From Stdlib Require Import DecimalNat.
From Stdlib Require Import Sorting.Permutation.
Import ListNotations.

Open Scope string_scope.
Open Scope list_scope.
Open Scope Z_scope.

(* ================================================================== *)
(** ** Exceptions and results *)

Inductive exn : Type :=
| AssertionError (msg : string)
| ValueError
| TypeError
| AttributeError
| KeyError (key : Z)
| IndexError
| OverflowError
| RuntimeError
| StopIteration
| NotImplementedError (msg : string).

Inductive result (A : Type) : Type :=
| Ok (a : A)
| Raise (e : exn).
Arguments Ok {A} a.
Arguments Raise {A} e.

(** The message of a bare [assert]. *)
Definition no_msg : string := EmptyString.

(* ================================================================== *)
(** ** Dictionaries with integer keys *)

Definition dict (V : Type) : Type := list (Z * V).

Fixpoint dict_get {V} (k : Z) (d : dict V) : option V :=
  match d with
  | [] => None
  | (k', v) :: d' => if k =? k' then Some v else dict_get k d'
  end.

Definition dict_mem {V} (k : Z) (d : dict V) : bool :=
  match dict_get k d with Some _ => true | None => false end.

(** [d[k] = v] *)
Fixpoint dict_set {V} (k : Z) (v : V) (d : dict V) : dict V :=
  match d with
  | [] => [(k, v)]
  | (k', v') :: d' =>
      if k =? k' then (k, v) :: d' else (k', v') :: dict_set k v d'
  end.

Definition dict_keys {V} (d : dict V) : list Z := map fst d.

(** A Python [set] of ints, kept without duplicates; the translator only
    folds [max] over such a set, so the iteration order is immaterial. *)
Definition pyset : Type := list Z.

Definition set_mem (k : Z) (s : pyset) : bool := existsb (Z.eqb k) s.

Definition set_add (k : Z) (s : pyset) : pyset :=
  if set_mem k s then s else s ++ [k].

(** [s.update(ks)] *)
Definition set_update (s : pyset) (ks : list Z) : pyset :=
  fold_left (fun acc k => set_add k acc) ks s.

(** Python objects that are compared by [==] in a membership test: a [str]
    never equals an [int]. *)
Inductive pyobj : Type :=
| PStr (s : string)
| PInt (z : Z).

Definition pyobj_eqb (a b : pyobj) : bool :=
  match a, b with
  | PStr s, PStr t => String.eqb s t
  | PInt x, PInt y => Z.eqb x y
  | _, _ => false
  end.

(** [x in d] for a dictionary whose keys are ints. *)
Definition py_in {V} (x : pyobj) (d : dict V) : bool :=
  existsb (fun kv => pyobj_eqb x (PInt (fst kv))) d.

(* ================================================================== *)
(** ** Text primitives: [splitlines], [split], [int], [float], f-strings *)

Definition code (c : ascii) : nat := nat_of_ascii c.

Definition is_space (c : ascii) : bool :=
  let n := code c in
  ((9 <=? n) && (n <=? 13) || (28 <=? n) && (n <=? 32)
   || (n =? 133) || (n =? 160))%nat.

Definition is_linebreak (c : ascii) : bool :=
  let n := code c in
  ((10 <=? n) && (n <=? 13) || (28 <=? n) && (n <=? 30) || (n =? 133))%nat.

Definition is_digit (c : ascii) : bool :=
  let n := code c in ((48 <=? n) && (n <=? 57))%nat.

Definition digit_val (c : ascii) : Z := Z.of_nat (code c) - 48.

Definition snoc (s : string) (c : ascii) : string :=
  (s ++ String c EmptyString)%string.

(** [str.splitlines()]: a line ends at a line boundary ([\r\n] counts as
    one); a last line without a boundary is kept only when it is not empty. *)
Fixpoint splitlines_from (cur : string) (s : string) : list string :=
  match s with
  | EmptyString =>
      match cur with EmptyString => [] | _ => [cur] end
  | String c s' =>
      if (code c =? 13)%nat then
        match s' with
        | String c2 s'' =>
            if (code c2 =? 10)%nat then cur :: splitlines_from EmptyString s''
            else cur :: splitlines_from EmptyString s'
        | EmptyString => [cur]
        end
      else if is_linebreak c then cur :: splitlines_from EmptyString s'
      else splitlines_from (snoc cur c) s'
  end.

Definition splitlines (s : string) : list string :=
  splitlines_from EmptyString s.

(** [s.replace("\n", "")] *)
Fixpoint remove_newlines (s : string) : string :=
  match s with
  | EmptyString => EmptyString
  | String c s' =>
      if (code c =? 10)%nat then remove_newlines s'
      else String c (remove_newlines s')
  end.

(** [s.split()]: the maximal runs of non-whitespace characters. *)
Fixpoint split_from (cur : string) (s : string) : list string :=
  match s with
  | EmptyString =>
      match cur with EmptyString => [] | _ => [cur] end
  | String c s' =>
      if is_space c then
        match cur with
        | EmptyString => split_from EmptyString s'
        | _ => cur :: split_from EmptyString s'
        end
      else split_from (snoc cur c) s'
  end.

Definition py_split (s : string) : list string := split_from EmptyString s.

(** The whitespace that [int] and [float] skip around a literal: the
    separators 28 to 31 are whitespace for [split] but not here. *)
Definition is_num_space (c : ascii) : bool :=
  let n := code c in
  ((9 <=? n) && (n <=? 13) || (n =? 32) || (n =? 133) || (n =? 160))%nat.

Fixpoint lstrip (s : string) : string :=
  match s with
  | String c s' => if is_num_space c then lstrip s' else s
  | EmptyString => EmptyString
  end.

Fixpoint rstrip (s : string) : string :=
  match s with
  | EmptyString => EmptyString
  | String c s' =>
      match rstrip s' with
      | EmptyString =>
          if is_num_space c then EmptyString else String c EmptyString
      | r => String c r
      end
  end.

Definition strip (s : string) : string := rstrip (lstrip s).

(** A run of decimal digits in which single underscores may separate
    digits; [prev] tells whether the previous character was a digit. *)
Fixpoint digits_acc (acc : Z) (prev : bool) (s : string) : option Z :=
  match s with
  | EmptyString => if prev then Some acc else None
  | String c s' =>
      if is_digit c then digits_acc (10 * acc + digit_val c) true s'
      else if (code c =? 95)%nat && prev then digits_acc acc false s'
      else None
  end.

Definition signed (s : string) : bool * string :=
  match s with
  | String c s' =>
      if (code c =? 45)%nat then (true, s')
      else if (code c =? 43)%nat then (false, s')
      else (false, s)
  | EmptyString => (false, s)
  end.

(** [int(s)] for a [str]: optional surrounding whitespace, an optional
    sign, decimal digits (the interpreter's limit on the number of digits
    is not modelled). *)
Definition py_int (s : string) : result Z :=
  let '(neg, body) := signed (strip s) in
  match digits_acc 0 false body with
  | Some n => Ok (if neg then - n else n)
  | None => Raise ValueError
  end.

(** [f"{i}"] for a non-negative int. *)
Definition str_of_nat (i : nat) : string :=
  NilEmpty.string_of_uint (Nat.to_uint i).

(** [s.startswith(p)] *)
Definition startswith (p s : string) : bool := String.prefix p s.

(* ================================================================== *)
(** ** Floats: [float(s)], [round], comparison of an int with a float *)

(** Round-half-even of the quotient [n / d], for [d > 0]. *)
Definition round_div (n d : Z) : Z :=
  let q := n / d in
  let r := n mod d in
  if 2 * r <? d then q
  else if 2 * r =? d then (if Z.even q then q else q + 1)
  else q + 1.

(** Numerator and denominator of [num / den / 2^e]. *)
Definition scaled (num den e : Z) : Z * Z :=
  if 0 <=? e then (num, den * 2 ^ e) else (num * 2 ^ (- e), den).

(** The binary64 value nearest to [num / den] (both positive), ties to
    even, with gradual underflow and overflow to infinity. *)
Definition nearest_binary64 (neg : bool) (num den : Z) : spec_float :=
  if num =? 0 then S754_zero neg
  else
    let e1 := Z.log2 num - Z.log2 den - 52 in
    let '(n1, d1) := scaled num den e1 in
    let e2 := if n1 / d1 <? 2 ^ 52 then e1 - 1 else e1 in
    let e := Z.max e2 (-1074) in
    let '(n, d) := scaled num den e in
    let q := round_div n d in
    let '(m, e') := if q =? 2 ^ 53 then (2 ^ 52, e + 1) else (q, e) in
    if m =? 0 then S754_zero neg
    else if 971 <? e' then S754_infinity neg
    else S754_finite neg (Z.to_pos m) e'.

(** A maximal run of digits at the head of [s] (underscores only between
    digits): its value, its number of digits, and what follows. *)
Fixpoint take_digits (acc : Z) (n : nat) (prev : bool) (s : string)
  : option (Z * nat * string) :=
  match s with
  | EmptyString => Some (acc, n, s)
  | String c s' =>
      if is_digit c then take_digits (10 * acc + digit_val c) (S n) true s'
      else if (code c =? 95)%nat then
        match prev, s' with
        | true, String c2 _ =>
            if is_digit c2 then take_digits acc n false s' else None
        | _, _ => None
        end
      else Some (acc, n, s)
  end.

Definition lower (c : ascii) : ascii :=
  let n := code c in
  if ((65 <=? n) && (n <=? 90))%nat then ascii_of_nat (n + 32) else c.

Fixpoint lower_str (s : string) : string :=
  match s with
  | EmptyString => EmptyString
  | String c s' => String (lower c) (lower_str s')
  end.

(** The exponent part of a decimal literal, if any. *)
Definition float_exponent (s : string) : option Z :=
  match s with
  | EmptyString => Some 0
  | String c s' =>
      if (code (lower c) =? 101)%nat then
        let '(neg, body) := signed s' in
        match take_digits 0 0 false body with
        | Some (x, S _, EmptyString) => Some (if neg then - x else x)
        | _ => None
        end
      else None
  end.

(** Mantissa and decimal exponent of an unsigned decimal literal. *)
Definition float_decimal (s : string) : option (Z * Z) :=
  match take_digits 0 0 false s with
  | None => None
  | Some (ip, ni, r1) =>
      let frac :=
        match r1 with
        | String c r =>
            if (code c =? 46)%nat then take_digits 0 0 false r
            else Some (0, O, r1)
        | EmptyString => Some (0, O, r1)
        end in
      match frac with
      | None => None
      | Some (fp, nf, r2) =>
          match (ni + nf)%nat, float_exponent r2 with
          | S _, Some x =>
              Some (ip * 10 ^ Z.of_nat nf + fp, x - Z.of_nat nf)
          | _, _ => None
          end
      end
  end.

(** [float(s)] for a [str]. *)
Definition py_float (s : string) : result spec_float :=
  let '(neg, body) := signed (strip s) in
  let low := lower_str body in
  if (low =? "inf")%string || (low =? "infinity")%string
  then Ok (S754_infinity neg)
  else if (low =? "nan")%string then Ok S754_nan
  else
    match float_decimal body with
    | Some (m, e10) =>
        Ok (if 0 <=? e10 then nearest_binary64 neg (m * 10 ^ e10) 1
            else nearest_binary64 neg m (10 ^ (- e10)))
    | None => Raise ValueError
    end.

(** [round(x)] of a float, an int: half to even. *)
Definition py_round (x : spec_float) : result Z :=
  match x with
  | S754_nan => Raise ValueError
  | S754_infinity _ => Raise OverflowError
  | S754_zero _ => Ok 0
  | S754_finite s m e =>
      let a := if 0 <=? e then Z.pos m * 2 ^ e
               else round_div (Z.pos m) (2 ^ (- e)) in
      Ok (if s then - a else a)
  end.

(** [z == x] for an int [z] and a float [x]: Python compares the exact
    values. *)
Definition int_eq_float (z : Z) (x : spec_float) : bool :=
  match x with
  | S754_nan | S754_infinity _ => false
  | S754_zero _ => z =? 0
  | S754_finite s m e =>
      let v := if s then - Z.pos m else Z.pos m in
      if 0 <=? e then z =? v * 2 ^ e else z * 2 ^ (- e) =? v
  end.

(** [float(z)] of an int: the nearest binary64 value, ties to even;
    [None] is the [OverflowError] of an int that is too large for a
    float. *)
Definition float_of_int (z : Z) : option spec_float :=
  match nearest_binary64 (z <? 0) (Z.abs z) 1 with
  | S754_infinity _ => None
  | x => Some x
  end.

(* ================================================================== *)
(** ** The intermediate representation *)

(** What [get_line] returns: a [str], or [None] at the end of the input. *)
Definition line : Type := option string.

Definition line_eqb (l : line) (s : string) : bool :=
  match l with
  | Some x => String.eqb x s
  | None => false
  end.

Record Operator : Type := mkOperator {
  op_name : line;
  op_preconditions : dict Z;
  op_effects : dict Z;
  op_cost : Z
}.

Record Rule : Type := mkRule {
  rule_preconditions : dict Z;
  rule_var : Z;
  rule_val : Z
}.

(** The dataclass [Variable]. *)
Record SasVariable : Type := mkVariable {
  var_name : line;
  var_values : list line;
  var_axiom_layer : Z
}.

(** The fields of a [Sas2DypdlTransformer] that [_parse] fills. *)
Record Sas : Type := mkSas {
  _detected_axioms : bool;
  _detected_conditional_effects : bool;
  _init : dict Z;
  _goal : dict Z;
  _variables : dict SasVariable;
  _rules : list Rule;
  _operators : list Operator;
  _axiom_heads : dict (list Rule);
  _axiom_edges : dict pyset
}.

Definition new_sas : Sas := mkSas false false [] [] [] [] [] [] [].

Definition with_detected_axioms (b : bool) (s : Sas) : Sas :=
  mkSas b (_detected_conditional_effects s) (_init s) (_goal s)
        (_variables s) (_rules s) (_operators s) (_axiom_heads s)
        (_axiom_edges s).

Definition with_detected_conditional_effects (b : bool) (s : Sas) : Sas :=
  mkSas (_detected_axioms s) b (_init s) (_goal s) (_variables s)
        (_rules s) (_operators s) (_axiom_heads s) (_axiom_edges s).

Definition with_init (d : dict Z) (s : Sas) : Sas :=
  mkSas (_detected_axioms s) (_detected_conditional_effects s) d (_goal s)
        (_variables s) (_rules s) (_operators s) (_axiom_heads s)
        (_axiom_edges s).

Definition with_goal (d : dict Z) (s : Sas) : Sas :=
  mkSas (_detected_axioms s) (_detected_conditional_effects s) (_init s) d
        (_variables s) (_rules s) (_operators s) (_axiom_heads s)
        (_axiom_edges s).

Definition with_variables (d : dict SasVariable) (s : Sas) : Sas :=
  mkSas (_detected_axioms s) (_detected_conditional_effects s) (_init s)
        (_goal s) d (_rules s) (_operators s) (_axiom_heads s)
        (_axiom_edges s).

Definition with_operators (l : list Operator) (s : Sas) : Sas :=
  mkSas (_detected_axioms s) (_detected_conditional_effects s) (_init s)
        (_goal s) (_variables s) (_rules s) l (_axiom_heads s)
        (_axiom_edges s).

(** [self._rules.append(rule)] *)
Definition append_rule (r : Rule) (s : Sas) : Sas :=
  mkSas (_detected_axioms s) (_detected_conditional_effects s) (_init s)
        (_goal s) (_variables s) (_rules s ++ [r]) (_operators s)
        (_axiom_heads s) (_axiom_edges s).

(** The bookkeeping at the end of a rule block: the rule joins the list of
    its head in [_axiom_heads], and the keys of its body join the edge set
    of its head in [_axiom_edges]. *)
Definition register_head (r : Rule) (s : Sas) : Sas :=
  let v := rule_var r in
  let heads :=
    match dict_get v (_axiom_heads s) with
    | Some rs => dict_set v (rs ++ [r]) (_axiom_heads s)
    | None => dict_set v [r] (_axiom_heads s)
    end in
  let edges :=
    match dict_get v (_axiom_edges s) with
    | Some body =>
        dict_set v (set_update body (dict_keys (rule_preconditions r)))
                 (_axiom_edges s)
    | None =>
        dict_set v (set_update [] (dict_keys (rule_preconditions r)))
                 (_axiom_edges s)
    end in
  mkSas (_detected_axioms s) (_detected_conditional_effects s) (_init s)
        (_goal s) (_variables s) (_rules s) (_operators s) heads edges.

(* ================================================================== *)
(** ** The parser monad: the transformer under construction and the rest
    of the input, with exceptions *)

Definition P (A : Type) : Type :=
  Sas -> list string -> result (A * Sas * list string).

Definition ret {A} (a : A) : P A := fun s ls => Ok (a, s, ls).

Definition bind {A B} (m : P A) (k : A -> P B) : P B :=
  fun s ls =>
    match m s ls with
    | Ok (a, s', ls') => k a s' ls'
    | Raise e => Raise e
    end.

Definition raise {A} (e : exn) : P A := fun _ _ => Raise e.

Definition lift {A} (r : result A) : P A :=
  match r with
  | Ok a => ret a
  | Raise e => raise e
  end.

Definition get_self : P Sas := fun s ls => Ok (s, s, ls).

Definition modify (f : Sas -> Sas) : P unit := fun s ls => Ok (tt, f s, ls).

Notation "x <- m ;; k" := (bind m (fun x => k))
  (at level 61, m at next level, right associativity).
Notation "m ;;; k" := (bind m (fun _ => k))
  (at level 61, right associativity).

(** [assert b] *)
Definition assert_ (b : bool) : P unit :=
  if b then ret tt else raise (AssertionError no_msg).

(** [get_line()]: the next line of the iterator, or [None]. *)
Definition get_line : P line :=
  fun s ls =>
    match ls with
    | [] => Ok (None, s, [])
    | l :: rest => Ok (Some (remove_newlines l), s, rest)
    end.

(** [int(l)] where [l] came from [get_line]. *)
Definition int_of_line (l : line) : result Z :=
  match l with
  | Some s => py_int s
  | None => Raise TypeError
  end.

(** [float(l)] where [l] came from [get_line]. *)
Definition float_of_line (l : line) : result spec_float :=
  match l with
  | Some s => py_float s
  | None => Raise TypeError
  end.

(** [l.split()] where [l] came from [get_line]. *)
Definition split_line (l : line) : result (list string) :=
  match l with
  | Some s => Ok (py_split s)
  | None => Raise AttributeError
  end.

(** [a, b = toks] *)
Definition unpack2 (toks : list string) : result (string * string) :=
  match toks with
  | [a; b] => Ok (a, b)
  | _ => Raise ValueError
  end.

(** [int(toks[k])] *)
Definition int_tok (k : nat) (toks : list string) : result Z :=
  match nth_error toks k with
  | Some t => py_int t
  | None => Raise IndexError
  end.

(** [for x in xs: a = body(x, a)] *)
Fixpoint for_each {X A} (xs : list X) (body : X -> A -> P A) (a : A) : P A :=
  match xs with
  | [] => ret a
  | x :: xs' => a' <- body x a ;; for_each xs' body a'
  end.

(** [range(n)] *)
Definition py_range (n : Z) : list Z := map Z.of_nat (seq 0 (Z.to_nat n)).

(** [[get_line() for _ in range(n)]] *)
Definition get_lines (n : Z) : P (list line) :=
  for_each (py_range n) (fun _ acc => l <- get_line ;; ret (acc ++ [l])) [].

(* ================================================================== *)
(** ** [_parse]: the blocks *)

(** The body of [if line == "begin_variable"]. *)
Definition parse_variable : P unit :=
  name <- get_line ;;
  l <- get_line ;;
  axiom_layer <- lift (int_of_line l) ;;
  l <- get_line ;;
  n_values <- lift (int_of_line l) ;;
  values <- get_lines n_values ;;
  l <- get_line ;;
  assert_ (line_eqb l "end_variable") ;;;
  self <- get_self ;;
  let i := List.length (_variables self) in
  assert_ (line_eqb name ("var" ++ str_of_nat i)%string) ;;;
  modify (with_variables
            (dict_set (Z.of_nat i) (mkVariable name values axiom_layer)
                      (_variables self))).

(** One precondition pair of a rule block.  The membership test is made
    with the token [var_index], a [str], against the int keys. *)
Definition rule_precondition (preconditions : dict Z) : P (dict Z) :=
  l <- get_line ;;
  toks <- lift (split_line l) ;;
  vv <- lift (unpack2 toks) ;;
  let '(var_index, value) := vv in
  value <- lift (py_int value) ;;
  assert_ (negb (py_in (PStr var_index) preconditions)) ;;;
  k <- lift (py_int var_index) ;;
  ret (dict_set k value preconditions).

(** [self._variables[var].values[k].startswith(p)] *)
Definition value_startswith (k : nat) (p : string) (values : list line)
  : result bool :=
  match nth_error values k with
  | Some (Some s) => Ok (startswith p s)
  | Some None => Raise AttributeError
  | None => Raise IndexError
  end.

(** The checks on the head of a rule: its variable is declared with a
    two-valued domain labelled [Atom ...] / [NegatedAtom ...], and the
    value that the rule sets is 0. *)
Definition check_head (self : Sas) (var val : Z) : P unit :=
  match dict_get var (_variables self) with
  | None => raise (KeyError var)
  | Some v =>
      assert_ (List.length (var_values v) =? 2)%nat ;;;
      a <- lift (value_startswith 0 "Atom" (var_values v)) ;;
      assert_ a ;;;
      b <- lift (value_startswith 1 "NegatedAtom" (var_values v)) ;;
      assert_ b ;;;
      assert_ (val =? 0)
  end.

(** The body of [elif line == "begin_rule"]. *)
Definition parse_rule : P unit :=
  modify (with_detected_axioms true) ;;;
  l <- get_line ;;
  n_preconditions <- lift (int_of_line l) ;;
  preconditions <-
    for_each (py_range n_preconditions) (fun _ => rule_precondition) [] ;;
  l <- get_line ;;
  toks <- lift (split_line l) ;;
  assert_ (List.length toks =? 3)%nat ;;;
  var <- lift (int_tok 0 toks) ;;
  val <- lift (int_tok 2 toks) ;;
  self <- get_self ;;
  check_head self var val ;;;
  let rule := mkRule preconditions var val in
  modify (append_rule rule) ;;;
  l <- get_line ;;
  assert_ (line_eqb l "end_rule") ;;;
  modify (register_head rule).

(** One [var val] pair of an operator's precondition list or of the goal. *)
Definition assignment_pair (d : dict Z) : P (dict Z) :=
  l <- get_line ;;
  toks <- lift (split_line l) ;;
  vv <- lift (unpack2 toks) ;;
  let '(var, val) := vv in
  var <- lift (py_int var) ;;
  val <- lift (py_int val) ;;
  assert_ (negb (dict_mem var d)) ;;;
  ret (dict_set var val d).

(** One effect record [cond var pre post] of an operator. *)
Definition effect_record (acc : dict Z * dict Z) : P (dict Z * dict Z) :=
  let '(preconditions, effects) := acc in
  l <- get_line ;;
  toks <- lift (split_line l) ;;
  cond <- lift (int_tok 0 toks) ;;
  var <- lift (int_tok 1 toks) ;;
  pre <- lift (int_tok 2 toks) ;;
  post <- lift (int_tok 3 toks) ;;
  if negb (cond =? 0) then
    modify (with_detected_conditional_effects true) ;;;
    ret (preconditions, effects)
  else
    assert_ (negb (dict_mem var preconditions)) ;;;
    assert_ (negb (dict_mem var effects)) ;;;
    ret (dict_set var pre preconditions, dict_set var post effects).

(** The cost of an operator from the float of its cost line:
    [assert int(round(cost)) == float(cost)], then [int(round(cost))]. *)
Definition cost_of_float (cost : spec_float) : result Z :=
  match py_round cost with
  | Raise e => Raise e
  | Ok z =>
      if int_eq_float z cost then Ok z
      else Raise (AssertionError "action costs must be int")
  end.

(** The three statements that read the cost line of an operator. *)
Definition parse_cost : P Z :=
  l <- get_line ;;
  cost <- lift (float_of_line l) ;;
  lift (cost_of_float cost).

(** The body of [elif line == "begin_operator"]. *)
Definition parse_operator : P unit :=
  name <- get_line ;;
  l <- get_line ;;
  n_preconditions <- lift (int_of_line l) ;;
  preconditions <-
    for_each (py_range n_preconditions) (fun _ => assignment_pair) [] ;;
  l <- get_line ;;
  n_effects <- lift (int_of_line l) ;;
  pe <- for_each (py_range n_effects) (fun _ => effect_record)
                 (preconditions, []) ;;
  let '(preconditions, effects) := pe in
  cost <- parse_cost ;;
  self <- get_self ;;
  modify (with_operators
            (_operators self ++ [mkOperator name preconditions effects cost])) ;;;
  l <- get_line ;;
  assert_ (line_eqb l "end_operator").

(** The body of [elif line == "begin_goal"]. *)
Definition parse_goal : P unit :=
  l <- get_line ;;
  n_goals <- lift (int_of_line l) ;;
  for_each (py_range n_goals)
           (fun _ (_ : unit) =>
              self <- get_self ;;
              goal <- assignment_pair (_goal self) ;;
              modify (with_goal goal))
           tt ;;;
  l <- get_line ;;
  assert_ (line_eqb l "end_goal").

(** The body of [elif line == "begin_state"]. *)
Definition parse_state : P unit :=
  self <- get_self ;;
  for_each (py_range (Z.of_nat (List.length (_variables self))))
           (fun var (_ : unit) =>
              l <- get_line ;;
              val <- lift (int_of_line l) ;;
              self <- get_self ;;
              modify (with_init (dict_set var val (_init self))))
           tt ;;;
  l <- get_line ;;
  assert_ (line_eqb l "end_state").

(** One pass through the [if]/[elif] chain for a line that is not [None];
    any other line is skipped. *)
Definition parse_block (l : string) : P unit :=
  if (l =? "begin_variable")%string then parse_variable
  else if (l =? "begin_rule")%string then parse_rule
  else if (l =? "begin_operator")%string then parse_operator
  else if (l =? "begin_goal")%string then parse_goal
  else if (l =? "begin_state")%string then parse_state
  else ret tt.

(** One iteration of [while True]: [None] is the [break]. *)
Definition parse_step (s : Sas) (ls : list string)
  : result (option (Sas * list string)) :=
  match get_line s ls with
  | Raise e => Raise e
  | Ok (None, s', _) => Ok None
  | Ok (Some l, s', ls') =>
      match parse_block l s' ls' with
      | Ok (_, s'', ls'') => Ok (Some (s'', ls''))
      | Raise e => Raise e
      end
  end.

(** The loop, with a bound on the number of iterations; [None] means that
    the bound was too small. *)
Fixpoint parse_loop (fuel : nat) (s : Sas) (ls : list string)
  : option (result Sas) :=
  match fuel with
  | O => None
  | S fuel' =>
      match parse_step s ls with
      | Raise e => Some (Raise e)
      | Ok None => Some (Ok s)
      | Ok (Some (s', ls')) => parse_loop fuel' s' ls'
      end
  end.

(** [_parse] on the lines of the document: every iteration consumes a
    line, so one more iteration than there are lines is enough. *)
Definition parse_lines (ls : list string) : option (result Sas) :=
  parse_loop (S (List.length ls)) new_sas ls.

(** [Sas2DypdlTransformer(sas_content)]: the constructor runs [_parse]. *)
Definition _parse (sas_content : string) : option (result Sas) :=
  parse_lines (splitlines sas_content).

(* ================================================================== *)
(** ** The target model: the calls of the modelling API that the encoder
    makes, recorded in order *)

Inductive IntExpr : Type :=
| EVar (id : nat)
| EConst (z : Z).

(** [CEqF a x] is the comparison of the integer expression [a], read as a
    float, with the float constant [x]. *)
Inductive Condition : Type :=
| CEq (a b : IntExpr)
| CNe (a b : IntExpr)
| CFun (id : nat)
| CNot (c : Condition)
| CAnd (a b : Condition)
| COr (a b : Condition)
| CEqF (a : IntExpr) (x : spec_float).

(** What [_didp_variables] holds: the handle of an integer state variable
    or the condition returned by [add_bool_state_fun]. *)
Inductive DidpObj : Type :=
| IntVarH (id : nat)
| CondH (c : Condition).

(** A value that the encoder computes and hands to the API: an object of
    the API or, where the API does not support a comparison and Python
    falls back on the identity of the operands, a [bool]. *)
Inductive PyVal : Type :=
| ObjV (o : DidpObj)
| BoolV (b : bool).

(** [cost + IntExpr.state_cost()]: an integer expression for an integer
    constant, a continuous one for a float constant. *)
Inductive CostExpr : Type :=
| PlusStateCost (cost : Z)
| PlusStateCostF (cost : spec_float).

Record Transition : Type := mkTransition {
  t_name : line;
  t_cost : CostExpr;
  t_preconditions : list Condition;
  t_effects : list (nat * Z)
}.

Record Model : Type := mkModel {
  int_vars : list (line * Z);
  bool_state_funs : list Condition;
  transitions : list Transition;
  base_cases : list (list Condition)
}.

Definition new_model : Model := mkModel [] [] [] [].

(** The part of the transformer that the encoder writes. *)
Record Enc : Type := mkEnc {
  _model : Model;
  _didp_variables : dict DidpObj
}.

Definition new_enc : Enc := mkEnc new_model [].

(** The integers of the modelling API have 32 bits. *)
Definition in_i32 (z : Z) : bool := (- 2 ^ 31 <=? z) && (z <? 2 ^ 31).

(** [var == val] for an integer variable and an int: a comparison of
    integers when [val] has 32 bits, a comparison of floats with the float
    of [val] when it has one; beyond, the API does not support the
    comparison ([None]). *)
Definition int_var_eq (v : nat) (val : Z) : option Condition :=
  if in_i32 val then Some (CEq (EVar v) (EConst val))
  else
    match float_of_int val with
    | Some x => Some (CEqF (EVar v) x)
    | None => None
    end.

(** The operators of the modelling API on the objects held in
    [_didp_variables]: [o == val], [o == o'], [~o], and on the values made
    from them: [a & b], [a | b].  An operand of the wrong kind is a
    [TypeError]; a comparison that the API does not support is [False]. *)
Definition obj_eq_int (o : DidpObj) (val : Z) : result PyVal :=
  match o with
  | IntVarH v =>
      match int_var_eq v val with
      | Some c => Ok (ObjV (CondH c))
      | None => Ok (BoolV false)
      end
  | CondH _ => Raise TypeError
  end.

Definition obj_eq_obj (o o' : DidpObj) : result PyVal :=
  match o, o' with
  | IntVarH v, IntVarH w => Ok (ObjV (CondH (CEq (EVar v) (EVar w))))
  | _, _ => Raise TypeError
  end.

Definition obj_not (o : DidpObj) : result PyVal :=
  match o with
  | CondH c => Ok (ObjV (CondH (CNot c)))
  | IntVarH _ => Raise TypeError
  end.

Definition obj_and (a b : PyVal) : result PyVal :=
  match a, b with
  | ObjV (CondH x), ObjV (CondH y) => Ok (ObjV (CondH (CAnd x y)))
  | BoolV x, BoolV y => Ok (BoolV (x && y))
  | _, _ => Raise TypeError
  end.

Definition obj_or (a b : PyVal) : result PyVal :=
  match a, b with
  | ObjV (CondH x), ObjV (CondH y) => Ok (ObjV (CondH (COr x y)))
  | BoolV x, BoolV y => Ok (BoolV (x || y))
  | _, _ => Raise TypeError
  end.

(** The arguments of a call of the API are checked by the call. *)
Definition as_condition (o : PyVal) : result Condition :=
  match o with
  | ObjV (CondH c) => Ok c
  | _ => Raise TypeError
  end.

Definition as_int_var (o : DidpObj) : result nat :=
  match o with
  | IntVarH v => Ok v
  | CondH _ => Raise TypeError
  end.

(** [d[k]] *)
Definition dict_lookup {V} (k : Z) (d : dict V) : result V :=
  match dict_get k d with
  | Some v => Ok v
  | None => Raise (KeyError k)
  end.

(** Pure computations that may raise. *)
Definition rbind {A B} (r : result A) (k : A -> result B) : result B :=
  match r with
  | Ok a => k a
  | Raise e => Raise e
  end.

Notation "x <-? r ;; k" := (rbind r (fun x => k))
  (at level 61, r at next level, right associativity).

Definition rassert (b : bool) : result unit :=
  if b then Ok tt else Raise (AssertionError no_msg).

Fixpoint as_conditions (os : list PyVal) : result (list Condition) :=
  match os with
  | [] => Ok []
  | o :: os' =>
      c <-? as_condition o ;;
      cs <-? as_conditions os' ;;
      Ok (c :: cs)
  end.

(** The effects of a transition: an integer variable and a 32-bit value. *)
Fixpoint as_effects (es : list (DidpObj * Z)) : result (list (nat * Z)) :=
  match es with
  | [] => Ok []
  | (o, val) :: es' =>
      v <-? as_int_var o ;;
      _ <-? (if in_i32 val then Ok tt else Raise TypeError) ;;
      rest <-? as_effects es' ;;
      Ok ((v, val) :: rest)
  end.

(** [cost + dp.IntExpr.state_cost()] for an int [cost]: an integer
    expression when [cost] has 32 bits, a continuous one with the float of
    [cost] when it has one, and not supported beyond. *)
Definition plus_state_cost (cost : Z) : result CostExpr :=
  if in_i32 cost then Ok (PlusStateCost cost)
  else
    match float_of_int cost with
    | Some x => Ok (PlusStateCostF x)
    | None => Raise TypeError
    end.

(** The encoder monad: the state survives an exception. *)
Definition H (A : Type) : Type := Enc -> Enc * result A.

Definition hret {A} (a : A) : H A := fun e => (e, Ok a).

Definition hbind {A B} (m : H A) (k : A -> H B) : H B :=
  fun e =>
    match m e with
    | (e', Ok a) => k a e'
    | (e', Raise x) => (e', Raise x)
    end.

Definition hlift {A} (r : result A) : H A := fun e => (e, r).

Definition hget : H Enc := fun e => (e, Ok e).

Notation "x <~ m ;; k" := (hbind m (fun x => k))
  (at level 61, m at next level, right associativity).
Notation "m ;;~ k" := (hbind m (fun _ => k))
  (at level 61, right associativity).

Fixpoint hfor_each {X} (xs : list X) (body : X -> H unit) : H unit :=
  match xs with
  | [] => hret tt
  | x :: xs' => body x ;;~ hfor_each xs' body
  end.

(** [self._didp_variables[k] = o] *)
Definition set_didp (k : Z) (o : DidpObj) : H unit :=
  fun e => (mkEnc (_model e) (dict_set k o (_didp_variables e)), Ok tt).

(** [self._model.add_int_var(name=..., target=...)]: the target is a
    32-bit integer. *)
Definition add_int_var (name : line) (target : Z) : H DidpObj :=
  fun e =>
    if in_i32 target then
      let m := _model e in
      (mkEnc (mkModel (int_vars m ++ [(name, target)]) (bool_state_funs m)
                      (transitions m) (base_cases m))
             (_didp_variables e),
       Ok (IntVarH (List.length (int_vars m))))
    else (e, Raise OverflowError).

(** [self._model.add_bool_state_fun(o)] *)
Definition add_bool_state_fun (o : PyVal) : H DidpObj :=
  fun e =>
    match as_condition o with
    | Raise x => (e, Raise x)
    | Ok c =>
        let m := _model e in
        (mkEnc (mkModel (int_vars m) (bool_state_funs m ++ [c])
                        (transitions m) (base_cases m))
               (_didp_variables e),
         Ok (CondH (CFun (List.length (bool_state_funs m)))))
    end.

(** [dp.Transition(name=..., cost=..., preconditions=..., effects=...)] *)
Definition make_transition (name : line) (cost : CostExpr)
           (preconditions : list PyVal) (effects : list (DidpObj * Z))
  : result Transition :=
  cs <-? as_conditions preconditions ;;
  es <-? as_effects effects ;;
  Ok (mkTransition name cost cs es).

(** [self._model.add_transition(t)]: the model has integer costs and
    refuses a transition whose cost is continuous. *)
Definition add_transition (t : Transition) : H unit :=
  fun e =>
    match t_cost t with
    | PlusStateCostF _ => (e, Raise RuntimeError)
    | PlusStateCost _ =>
        let m := _model e in
        (mkEnc (mkModel (int_vars m) (bool_state_funs m)
                        (transitions m ++ [t]) (base_cases m))
               (_didp_variables e),
         Ok tt)
    end.

(** [self._model.add_base_case(os)] *)
Definition add_base_case (os : list PyVal) : H unit :=
  fun e =>
    match as_conditions os with
    | Raise x => (e, Raise x)
    | Ok cs =>
        let m := _model e in
        (mkEnc (mkModel (int_vars m) (bool_state_funs m) (transitions m)
                        (base_cases m ++ [cs]))
               (_didp_variables e),
         Ok tt)
    end.

(* ================================================================== *)
(** ** The encoder *)

Definition _handle_variables (self : Sas) : H unit :=
  (fun e => (mkEnc (_model e) [], Ok tt)) ;;~
  hfor_each (_variables self)
    (fun iv =>
       let '(i, variable) := iv in
       if dict_mem i (_axiom_heads self) then hret tt
       else
         target <~ hlift (dict_lookup i (_init self)) ;;
         var <~ add_int_var (var_name variable) target ;;
         set_didp i var).

(** What one precondition entry of an operator appends to the list of
    preconditions; [None] for an entry that is skipped. *)
Definition operator_precondition (self : Sas) (didp : dict DidpObj)
           (vv : Z * Z) : result (option PyVal) :=
  let '(var, val) := vv in
  if val =? -1 then Ok None
  else if negb (dict_mem var (_axiom_heads self)) then
    o <-? dict_lookup var didp ;;
    c <-? obj_eq_int o val ;;
    Ok (Some c)
  else
    o <-? dict_lookup var didp ;;
    Ok (Some (ObjV o)).

Fixpoint operator_preconditions (self : Sas) (didp : dict DidpObj)
         (items : list (Z * Z)) : result (list PyVal) :=
  match items with
  | [] => Ok []
  | vv :: items' =>
      c <-? operator_precondition self didp vv ;;
      cs <-? operator_preconditions self didp items' ;;
      Ok (match c with Some c => c :: cs | None => cs end)
  end.

Fixpoint operator_effects (self : Sas) (didp : dict DidpObj)
         (items : list (Z * Z)) : result (list (DidpObj * Z)) :=
  match items with
  | [] => Ok []
  | (var, val) :: items' =>
      _ <-? rassert (negb (dict_mem var (_axiom_heads self))) ;;
      o <-? dict_lookup var didp ;;
      es <-? operator_effects self didp items' ;;
      Ok ((o, val) :: es)
  end.

Definition _handle_operators (self : Sas) : H unit :=
  hfor_each (_operators self)
    (fun op =>
       e <~ hget ;;
       preconditions <~
         hlift (operator_preconditions self (_didp_variables e)
                                       (op_preconditions op)) ;;
       effects <~
         hlift (operator_effects self (_didp_variables e) (op_effects op)) ;;
       cost <~ hlift (plus_state_cost (op_cost op)) ;;
       didp_action <~
         hlift (make_transition (op_name op) cost preconditions effects) ;;
       add_transition didp_action).

(** What one goal entry appends to the base case. *)
Definition goal_condition (self : Sas) (didp : dict DidpObj) (vv : Z * Z)
  : result PyVal :=
  let '(var, val) := vv in
  if dict_mem var (_axiom_heads self) then
    if val =? 1 then
      o <-? dict_lookup var didp ;;
      Ok (ObjV o)
    else
      _ <-? rassert (val =? 0) ;;
      o <-? dict_lookup var didp ;;
      obj_not o
  else
    o <-? dict_lookup var didp ;;
    obj_eq_int o val.

Fixpoint goal_conditions (self : Sas) (didp : dict DidpObj)
         (items : list (Z * Z)) : result (list PyVal) :=
  match items with
  | [] => Ok []
  | vv :: items' =>
      c <-? goal_condition self didp vv ;;
      cs <-? goal_conditions self didp items' ;;
      Ok (c :: cs)
  end.

Definition _handle_goal (self : Sas) : H unit :=
  e <~ hget ;;
  base_case <~ hlift (goal_conditions self (_didp_variables e) (_goal self)) ;;
  add_base_case base_case.

Definition unsupported_msg : string :=
  "Axioms and conditional effects are not yet supported.".

(** [transform()]: the final state of the encoder, and the model returned
    or the exception raised. *)
Definition transform (self : Sas) : H Model :=
  if _detected_axioms self || _detected_conditional_effects self then
    hlift (Raise (NotImplementedError unsupported_msg))
  else
    _handle_variables self ;;~
    _handle_operators self ;;~
    _handle_goal self ;;~
    e <~ hget ;;
    hret (_model e).

(* ================================================================== *)
(** ** The stratifier and the definitions of the derived variables:
    [_handle_axioms] *)

(** The inner loop over a body: [update = max(update, cur_V[i] + 1)] for
    the [i] of the body that are heads, from [update = 1]. *)
Definition layer_update (cur_V : dict Z) (body : pyset) : Z :=
  fold_left
    (fun update i =>
       match dict_get i cur_V with
       | Some c => Z.max update (c + 1)
       | None => update
       end)
    body 1.

(** The [for head, body in self._axiom_edges.items()] loop of one round:
    [new_V[head] = update], all updates computed from the copy [cur_V]. *)
Definition relax (edges : dict pyset) (cur_V new_V : dict Z) : dict Z :=
  fold_left
    (fun new_V hb => dict_set (fst hb) (layer_update cur_V (snd hb)) new_V)
    edges new_V.

Definition opt_eqb (a b : option Z) : bool :=
  match a, b with
  | Some x, Some y => x =? y
  | None, None => true
  | _, _ => false
  end.

(** [is_diff()]: [cur_V] holds [None] before the first round. *)
Fixpoint is_diff (cur_V : dict (option Z)) (new_V : dict Z) : result bool :=
  match cur_V with
  | [] => Ok false
  | (i, c) :: cur' =>
      match dict_get i new_V with
      | None => Raise (KeyError i)
      | Some n =>
          if negb (opt_eqb (Some n) c) then Ok true else is_diff cur' new_V
      end
  end.

(** [new_V.copy()], as the next [cur_V]. *)
Definition copy_V (new_V : dict Z) : dict (option Z) :=
  map (fun kv => (fst kv, Some (snd kv))) new_V.

(** [while is_diff(): ...] with a bound on the number of rounds; [None]
    means that the loop is still running after [fuel] rounds. *)
Fixpoint stratify_loop (fuel : nat) (edges : dict pyset)
         (cur_V : dict (option Z)) (new_V : dict Z)
  : option (result (dict Z)) :=
  match is_diff cur_V new_V with
  | Raise e => Some (Raise e)
  | Ok false => Some (Ok new_V)
  | Ok true =>
      match fuel with
      | O => None
      | S fuel' =>
          stratify_loop fuel' edges (copy_V new_V) (relax edges new_V new_V)
      end
  end.

(** The layering: the loop started from [cur_V = {i: None}] and
    [new_V = {i: 0}]. *)
Definition stratify (fuel : nat) (edges : dict pyset)
  : option (result (dict Z)) :=
  stratify_loop fuel edges
                (map (fun hb => (fst hb, @None Z)) edges)
                (map (fun hb => (fst hb, 0)) edges).

(** [a.keys() == b.keys()]: the same keys, in any order. *)
Definition keys_eqb (a b : list Z) : bool :=
  forallb (fun k => set_mem k b) a && forallb (fun k => set_mem k a) b.

(** [val_to_head]: the heads of each layer, in the order of [new_V]. *)
Definition group_by_layer (new_V : dict Z) : dict (list Z) :=
  fold_left
    (fun val_to_head hv =>
       let '(head, val) := hv in
       match dict_get val val_to_head with
       | Some hs => dict_set val (hs ++ [head]) val_to_head
       | None => dict_set val [head] val_to_head
       end)
    new_V [].

(** [get_atom()] for the pair [(var, val)] of a rule body. *)
Definition get_atom (self : Sas) (didp : dict DidpObj) (vv : Z * Z)
  : result PyVal :=
  let '(var, val) := vv in
  if negb (dict_mem var (_axiom_heads self)) then
    o <-? dict_lookup var didp ;;
    obj_eq_int o val
  else if val =? 0 then
    o <-? dict_lookup var didp ;;
    Ok (ObjV o)
  else
    _ <-? rassert (val =? 1) ;;
    o <-? dict_lookup var didp ;;
    obj_not o.

(** The conjunction of the atoms of a rule body; [None] is the [body] of
    the source before the first atom. *)
Fixpoint rule_body (self : Sas) (didp : dict DidpObj)
         (body : option PyVal) (items : list (Z * Z))
  : result (option PyVal) :=
  match items with
  | [] => Ok body
  | vv :: items' =>
      a <-? get_atom self didp vv ;;
      b <-? match body with
            | None => Ok a
            | Some b => obj_and b a
            end ;;
      rule_body self didp (Some b) items'
  end.

(** The loop over the rules of a head: the bodies collected before a rule
    without preconditions is met, and whether one was met ([trivial]).  A
    rule that reaches the inner loop has a precondition, so its [body] is
    not [None]. *)
Fixpoint collect_bodies (self : Sas) (didp : dict DidpObj) (head : Z)
         (bodies : list PyVal) (rules : list Rule)
  : result (list PyVal * bool) :=
  match rules with
  | [] => Ok (bodies, false)
  | rule :: rules' =>
      _ <-? rassert (rule_var rule =? head) ;;
      if (List.length (rule_preconditions rule) =? 0)%nat then
        Ok (bodies, true)
      else
        body <-? rule_body self didp None (rule_preconditions rule) ;;
        match body with
        | Some b => collect_bodies self didp head (bodies ++ [b]) rules'
        | None => Raise TypeError
        end
  end.

(** [trigger = trigger | bodies[i]] for [i] from 1. *)
Fixpoint or_all (trigger : PyVal) (bodies : list PyVal)
  : result PyVal :=
  match bodies with
  | [] => Ok trigger
  | b :: bodies' =>
      t <-? obj_or trigger b ;;
      or_all t bodies'
  end.

(** [bodies[0] | bodies[1] | ...] *)
Definition disjunction (bodies : list PyVal) : result PyVal :=
  match bodies with
  | [] => Raise IndexError
  | b :: bodies' => or_all b bodies'
  end.

(** The definition of one head, registered as a boolean state function. *)
Definition define_head (self : Sas) (TRUE : PyVal) (head : Z) : H unit :=
  e <~ hget ;;
  rules <~ hlift (dict_lookup head (_axiom_heads self)) ;;
  bt <~ hlift (collect_bodies self (_didp_variables e) head [] rules) ;;
  trigger <~ hlift (if snd bt then Ok TRUE else disjunction (fst bt)) ;;
  f <~ add_bool_state_fun trigger ;;
  set_didp head f.

(** [range(lo, hi + 1)] *)
Definition layers_between (lo hi : Z) : list Z :=
  map (fun k => lo + Z.of_nat k) (seq 0 (Z.to_nat (hi + 1 - lo))).

Definition min_value (new_V : dict Z) : option Z :=
  match new_V with
  | [] => None
  | (_, v) :: rest => Some (fold_left Z.min (map snd rest) v)
  end.

Definition max_value (new_V : dict Z) : option Z :=
  match new_V with
  | [] => None
  | (_, v) :: rest => Some (fold_left Z.max (map snd rest) v)
  end.

(** The second half of [_handle_axioms]: the heads layer by layer. *)
Definition define_heads (self : Sas) (TRUE : PyVal) (new_V : dict Z)
  : H unit :=
  let val_to_head := group_by_layer new_V in
  match min_value new_V, max_value new_V with
  | Some min_val, Some max_val =>
      hfor_each (layers_between min_val max_val)
        (fun i =>
           heads <~ hlift (dict_lookup i val_to_head) ;;
           hfor_each heads (define_head self TRUE))
  | _, _ => hret tt
  end.

(** [_handle_axioms()]; [None] when the stratification loop is still
    running after [fuel] rounds. *)
Definition _handle_axioms (fuel : nat) (self : Sas) (e : Enc)
  : option (Enc * result unit) :=
  match _didp_variables e with
  | [] => Some (e, Raise StopIteration)
  | (_, var) :: _ =>
      match obj_eq_obj var var with
      | Raise x => Some (e, Raise x)
      | Ok TRUE =>
          match stratify fuel (_axiom_edges self) with
          | None => None
          | Some (Raise x) => Some (e, Raise x)
          | Some (Ok new_V) =>
              if keys_eqb (dict_keys new_V) (dict_keys (_axiom_edges self))
              then Some (define_heads self TRUE new_V e)
              else Some (e, Raise (AssertionError no_msg))
          end
      end
  end.

(* ================================================================== *)
(** ** Evaluation of conditions in a state of the target model *)

Definition eval_int (st : nat -> Z) (x : IntExpr) : Z :=
  match x with
  | EVar v => st v
  | EConst z => z
  end.

Fixpoint eval_cond (st : nat -> Z) (funs : nat -> bool) (c : Condition)
  : bool :=
  match c with
  | CEq a b => eval_int st a =? eval_int st b
  | CNe a b => negb (eval_int st a =? eval_int st b)
  | CFun id => funs id
  | CNot c' => negb (eval_cond st funs c')
  | CAnd a b => eval_cond st funs a && eval_cond st funs b
  | COr a b => eval_cond st funs a || eval_cond st funs b
  | CEqF a x => int_eq_float (eval_int st a) x
  end.

(** The values of the boolean state functions, each evaluated from the
    ones registered before it. *)
Fixpoint eval_funs (st : nat -> Z) (defs : list Condition) (done : list bool)
  : list bool :=
  match defs with
  | [] => done
  | d :: defs' =>
      eval_funs st defs'
                (done ++ [eval_cond st (fun i => nth i done false) d])
  end.

Definition fun_values (m : Model) (st : nat -> Z) : nat -> bool :=
  fun i => nth i (eval_funs st (bool_state_funs m) []) false.

(** A base case holds when all its conditions hold. *)
Definition base_case_holds (m : Model) (st : nat -> Z)
           (base_case : list Condition) : bool :=
  forallb (eval_cond st (fun_values m st)) base_case.

(* ================================================================== *)
(** ** The driver: the plans that the search loop writes *)

(** [f"{name}"] for the name of a transition. *)
Definition fstr_line (l : line) : string :=
  match l with
  | Some s => s
  | None => "None"
  end.

(** [f"({transition.name})"] *)
Definition plan_line (t : Transition) : string :=
  ("(" ++ fstr_line (t_name t) ++ ")")%string.

(** ["\n".join([f"({transition.name})" for transition in transitions])] *)
Definition render_plan (ts : list Transition) : string :=
  String.concat (String (ascii_of_nat 10) EmptyString) (map plan_line ts).

(** What the driver reads of an answer of [solver.search_next()]. *)
Record Solution : Type := mkSolution {
  time_out : bool;
  is_infeasible : bool;
  sol_transitions : list Transition
}.

(** The files written so far, by path. *)
Definition Files : Type := string -> option string.

(** [with open(path, "w") as f: f.write(content)], on a file system that
    accepts the write. *)
Definition write_file (path content : string) (fs : Files) : Files :=
  fun p => if (p =? path)%string then Some content else fs p.

(** The variables of the driver that the search loop updates. *)
Record Driver : Type := mkDriver {
  plan : option string;
  plans_found : nat;
  files : Files
}.

(** [f"{args.plan_file}.{plans_found}"] *)
Definition intermediate_file (plan_file : string) (k : nat) : string :=
  (plan_file ++ "." ++ str_of_nat k)%string.

(** The [while True] loop around [solver.search_next()], on the answers
    that the solver gives, in order; [None] when the loop asks for one
    more answer than are given. *)
Fixpoint search_loop (plan_file : string)
         (answers : list (Solution * bool)) (d : Driver) : option Driver :=
  match answers with
  | [] => None
  | (solution, terminated) :: answers' =>
      if negb (time_out solution) && negb (is_infeasible solution) then
        let p := render_plan (sol_transitions solution) in
        let d' :=
          mkDriver (Some p) (S (plans_found d))
                   (write_file (intermediate_file plan_file (plans_found d))
                               p (files d)) in
        if terminated then Some d' else search_loop plan_file answers' d'
      else Some d
  end.

(** The end of the driver: the last plan is written to [args.plan_file]
    when a plan was found. *)
Definition write_final_plan (plan_file : string) (d : Driver)
  : result Driver :=
  match plans_found d with
  | O => Ok d
  | S _ =>
      match plan d with
      | Some p =>
          Ok (mkDriver (plan d) (plans_found d)
                       (write_file plan_file p (files d)))
      | None => Raise TypeError
      end
  end.

(** The search and the final plan, from [plan = None] and
    [plans_found = 0]. *)
Definition solve (plan_file : string) (answers : list (Solution * bool))
           (fs : Files) : option (result Driver) :=
  match search_loop plan_file answers (mkDriver None 0 fs) with
  | None => None
  | Some d => Some (write_final_plan plan_file d)
  end.

(* ================================================================== *)
(** * The notions used in the statements *)

(* ================================================================== *)
(** ** Frame reasoning for the parser monad *)

Definition config : Type := (Sas * list string)%type.

(** [m] relates the configuration it starts in to the one it ends in. *)
Definition respects {A} (R : config -> config -> Prop) (m : P A) : Prop :=
  forall s ls a s' ls', m s ls = Ok (a, s', ls') -> R (s, ls) (s', ls').

Class Frame (R : config -> config -> Prop) : Prop := {
  frame_refl : forall c, R c c;
  frame_trans : forall a b c, R a b -> R b c -> R a c;
  frame_line : forall s l ls, R (s, l :: ls) (s, ls)
}.

(** The rest of the input is a suffix of what it was. *)
Definition suffix_rel (c c' : config) : Prop :=
  exists pre, snd c = pre ++ snd c'.

(** The projection [f] of the transformer is unchanged. *)
Definition same_on {T} (f : Sas -> T) (c c' : config) : Prop :=
  f (fst c) = f (fst c').

(** The flag [f] is never lowered. *)
Definition raised {T} (f : Sas -> T) (v : T) (c c' : config) : Prop :=
  f (fst c) = v -> f (fst c') = v.

(* ================================================================== *)
(** ** What each block does to the transformer *)

(** The fields that only the variable and rule blocks write. *)
Definition core (s : Sas) :=
  (_variables s, _rules s, _axiom_heads s, _axiom_edges s, _detected_axioms s).

(** The domain of a derived variable: two labels, [Atom ...] at index 0
    and [NegatedAtom ...] at index 1. *)
Definition boolean_domain (v : SasVariable) : Prop :=
  exists a b,
    var_values v = [Some a; Some b] /\
    startswith "Atom" a = true /\ startswith "NegatedAtom" b = true.

(** A rule that passed the checks of its block. *)
Definition head_ok (vars : dict SasVariable) (r : Rule) : Prop :=
  (exists v, dict_get (rule_var r) vars = Some v /\ boolean_domain v) /\
  rule_val r = 0.

(* ================================================================== *)
(** ** Variable ids are positions *)

(** The [k]-th declared variable has id [k] and name [var<k>]. *)
Definition vars_wf (vars : dict SasVariable) : Prop :=
  forall k i v,
    nth_error vars k = Some (i, v) ->
    i = Z.of_nat k /\ var_name v = Some ("var" ++ str_of_nat k)%string.

(** The invariant of the parsing loop on variables and rules. *)
Definition ir_wf (s : Sas) : Prop :=
  vars_wf (_variables s) /\ Forall (head_ok (_variables s)) (_rules s).

(* ================================================================== *)
(** ** Sample documents *)

Definition newline : string := String (ascii_of_nat 10) EmptyString.

(** The text of a document from its lines. *)
Definition unlines (ls : list string) : string := String.concat newline ls.

(** Two boolean variables, one operator, a goal and an initial state: the
    scenario of the specification. *)
Definition doc_two_vars : string := unlines
  [ "begin_version"; "3"; "end_version";
    "begin_metric"; "0"; "end_metric";
    "2";
    "begin_variable"; "var0"; "-1"; "2";
      "Atom a()"; "NegatedAtom a()"; "end_variable";
    "begin_variable"; "var1"; "-1"; "2";
      "Atom b()"; "NegatedAtom b()"; "end_variable";
    "0";
    "begin_state"; "0"; "0"; "end_state";
    "begin_goal"; "1"; "1 1"; "end_goal";
    "1";
    "begin_operator"; "set-b"; "1"; "0 0"; "1"; "0 1 -1 1"; "1";
      "end_operator";
    "0" ].

Definition sas_two_vars : Sas :=
  mkSas false false [(0, 0); (1, 0)] [(1, 1)]
        [ (0, mkVariable (Some "var0")
                         [Some "Atom a()"; Some "NegatedAtom a()"] (-1));
          (1, mkVariable (Some "var1")
                         [Some "Atom b()"; Some "NegatedAtom b()"] (-1)) ]
        []
        [ mkOperator (Some "set-b") [(0, 0); (1, -1)] [(1, 1)] 1 ]
        [] [].

(* ================================================================== *)
(** ** Rule blocks *)

(** [sas_two_vars] after one more variable block. *)
Definition sas_three_vars : Sas :=
  with_variables
    (_variables sas_two_vars
     ++ [(2, mkVariable (Some "var2")
                        [Some "Atom c()"; Some "NegatedAtom c()"] (-1))])
    sas_two_vars.

(** One primitive and one derived variable; the rule derives [var1] from
    [var0 = 1]; the goal asks for [var1] on. *)
Definition doc_axiom : string := unlines
  [ "begin_variable"; "var0"; "-1"; "2";
      "Atom p()"; "NegatedAtom p()"; "end_variable";
    "begin_variable"; "var1"; "0"; "2";
      "Atom q()"; "NegatedAtom q()"; "end_variable";
    "begin_state"; "0"; "1"; "end_state";
    "begin_goal"; "1"; "1 0"; "end_goal";
    "0";
    "1";
    "begin_rule"; "1"; "0 1"; "1 1 0"; "end_rule" ].

Definition rule_q : Rule := mkRule [(0, 1)] 1 0.

Definition sas_axiom : Sas :=
  mkSas true false [(0, 0); (1, 1)] [(1, 0)]
        [ (0, mkVariable (Some "var0")
                         [Some "Atom p()"; Some "NegatedAtom p()"] (-1));
          (1, mkVariable (Some "var1")
                         [Some "Atom q()"; Some "NegatedAtom q()"] 0) ]
        [rule_q] [] [(1, [rule_q])] [(1, [0])].

(** [sas_axiom] before its rule block. *)
Definition sas_axiom_before_rule : Sas :=
  mkSas false false [(0, 0); (1, 1)] [(1, 0)] (_variables sas_axiom)
        [] [] [] [].

(** The same document with a rule that sets its head to 1. *)
Definition doc_false_rule : string := unlines
  [ "begin_variable"; "var0"; "-1"; "2";
      "Atom p()"; "NegatedAtom p()"; "end_variable";
    "begin_variable"; "var1"; "0"; "2";
      "Atom q()"; "NegatedAtom q()"; "end_variable";
    "begin_state"; "0"; "1"; "end_state";
    "begin_goal"; "1"; "1 0"; "end_goal";
    "begin_rule"; "1"; "0 1"; "1 0 1"; "end_rule" ].

(* ================================================================== *)
(** ** Operator costs *)

(** The float [x] has exactly the integer value [z]. *)
Definition float_value_is (x : spec_float) (z : Z) : Prop :=
  match x with
  | S754_zero _ => z = 0
  | S754_finite sg m e =>
      let v := if sg then - Z.pos m else Z.pos m in
      if 0 <=? e then z = v * 2 ^ e else z * 2 ^ (- e) = v
  | _ => False
  end.

(** An operator with cost [-1]. *)
Definition doc_negative_cost : string := unlines
  [ "begin_variable"; "var0"; "-1"; "2";
      "Atom a()"; "NegatedAtom a()"; "end_variable";
    "begin_state"; "0"; "end_state";
    "begin_goal"; "1"; "0 1"; "end_goal";
    "begin_operator"; "flip"; "0"; "1"; "0 0 0 1"; "-1"; "end_operator" ].

Definition sas_negative_cost : Sas :=
  mkSas false false [(0, 0)] [(0, 1)]
        [ (0, mkVariable (Some "var0")
                         [Some "Atom a()"; Some "NegatedAtom a()"] (-1)) ]
        []
        [ mkOperator (Some "flip") [(0, 0)] [(0, 1)] (-1) ]
        [] [].

(* ================================================================== *)
(** ** The pre-values of effect records *)

(** The entries of a precondition map that the encoder keeps. *)
Definition constrained (items : list (Z * Z)) : list (Z * Z) :=
  filter (fun vv => negb (snd vv =? -1)) items.

(** [cs] are the conditions of the constrained entries of [items], one
    for each, in order. *)
Definition conditions_of (self : Sas) (didp : dict DidpObj)
           (items : list (Z * Z)) (cs : list Condition) : Prop :=
  Forall2 (fun vv c =>
             snd vv <> (-1) /\
             operator_precondition self didp vv = Ok (Some (ObjV (CondH c))))
          (constrained items) cs.

(* ================================================================== *)
(** ** Duplicate keys *)

(** A rule whose body names [var0] twice. *)
Definition doc_duplicate_rule_key : string := unlines
  [ "begin_variable"; "var0"; "-1"; "2";
      "Atom p()"; "NegatedAtom p()"; "end_variable";
    "begin_variable"; "var1"; "0"; "2";
      "Atom q()"; "NegatedAtom q()"; "end_variable";
    "begin_state"; "0"; "1"; "end_state";
    "begin_goal"; "1"; "1 0"; "end_goal";
    "begin_rule"; "2"; "0 0"; "0 1"; "1 1 0"; "end_rule" ].

(** An operator whose precondition list names [var0] twice. *)
Definition doc_duplicate_operator_key : string := unlines
  [ "begin_variable"; "var0"; "-1"; "2";
      "Atom p()"; "NegatedAtom p()"; "end_variable";
    "begin_operator"; "noop"; "2"; "0 0"; "0 1"; "0"; "0"; "end_operator" ].

(** A goal that names [var0] twice. *)
Definition doc_duplicate_goal_key : string := unlines
  [ "begin_variable"; "var0"; "-1"; "2";
      "Atom p()"; "NegatedAtom p()"; "end_variable";
    "begin_goal"; "2"; "0 0"; "0 1"; "end_goal" ].

(* ================================================================== *)
(** ** The goal on derived variables *)

(** The encoder of [doc_axiom] after [_handle_variables] and
    [_handle_axioms]: [var1] is the boolean function [var0 == 1]. *)
Definition enc_axiom : Enc :=
  mkEnc (mkModel [(Some "var0", 0)] [CEq (EVar 0) (EConst 1)] [] [])
        [(0, IntVarH 0); (1, CondH (CFun 0))].

(* ================================================================== *)
(** ** Blocks met while parsing, and the two feature flags *)

(** The configurations that the parsing loop goes through. *)
Inductive parse_reaches : config -> config -> Prop :=
| reaches_here c : parse_reaches c c
| reaches_step s ls s' ls' c :
    parse_step s ls = Ok (Some (s', ls')) ->
    parse_reaches (s', ls') c ->
    parse_reaches (s, ls) c.

(** While parsing [sas_content] the loop reads the line [block] with the
    transformer in state [s] and [rest] as the lines that follow. *)
Definition dispatches (sas_content : string) (block : string) (s : Sas)
           (rest : list string) : Prop :=
  exists l,
    parse_reaches (new_sas, splitlines sas_content) (s, l :: rest) /\
    remove_newlines l = block.

(* ================================================================== *)
(** ** The gate of [transform] *)

(** The translation as the driver runs it: the constructor, then
    [transform()] on a fresh model. *)
Definition translate (sas_content : string) : option (result Model) :=
  match _parse sas_content with
  | None => None
  | Some (Raise e) => Some (Raise e)
  | Some (Ok self) => Some (snd (transform self new_enc))
  end.

(** The parser meets a rule block. *)
Definition has_rule_block (sas_content : string) : Prop :=
  exists s rest, dispatches sas_content "begin_rule" s rest.

(** The parser meets an operator block with [pres] as precondition lines
    and [effs] as effect records, one of which has a guard count that is
    not 0. *)
Definition has_guarded_effect (sas_content : string) : Prop :=
  exists s name npre pres neff effs tail l c,
    dispatches sas_content "begin_operator" s
               (name :: npre :: pres ++ neff :: effs ++ tail) /\
    py_int (remove_newlines npre) = Ok (Z.of_nat (List.length pres)) /\
    py_int (remove_newlines neff) = Ok (Z.of_nat (List.length effs)) /\
    In l effs /\
    int_tok 0 (py_split (remove_newlines l)) = Ok c /\ c <> 0.

(** An operator with one guarded effect record. *)
Definition doc_guarded_effect : string := unlines
  [ "begin_variable"; "var0"; "-1"; "2";
      "Atom a()"; "NegatedAtom a()"; "end_variable";
    "begin_state"; "0"; "end_state";
    "begin_goal"; "1"; "0 1"; "end_goal";
    "begin_operator"; "flip"; "0"; "1"; "1 0 0 0 -1 1"; "1"; "end_operator" ].

Definition sas_guarded_effect : Sas :=
  mkSas false true [(0, 0)] [(0, 1)]
        [ (0, mkVariable (Some "var0")
                         [Some "Atom a()"; Some "NegatedAtom a()"] (-1)) ]
        [] [ mkOperator (Some "flip") [] [] 1 ] [] [].

(* ================================================================== *)
(** ** A document without an initial state *)

(** Whenever the parser meets a [begin_state] block, no variable has been
    declared yet. *)
Definition no_state_block_after_variables (sas_content : string) : Prop :=
  forall s rest, dispatches sas_content "begin_state" s rest ->
                 _variables s = [].

(** The document [doc_axiom] without its initial state. *)
Definition doc_axiom_no_state : string := unlines
  [ "begin_variable"; "var0"; "-1"; "2";
      "Atom p()"; "NegatedAtom p()"; "end_variable";
    "begin_variable"; "var1"; "0"; "2";
      "Atom q()"; "NegatedAtom q()"; "end_variable";
    "begin_goal"; "1"; "1 0"; "end_goal";
    "begin_rule"; "1"; "0 1"; "1 1 0"; "end_rule" ].

Definition sas_axiom_no_state : Sas :=
  mkSas true false [] [(1, 0)]
        [ (0, mkVariable (Some "var0")
                         [Some "Atom p()"; Some "NegatedAtom p()"] (-1));
          (1, mkVariable (Some "var1")
                         [Some "Atom q()"; Some "NegatedAtom q()"] 0) ]
        [rule_q] [] [(1, [rule_q])] [(1, [0])].

(** A state block before the only variable block, and none after it. *)
Definition doc_no_state : string := unlines
  [ "begin_state"; "end_state";
    "begin_variable"; "var0"; "-1"; "2";
      "Atom a()"; "NegatedAtom a()"; "end_variable";
    "begin_goal"; "1"; "0 1"; "end_goal" ].

Definition sas_no_state : Sas :=
  mkSas false false [] [(0, 1)]
        [ (0, mkVariable (Some "var0")
                         [Some "Atom a()"; Some "NegatedAtom a()"] (-1)) ]
        [] [] [] [].

(* ================================================================== *)
(** ** The stratifier: rounds as a function of the round number *)

(** The largest layer among the heads of a body, 0 when there is none. *)
Definition max_layer (V : dict Z) (body : pyset) : Z :=
  fold_left
    (fun m i =>
       match dict_get i V with
       | Some c => Z.max m c
       | None => m
       end)
    body 0.

(** The body of a head. *)
Definition body_of (edges : dict pyset) (h : Z) : pyset :=
  match dict_get h edges with
  | Some body => body
  | None => []
  end.

(** The head [h] reads the derived variable [i]. *)
Definition depends (edges : dict pyset) (h i : Z) : Prop :=
  In i (body_of edges h) /\ In i (dict_keys edges).

(** The values of all heads as a dictionary in the order of [edges]. *)
Definition tab (edges : dict pyset) (g : Z -> Z) : dict Z :=
  map (fun hb => (fst hb, g (fst hb))) edges.

(** The value of [new_V[h]] after [k] rounds. *)
Fixpoint layer (edges : dict pyset) (k : nat) (h : Z) : Z :=
  match k with
  | O => 0
  | S k' => layer_update (tab edges (layer edges k')) (body_of edges h)
  end.

(** Round [k + 1] changes some value. *)
Definition changed (edges : dict pyset) (k : nat) : bool :=
  existsb (fun hb => negb (layer edges (S k) (fst hb)
                           =? layer edges k (fst hb)))
          edges.

(** The loop at the start of round [k + 2]. *)
Definition loop_at (edges : dict pyset) (fuel k : nat)
  : option (result (dict Z)) :=
  stratify_loop fuel edges (copy_V (tab edges (layer edges k)))
                (tab edges (layer edges (S k))).

(* ================================================================== *)
(** ** Acyclic and cyclic dependency graphs *)

(** [h] reads [i] through one or more rules. *)
Definition reads (edges : dict pyset) : Z -> Z -> Prop :=
  clos_trans_1n Z (depends edges).

Definition acyclic (edges : dict pyset) : Prop :=
  forall h, ~ reads edges h h.

Definition cyclic (edges : dict pyset) : Prop :=
  exists h, reads edges h h.

(** A chain of heads, each reading the next. *)
Fixpoint is_chain (edges : dict pyset) (l : list Z) : Prop :=
  match l with
  | x :: ((y :: _) as t) => depends edges x y /\ is_chain edges t
  | _ => True
  end.

(* ================================================================== *)
(** ** The dependency graph that the parser builds *)

(** The rule [r] is covered by the graph: its head is a node whose edge
    set holds every variable of its body. *)
Definition rule_covered (edges : dict pyset) (r : Rule) : Prop :=
  exists body,
    dict_get (rule_var r) edges = Some body /\
    incl (dict_keys (rule_preconditions r)) body.

(** The invariant of the parsing loop on the graph. *)
Definition graph_wf (s : Sas) : Prop :=
  NoDup (dict_keys (_axiom_edges s)) /\
  dict_keys (_axiom_heads s) = dict_keys (_axiom_edges s) /\
  Forall (rule_covered (_axiom_edges s)) (_rules s).

(* ================================================================== *)
(** ** The layering *)

(** [var1] is derived from the primitive [var0]; [var2] is derived from
    [var0] and from [var1]. *)
Definition doc_layers : string := unlines
  [ "begin_variable"; "var0"; "-1"; "2";
      "Atom p()"; "NegatedAtom p()"; "end_variable";
    "begin_variable"; "var1"; "0"; "2";
      "Atom q()"; "NegatedAtom q()"; "end_variable";
    "begin_variable"; "var2"; "1"; "2";
      "Atom r()"; "NegatedAtom r()"; "end_variable";
    "begin_state"; "0"; "1"; "1"; "end_state";
    "begin_goal"; "1"; "2 0"; "end_goal";
    "begin_rule"; "1"; "0 1"; "1 1 0"; "end_rule";
    "begin_rule"; "2"; "0 0"; "1 1"; "2 1 0"; "end_rule" ].

Definition rule_r : Rule := mkRule [(0, 0); (1, 1)] 2 0.

Definition sas_layers : Sas :=
  mkSas true false [(0, 0); (1, 1); (2, 1)] [(2, 0)]
        [ (0, mkVariable (Some "var0")
                         [Some "Atom p()"; Some "NegatedAtom p()"] (-1));
          (1, mkVariable (Some "var1")
                         [Some "Atom q()"; Some "NegatedAtom q()"] 0);
          (2, mkVariable (Some "var2")
                         [Some "Atom r()"; Some "NegatedAtom r()"] 1) ]
        [rule_q; rule_r] []
        [(1, [rule_q]); (2, [rule_r])]
        [(1, [0]); (2, [0; 1])].

(* ================================================================== *)
(** ** Cyclic axioms *)

(** [var1] is derived from [var2] and [var2] from [var1]. *)
Definition doc_cycle : string := unlines
  [ "begin_variable"; "var0"; "-1"; "2";
      "Atom p()"; "NegatedAtom p()"; "end_variable";
    "begin_variable"; "var1"; "0"; "2";
      "Atom q()"; "NegatedAtom q()"; "end_variable";
    "begin_variable"; "var2"; "0"; "2";
      "Atom r()"; "NegatedAtom r()"; "end_variable";
    "begin_state"; "0"; "1"; "1"; "end_state";
    "begin_goal"; "1"; "2 0"; "end_goal";
    "begin_rule"; "1"; "2 0"; "1 1 0"; "end_rule";
    "begin_rule"; "1"; "1 0"; "2 1 0"; "end_rule" ].

Definition sas_cycle : Sas :=
  mkSas true false [(0, 0); (1, 1); (2, 1)] [(2, 0)]
        [ (0, mkVariable (Some "var0")
                         [Some "Atom p()"; Some "NegatedAtom p()"] (-1));
          (1, mkVariable (Some "var1")
                         [Some "Atom q()"; Some "NegatedAtom q()"] 0);
          (2, mkVariable (Some "var2")
                         [Some "Atom r()"; Some "NegatedAtom r()"] 0) ]
        [mkRule [(2, 0)] 1 0; mkRule [(1, 0)] 2 0] []
        [(1, [mkRule [(2, 0)] 1 0]); (2, [mkRule [(1, 0)] 2 0])]
        [(1, [2]); (2, [1])].

(* ================================================================== *)
(** ** The model of a document of the supported fragment *)

(** The handles that [_handle_variables] gives to primitive variables:
    the variable with id [i] is the [i]-th integer variable. *)
Definition handles_of (vars : dict SasVariable) : dict DidpObj :=
  map (fun iv => (fst iv, IntVarH (Z.to_nat (fst iv)))) vars.

(** [var == val] on the primitive variable [var]: a comparison with the
    integer [val] when it has 32 bits, and with the float nearest to [val]
    otherwise. *)
Definition encode_condition (vv : Z * Z) : Condition :=
  if in_i32 (snd vv) then CEq (EVar (Z.to_nat (fst vv))) (EConst (snd vv))
  else CEqF (EVar (Z.to_nat (fst vv)))
            (nearest_binary64 (snd vv <? 0) (Z.abs (snd vv)) 1).

Definition encode_effect (vv : Z * Z) : nat * Z :=
  (Z.to_nat (fst vv), snd vv).

Definition encode_operator (op : Operator) : Transition :=
  mkTransition (op_name op) (PlusStateCost (op_cost op))
               (map encode_condition (constrained (op_preconditions op)))
               (map encode_effect (op_effects op)).

(** [self._init[i]] where it is set. *)
Definition initial_value (self : Sas) (i : Z) : Z :=
  match dict_get i (_init self) with
  | Some v => v
  | None => 0
  end.

(** The model of a document without derived variables: one integer
    variable for each declared variable, one transition for each operator,
    one base case. *)
Definition model_of (self : Sas) : Model :=
  mkModel
    (map (fun iv => (var_name (snd iv), initial_value self (fst iv)))
         (_variables self))
    []
    (map encode_operator (_operators self))
    [map encode_condition (_goal self)].

(** The variable [k] is named by an operator, in a precondition that is
    kept or in an effect, or by the goal. *)
Definition mentioned (self : Sas) (k : Z) : Prop :=
  (exists op val,
      In op (_operators self) /\
      (In (k, val) (constrained (op_preconditions op)) \/
       In (k, val) (op_effects op))) \/
  (exists val, In (k, val) (_goal self)).

(** Every declared variable has an initial value and every variable that
    is mentioned is declared. *)
Definition closed (self : Sas) : Prop :=
  (forall k, dict_mem k (_variables self) = true ->
             dict_mem k (_init self) = true) /\
  (forall k, mentioned self k -> dict_mem k (_variables self) = true).

(** The lookup of [k] fails in the encoder. *)
Definition missing (self : Sas) (k : Z) : Prop :=
  (dict_mem k (_variables self) = true /\ dict_mem k (_init self) = false) \/
  (mentioned self k /\ dict_mem k (_variables self) = false).

(** The state of the source document that a state of the model stands
    for, and the conditions of the source on it. *)
Definition satisfies (st : nat -> Z) (items : list (Z * Z)) : Prop :=
  forall var val, In (var, val) items -> st (Z.to_nat var) = val.

(** A state of the model: every variable holds an integer of 32 bits. *)
Definition int_state (st : nat -> Z) : Prop :=
  forall v, in_i32 (st v) = true.

(** The values of the entries have 32 bits. *)
Definition narrow (items : list (Z * Z)) : Prop :=
  forall var val, In (var, val) items -> in_i32 val = true.

(** The preconditions of a transition hold in a state of the model. *)
Definition applicable (m : Model) (st : nat -> Z) (t : Transition) : bool :=
  forallb (eval_cond st (fun_values m st)) (t_preconditions t).

(** What [var == val] gives on the primitive variable [var]. *)
Definition eq_value (vv : Z * Z) : PyVal :=
  match int_var_eq (Z.to_nat (fst vv)) (snd vv) with
  | Some c => ObjV (CondH c)
  | None => BoolV false
  end.

(** The API can compare [val] with an integer variable: it has 32 bits,
    or it has a float. *)
Definition comparable (val : Z) : Prop :=
  in_i32 val = true \/ float_of_int val <> None.

(** The variables of the operator are declared and its numbers are in the
    range of the API. *)
Definition operator_in_range (vars : dict SasVariable) (op : Operator)
  : Prop :=
  (forall k val,
      In (k, val) (constrained (op_preconditions op)) \/
      In (k, val) (op_effects op) ->
      dict_mem k vars = true) /\
  in_i32 (op_cost op) = true /\
  (forall var val, In (var, val) (op_effects op) -> in_i32 val = true) /\
  (forall var val,
      In (var, val) (constrained (op_preconditions op)) -> comparable val).

(** What an exception of the round of an operator tells about it. *)
Definition operator_failure (vars : dict SasVariable) (op : Operator)
           (x : exn) : Prop :=
  (exists k val,
      x = KeyError k /\
      (In (k, val) (constrained (op_preconditions op)) \/
       In (k, val) (op_effects op)) /\
      dict_mem k vars = false) \/
  (x = TypeError /\
   ((in_i32 (op_cost op) = false /\ float_of_int (op_cost op) = None) \/
    (exists var val, In (var, val) (op_effects op) /\ in_i32 val = false) \/
    (exists var val,
        In (var, val) (constrained (op_preconditions op)) /\
        ~ comparable val))) \/
  (x = RuntimeError /\ in_i32 (op_cost op) = false).

(** The numbers of the document are in the range of the API: initial
    values, costs and values of effects have 32 bits; the values of the
    kept preconditions and of the goal can be compared. *)
Definition in_api_range (self : Sas) : Prop :=
  (forall k, dict_mem k (_variables self) = true ->
             in_i32 (initial_value self k) = true) /\
  (forall op,
      In op (_operators self) ->
      in_i32 (op_cost op) = true /\
      (forall var val, In (var, val) (op_effects op) -> in_i32 val = true) /\
      (forall var val,
          In (var, val) (constrained (op_preconditions op)) ->
          comparable val)) /\
  (forall var val, In (var, val) (_goal self) -> comparable val).

(** What the exception of a translation tells about the document. *)
Definition failure (self : Sas) (x : exn) : Prop :=
  (exists k, x = KeyError k /\ missing self k) \/
  (x = OverflowError /\
   exists k, dict_mem k (_variables self) = true /\
             in_i32 (initial_value self k) = false) \/
  (x = TypeError /\
   ((exists op,
        In op (_operators self) /\
        ((in_i32 (op_cost op) = false /\ float_of_int (op_cost op) = None) \/
         (exists var val,
             In (var, val) (op_effects op) /\ in_i32 val = false) \/
         (exists var val,
             In (var, val) (constrained (op_preconditions op)) /\
             ~ comparable val))) \/
    (exists var val, In (var, val) (_goal self) /\ ~ comparable val))) \/
  (x = RuntimeError /\
   exists op, In op (_operators self) /\ in_i32 (op_cost op) = false).

(** Documents with a number outside 32 bits: in the goal, in the initial
    state, as a cost and as the value of an effect. *)
Definition doc_wide_goal : string := unlines
  [ "begin_variable"; "var0"; "-1"; "2";
      "Atom a()"; "NegatedAtom a()"; "end_variable";
    "begin_state"; "0"; "end_state";
    "begin_goal"; "1"; "0 9007199254740993"; "end_goal" ].

Definition sas_wide_goal : Sas :=
  mkSas false false [(0, 0)] [(0, 9007199254740993)]
        [ (0, mkVariable (Some "var0")
                         [Some "Atom a()"; Some "NegatedAtom a()"] (-1)) ]
        [] [] [] [].

Definition doc_wide_initial : string := unlines
  [ "begin_variable"; "var0"; "-1"; "2";
      "Atom a()"; "NegatedAtom a()"; "end_variable";
    "begin_state"; "2147483648"; "end_state";
    "begin_goal"; "1"; "0 1"; "end_goal" ].

Definition doc_wide_cost : string := unlines
  [ "begin_variable"; "var0"; "-1"; "2";
      "Atom a()"; "NegatedAtom a()"; "end_variable";
    "begin_state"; "0"; "end_state";
    "begin_goal"; "1"; "0 1"; "end_goal";
    "begin_operator"; "flip"; "0"; "1"; "0 0 0 1"; "2147483648";
      "end_operator" ].

Definition doc_wide_effect : string := unlines
  [ "begin_variable"; "var0"; "-1"; "2";
      "Atom a()"; "NegatedAtom a()"; "end_variable";
    "begin_state"; "0"; "end_state";
    "begin_goal"; "1"; "0 1"; "end_goal";
    "begin_operator"; "flip"; "0"; "1"; "0 0 0 2147483648"; "1";
      "end_operator" ].

(* ================================================================== *)
(** ** Lines outside blocks *)

(** The five lines that open a block. *)
Definition is_header (l : string) : bool :=
  ((l =? "begin_variable") || (l =? "begin_rule") || (l =? "begin_operator")
   || (l =? "begin_goal") || (l =? "begin_state"))%string.

(** The sections of a document that come before its first variable. *)
Definition preamble : list string :=
  [ "begin_version"; "3"; "end_version";
    "begin_metric"; "1"; "end_metric"; "2" ].

(** No character of [l] ends a line. *)
Definition no_linebreak (l : string) : Prop :=
  forall c, In c (list_ascii_of_string l) -> is_linebreak c = false.

(* ================================================================== *)
(** ** The state block *)

(** [self._init] after the loop of a state block that stores [ints] for
    the variables from [start] on. *)
Definition store_initial (ints : list Z) (start : nat) (init : dict Z)
  : dict Z :=
  fold_left (fun d kv => dict_set (Z.of_nat (fst kv)) (snd kv) d)
            (combine (seq start (List.length ints)) ints) init.

(** The lines [vals] hold the integers [ints]. *)
Definition int_lines (vals : list string) (ints : list Z) : Prop :=
  Forall2 (fun l v => py_int (remove_newlines l) = Ok v) vals ints.

(* ================================================================== *)
(** ** The maps of an operator *)

(** No variable has two preconditions or two effects, and every variable
    with an effect has a precondition entry, its pre-value. *)
Definition operator_wf (op : Operator) : Prop :=
  NoDup (dict_keys (op_preconditions op)) /\
  NoDup (dict_keys (op_effects op)) /\
  incl (dict_keys (op_effects op)) (dict_keys (op_preconditions op)).

(* ================================================================== *)
(** ** The initial state and the registry of rules *)

(** The initial state covers the first [k] declared variables. *)
Definition init_prefix (s : Sas) : Prop :=
  exists k,
    (k <= List.length (_variables s))%nat /\
    dict_keys (_init s) = map Z.of_nat (seq 0 k).

(** Every rule is filed under its head, every head has a rule, and the
    flag for axioms is up exactly when there is a rule. *)
Definition heads_wf (s : Sas) : Prop :=
  (forall h rs,
      dict_get h (_axiom_heads s) = Some rs ->
      rs <> [] /\ forall r, In r rs -> rule_var r = h /\ In r (_rules s)) /\
  (forall r,
      In r (_rules s) ->
      exists rs, dict_get (rule_var r) (_axiom_heads s) = Some rs /\ In r rs) /\
  (_detected_axioms s = true <-> _rules s <> []).

(** The document [doc_two_vars] with one more variable block at its end,
    after the state block. *)
Definition doc_late_variable : string := unlines
  [ doc_two_vars;
    "begin_variable"; "var2"; "-1"; "2";
      "Atom c()"; "NegatedAtom c()"; "end_variable" ].

(** A variable block, a state block with an initial value outside 32
    bits, and one more variable block. *)
Definition doc_wide_late_variable : string := unlines
  [ "begin_variable"; "var0"; "-1"; "2";
      "Atom a()"; "NegatedAtom a()"; "end_variable";
    "begin_state"; "2147483648"; "end_state";
    "begin_variable"; "var1"; "-1"; "2";
      "Atom b()"; "NegatedAtom b()"; "end_variable" ].

Definition sas_wide_late_variable : Sas :=
  mkSas false false [(0, 2147483648)] []
        [ (0, mkVariable (Some "var0")
                         [Some "Atom a()"; Some "NegatedAtom a()"] (-1));
          (1, mkVariable (Some "var1")
                         [Some "Atom b()"; Some "NegatedAtom b()"] (-1)) ]
        [] [] [] [].

(* ================================================================== *)
(** ** The stratifier and the order of a set *)

(** Two graphs with the same heads in the same order, whose bodies hold
    the same variables, in any order and with any repetition. *)
Definition same_graph (edges edges' : dict pyset) : Prop :=
  Forall2 (fun hb hb' =>
             fst hb = fst hb' /\
             forall i, In i (snd hb) <-> In i (snd hb'))
          edges edges'.

(* ================================================================== *)
(** ** The definitions of the derived variables *)

(** The condition names only boolean state functions registered before
    the [j]-th. *)
Fixpoint refs_below (j : nat) (c : Condition) : Prop :=
  match c with
  | CEq _ _ => True
  | CNe _ _ => True
  | CFun id => (id < j)%nat
  | CNot c' => refs_below j c'
  | CAnd a b => refs_below j a /\ refs_below j b
  | COr a b => refs_below j a /\ refs_below j b
  | CEqF _ _ => True
  end.

(** No boolean state function of the model reads itself or a function
    registered after it. *)
Definition funs_wf (m : Model) : Prop :=
  forall j d, nth_error (bool_state_funs m) j = Some d -> refs_below j d.

(** The atom [(var, val)] of a rule body holds: a primitive variable has
    the value [val]; a derived variable is on for [val = 0] and off
    otherwise. *)
Definition atom_holds (didp : dict DidpObj) (st : nat -> Z)
           (fv : nat -> bool) (vv : Z * Z) : Prop :=
  match dict_get (fst vv) didp with
  | Some (IntVarH n) => st n = snd vv
  | Some (CondH c) => eval_cond st fv c = (snd vv =? 0)
  | None => False
  end.

(** Some rule of the head [h] has a body whose atoms all hold. *)
Definition derivable (self : Sas) (didp : dict DidpObj) (st : nat -> Z)
           (fv : nat -> bool) (h : Z) : Prop :=
  exists rs r,
    dict_get h (_axiom_heads self) = Some rs /\ In r rs /\
    forall vv, In vv (rule_preconditions r) -> atom_holds didp st fv vv.

(** Every variable of a rule body is declared; a derived variable is
    read with the value 0 or 1, and a primitive variable with a value that
    the API can compare. *)
Definition rules_closed (self : Sas) : Prop :=
  forall r var val,
    In r (_rules self) ->
    In (var, val) (rule_preconditions r) ->
    (dict_mem var (_axiom_heads self) = true /\ (val = 0 \/ val = 1)) \/
    (dict_mem var (_axiom_heads self) = false /\
     dict_mem var (_variables self) = true /\
     comparable val).

(** The values that the rule bodies ask for have 32 bits. *)
Definition rules_narrow (self : Sas) : Prop :=
  forall r, In r (_rules self) -> narrow (rule_preconditions r).

(** The encoder after [_handle_variables]: no boolean state function yet,
    and the handles of the primitive variables, nothing else. *)
Definition prim_enc (self : Sas) (e : Enc) : Prop :=
  bool_state_funs (_model e) = [] /\
  (forall var o,
      dict_get var (_didp_variables e) = Some o ->
      (exists n, o = IntVarH n) /\
      dict_mem var (_axiom_heads self) = false) /\
  (forall var,
      dict_mem var (_variables self) = true ->
      dict_mem var (_axiom_heads self) = false ->
      exists n, dict_get var (_didp_variables e) = Some (IntVarH n)).

(** The function [d], registered as the [j]-th, defines the head [h]:
    every variable of the bodies of [h] has its handle, the derived ones
    among them are functions registered before [j], and [d] holds
    exactly when some rule of [h] fires, in the states of the model and,
    when the values of the rule bodies have 32 bits, for every assignment
    of integers; [d] holds everywhere when a rule of [h] has no
    precondition. *)
Definition head_def (self : Sas) (didp : dict DidpObj) (h : Z) (j : nat)
           (d : Condition) : Prop :=
  (forall rs r vv,
      dict_get h (_axiom_heads self) = Some rs ->
      In r rs ->
      In vv (rule_preconditions r) ->
      dict_get (fst vv) didp <> None /\
      forall c, dict_get (fst vv) didp = Some (CondH c) ->
                exists j', c = CFun j' /\ (j' < j)%nat) /\
  (forall st fv,
      int_state st \/ rules_narrow self ->
      (eval_cond st fv d = true <-> derivable self didp st fv h)) /\
  ((exists rs r,
       dict_get h (_axiom_heads self) = Some rs /\ In r rs /\
       rule_preconditions r = []) ->
   forall st fv, eval_cond st fv d = true).

(** The invariant of the loops that define the heads: [D] lists the heads
    defined so far, in order; [e1] is the encoder before the first
    definition. *)
Definition axioms_inv (self : Sas) (e1 : Enc) (D : list Z) (e : Enc)
  : Prop :=
  int_vars (_model e) = int_vars (_model e1) /\
  transitions (_model e) = transitions (_model e1) /\
  base_cases (_model e) = base_cases (_model e1) /\
  (forall var, dict_mem var (_axiom_heads self) = false ->
               dict_get var (_didp_variables e)
               = dict_get var (_didp_variables e1)) /\
  (forall h, dict_mem h (_axiom_heads self) = true -> ~ In h D ->
             dict_get h (_didp_variables e) = None) /\
  List.length (bool_state_funs (_model e)) = List.length D /\
  (forall j h,
      nth_error D j = Some h ->
      dict_get h (_didp_variables e) = Some (CondH (CFun j)) /\
      exists d,
        nth_error (bool_state_funs (_model e)) j = Some d /\
        refs_below j d /\
        head_def self (_didp_variables e) h j d).

(** What the loops need of an atom: its variable has its handle; the
    value asked of a primitive variable can be compared; a derived
    variable is a function registered before [j], read with the value 0
    or 1. *)
Definition atom_ready (self : Sas) (didp : dict DidpObj) (j : nat)
           (vv : Z * Z) : Prop :=
  (dict_mem (fst vv) (_axiom_heads self) = false /\
   comparable (snd vv) /\
   exists n, dict_get (fst vv) didp = Some (IntVarH n)) \/
  (dict_mem (fst vv) (_axiom_heads self) = true /\
   (snd vv = 0 \/ snd vv = 1) /\
   exists j', (j' < j)%nat /\
              dict_get (fst vv) didp = Some (CondH (CFun j'))).

(** The heads of layer [i], in the order of the layering. *)
Definition heads_at (V : dict Z) (i : Z) : list Z :=
  map fst (filter (fun hv => snd hv =? i) V).

(** The layering is a fixed point of the rounds. *)
Definition layering_of (edges : dict pyset) (V : dict Z) : Prop :=
  dict_keys V = dict_keys edges /\
  forall h body,
    dict_get h edges = Some body ->
    dict_get h V = Some (layer_update V body).

(** Every entry of [didp] is an entry of [didp']. *)
Definition dict_extends (didp didp' : dict DidpObj) : Prop :=
  forall k o, dict_get k didp = Some o -> dict_get k didp' = Some o.

(* ================================================================== *)
(** ** The plans of the driver *)

(** The answers with a plan that the search loop meets before it stops. *)
Fixpoint plans_of (answers : list (Solution * bool)) : list Solution :=
  match answers with
  | [] => []
  | (solution, terminated) :: answers' =>
      if negb (time_out solution) && negb (is_infeasible solution) then
        solution :: (if terminated then [] else plans_of answers')
      else []
  end.

(** The name of an operator is a line of the document. *)
Definition plain_name (op : Operator) : Prop :=
  exists n, op_name op = Some n /\ no_linebreak n.

(** Two plans, then a time-out. *)
Definition answers_two_plans : list (Solution * bool) :=
  [ (mkSolution false false
       [mkTransition (Some "a") (PlusStateCost 1) [] []], false);
    (mkSolution false false
       [mkTransition (Some "b") (PlusStateCost 1) [] []], false);
    (mkSolution true false [], false) ].

(* ================================================================== *)
(** ** The blocks of a document *)

(** The count line [n] announces the lines [ls]. *)
Definition counts (n : string) (ls : list string) : Prop :=
  py_int (remove_newlines n) = Ok (Z.of_nat (List.length ls)).

(** The first four tokens of the effect record [l] are the integers
    [cond], [var], [pre] and [post]. *)
Definition effect_tokens (l : string) (cond var pre post : Z) : Prop :=
  int_tok 0 (py_split (remove_newlines l)) = Ok cond /\
  int_tok 1 (py_split (remove_newlines l)) = Ok var /\
  int_tok 2 (py_split (remove_newlines l)) = Ok pre /\
  int_tok 3 (py_split (remove_newlines l)) = Ok post.

(** A line with two tokens, both integers. *)
Definition pair_line (l : string) : Prop :=
  exists a b va vb,
    py_split (remove_newlines l) = [a; b] /\
    py_int a = Ok va /\ py_int b = Ok vb.

(** The parsing loop goes from the first configuration to the second and
    parses [k] variable blocks on the way. *)
Inductive reaches_counting : nat -> config -> config -> Prop :=
| counting_here c : reaches_counting 0 c c
| counting_step s l ls s' ls' c k :
    parse_step s (l :: ls) = Ok (Some (s', ls')) ->
    reaches_counting k (s', ls') c ->
    reaches_counting
      (if (remove_newlines l =? "begin_variable")%string then S k else k)
      (s, l :: ls) c.

(** While parsing [sas_content] the loop reads the header of a variable
    block with the transformer in state [s] and [rest] as the lines that
    follow, after [k] other variable blocks. *)
Definition variable_block (sas_content : string) (k : nat) (s : Sas)
           (rest : list string) : Prop :=
  exists l,
    reaches_counting k (new_sas, splitlines sas_content) (s, l :: rest) /\
    remove_newlines l = "begin_variable".

(** The variables that the bodies of the rules of head [h] read. *)
Definition body_vars (rules : list Rule) (h : Z) : list Z :=
  List.concat
    (map (fun r => dict_keys (rule_preconditions r))
         (filter (fun r => rule_var r =? h) rules)).

(** The dependency graph is the graph of the rules: its nodes are the
    heads of the rules, and the edge set of a head holds the variables of
    the bodies of its rules, no other. *)
Definition graph_exact (s : Sas) : Prop :=
  (forall h,
      In h (dict_keys (_axiom_edges s))
      <-> exists r, In r (_rules s) /\ rule_var r = h) /\
  (forall h body,
      dict_get h (_axiom_edges s) = Some body ->
      forall i, In i body <-> In i (body_vars (_rules s) h)).

(** An operator whose cost line is [0.5]. *)
Definition doc_fractional_cost : string := unlines
  [ "begin_variable"; "var0"; "-1"; "2";
      "Atom a()"; "NegatedAtom a()"; "end_variable";
    "begin_state"; "0"; "end_state";
    "begin_goal"; "1"; "0 1"; "end_goal";
    "begin_operator"; "flip"; "0"; "1"; "0 0 0 1"; "0.5"; "end_operator" ].

(** The transformer when the parser meets the operator block of
    [doc_negative_cost] and of [doc_fractional_cost]. *)
Definition sas_before_operator : Sas :=
  mkSas false false [(0, 0)] [(0, 1)]
        [ (0, mkVariable (Some "var0")
                         [Some "Atom a()"; Some "NegatedAtom a()"] (-1)) ]
        [] [] [] [].

(** The transformer when the parser meets the operator block of
    [doc_two_vars]. *)
Definition sas_two_vars_before_operator : Sas :=
  with_operators [] sas_two_vars.

(** The second variable block is named [var5]. *)
Definition doc_misnamed_variable : string := unlines
  [ "begin_variable"; "var0"; "-1"; "2";
      "Atom a()"; "NegatedAtom a()"; "end_variable";
    "begin_variable"; "var5"; "-1"; "2";
      "Atom b()"; "NegatedAtom b()"; "end_variable" ].

(** The transformer after the first variable block of [doc_two_vars] and
    of [doc_misnamed_variable]. *)
Definition sas_one_var : Sas :=
  mkSas false false [] []
        [ (0, mkVariable (Some "var0")
                         [Some "Atom a()"; Some "NegatedAtom a()"] (-1)) ]
        [] [] [] [].

(* ================================================================== *)
(** * Properties *)

(** ** Dictionaries *)

Lemma dict_get_set_same {V} (k : Z) (v : V) (d : dict V) :
  dict_get k (dict_set k v d) = Some v.
Proof.
  induction d as [|[k' v'] d IH]; simpl.
  - now rewrite Z.eqb_refl.
  - destruct (k =? k') eqn:E; simpl; rewrite ?Z.eqb_refl, ?E; auto.
Qed.

Lemma dict_get_set_other {V} (k k' : Z) (v : V) (d : dict V) :
  k <> k' -> dict_get k (dict_set k' v d) = dict_get k d.
Proof.
  intros Hne. induction d as [|[k2 v2] d IH]; simpl.
  - destruct (k =? k') eqn:E; auto. apply Z.eqb_eq in E. contradiction.
  - destruct (k' =? k2) eqn:E; simpl.
    + apply Z.eqb_eq in E. subst k2.
      destruct (k =? k') eqn:E2; auto. apply Z.eqb_eq in E2. contradiction.
    + destruct (k =? k2); auto.
Qed.

Lemma dict_set_fresh {V} (k : Z) (v : V) (d : dict V) :
  dict_get k d = None -> dict_set k v d = d ++ [(k, v)].
Proof.
  induction d as [|[k' v'] d IH]; simpl; intros Hn; auto.
  destruct (k =? k'); [discriminate|]. now rewrite IH.
Qed.

Lemma dict_get_In {V} (k : Z) (v : V) (d : dict V) :
  dict_get k d = Some v -> In (k, v) d.
Proof.
  induction d as [|[k' v'] d IH]; simpl; intros Hg; [discriminate|].
  destruct (k =? k') eqn:E.
  - apply Z.eqb_eq in E. inversion Hg. subst. now left.
  - right. auto.
Qed.

Lemma dict_get_None_keys {V} (k : Z) (d : dict V) :
  dict_get k d = None <-> ~ In k (dict_keys d).
Proof.
  induction d as [|[k' v'] d IH]; simpl.
  - tauto.
  - destruct (k =? k') eqn:E.
    + apply Z.eqb_eq in E. subst. split; [discriminate|]. intros Hn.
      exfalso. apply Hn. now left.
    + apply Z.eqb_neq in E. rewrite IH. split.
      * intros Hn [Heq|Hin]; [congruence|contradiction].
      * intros Hn Hin. apply Hn. now right.
Qed.

Lemma dict_mem_keys {V} (k : Z) (d : dict V) :
  dict_mem k d = true <-> In k (dict_keys d).
Proof.
  unfold dict_mem. destruct (dict_get k d) eqn:E.
  - split; auto. intros _. apply dict_get_In in E.
    apply (in_map fst) in E. exact E.
  - apply dict_get_None_keys in E. split; [discriminate|contradiction].
Qed.

Lemma dict_keys_set {V} (k : Z) (v : V) (d : dict V) :
  In k (dict_keys d) -> dict_keys (dict_set k v d) = dict_keys d.
Proof.
  induction d as [|[k' v'] d IH]; simpl; intros Hin; [contradiction|].
  destruct (k =? k') eqn:E; simpl.
  - apply Z.eqb_eq in E. now subst.
  - f_equal. apply IH. destruct Hin as [Heq|Hin]; auto.
    apply Z.eqb_neq in E. congruence.
Qed.

Lemma dict_get_app_l {V} (k : Z) (v : V) (d d' : dict V) :
  dict_get k d = Some v -> dict_get k (d ++ d') = Some v.
Proof.
  induction d as [|[k' v'] d IH]; simpl; intros Hg; [discriminate|].
  destruct (k =? k'); auto.
Qed.

(** A [str] is never found among int keys. *)
Lemma py_in_str_never {V} (x : string) (d : dict V) :
  py_in (PStr x) d = false.
Proof. induction d as [|kv d IH]; simpl; auto. Qed.

(* ================================================================== *)
(** ** Frame reasoning for the parser monad *)

#[export] Instance suffix_frame : Frame suffix_rel.
Proof.
  split.
  - intros c. now exists [].
  - intros a b c [p Hp] [q Hq]. exists (p ++ q).
    rewrite Hp, Hq. now rewrite app_assoc.
  - intros s l ls. now exists [l].
Qed.

#[export] Instance same_on_frame {T} (f : Sas -> T) : Frame (same_on f).
Proof.
  split; unfold same_on; simpl; intros; congruence.
Qed.

#[export] Instance raised_frame {T} (f : Sas -> T) (v : T)
  : Frame (raised f v).
Proof.
  split; unfold raised; simpl; intros; auto.
Qed.

Section Respects.
Context (R : config -> config -> Prop) `{FR : Frame R}.

Lemma respects_ret {A} (a : A) : respects R (ret a).
Proof.
  intros s ls a' s' ls' Heq. inversion Heq. subst. apply frame_refl.
Qed.

Lemma respects_raise {A} (e : exn) : respects R (@raise A e).
Proof. intros s ls a s' ls' Heq. discriminate. Qed.

Lemma respects_lift {A} (r : result A) : respects R (lift r).
Proof.
  destruct r; simpl; [apply respects_ret | apply respects_raise].
Qed.

Lemma respects_assert (b : bool) : respects R (assert_ b).
Proof.
  destruct b; simpl; [apply respects_ret | apply respects_raise].
Qed.

Lemma respects_get_self : respects R get_self.
Proof.
  intros s ls a s' ls' Heq. inversion Heq. subst. apply frame_refl.
Qed.

Lemma respects_get_line : respects R get_line.
Proof.
  intros s ls a s' ls' Heq. unfold get_line in Heq.
  destruct ls as [|l rest]; inversion Heq; subst.
  - apply frame_refl.
  - apply frame_line.
Qed.

Lemma respects_bind {A B} (m : P A) (k : A -> P B) :
  respects R m -> (forall a, respects R (k a)) -> respects R (bind m k).
Proof.
  intros Hm Hk s ls b s' ls' Heq. unfold bind in Heq.
  destruct (m s ls) as [[[a s1] ls1]|e] eqn:E; [|discriminate].
  eapply frame_trans; [eapply Hm; eauto | eapply Hk; eauto].
Qed.

Lemma respects_modify (f : Sas -> Sas) :
  (forall s ls, R (s, ls) (f s, ls)) -> respects R (modify f).
Proof.
  intros Hf s ls a s' ls' Heq. inversion Heq. subst. apply Hf.
Qed.

Lemma respects_for_each {X A} (xs : list X) (body : X -> A -> P A) :
  (forall x a, respects R (body x a)) ->
  forall a, respects R (for_each xs body a).
Proof.
  intros Hb. induction xs as [|x xs IH]; intros a; simpl.
  - apply respects_ret.
  - apply respects_bind; auto.
Qed.
End Respects.

(** Decompose a computation of the parser monad along its structure. *)
Ltac frame_step :=
  lazymatch goal with
  | |- Frame _ => typeclasses eauto
  | |- respects _ (ret _) => apply respects_ret
  | |- respects _ (raise _) => apply respects_raise
  | |- respects _ (lift _) => apply respects_lift
  | |- respects _ (assert_ _) => apply respects_assert
  | |- respects _ get_self => apply respects_get_self
  | |- respects _ get_line => apply respects_get_line
  | |- respects _ (bind _ _) => apply respects_bind; [ | | intros ]
  | |- respects _ (for_each _ _ _) => apply respects_for_each; [ | intros ]
  | |- respects _ (modify _) =>
      apply respects_modify; intros;
      first [ reflexivity | now (unfold raised; simpl; auto) ]
  | |- respects _ (let '(_, _) := ?x in _) => destruct x
  | |- respects _ (if ?b then _ else _) => destruct b
  | |- respects _ (match ?x with _ => _ end) => destruct x
  end.

Ltac frame_tac := repeat frame_step.

Lemma suffix_modify (f : Sas -> Sas) : respects suffix_rel (modify f).
Proof.
  intros s ls a s' ls' Heq. inversion Heq. subst. now exists [].
Qed.

Ltac suffix_tac :=
  repeat first [ apply suffix_modify | frame_step ].

Lemma parse_block_suffix (l : string) : respects suffix_rel (parse_block l).
Proof.
  unfold parse_block, parse_variable, parse_rule, parse_operator, parse_goal,
    parse_state, get_lines, rule_precondition, check_head, assignment_pair,
    effect_record, parse_cost.
  suffix_tac.
Qed.

(* ================================================================== *)
(** ** Inversion of the primitive steps *)

Lemma bind_inv {A B} (m : P A) (k : A -> P B) s ls b s' ls' :
  bind m k s ls = Ok (b, s', ls') ->
  exists a s1 ls1, m s ls = Ok (a, s1, ls1) /\ k a s1 ls1 = Ok (b, s', ls').
Proof.
  unfold bind. destruct (m s ls) as [[[a s1] ls1]|e]; [|discriminate].
  intros Hk. now exists a, s1, ls1.
Qed.

Lemma ret_inv {A} (a : A) s ls b s' ls' :
  ret a s ls = Ok (b, s', ls') -> b = a /\ s' = s /\ ls' = ls.
Proof. intros Heq. inversion Heq. auto. Qed.

Lemma lift_inv {A} (r : result A) s ls a s' ls' :
  lift r s ls = Ok (a, s', ls') -> r = Ok a /\ s' = s /\ ls' = ls.
Proof.
  destruct r; simpl; intros Heq; [|discriminate]. inversion Heq. auto.
Qed.

Lemma assert_inv (b : bool) s ls a s' ls' :
  assert_ b s ls = Ok (a, s', ls') -> b = true /\ s' = s /\ ls' = ls.
Proof.
  destruct b; simpl; intros Heq; [|discriminate]. inversion Heq. auto.
Qed.

Lemma get_self_inv s ls a s' ls' :
  get_self s ls = Ok (a, s', ls') -> a = s /\ s' = s /\ ls' = ls.
Proof. intros Heq. inversion Heq. auto. Qed.

Lemma modify_inv (f : Sas -> Sas) s ls a s' ls' :
  modify f s ls = Ok (a, s', ls') -> s' = f s /\ ls' = ls.
Proof. intros Heq. inversion Heq. auto. Qed.

Lemma get_line_inv s ls a s' ls' :
  get_line s ls = Ok (a, s', ls') ->
  s' = s /\ a = option_map remove_newlines (hd_error ls) /\ ls' = tl ls.
Proof.
  unfold get_line. destruct ls as [|l rest]; intros Heq; inversion Heq; auto.
Qed.

(** Break a successful run of straight-line parser code into its steps. *)
Ltac pinv :=
  repeat match goal with
  | H : bind _ _ _ _ = Ok _ |- _ =>
      apply bind_inv in H; destruct H as (? & ? & ? & ? & H)
  | H : ret _ _ _ = Ok _ |- _ =>
      apply ret_inv in H; destruct H as (? & ? & ?); subst
  | H : lift _ _ _ = Ok _ |- _ =>
      apply lift_inv in H; destruct H as (? & ? & ?); subst
  | H : assert_ _ _ _ = Ok _ |- _ =>
      apply assert_inv in H; destruct H as (? & ? & ?); subst
  | H : get_self _ _ = Ok _ |- _ =>
      apply get_self_inv in H; destruct H as (? & ? & ?); subst
  | H : modify _ _ _ = Ok _ |- _ =>
      apply modify_inv in H; destruct H as (? & ?); subst
  | H : get_line _ _ = Ok _ |- _ =>
      apply get_line_inv in H; destruct H as (? & ? & ?); subst
  | H : (let '(_, _) := ?p in _) _ _ = Ok _ |- _ => destruct p
  end.

(** A loop whose body leaves the transformer alone leaves it alone. *)
Lemma for_each_same_state {X A} (xs : list X) (body : X -> A -> P A) :
  (forall x a, respects (same_on (fun s => s)) (body x a)) ->
  forall a s ls a' s' ls',
    for_each xs body a s ls = Ok (a', s', ls') -> s' = s.
Proof.
  intros Hb a s ls a' s' ls' Heq.
  apply (respects_for_each (same_on (fun s => s)) xs body Hb a) in Heq.
  unfold same_on in Heq. simpl in Heq. congruence.
Qed.

Lemma get_lines_state n s ls vs s' ls' :
  get_lines n s ls = Ok (vs, s', ls') -> s' = s.
Proof.
  unfold get_lines. apply for_each_same_state. intros x a. frame_tac.
Qed.

Lemma rule_preconditions_state xs d s ls d' s' ls' :
  for_each xs (fun _ : Z => rule_precondition) d s ls = Ok (d', s', ls') ->
  s' = s.
Proof.
  apply for_each_same_state. intros x a. unfold rule_precondition. frame_tac.
Qed.

Lemma assignment_pairs_state xs d s ls d' s' ls' :
  for_each xs (fun _ : Z => assignment_pair) d s ls = Ok (d', s', ls') ->
  s' = s.
Proof.
  apply for_each_same_state. intros x a. unfold assignment_pair. frame_tac.
Qed.

(* ================================================================== *)
(** ** The parsing loop: termination and invariants *)

Lemma parse_step_shrinks s ls s' ls' :
  parse_step s ls = Ok (Some (s', ls')) ->
  (List.length ls' < List.length ls)%nat.
Proof.
  unfold parse_step, get_line. destruct ls as [|l rest]; [discriminate|].
  destruct (parse_block (remove_newlines l) s rest)
    as [[[u s1] ls1]|e] eqn:E; [|discriminate].
  intros Heq. inversion Heq. subst.
  apply parse_block_suffix in E. destruct E as [pre Hpre]. simpl in Hpre.
  rewrite Hpre. simpl. rewrite length_app. lia.
Qed.

Lemma parse_loop_total fuel s ls :
  (List.length ls < fuel)%nat -> exists r, parse_loop fuel s ls = Some r.
Proof.
  revert s ls. induction fuel as [|fuel IH]; intros s ls Hlt; [lia|].
  simpl. destruct (parse_step s ls) as [[[s' ls']|]|e] eqn:E; eauto.
  apply IH. apply parse_step_shrinks in E. lia.
Qed.

(** The constructor always returns or raises. *)
Lemma parse_lines_total ls : exists r, parse_lines ls = Some r.
Proof. apply parse_loop_total. lia. Qed.

Lemma parse_total sas_content : exists r, _parse sas_content = Some r.
Proof. apply parse_lines_total. Qed.

(** A property of configurations that every block keeps holds of the
    parsed transformer. *)
Lemma parse_loop_invariant (I : config -> Prop) :
  (forall l s ls s' ls',
      I (s, l :: ls) ->
      parse_block (remove_newlines l) s ls = Ok (tt, s', ls') ->
      I (s', ls')) ->
  forall fuel s ls r,
    I (s, ls) -> parse_loop fuel s ls = Some (Ok r) -> I (r, []).
Proof.
  intros Hstep. induction fuel as [|fuel IH]; intros s ls r HI Hrun;
    [discriminate|].
  simpl in Hrun. unfold parse_step, get_line in Hrun.
  destruct ls as [|l rest].
  - inversion Hrun. now subst.
  - destruct (parse_block (remove_newlines l) s rest)
      as [[[[] s1] ls1]|e] eqn:E; [|discriminate].
    eapply IH; [|exact Hrun]. eapply Hstep; eauto.
Qed.

(** The same for a property of the transformer alone. *)
Lemma parse_lines_invariant (I : Sas -> Prop) :
  I new_sas ->
  (forall l s ls s' ls',
      I s -> parse_block l s ls = Ok (tt, s', ls') -> I s') ->
  forall ls r, parse_lines ls = Some (Ok r) -> I r.
Proof.
  intros H0 Hstep ls r Hrun.
  apply (parse_loop_invariant (fun c => I (fst c))) in Hrun; auto.
  intros l s ls0 s' ls' HI Hb. simpl in *. eapply Hstep; eauto.
Qed.

(* ================================================================== *)
(** ** What each block does to the transformer *)

Lemma parse_operator_core : respects (same_on core) parse_operator.
Proof.
  unfold parse_operator, assignment_pair, effect_record, parse_cost.
  frame_tac.
Qed.

Lemma parse_goal_core : respects (same_on core) parse_goal.
Proof. unfold parse_goal, assignment_pair. frame_tac. Qed.

Lemma parse_state_core : respects (same_on core) parse_state.
Proof. unfold parse_state. frame_tac. Qed.

Lemma line_eqb_true (l : line) (x : string) :
  line_eqb l x = true -> l = Some x.
Proof.
  destruct l as [y|]; simpl; [|discriminate].
  intros Heq. apply String.eqb_eq in Heq. now subst.
Qed.

(** A variable block stores one variable under the number of variables
    declared so far, and its name is that number after [var]. *)
Lemma parse_variable_inv s ls u s' ls' :
  parse_variable s ls = Ok (u, s', ls') ->
  let n := List.length (_variables s) in
  exists values layer,
    s' = with_variables
           (dict_set (Z.of_nat n)
                     (mkVariable (Some ("var" ++ str_of_nat n)%string)
                                 values layer)
                     (_variables s)) s.
Proof.
  unfold parse_variable. intros Hrun. pinv.
  match goal with
  | Hg : get_lines _ _ _ = Ok _ |- _ => apply get_lines_state in Hg; subst
  end.
  pinv.
  match goal with
  | Hn : line_eqb _ (_ ++ _)%string = true |- _ =>
      apply line_eqb_true in Hn; rewrite Hn
  end.
  simpl. eauto.
Qed.

Lemma value_startswith_true k p values :
  value_startswith k p values = Ok true ->
  exists x, nth_error values k = Some (Some x) /\ startswith p x = true.
Proof.
  unfold value_startswith.
  destruct (nth_error values k) as [[x|]|]; try discriminate.
  intros Heq. inversion Heq. eauto.
Qed.

Lemma check_head_inv self var val s ls u s' ls' :
  check_head self var val s ls = Ok (u, s', ls') ->
  head_ok (_variables self) (mkRule [] var val) /\ s' = s /\ ls' = ls.
Proof.
  unfold check_head, head_ok. simpl.
  destruct (dict_get var (_variables self)) as [v|] eqn:Ev; [|discriminate].
  intros Hrun. pinv.
  repeat match goal with
  | Hv : value_startswith _ _ _ = Ok true |- _ =>
      apply value_startswith_true in Hv; destruct Hv as (? & ? & ?)
  end.
  match goal with
  | Hl : (List.length _ =? 2)%nat = true |- _ => apply Nat.eqb_eq in Hl
  end.
  match goal with
  | Hz : (val =? 0) = true |- _ => apply Z.eqb_eq in Hz
  end.
  repeat split; auto.
  exists v. split; auto. unfold boolean_domain.
  destruct (var_values v) as [|a [|b [|c rest]]]; try discriminate.
  simpl in *.
  repeat match goal with
  | Hs : Some _ = Some _ |- _ => inversion Hs; clear Hs; subst
  end.
  eauto.
Qed.

(** A rule block raises the axioms flag, queues one checked rule and
    registers it under its head. *)
Lemma parse_rule_inv s ls u s' ls' :
  parse_rule s ls = Ok (u, s', ls') ->
  exists r,
    head_ok (_variables s) r /\
    s' = register_head r (append_rule r (with_detected_axioms true s)).
Proof.
  unfold parse_rule. intros Hrun. pinv.
  match goal with
  | Hg : for_each _ _ _ _ _ = Ok _ |- _ =>
      apply rule_preconditions_state in Hg; subst
  end.
  pinv.
  match goal with
  | Hc : check_head _ _ _ _ _ = Ok _ |- _ =>
      apply check_head_inv in Hc; destruct Hc as (Hok & ? & ?); subst
  end.
  pinv.
  eexists. split; [|reflexivity].
  unfold head_ok in *. simpl in *. exact Hok.
Qed.

(* ================================================================== *)
(** ** Variable ids are positions *)

Lemma vars_wf_keys vars :
  vars_wf vars -> dict_keys vars = map Z.of_nat (seq 0 (List.length vars)).
Proof.
  intros Hwf. apply nth_error_ext. intros k. unfold dict_keys.
  rewrite nth_error_map.
  destruct (nth_error vars k) as [[i v]|] eqn:E; simpl.
  - destruct (Hwf _ _ _ E) as [-> _].
    assert (Hk : (k < List.length vars)%nat)
      by (apply nth_error_Some; congruence).
    rewrite nth_error_map, nth_error_seq.
    apply Nat.ltb_lt in Hk. now rewrite Hk.
  - apply nth_error_None in E.
    rewrite nth_error_map, nth_error_seq.
    destruct (k <? List.length vars)%nat eqn:Hk; auto.
    apply Nat.ltb_lt in Hk. lia.
Qed.

Lemma vars_wf_fresh vars :
  vars_wf vars -> dict_get (Z.of_nat (List.length vars)) vars = None.
Proof.
  intros Hwf. apply dict_get_None_keys. rewrite (vars_wf_keys _ Hwf).
  rewrite in_map_iff. intros (k & Hk & Hin). apply in_seq in Hin. lia.
Qed.

Lemma vars_wf_snoc vars v :
  vars_wf vars ->
  var_name v = Some ("var" ++ str_of_nat (List.length vars))%string ->
  vars_wf (vars ++ [(Z.of_nat (List.length vars), v)]).
Proof.
  intros Hwf Hname k i w Hnth.
  destruct (Nat.lt_ge_cases k (List.length vars)) as [Hlt|Hge].
  - rewrite nth_error_app1 in Hnth by exact Hlt. eauto.
  - rewrite nth_error_app2 in Hnth by exact Hge.
    destruct (k - List.length vars)%nat as [|j] eqn:Ej; simpl in Hnth.
    + inversion Hnth. subst.
      assert (k = List.length vars) by lia. subst k. auto.
    + destruct j; discriminate.
Qed.

(** What a variable block does to well-numbered variables. *)
Lemma parse_variable_appends s ls u s' ls' :
  vars_wf (_variables s) ->
  parse_variable s ls = Ok (u, s', ls') ->
  let n := List.length (_variables s) in
  exists v,
    var_name v = Some ("var" ++ str_of_nat n)%string /\
    _variables s' = _variables s ++ [(Z.of_nat n, v)] /\
    _rules s' = _rules s.
Proof.
  intros Hwf Hrun. apply parse_variable_inv in Hrun.
  destruct Hrun as (values & layer & ->). simpl.
  eexists. split; [|split; [apply dict_set_fresh, vars_wf_fresh, Hwf|]];
    reflexivity.
Qed.

Lemma head_ok_snoc vars x r :
  head_ok vars r -> head_ok (vars ++ [x]) r.
Proof.
  intros [(v & Hg & Hd) Hv]. split; auto.
  exists v. split; auto. now apply dict_get_app_l.
Qed.

Lemma core_ir_wf s s' : core s = core s' -> ir_wf s -> ir_wf s'.
Proof.
  unfold core, ir_wf. intros Hc.
  assert (Hv : _variables s' = _variables s) by congruence.
  assert (Hr : _rules s' = _rules s) by congruence.
  now rewrite Hv, Hr.
Qed.

Lemma parse_block_ir_wf l s ls s' ls' :
  ir_wf s -> parse_block l s ls = Ok (tt, s', ls') -> ir_wf s'.
Proof.
  intros [Hwf Hrules]. unfold parse_block.
  destruct (l =? "begin_variable")%string.
  { intros Hrun.
    destruct (parse_variable_appends _ _ _ _ _ Hwf Hrun)
      as (v & Hname & Hvars & Hr).
    split.
    - rewrite Hvars. now apply vars_wf_snoc.
    - rewrite Hvars, Hr. eapply Forall_impl; [|exact Hrules].
      intros r. apply head_ok_snoc. }
  destruct (l =? "begin_rule")%string.
  { intros Hrun. apply parse_rule_inv in Hrun.
    destruct Hrun as (r & Hok & ->).
    unfold ir_wf, register_head. simpl. split; auto.
    apply Forall_app. split; auto. }
  destruct (l =? "begin_operator")%string.
  { intros Hrun. apply parse_operator_core in Hrun.
    eapply core_ir_wf; [exact Hrun|]. split; auto. }
  destruct (l =? "begin_goal")%string.
  { intros Hrun. apply parse_goal_core in Hrun.
    eapply core_ir_wf; [exact Hrun|]. split; auto. }
  destruct (l =? "begin_state")%string.
  { intros Hrun. apply parse_state_core in Hrun.
    eapply core_ir_wf; [exact Hrun|]. split; auto. }
  intros Hrun. inversion Hrun. subst. split; auto.
Qed.

Lemma parse_lines_ir_wf ls s : parse_lines ls = Some (Ok s) -> ir_wf s.
Proof.
  apply (parse_lines_invariant ir_wf).
  - split; [|constructor]. intros k i v Hn. destruct k; discriminate.
  - intros l s0 ls0 s' ls'. apply parse_block_ir_wf.
Qed.

(* ================================================================== *)
(** ** Sample documents *)

Example parse_doc_two_vars : _parse doc_two_vars = Some (Ok sas_two_vars).
Proof. vm_compute. reflexivity. Qed.

Example transform_doc_two_vars :
  snd (transform sas_two_vars new_enc)
  = Ok (mkModel [(Some "var0", 0); (Some "var1", 0)] []
                [ mkTransition (Some "set-b") (PlusStateCost 1)
                               [CEq (EVar 0) (EConst 0)] [(1%nat, 1)] ]
                [ [CEq (EVar 1) (EConst 1)] ]).
Proof. vm_compute. reflexivity. Qed.

(* ================================================================== *)
(** ** Variable blocks *)

Lemma for_each_get_lines (xs : list Z) :
  forall vals acc s rest,
    List.length xs = List.length vals ->
    for_each xs (fun _ acc => l <- get_line ;; ret (acc ++ [l])) acc s
             (vals ++ rest)
    = Ok (acc ++ map (fun l => Some (remove_newlines l)) vals, s, rest).
Proof.
  induction xs as [|x xs IH]; intros vals acc s rest Hlen;
    destruct vals as [|v vals]; try discriminate; simpl.
  - now rewrite app_nil_r.
  - unfold bind at 1. unfold bind at 1. simpl.
    rewrite IH by (simpl in Hlen; lia).
    now rewrite <- app_assoc.
Qed.

Lemma get_lines_app vals s rest :
  get_lines (Z.of_nat (List.length vals)) s (vals ++ rest)
  = Ok (map (fun l => Some (remove_newlines l)) vals, s, rest).
Proof.
  unfold get_lines. rewrite for_each_get_lines; auto.
  unfold py_range. now rewrite length_map, length_seq, Nat2Z.id.
Qed.

(** A variable block whose declared name is not [var<i>], for [i] the
    number of variables declared before it, fails the assertion. *)
Lemma parse_variable_mismatch s name layer n vals rest lz :
  py_int (remove_newlines layer) = Ok lz ->
  py_int (remove_newlines n) = Ok (Z.of_nat (List.length vals)) ->
  remove_newlines name
  <> ("var" ++ str_of_nat (List.length (_variables s)))%string ->
  parse_variable s (name :: layer :: n :: vals ++ "end_variable" :: rest)
  = Raise (AssertionError no_msg).
Proof.
  intros Hlayer Hn Hname. unfold parse_variable.
  unfold bind at 1. simpl get_line. cbv iota beta.
  unfold bind at 1. simpl get_line. cbv iota beta.
  unfold bind at 1. simpl int_of_line. rewrite Hlayer. simpl lift.
  unfold ret at 1. cbv iota beta.
  unfold bind at 1. simpl get_line. cbv iota beta.
  unfold bind at 1. simpl int_of_line. rewrite Hn. simpl lift.
  unfold ret at 1. cbv iota beta.
  unfold bind at 1. rewrite get_lines_app.
  unfold bind at 1. simpl get_line. cbv iota beta.
  unfold bind at 1. simpl.
  unfold bind at 1. simpl.
  unfold bind at 1.
  apply String.eqb_neq in Hname. simpl in Hname. rewrite Hname. reflexivity.
Qed.

(* ================================================================== *)
(** ** Rule blocks *)

Example parse_doc_axiom : _parse doc_axiom = Some (Ok sas_axiom).
Proof. vm_compute. reflexivity. Qed.

Example parse_doc_false_rule :
  _parse doc_false_rule = Some (Raise (AssertionError no_msg)).
Proof. vm_compute. reflexivity. Qed.

Lemma check_head_false_head self var val s ls v :
  dict_get var (_variables self) = Some v ->
  boolean_domain v ->
  val <> 0 ->
  check_head self var val s ls = Raise (AssertionError no_msg).
Proof.
  intros Hg (a & b & Hvals & Ha & Hb) Hval. unfold check_head.
  rewrite Hg, Hvals. unfold bind, value_startswith. simpl.
  rewrite Ha, Hb. simpl.
  apply Z.eqb_neq in Hval. now rewrite Hval.
Qed.

Lemma check_head_rejects_false self var val s ls :
  val <> 0 -> exists e, check_head self var val s ls = Raise e.
Proof.
  intros Hval.
  destruct (check_head self var val s ls) as [[[u s'] ls']|e] eqn:E; eauto.
  apply check_head_inv in E. destruct E as [[_ Hv] _]. simpl in Hv.
  contradiction.
Qed.

(* ================================================================== *)
(** ** Operator costs *)

Lemma round_div_exact (a d : Z) : 0 < d -> round_div (a * d) d = a.
Proof.
  intros Hd. unfold round_div.
  rewrite Z.div_mul by lia. rewrite Z.mod_mul by lia.
  assert (H : (2 * 0 <? d) = true) by (apply Z.ltb_lt; lia).
  now rewrite H.
Qed.

Lemma cost_of_float_integral (x : spec_float) (z : Z) :
  cost_of_float x = Ok z <-> float_value_is x z.
Proof.
  unfold cost_of_float. split.
  - destruct (py_round x) as [z'|e] eqn:Er; [|discriminate].
    destruct (int_eq_float z' x) eqn:Ei; [|discriminate].
    intros Heq. inversion Heq. subst z'. clear Heq Er.
    destruct x as [sg|sg| |sg m e];
      unfold int_eq_float, float_value_is in *; cbv zeta in *;
      try discriminate.
    + now apply Z.eqb_eq.
    + destruct (0 <=? e); now apply Z.eqb_eq.
  - destruct x as [sg|sg| |sg m e];
      unfold py_round, int_eq_float, float_value_is; cbv zeta;
      try contradiction.
    + intros ->. reflexivity.
    + destruct (0 <=? e) eqn:Ee.
      * intros ->.
        assert (Hr : (if sg then - (Z.pos m * 2 ^ e) else Z.pos m * 2 ^ e)
                     = (if sg then - Z.pos m else Z.pos m) * 2 ^ e)
          by (destruct sg; lia).
        rewrite Hr, Z.eqb_refl. reflexivity.
      * intros Hz. apply Z.leb_gt in Ee.
        assert (Hp : 0 < 2 ^ (- e)) by (apply Z.pow_pos_nonneg; lia).
        assert (Hrd : round_div (Z.pos m) (2 ^ (- e))
                      = if sg then - z else z).
        { assert (Hm : Z.pos m = (if sg then - z else z) * 2 ^ (- e))
            by (destruct sg; lia).
          rewrite Hm. now apply round_div_exact. }
        rewrite Hrd.
        assert (Hr : (if sg then - (if sg then - z else z)
                      else if sg then - z else z) = z)
          by (destruct sg; lia).
        rewrite Hr. apply Z.eqb_eq in Hz. rewrite Hz. reflexivity.
Qed.

Lemma cost_of_float_fractional sg m e :
  (forall z, ~ float_value_is (S754_finite sg m e) z) ->
  cost_of_float (S754_finite sg m e)
  = Raise (AssertionError "action costs must be int").
Proof.
  intros Hfrac. unfold cost_of_float.
  destruct (py_round (S754_finite sg m e)) as [z|x] eqn:Er;
    [|simpl in Er; discriminate].
  destruct (int_eq_float z (S754_finite sg m e)) eqn:Ei; auto.
  exfalso. apply (Hfrac z). apply cost_of_float_integral.
  unfold cost_of_float. now rewrite Er, Ei.
Qed.

Lemma parse_cost_eq s l rest :
  parse_cost s (l :: rest)
  = match py_float (remove_newlines l) with
    | Ok x =>
        match cost_of_float x with
        | Ok z => Ok (z, s, rest)
        | Raise e => Raise e
        end
    | Raise e => Raise e
    end.
Proof.
  unfold parse_cost, bind. simpl.
  destruct (py_float (remove_newlines l)) as [x|e]; simpl; auto.
  destruct (cost_of_float x); reflexivity.
Qed.

Example parse_doc_negative_cost :
  _parse doc_negative_cost = Some (Ok sas_negative_cost).
Proof. vm_compute. reflexivity. Qed.

(** C4, as stated, fails: an operator with a negative integer cost is
    accepted and its cost stored. *)
Lemma negative_cost_accepted :
  ~ (forall sas_content s op,
        _parse sas_content = Some (Ok s) ->
        In op (_operators s) -> 0 <= op_cost op).
Proof.
  intros Hall.
  specialize (Hall doc_negative_cost sas_negative_cost
                     (mkOperator (Some "flip") [(0, 0)] [(0, 1)] (-1))
                     parse_doc_negative_cost (or_introl eq_refl)).
  simpl in Hall. lia.
Qed.

(* ================================================================== *)
(** ** The pre-values of effect records *)

(** An unguarded effect record stores its pre-value, whatever it is, under
    its variable in the precondition map. *)
Lemma effect_record_stores pre eff s l rest var p post :
  int_tok 0 (py_split (remove_newlines l)) = Ok 0 ->
  int_tok 1 (py_split (remove_newlines l)) = Ok var ->
  int_tok 2 (py_split (remove_newlines l)) = Ok p ->
  int_tok 3 (py_split (remove_newlines l)) = Ok post ->
  dict_mem var pre = false ->
  dict_mem var eff = false ->
  effect_record (pre, eff) s (l :: rest)
  = Ok ((dict_set var p pre, dict_set var post eff), s, rest).
Proof.
  intros H0 H1 H2 H3 Hpre Heff. unfold effect_record.
  unfold bind at 1. simpl get_line. cbv iota beta.
  unfold bind at 1. simpl split_line. simpl lift. unfold ret at 1.
  cbv iota beta.
  unfold bind at 1. rewrite H0. simpl lift. unfold ret at 1. cbv iota beta.
  unfold bind at 1. rewrite H1. simpl lift. unfold ret at 1. cbv iota beta.
  unfold bind at 1. rewrite H2. simpl lift. unfold ret at 1. cbv iota beta.
  unfold bind at 1. rewrite H3. simpl lift. unfold ret at 1. cbv iota beta.
  simpl negb. cbv iota.
  unfold bind. rewrite Hpre, Heff. reflexivity.
Qed.

Lemma operator_preconditions_constrained self didp items os :
  operator_preconditions self didp items = Ok os ->
  Forall2 (fun vv o =>
             snd vv <> (-1) /\
             operator_precondition self didp vv = Ok (Some o))
          (constrained items) os.
Proof.
  revert os.
  induction items as [|[var val] items IH]; intros os Hrun;
    cbn [operator_preconditions] in Hrun.
  - inversion Hrun. constructor.
  - unfold rbind in Hrun.
    destruct (operator_precondition self didp (var, val)) as [c|e] eqn:Ec;
      [|discriminate].
    destruct (operator_preconditions self didp items) as [os'|e] eqn:Ecs;
      [|discriminate].
    inversion Hrun. subst os. clear Hrun.
    unfold constrained. simpl.
    destruct (val =? -1) eqn:Ev; simpl.
    + unfold operator_precondition in Ec. rewrite Ev in Ec.
      inversion Ec. subst c. now apply IH.
    + destruct c as [c|].
      * constructor; [|now apply IH]. split; auto. simpl.
        apply Z.eqb_neq in Ev. exact Ev.
      * exfalso. unfold operator_precondition, rbind in Ec.
        rewrite Ev in Ec.
        destruct (negb (dict_mem var (_axiom_heads self)));
          destruct (dict_lookup var didp) as [o|]; try discriminate.
        destruct (obj_eq_int o val); discriminate.
Qed.

Lemma as_conditions_ok os cs :
  as_conditions os = Ok cs -> os = map (fun c => ObjV (CondH c)) cs.
Proof.
  revert cs. induction os as [|o os IH]; intros cs Hrun;
    cbn [as_conditions] in Hrun.
  - inversion Hrun. reflexivity.
  - unfold rbind in Hrun.
    destruct o as [[v|c]|b]; simpl in Hrun; try discriminate.
    destruct (as_conditions os) as [cs'|e]; [|discriminate].
    inversion Hrun. subst cs. simpl. now rewrite (IH cs').
Qed.

Lemma Forall2_map_CondH {A} (P : A -> PyVal -> Prop) l cs :
  Forall2 P l (map (fun c => ObjV (CondH c)) cs) ->
  Forall2 (fun x c => P x (ObjV (CondH c))) l cs.
Proof.
  revert l. induction cs as [|c cs IH]; intros l Hall; simpl in Hall;
    inversion Hall; subst; constructor; auto.
Qed.

(** The transitions that [_handle_operators] registers: one for each
    operator, in order, built from the constrained entries only. *)
Lemma handle_operators_loop (self : Sas) (ops : list Operator) :
  forall e e',
    hfor_each ops
      (fun op =>
         e <~ hget ;;
         preconditions <~
           hlift (operator_preconditions self (_didp_variables e)
                                         (op_preconditions op)) ;;
         effects <~
           hlift (operator_effects self (_didp_variables e)
                                   (op_effects op)) ;;
         cost <~ hlift (plus_state_cost (op_cost op)) ;;
         didp_action <~
           hlift (make_transition (op_name op) cost preconditions effects) ;;
         add_transition didp_action) e
    = (e', Ok tt) ->
    _didp_variables e' = _didp_variables e /\
    exists ts,
      transitions (_model e') = transitions (_model e) ++ ts /\
      Forall2 (fun op t =>
                 t_name t = op_name op /\
                 conditions_of self (_didp_variables e)
                               (op_preconditions op) (t_preconditions t))
              ops ts.
Proof.
  induction ops as [|op ops IH]; intros e e' Hrun; simpl in Hrun.
  - inversion Hrun. subst. split; auto. exists []. rewrite app_nil_r.
    split; auto.
  - unfold hbind at 1 in Hrun. unfold hbind at 1 in Hrun.
    unfold hget at 1 in Hrun.
    unfold hbind at 1 in Hrun. unfold hlift at 1 in Hrun.
    destruct (operator_preconditions self (_didp_variables e)
                                     (op_preconditions op))
      as [os|x] eqn:Eos; [|discriminate].
    unfold hbind at 1 in Hrun. unfold hlift at 1 in Hrun.
    destruct (operator_effects self (_didp_variables e) (op_effects op))
      as [es|x] eqn:Ees; [|discriminate].
    unfold hbind at 1 in Hrun. unfold hlift at 1 in Hrun.
    destruct (plus_state_cost (op_cost op)) as [cost|x] eqn:Ecost;
      [|discriminate].
    unfold hbind at 1 in Hrun. unfold hlift at 1 in Hrun.
    destruct (make_transition (op_name op) cost os es)
      as [t|x] eqn:Et; [|discriminate].
    unfold add_transition at 1 in Hrun.
    destruct (t_cost t); [|discriminate].
    apply IH in Hrun. simpl in Hrun. destruct Hrun as (Hd & ts & Ht & Hall).
    split; auto.
    exists (t :: ts). split.
    + rewrite Ht. now rewrite <- app_assoc.
    + constructor; auto.
      unfold make_transition, rbind in Et.
      destruct (as_conditions os) as [cs|] eqn:Ecs; [|discriminate].
      destruct (as_effects es) as [es'|]; [|discriminate].
      inversion Et. subst t. simpl. split; auto.
      apply as_conditions_ok in Ecs. subst os.
      apply (Forall2_map_CondH
               (fun vv o =>
                  snd vv <> -1 /\
                  operator_precondition self (_didp_variables e) vv
                  = Ok (Some o))).
      now apply operator_preconditions_constrained.
Qed.

(** C5, as stated, fails: the pre-value [-1] of an effect record is stored
    in the precondition map of the parsed operator. *)
Lemma dont_care_pre_value_stored :
  ~ (forall sas_content s op var,
        _parse sas_content = Some (Ok s) ->
        In op (_operators s) ->
        ~ In (var, -1) (op_preconditions op)).
Proof.
  intros Hall.
  apply (Hall doc_two_vars sas_two_vars
                (mkOperator (Some "set-b") [(0, 0); (1, -1)] [(1, 1)] 1) 1
                parse_doc_two_vars (or_introl eq_refl)).
  simpl. right. left. reflexivity.
Qed.

(* ================================================================== *)
(** ** Duplicate keys *)

(** In a rule block the second pair of a variable replaces the first,
    whatever the map holds: the assertion cannot fail. *)
Lemma rule_precondition_overwrites pre s l rest a b va vb :
  py_split (remove_newlines l) = [a; b] ->
  py_int a = Ok va ->
  py_int b = Ok vb ->
  rule_precondition pre s (l :: rest) = Ok (dict_set va vb pre, s, rest).
Proof.
  intros Hs Ha Hb. unfold rule_precondition.
  unfold bind at 1. simpl get_line. cbv iota beta.
  unfold bind at 1. simpl split_line. rewrite Hs. simpl lift.
  unfold ret at 1. cbv iota beta.
  unfold bind at 1. simpl unpack2. simpl lift. unfold ret at 1.
  cbv iota beta.
  unfold bind at 1. rewrite Hb. simpl lift. unfold ret at 1. cbv iota beta.
  rewrite py_in_str_never. simpl negb.
  unfold bind at 1. simpl assert_. unfold ret at 1. cbv iota beta.
  unfold bind at 1. rewrite Ha. reflexivity.
Qed.

(** In an operator's precondition list and in the goal, a second pair of
    a variable fails the assertion. *)
Lemma assignment_pair_rejects_duplicate d s l rest a b va vb :
  py_split (remove_newlines l) = [a; b] ->
  py_int a = Ok va ->
  py_int b = Ok vb ->
  dict_mem va d = true ->
  assignment_pair d s (l :: rest) = Raise (AssertionError no_msg).
Proof.
  intros Hs Ha Hb Hmem. unfold assignment_pair.
  unfold bind at 1. simpl get_line. cbv iota beta.
  unfold bind at 1. simpl split_line. rewrite Hs. simpl lift.
  unfold ret at 1. cbv iota beta.
  unfold bind at 1. simpl unpack2. simpl lift. unfold ret at 1.
  cbv iota beta.
  unfold bind at 1. rewrite Ha. simpl lift. unfold ret at 1. cbv iota beta.
  unfold bind at 1. rewrite Hb. simpl lift. unfold ret at 1. cbv iota beta.
  unfold bind at 1. rewrite Hmem. reflexivity.
Qed.

(** C6. A rule block that names a variable twice is accepted, the second
    value replacing the first, while the same duplicate in an operator's
    precondition list or in the goal fails an assertion. *)
Theorem duplicate_rule_key_accepted :
  (exists s,
      _parse doc_duplicate_rule_key = Some (Ok s) /\
      _rules s = [mkRule [(0, 1)] 1 0]) /\
  _parse doc_duplicate_operator_key = Some (Raise (AssertionError no_msg)) /\
  _parse doc_duplicate_goal_key = Some (Raise (AssertionError no_msg)).
Proof.
  split; [|split].
  - eexists. split; vm_compute; reflexivity.
  - vm_compute. reflexivity.
  - vm_compute. reflexivity.
Qed.

(* ================================================================== *)
(** ** The goal on derived variables *)

(** For a derived variable, the goal handler and the rule bodies read the
    two values in opposite ways: [get_atom] takes 0 as the function itself
    and 1 as its negation, [goal_condition] takes 1 as the function itself
    and 0 as its negation. *)
Lemma derived_polarity self didp var c :
  dict_mem var (_axiom_heads self) = true ->
  dict_get var didp = Some (CondH c) ->
  get_atom self didp (var, 0) = Ok (ObjV (CondH c)) /\
  get_atom self didp (var, 1) = Ok (ObjV (CondH (CNot c))) /\
  goal_condition self didp (var, 0) = Ok (ObjV (CondH (CNot c))) /\
  goal_condition self didp (var, 1) = Ok (ObjV (CondH c)).
Proof.
  intros Hm Hg. unfold get_atom, goal_condition, dict_lookup, rbind.
  rewrite Hm, Hg. simpl. auto.
Qed.

Lemma primitive_goal_condition self didp var val v :
  dict_mem var (_axiom_heads self) = false ->
  dict_get var didp = Some (IntVarH v) ->
  goal_condition self didp (var, val) = obj_eq_int (IntVarH v) val.
Proof.
  intros Hm Hg. unfold goal_condition, dict_lookup, rbind.
  now rewrite Hm, Hg.
Qed.

(** C1. On [doc_axiom] the goal asks for the derived variable [var1] with
    value 0, that is on.  The base case that [_handle_goal] registers is
    the negation of the function of [var1]: it holds in the state where
    [var0 = 0], in which [var1] is off, and fails in the state where
    [var0 = 1], in which [var1] is on. *)
Theorem goal_on_derived_variable_negated :
  _goal sas_axiom = [(1, 0)] /\
  _handle_axioms 2 sas_axiom (fst (_handle_variables sas_axiom new_enc))
  = Some (enc_axiom, Ok tt) /\
  base_cases (_model (fst (_handle_goal sas_axiom enc_axiom)))
  = [[CNot (CFun 0)]] /\
  fun_values (_model enc_axiom) (fun _ => 1) 0%nat = true /\
  base_case_holds (_model enc_axiom) (fun _ => 1) [CNot (CFun 0)] = false /\
  fun_values (_model enc_axiom) (fun _ => 0) 0%nat = false /\
  base_case_holds (_model enc_axiom) (fun _ => 0) [CNot (CFun 0)] = true.
Proof. repeat split; vm_compute; reflexivity. Qed.

(* ================================================================== *)
(** ** Blocks met while parsing, and the two feature flags *)

(** From a configuration on the way, the loop ends as it does from the
    start. *)
Lemma parse_loop_from c s ls :
  parse_reaches c (s, ls) ->
  forall fuel r,
    parse_loop fuel (fst c) (snd c) = Some (Ok r) ->
    exists fuel', parse_loop fuel' s ls = Some (Ok r).
Proof.
  intros Hr.
  remember (s, ls) as c' eqn:Ec'. revert s ls Ec'.
  induction Hr as [c|s0 ls0 s1 ls1 c Hstep Hr IH]; intros s ls Ec' fuel r Hrun.
  - subst c. simpl in Hrun. eauto.
  - simpl in Hrun. destruct fuel as [|fuel]; [discriminate|].
    simpl in Hrun. rewrite Hstep in Hrun. eapply IH; eauto.
Qed.

(** A property that holds after the block that opens at a configuration on
    the way, and that every block keeps, holds of the parsed transformer. *)
Lemma after_block_invariant (I : Sas -> Prop) c s l rest fuel r :
  (forall l s ls s' ls',
      I s -> parse_block l s ls = Ok (tt, s', ls') -> I s') ->
  parse_reaches c (s, l :: rest) ->
  (forall s' ls',
      parse_block (remove_newlines l) s rest = Ok (tt, s', ls') -> I s') ->
  parse_loop fuel (fst c) (snd c) = Some (Ok r) ->
  I r.
Proof.
  intros Hkeep Hr Hblock Hrun.
  destruct (parse_loop_from _ _ _ Hr _ _ Hrun) as [fuel' Hrun'].
  destruct fuel' as [|fuel']; [discriminate|].
  simpl in Hrun'. unfold parse_step, get_line in Hrun'.
  destruct (parse_block (remove_newlines l) s rest)
    as [[[[] s1] ls1]|e] eqn:E; [|discriminate].
  apply (parse_loop_invariant (fun c => I (fst c))) in Hrun'; auto.
  - intros l0 s0 ls0 s' ls' HI Hb. simpl in *. eapply Hkeep; eauto.
  - simpl. eapply Hblock; eauto.
Qed.

(** No block lowers a flag. *)
Lemma parse_block_keeps_axioms_flag l :
  respects (raised _detected_axioms true) (parse_block l).
Proof.
  unfold parse_block, parse_variable, parse_rule, parse_operator, parse_goal,
    parse_state, get_lines, rule_precondition, check_head, assignment_pair,
    effect_record, parse_cost.
  frame_tac.
Qed.

Lemma parse_block_keeps_effects_flag l :
  respects (raised _detected_conditional_effects true) (parse_block l).
Proof.
  unfold parse_block, parse_variable, parse_rule, parse_operator, parse_goal,
    parse_state, get_lines, rule_precondition, check_head, assignment_pair,
    effect_record, parse_cost.
  frame_tac.
Qed.

Lemma parse_rule_raises_flag s ls u s' ls' :
  parse_rule s ls = Ok (u, s', ls') -> _detected_axioms s' = true.
Proof.
  intros Hrun. apply parse_rule_inv in Hrun. destruct Hrun as (r & _ & ->).
  reflexivity.
Qed.

Lemma app_same_length {A} (a a' b b' : list A) :
  List.length a = List.length a' -> a ++ b = a' ++ b' -> a = a' /\ b = b'.
Proof.
  revert a'. induction a as [|x a IH]; intros [|x' a'] Hlen Heq;
    try discriminate; simpl in *; auto.
  inversion Heq. subst. destruct (IH a') as [-> ->]; auto.
Qed.

(** A loop whose body reads exactly one line reads one line for each
    element. *)
Lemma for_each_consumes {X A} (xs : list X) (body : X -> A -> P A) :
  (forall x a s ls a' s' ls',
      body x a s ls = Ok (a', s', ls') -> exists l, ls = l :: ls') ->
  forall a s ls a' s' ls',
    for_each xs body a s ls = Ok (a', s', ls') ->
    exists taken,
      ls = taken ++ ls' /\ List.length taken = List.length xs.
Proof.
  intros Hb. induction xs as [|x xs IH]; intros a s ls a' s' ls' Hrun;
    simpl in Hrun.
  - inversion Hrun. subst. now exists [].
  - apply bind_inv in Hrun. destruct Hrun as (a1 & s1 & ls1 & H1 & H2).
    apply Hb in H1. destruct H1 as [l ->].
    apply IH in H2. destruct H2 as (taken & -> & Hlen).
    exists (l :: taken). simpl. auto.
Qed.

Lemma split_line_some l toks :
  split_line l = Ok toks -> exists x, l = Some x.
Proof. destruct l; simpl; [eauto|discriminate]. Qed.

Lemma hd_tl_some {A B} (f : A -> B) (ls : list A) (y : B) :
  option_map f (hd_error ls) = Some y -> exists l, ls = l :: tl ls.
Proof. destruct ls; simpl; [discriminate|eauto]. Qed.

Lemma assignment_pair_one_line d s ls d' s' ls' :
  assignment_pair d s ls = Ok (d', s', ls') -> exists l, ls = l :: ls'.
Proof.
  unfold assignment_pair. intros Hrun. pinv.
  match goal with
  | Hs : split_line _ = Ok _ |- _ =>
      apply split_line_some in Hs; destruct Hs as [? Hx];
      apply hd_tl_some in Hx
  end.
  pinv. assumption.
Qed.

Lemma effect_record_one_line acc s ls acc' s' ls' :
  effect_record acc s ls = Ok (acc', s', ls') -> exists l, ls = l :: ls'.
Proof.
  unfold effect_record. destruct acc as [pre eff]. intros Hrun. pinv.
  match goal with
  | Hs : split_line _ = Ok _ |- _ =>
      apply split_line_some in Hs; destruct Hs as [? Hx];
      apply hd_tl_some in Hx
  end.
  match goal with
  | Hi : (if ?b then _ else _) _ _ = Ok _ |- _ => destruct b; pinv
  end; assumption.
Qed.

(** A guarded effect record raises the conditional-effects flag. *)
Lemma effect_record_guarded acc s l rest acc' s' ls' c :
  effect_record acc s (l :: rest) = Ok (acc', s', ls') ->
  int_tok 0 (py_split (remove_newlines l)) = Ok c ->
  c <> 0 ->
  _detected_conditional_effects s' = true.
Proof.
  unfold effect_record. destruct acc as [pre eff]. intros Hrun Hc Hne. pinv.
  simpl in *.
  match goal with
  | Hs : Ok (py_split _) = Ok _ |- _ => inversion Hs; subst; clear Hs
  end.
  apply Z.eqb_neq in Hne.
  match goal with
  | Hi : (if negb (?x =? 0) then _ else _) _ _ = Ok _ |- _ =>
      assert (Hx : x = c) by congruence; rewrite Hx, Hne in Hi; simpl in Hi
  end.
  pinv. reflexivity.
Qed.

Lemma effect_records_keep_flag xs :
  forall acc,
    respects (raised _detected_conditional_effects true)
             (for_each xs (fun _ : Z => effect_record) acc).
Proof.
  apply respects_for_each; [typeclasses eauto|].
  intros x a. unfold effect_record. frame_tac.
Qed.

Lemma effect_records_guarded (xs : list Z) :
  forall effs tail acc s acc' s' ls',
    List.length xs = List.length effs ->
    (exists l c,
        In l effs /\
        int_tok 0 (py_split (remove_newlines l)) = Ok c /\ c <> 0) ->
    for_each xs (fun _ => effect_record) acc s (effs ++ tail)
    = Ok (acc', s', ls') ->
    _detected_conditional_effects s' = true.
Proof.
  induction xs as [|x xs IH]; intros effs tail acc s acc' s' ls' Hlen
    (l & c & Hin & Hc & Hne) Hrun;
    destruct effs as [|l0 effs]; try discriminate; simpl in Hin;
    [contradiction|].
  simpl in Hrun. apply bind_inv in Hrun.
  destruct Hrun as (a1 & s1 & ls1 & H1 & H2).
  destruct Hin as [->|Hin].
  - apply (effect_record_guarded _ _ _ _ _ _ _ c) in H1; auto.
    apply effect_records_keep_flag in H2. now apply H2.
  - destruct (effect_record_one_line _ _ _ _ _ _ H1) as [l1 Hl1].
    inversion Hl1. subst.
    eapply IH; [|exists l, c; eauto|exact H2]. simpl in Hlen. lia.
Qed.

Lemma py_range_length n : List.length (py_range (Z.of_nat n)) = n.
Proof. unfold py_range. now rewrite length_map, length_seq, Nat2Z.id. Qed.

(** An operator block with a guarded effect record raises the flag. *)
Lemma parse_operator_guarded s name npre pres neff effs tail u s' ls' :
  py_int (remove_newlines npre) = Ok (Z.of_nat (List.length pres)) ->
  py_int (remove_newlines neff) = Ok (Z.of_nat (List.length effs)) ->
  (exists l c,
      In l effs /\
      int_tok 0 (py_split (remove_newlines l)) = Ok c /\ c <> 0) ->
  parse_operator s (name :: npre :: pres ++ neff :: effs ++ tail)
  = Ok (u, s', ls') ->
  _detected_conditional_effects s' = true.
Proof.
  intros Hnpre Hneff Hguard Hrun. unfold parse_operator in Hrun.
  apply bind_inv in Hrun. destruct Hrun as (nm & s1 & ls1 & H1 & Hrun).
  apply get_line_inv in H1. destruct H1 as (-> & _ & ->). simpl tl in Hrun.
  apply bind_inv in Hrun. destruct Hrun as (l1 & s1 & ls1 & H1 & Hrun).
  apply get_line_inv in H1. destruct H1 as (-> & -> & ->).
  simpl in Hrun.
  apply bind_inv in Hrun. destruct Hrun as (n1 & s1 & ls1 & H1 & Hrun).
  apply lift_inv in H1. destruct H1 as (H1 & -> & ->).
  rewrite Hnpre in H1. inversion H1. subst n1. clear H1.
  apply bind_inv in Hrun. destruct Hrun as (pre & s1 & ls1 & H1 & Hrun).
  pose proof (assignment_pairs_state _ _ _ _ _ _ _ H1) as ->.
  apply (for_each_consumes _ _ (fun _ => assignment_pair_one_line)) in H1.
  destruct H1 as (taken & Happ & Hlen). rewrite py_range_length in Hlen.
  apply app_same_length in Happ; [|lia]. destruct Happ as [_ <-].
  apply bind_inv in Hrun. destruct Hrun as (l2 & s1 & ls1 & H1 & Hrun).
  apply get_line_inv in H1. destruct H1 as (-> & -> & ->).
  simpl in Hrun.
  apply bind_inv in Hrun. destruct Hrun as (n2 & s1 & ls1 & H1 & Hrun).
  apply lift_inv in H1. destruct H1 as (H1 & -> & ->).
  rewrite Hneff in H1. inversion H1. subst n2. clear H1.
  apply bind_inv in Hrun. destruct Hrun as (pe & s1 & ls1 & H1 & Hrun).
  apply effect_records_guarded in H1; auto using py_range_length.
  destruct pe as [pre' eff'].
  assert (Hkeep : respects (raised _detected_conditional_effects true)
                    (cost <- parse_cost ;;
                     self <- get_self ;;
                     modify (with_operators
                               (_operators self
                                ++ [mkOperator nm pre' eff' cost])) ;;;
                     l <- get_line ;;
                     assert_ (line_eqb l "end_operator"))).
  { unfold parse_cost. frame_tac. }
  apply Hkeep in Hrun. now apply Hrun.
Qed.

Lemma parse_reaches_snoc c s ls s' ls' :
  parse_reaches c (s, ls) ->
  parse_step s ls = Ok (Some (s', ls')) ->
  parse_reaches c (s', ls').
Proof.
  intros Hr Hs. remember (s, ls) as c1 eqn:Ec1.
  induction Hr as [c|s0 ls0 s1 ls1 c Hstep Hr IH]; subst.
  - eapply reaches_step; [exact Hs | apply reaches_here].
  - eapply reaches_step; eauto.
Qed.

Lemma parse_step_block s l ls s' ls' :
  parse_block (remove_newlines l) s ls = Ok (tt, s', ls') ->
  parse_step s (l :: ls) = Ok (Some (s', ls')).
Proof.
  intros Hb. unfold parse_step, get_line. now rewrite Hb.
Qed.

(* ================================================================== *)
(** ** The gate of [transform] *)

Lemma rule_block_sets_flag sas_content s :
  _parse sas_content = Some (Ok s) ->
  has_rule_block sas_content ->
  _detected_axioms s = true.
Proof.
  intros Hp (s0 & rest & l & Hr & Hl).
  eapply (after_block_invariant (fun s => _detected_axioms s = true));
    [ | exact Hr | | exact Hp ].
  - intros l1 s1 ls1 s' ls' HI Hb.
    exact (parse_block_keeps_axioms_flag l1 _ _ _ _ _ Hb HI).
  - rewrite Hl. intros s' ls'. apply parse_rule_raises_flag.
Qed.

Lemma guarded_effect_sets_flag sas_content s :
  _parse sas_content = Some (Ok s) ->
  has_guarded_effect sas_content ->
  _detected_conditional_effects s = true.
Proof.
  intros Hp (s0 & name & npre & pres & neff & effs & tail & l & c
             & (l0 & Hr & Hl0) & Hnpre & Hneff & Hin & Hc & Hne).
  eapply (after_block_invariant
            (fun s => _detected_conditional_effects s = true));
    [ | exact Hr | | exact Hp ].
  - intros l1 s1 ls1 s' ls' HI Hb.
    exact (parse_block_keeps_effects_flag l1 _ _ _ _ _ Hb HI).
  - rewrite Hl0. intros s' ls'.
    apply parse_operator_guarded; eauto.
Qed.

Lemma transform_gate s e :
  _detected_axioms s || _detected_conditional_effects s = true ->
  transform s e = (e, Raise (NotImplementedError unsupported_msg)).
Proof. intros Hf. unfold transform. now rewrite Hf. Qed.

Example rule_block_of_doc_false_rule : has_rule_block doc_false_rule.
Proof.
  unfold has_rule_block, dispatches. eexists. eexists. exists "begin_rule".
  split; [|reflexivity].
  do 4 (eapply reaches_step; [vm_compute; reflexivity|]).
  apply reaches_here.
Qed.

(** A document with a rule block that sets its head to 1 fails in the
    parser, with an assertion error, before the gate of [transform] is
    reached. *)
Example defective_rule_block_fails_in_parser :
  has_rule_block doc_false_rule /\
  translate doc_false_rule = Some (Raise (AssertionError no_msg)).
Proof.
  split; [exact rule_block_of_doc_false_rule|].
  vm_compute. reflexivity.
Qed.

(** C3, amended. For every document that the parser accepts and in which
    it meets a rule block or an effect record with a non-zero guard count,
    [transform] raises [NotImplementedError] with one fixed message that
    names both axioms and conditional effects, whichever was met, and
    leaves the encoder as it was: no state variable, transition or base
    case is added to the model.  The error is raised after the parser has
    returned. *)
Theorem unsupported_features_rejected :
  forall sas_content s,
    _parse sas_content = Some (Ok s) ->
    has_rule_block sas_content \/ has_guarded_effect sas_content ->
    (forall e,
        transform s e = (e, Raise (NotImplementedError unsupported_msg))) /\
    translate sas_content
    = Some (Raise (NotImplementedError unsupported_msg)).
Proof.
  intros sas_content s Hp Hfeat.
  assert (Hflag : _detected_axioms s || _detected_conditional_effects s
                  = true).
  { destruct Hfeat as [Hr|Hg].
    - rewrite (rule_block_sets_flag _ _ Hp Hr). reflexivity.
    - rewrite (guarded_effect_sets_flag _ _ Hp Hg). apply orb_true_r. }
  split.
  - intros e. now apply transform_gate.
  - unfold translate. rewrite Hp. now rewrite transform_gate.
Qed.

Lemma unsupported_features_rejected_witness :
  translate doc_axiom = Some (Raise (NotImplementedError unsupported_msg)) /\
  translate doc_guarded_effect
  = Some (Raise (NotImplementedError unsupported_msg)).
Proof.
  split.
  - apply (unsupported_features_rejected doc_axiom sas_axiom).
    + vm_compute. reflexivity.
    + left. unfold has_rule_block, dispatches.
      eexists. eexists. exists "begin_rule". split; [|reflexivity].
      do 6 (eapply reaches_step; [vm_compute; reflexivity|]).
      apply reaches_here.
  - apply (unsupported_features_rejected doc_guarded_effect
             (mkSas false true [(0, 0)] [(0, 1)]
                [ (0, mkVariable (Some "var0")
                        [Some "Atom a()"; Some "NegatedAtom a()"] (-1)) ]
                [] [ mkOperator (Some "flip") [] [] 1 ] [] [])).
    + vm_compute. reflexivity.
    + right. unfold has_guarded_effect, dispatches.
      eexists. exists "flip", "0", [], "1", ["1 0 0 0 -1 1"],
        ["1"; "end_operator"], "1 0 0 0 -1 1", 1.
      split; [|repeat split].
      * exists "begin_operator". split; [|reflexivity].
        do 3 (eapply reaches_step; [vm_compute; reflexivity|]).
        apply reaches_here.
      * now left.
      * lia.
Defined.

(* ================================================================== *)
(** ** A document without an initial state *)

Lemma parse_variable_init : respects (same_on _init) parse_variable.
Proof. unfold parse_variable, get_lines. frame_tac. Qed.

Lemma parse_rule_init : respects (same_on _init) parse_rule.
Proof.
  unfold parse_rule, rule_precondition, check_head. frame_tac.
Qed.

Lemma parse_operator_init : respects (same_on _init) parse_operator.
Proof.
  unfold parse_operator, assignment_pair, effect_record, parse_cost.
  frame_tac.
Qed.

Lemma parse_goal_init : respects (same_on _init) parse_goal.
Proof. unfold parse_goal, assignment_pair. frame_tac. Qed.

(** A state block met before any variable block reads no value. *)
Lemma parse_state_no_variables s ls u s' ls' :
  _variables s = [] -> parse_state s ls = Ok (u, s', ls') -> s' = s.
Proof.
  intros Hv. unfold parse_state. intros Hrun.
  apply bind_inv in Hrun. destruct Hrun as (self & s1 & ls1 & H1 & Hrun).
  apply get_self_inv in H1. destruct H1 as (-> & -> & ->).
  rewrite Hv in Hrun. simpl in Hrun. pinv. reflexivity.
Qed.

Lemma parse_block_init l s ls s' ls' :
  (l = "begin_state" -> _variables s = []) ->
  parse_block l s ls = Ok (tt, s', ls') ->
  _init s' = _init s.
Proof.
  intros Hstate. unfold parse_block.
  destruct (l =? "begin_variable")%string.
  { intros Hrun. symmetry. exact (parse_variable_init _ _ _ _ _ Hrun). }
  destruct (l =? "begin_rule")%string.
  { intros Hrun. symmetry. exact (parse_rule_init _ _ _ _ _ Hrun). }
  destruct (l =? "begin_operator")%string.
  { intros Hrun. symmetry. exact (parse_operator_init _ _ _ _ _ Hrun). }
  destruct (l =? "begin_goal")%string.
  { intros Hrun. symmetry. exact (parse_goal_init _ _ _ _ _ Hrun). }
  destruct (l =? "begin_state")%string eqn:El.
  { intros Hrun. apply String.eqb_eq in El.
    now rewrite (parse_state_no_variables _ _ _ _ _ (Hstate El) Hrun). }
  intros Hrun. inversion Hrun. reflexivity.
Qed.

Lemma init_stays_empty sas_content s :
  _parse sas_content = Some (Ok s) ->
  no_state_block_after_variables sas_content ->
  _init s = [].
Proof.
  intros Hp Hno.
  apply (parse_loop_invariant
           (fun c => parse_reaches (new_sas, splitlines sas_content) c /\
                     _init (fst c) = [])) in Hp.
  - apply Hp.
  - intros l s0 ls0 s' ls' [Hr Hi] Hb. simpl in *. split.
    + eapply parse_reaches_snoc; [exact Hr|]. now apply parse_step_block.
    + rewrite <- Hi. eapply parse_block_init; [|exact Hb].
      intros Hl. apply (Hno s0 ls0). exists l. split; auto.
  - split; [apply reaches_here | reflexivity].
Qed.

(** Without a rule block there is no derived variable. *)
Lemma heads_need_axioms_flag ls s :
  parse_lines ls = Some (Ok s) ->
  _detected_axioms s = true \/ _axiom_heads s = [].
Proof.
  apply (parse_lines_invariant
           (fun s => _detected_axioms s = true \/ _axiom_heads s = [])).
  - now right.
  - intros l s0 ls0 s' ls' HI. unfold parse_block.
    destruct (l =? "begin_variable")%string.
    { intros Hrun. apply parse_variable_inv in Hrun.
      destruct Hrun as (values & layer & ->). exact HI. }
    destruct (l =? "begin_rule")%string.
    { intros Hrun. left. eapply parse_rule_raises_flag; eauto. }
    assert (Hcore : core s0 = core s' ->
                    _detected_axioms s' = true \/ _axiom_heads s' = []).
    { unfold core. intros Hc.
      assert (Hh : _axiom_heads s' = _axiom_heads s0) by congruence.
      assert (Hd : _detected_axioms s' = _detected_axioms s0) by congruence.
      now rewrite Hh, Hd. }
    destruct (l =? "begin_operator")%string.
    { intros Hrun. apply Hcore. exact (parse_operator_core _ _ _ _ _ Hrun). }
    destruct (l =? "begin_goal")%string.
    { intros Hrun. apply Hcore. exact (parse_goal_core _ _ _ _ _ Hrun). }
    destruct (l =? "begin_state")%string.
    { intros Hrun. apply Hcore. exact (parse_state_core _ _ _ _ _ Hrun). }
    intros Hrun. inversion Hrun. subst. exact HI.
Qed.

(** [_handle_variables] on a transformer without initial values and
    without derived variables stops at the first variable. *)
Lemma handle_variables_no_init s e :
  vars_wf (_variables s) ->
  _variables s <> [] ->
  _axiom_heads s = [] ->
  _init s = [] ->
  _handle_variables s e = (mkEnc (_model e) [], Raise (KeyError 0)).
Proof.
  intros Hwf Hne Hh Hi. unfold _handle_variables.
  destruct (_variables s) as [|[i v] vars] eqn:Ev; [contradiction|].
  destruct (Hwf 0%nat i v eq_refl) as [-> _].
  unfold hbind at 1. simpl hfor_each. unfold hbind at 1.
  rewrite Hh, Hi. reflexivity.
Qed.

(** C10, as stated, fails: a document that declares the non-derived
    variable [var0], has no [begin_state] line and has a rule block is
    accepted by the constructor, and [transform] stops at its gate with
    [NotImplementedError], not with a key-lookup error. *)
Lemma missing_state_with_axioms_hits_gate :
  ~ (forall sas_content s,
        _parse sas_content = Some (Ok s) ->
        (exists i v, In (i, v) (_variables s) /\
                     dict_mem i (_axiom_heads s) = false) ->
        ~ In "begin_state" (splitlines sas_content) ->
        exists k, snd (transform s new_enc) = Raise (KeyError k)).
Proof.
  intros Hall.
  destruct (Hall doc_axiom_no_state sas_axiom_no_state) as [k Hk].
  - vm_compute. reflexivity.
  - exists 0, (mkVariable (Some "var0")
                          [Some "Atom p()"; Some "NegatedAtom p()"] (-1)).
    split; [now left | reflexivity].
  - vm_compute. intros H.
    repeat (destruct H as [H|H]; [discriminate|]). exact H.
  - vm_compute in Hk. discriminate.
Qed.

(** C10, amended. For every document that the parser accepts, in which it
    meets no rule block and no guarded effect (both flags are down), that
    declares at least one variable and has no [begin_state] block after a
    variable declaration: the parsed initial Assignment is empty, and
    [transform] fails with [KeyError(0)] on the initial value of the first
    variable, having emptied [_didp_variables] and added nothing to the
    model. *)
Theorem missing_state_fails_in_transform :
  forall sas_content s,
    _parse sas_content = Some (Ok s) ->
    _detected_axioms s = false ->
    _detected_conditional_effects s = false ->
    _variables s <> [] ->
    no_state_block_after_variables sas_content ->
    _init s = [] /\
    (forall e, transform s e = (mkEnc (_model e) [], Raise (KeyError 0))) /\
    translate sas_content = Some (Raise (KeyError 0)).
Proof.
  intros sas_content s Hp Hax Hce Hne Hno.
  assert (Hi : _init s = []) by (eapply init_stays_empty; eauto).
  assert (Hh : _axiom_heads s = []).
  { destruct (heads_need_axioms_flag _ _ Hp) as [Hf|Hh]; auto. congruence. }
  assert (Hwf : vars_wf (_variables s)) by (apply parse_lines_ir_wf in Hp; apply Hp).
  assert (Ht : forall e,
             transform s e = (mkEnc (_model e) [], Raise (KeyError 0))).
  { intros e. unfold transform. rewrite Hax, Hce. simpl.
    unfold hbind at 1. now rewrite handle_variables_no_init. }
  repeat split; auto.
  unfold translate. rewrite Hp. now rewrite Ht.
Qed.

(** Go through the configurations of a concrete run. *)
Ltac walk_run Hr Hl :=
  inversion Hr; subst; clear Hr;
  lazymatch goal with
  | Hstep : parse_step _ _ = Ok (Some _), Hr' : parse_reaches _ _ |- _ =>
      vm_compute in Hstep;
      first [ discriminate Hstep
            | inversion Hstep; subst; clear Hstep; walk_run Hr' Hl ]
  | _ => first [ vm_compute in Hl; discriminate | reflexivity ]
  end.

Lemma missing_state_fails_in_transform_witness :
  _init sas_no_state = [] /\
  (forall e,
      transform sas_no_state e = (mkEnc (_model e) [], Raise (KeyError 0))) /\
  translate doc_no_state = Some (Raise (KeyError 0)).
Proof.
  apply (missing_state_fails_in_transform doc_no_state sas_no_state).
  - vm_compute. reflexivity.
  - reflexivity.
  - reflexivity.
  - discriminate.
  - intros s rest (l & Hr & Hl). vm_compute in Hr. walk_run Hr Hl.
Defined.

(* ================================================================== *)
(** ** The stratifier: rounds as a function of the round number *)

(** The inner loop of a round computes a maximum. *)
Section LayerUpdate.
Variable cur_V : dict Z.

Let step (update i : Z) : Z :=
  match dict_get i cur_V with
  | Some c => Z.max update (c + 1)
  | None => update
  end.

Lemma fold_update_ge (body : list Z) (u : Z) : u <= fold_left step body u.
Proof.
  revert u. induction body as [|i body IH]; intros u; simpl; [lia|].
  specialize (IH (step u i)). unfold step in *.
  destruct (dict_get i cur_V); lia.
Qed.

Lemma fold_update_child (body : list Z) (u i c : Z) :
  In i body -> dict_get i cur_V = Some c -> c + 1 <= fold_left step body u.
Proof.
  revert u. induction body as [|j body IH]; intros u Hin Hg; simpl;
    [contradiction|].
  destruct Hin as [->|Hin].
  - assert (Hs : step u i = Z.max u (c + 1))
      by (unfold step; now rewrite Hg).
    pose proof (fold_update_ge body (step u i)) as Hge.
    rewrite Hs in *. lia.
  - now apply IH.
Qed.

Lemma fold_update_attained (body : list Z) (u : Z) :
  fold_left step body u = u \/
  exists i c,
    In i body /\ dict_get i cur_V = Some c /\ fold_left step body u = c + 1.
Proof.
  revert u. induction body as [|j body IH]; intros u; simpl; [now left|].
  destruct (IH (step u j)) as [Heq|(i & c & Hin & Hg & Heq)].
  - rewrite Heq. unfold step.
    destruct (dict_get j cur_V) as [c|] eqn:Ej; [|now left].
    destruct (Z.max_spec u (c + 1)) as [[_ Hm]|[_ Hm]]; rewrite Hm.
    + right. exists j, c. auto.
    + now left.
  - right. exists i, c. auto.
Qed.

Lemma layer_update_ge_1 (body : list Z) : 1 <= layer_update cur_V body.
Proof. apply fold_update_ge. Qed.

Lemma layer_update_child (body : list Z) (i c : Z) :
  In i body -> dict_get i cur_V = Some c ->
  c + 1 <= layer_update cur_V body.
Proof. apply fold_update_child. Qed.

Lemma layer_update_attained (body : list Z) :
  layer_update cur_V body = 1 \/
  exists i c,
    In i body /\ dict_get i cur_V = Some c /\
    layer_update cur_V body = c + 1.
Proof. apply fold_update_attained. Qed.
End LayerUpdate.

Lemma layer_update_max_layer (V : dict Z) (body : pyset) :
  layer_update V body = 1 + max_layer V body.
Proof.
  unfold layer_update, max_layer.
  assert (Hgen : forall m,
             fold_left
               (fun update i =>
                  match dict_get i V with
                  | Some c => Z.max update (c + 1)
                  | None => update
                  end) body (1 + m)
             = 1 + fold_left
                     (fun m i =>
                        match dict_get i V with
                        | Some c => Z.max m c
                        | None => m
                        end) body m).
  { induction body as [|i body IH]; intros m; cbn [fold_left]; auto.
    destruct (dict_get i V) as [c|]; [|apply IH].
    replace (Z.max (1 + m) (c + 1)) with (1 + Z.max m c) by lia.
    apply IH. }
  apply (Hgen 0).
Qed.

Section Rounds.
Variable edges : dict pyset.
Hypothesis edges_wf : NoDup (dict_keys edges).

Lemma tab_keys g : dict_keys (tab edges g) = dict_keys edges.
Proof. unfold tab, dict_keys. rewrite map_map. reflexivity. Qed.

Lemma dict_get_tab g i :
  dict_get i (tab edges g) = if dict_mem i edges then Some (g i) else None.
Proof.
  unfold tab, dict_mem. clear edges_wf.
  induction edges as [|[k b] rest IH]; simpl; auto.
  destruct (i =? k) eqn:E; auto.
  apply Z.eqb_eq in E. now subst.
Qed.

Lemma dict_get_tab_head g i :
  In i (dict_keys edges) -> dict_get i (tab edges g) = Some (g i).
Proof.
  intros Hin. rewrite dict_get_tab.
  apply dict_mem_keys in Hin. now rewrite Hin.
Qed.

Lemma dict_get_tab_some g i c :
  dict_get i (tab edges g) = Some c -> In i (dict_keys edges) /\ c = g i.
Proof.
  rewrite dict_get_tab. destruct (dict_mem i edges) eqn:E; [|discriminate].
  intros Heq. inversion Heq. split; auto. now apply dict_mem_keys.
Qed.

Lemma depends_head h i : depends edges h i -> In h (dict_keys edges).
Proof.
  intros [Hin _]. unfold body_of in Hin.
  destruct (dict_get h edges) as [b|] eqn:E; [|contradiction].
  apply dict_get_In in E. apply (in_map fst) in E. exact E.
Qed.

Lemma layer_ge_1 k h : 1 <= layer edges (S k) h.
Proof. simpl. apply layer_update_ge_1. Qed.

Lemma layer_child k h i : depends edges h i -> layer edges k i + 1 <= layer edges (S k) h.
Proof.
  intros [Hin Hk]. simpl. eapply layer_update_child; eauto.
  now apply dict_get_tab_head.
Qed.

Lemma layer_attained k h :
  layer edges (S k) h = 1 \/
  exists i, depends edges h i /\ layer edges (S k) h = layer edges k i + 1.
Proof.
  simpl.
  destruct (layer_update_attained (tab edges (layer edges k)) (body_of edges h))
    as [H1|(i & c & Hin & Hg & Heq)]; [now left|].
  apply dict_get_tab_some in Hg. destruct Hg as [Hk ->].
  right. exists i. split; auto. split; auto.
Qed.

Lemma layer_mono k h : layer edges k h <= layer edges (S k) h.
Proof.
  revert h. induction k as [|k IH]; intros h.
  - pose proof (layer_ge_1 0 h). simpl in *. lia.
  - destruct (layer_attained k h) as [H1|(i & Hd & Heq)].
    + pose proof (layer_ge_1 (S k) h). lia.
    + pose proof (layer_child (S k) h i Hd). specialize (IH i). lia.
Qed.

Lemma layer_le_round k h : layer edges k h <= Z.of_nat k.
Proof.
  revert h. induction k as [|k IH]; intros h; [simpl; lia|].
  destruct (layer_attained k h) as [H1|(i & Hd & Heq)].
  - lia.
  - specialize (IH i). lia.
Qed.

(** A value that still changes in round [k + 1] is [k + 1]. *)
Lemma layer_changes k h :
  layer edges (S k) h <> layer edges k h -> layer edges (S k) h = Z.of_nat (S k).
Proof.
  revert h. induction k as [|k IH]; intros h Hne.
  - destruct (layer_attained 0 h) as [H1|(i & Hd & Heq)]; [lia|].
    simpl in Heq. simpl. lia.
  - pose proof (layer_mono (S k) h) as Hm.
    destruct (layer_attained (S k) h) as [H1|(i & Hd & Heq)].
    + pose proof (layer_ge_1 k h). lia.
    + destruct (Z.eq_dec (layer edges (S k) i) (layer edges k i)) as [Hsame|Hdiff].
      * pose proof (layer_child k h i Hd). lia.
      * rewrite (IH i Hdiff) in Heq. lia.
Qed.
End Rounds.

Lemma dict_get_nodup_in {V} (k : Z) (v : V) (d : dict V) :
  NoDup (dict_keys d) -> In (k, v) d -> dict_get k d = Some v.
Proof.
  induction d as [|[k' v'] d IH]; simpl; intros Hnd Hin; [contradiction|].
  inversion Hnd as [|? ? Hnotin Hnd']. subst.
  destruct Hin as [Heq|Hin].
  - inversion Heq. subst. now rewrite Z.eqb_refl.
  - destruct (k =? k') eqn:E; [|auto].
    apply Z.eqb_eq in E. subst. exfalso. apply Hnotin.
    apply (in_map fst) in Hin. exact Hin.
Qed.

Lemma dict_set_app_present {V} (k : Z) (v x : V) (pre rest : dict V) :
  ~ In k (dict_keys pre) ->
  dict_set k v (pre ++ (k, x) :: rest) = pre ++ (k, v) :: rest.
Proof.
  induction pre as [|[k' v'] pre IH]; simpl; intros Hn.
  - now rewrite Z.eqb_refl.
  - destruct (k =? k') eqn:E.
    + apply Z.eqb_eq in E. subst. exfalso. apply Hn. now left.
    + rewrite IH; auto.
Qed.

(** A round overwrites every value, in place. *)
Lemma relax_all (edges : dict pyset) (cur_V : dict Z) :
  NoDup (dict_keys edges) ->
  forall new_V,
    dict_keys new_V = dict_keys edges ->
    relax edges cur_V new_V
    = map (fun hb => (fst hb, layer_update cur_V (snd hb))) edges.
Proof.
  intros Hnd new_V Hkeys. unfold relax.
  assert (Hgen : forall todo pre new_todo,
             dict_keys new_todo = dict_keys todo ->
             NoDup (dict_keys pre ++ dict_keys todo) ->
             fold_left
               (fun nv hb =>
                  dict_set (fst hb) (layer_update cur_V (snd hb)) nv)
               todo (pre ++ new_todo)
             = pre ++ map (fun hb => (fst hb, layer_update cur_V (snd hb)))
                          todo).
  { induction todo as [|[h b] todo IH]; intros pre new_todo Hk Hn.
    - destruct new_todo; [reflexivity|discriminate].
    - destruct new_todo as [|[h' x] new_todo]; [discriminate|].
      simpl in Hk. inversion Hk as [[Hh Hk']]. subst h'.
      cbn [fold_left fst snd map].
      rewrite dict_set_app_present.
      + change (pre ++ (h, layer_update cur_V b) :: new_todo)
          with (pre ++ [(h, layer_update cur_V b)] ++ new_todo).
        rewrite app_assoc. rewrite IH; auto.
        * now rewrite <- app_assoc.
        * unfold dict_keys in *. rewrite map_app. simpl.
          rewrite <- app_assoc. exact Hn.
      + simpl in Hn. apply NoDup_remove_2 in Hn.
        intros Hin. apply Hn. apply in_or_app. now left. }
  apply (Hgen edges [] new_V); auto.
Qed.

Lemma is_diff_initial (edges : dict pyset) :
  edges <> [] ->
  is_diff (map (fun hb => (fst hb, @None Z)) edges)
          (map (fun hb => (fst hb, 0)) edges)
  = Ok true.
Proof.
  destruct edges as [|[h b] rest]; [contradiction|]. intros _.
  cbn [map is_diff fst dict_get]. now rewrite Z.eqb_refl.
Qed.

Lemma stratify_no_heads fuel : stratify fuel [] = Some (Ok []).
Proof. destruct fuel; reflexivity. Qed.

Section Loop.
Variable edges : dict pyset.
Hypothesis edges_wf : NoDup (dict_keys edges).

#[local] Abbreviation V k := (tab edges (layer edges k)).

Lemma body_of_in h b : In (h, b) edges -> body_of edges h = b.
Proof.
  intros Hin. unfold body_of.
  now rewrite (dict_get_nodup_in _ _ _ edges_wf Hin).
Qed.

Lemma relax_round k : relax edges (V k) (V k) = V (S k).
Proof.
  rewrite relax_all; auto using tab_keys.
  unfold tab. apply map_ext_in. intros [h b] Hin.
  cbn [fst snd layer]. now rewrite (body_of_in _ _ Hin).
Qed.

Lemma is_diff_rounds (g g' : Z -> Z) (l : dict pyset) :
  incl l edges ->
  is_diff (map (fun hb => (fst hb, Some (g (fst hb)))) l) (tab edges g')
  = Ok (existsb (fun hb => negb (g' (fst hb) =? g (fst hb))) l).
Proof.
  induction l as [|[h b] l IH]; intros Hincl; cbn [map is_diff existsb fst];
    auto.
  rewrite dict_get_tab_head.
  - cbn [opt_eqb]. destruct (g' h =? g h); cbn [negb orb]; auto.
    apply IH. intros x Hx. apply Hincl. now right.
  - apply (in_map fst) with (x := (h, b)). apply Hincl. now left.
Qed.

Lemma copy_V_tab g :
  copy_V (tab edges g) = map (fun hb => (fst hb, Some (g (fst hb)))) edges.
Proof. unfold copy_V, tab. rewrite map_map. reflexivity. Qed.

Lemma is_diff_round k : is_diff (copy_V (V k)) (V (S k)) = Ok (changed edges k).
Proof.
  rewrite copy_V_tab. rewrite is_diff_rounds; [reflexivity|].
  apply incl_refl.
Qed.

Lemma loop_at_unfold fuel k :
  loop_at edges fuel k
  = if changed edges k then
      match fuel with
      | O => None
      | S fuel' => loop_at edges fuel' (S k)
      end
    else Some (Ok (V (S k))).
Proof.
  unfold loop_at. destruct fuel as [|fuel]; cbn [stratify_loop];
    rewrite is_diff_round; destruct (changed edges k); auto.
  now rewrite relax_round.
Qed.

Lemma stratify_unfold fuel :
  edges <> [] ->
  stratify fuel edges
  = match fuel with
    | O => None
    | S fuel' => loop_at edges fuel' 0
    end.
Proof.
  intros Hne. unfold stratify.
  destruct fuel as [|fuel]; cbn [stratify_loop];
    rewrite (is_diff_initial _ Hne); auto.
  unfold loop_at.
  change (map (fun hb => (fst hb, 0)) edges) with (V 0).
  now rewrite relax_round.
Qed.

Lemma changed_false k :
  changed edges k = false <->
  (forall h, In h (dict_keys edges) -> layer edges (S k) h = layer edges k h).
Proof.
  split.
  - intros Hc h Hin. apply in_map_iff in Hin.
    destruct Hin as ([h' b] & Hh & Hin). simpl in Hh. subst h'.
    destruct (Z.eq_dec (layer edges (S k) h) (layer edges k h)) as [|Hne];
      auto.
    exfalso. assert (Ht : changed edges k = true); [|congruence].
    apply existsb_exists. exists (h, b). split; auto.
    cbn [fst]. apply negb_true_iff. now apply Z.eqb_neq.
  - intros Hall. destruct (changed edges k) eqn:E; auto.
    apply existsb_exists in E. destruct E as ([h b] & Hin & Hneg).
    cbn [fst] in Hneg.
    rewrite (Hall h) in Hneg
      by (apply (in_map fst) with (x := (h, b)); exact Hin).
    rewrite Z.eqb_refl in Hneg. discriminate.
Qed.

Lemma changed_false_tab k : changed edges k = false -> V (S k) = V k.
Proof.
  intros Hc. unfold tab. apply map_ext_in. intros [h b] Hin.
  cbn [fst]. f_equal. apply (proj1 (changed_false k) Hc).
  apply (in_map fst) with (x := (h, b)). exact Hin.
Qed.

(** If every round changes a value the loop never ends. *)
Lemma loop_at_diverges :
  (forall k, changed edges k = true) -> forall fuel k, loop_at edges fuel k = None.
Proof.
  intros Hall. induction fuel as [|fuel IH]; intros k;
    rewrite loop_at_unfold, Hall; auto.
Qed.

(** If round [k + d + 1] changes nothing the loop ends within [d] more
    rounds, with the values of a round [n] that nothing changes after. *)
Lemma loop_at_terminates d :
  forall k,
    changed edges (k + d) = false ->
    exists n,
      (k <= n <= k + d)%nat /\ changed edges n = false /\
      forall fuel, (d <= fuel)%nat -> loop_at edges fuel k = Some (Ok (V (S n))).
Proof.
  induction d as [|d IH]; intros k Hc.
  - rewrite Nat.add_0_r in Hc. exists k. repeat split; try lia; auto.
    intros fuel _. now rewrite loop_at_unfold, Hc.
  - destruct (changed edges k) eqn:Ek.
    + replace (k + S d)%nat with (S k + d)%nat in Hc by lia.
      destruct (IH (S k) Hc) as (n & Hn & Hcn & Hrun).
      exists n. repeat split; try lia; auto.
      intros fuel Hf. destruct fuel as [|fuel]; [lia|].
      rewrite loop_at_unfold, Ek. apply Hrun. lia.
    + exists k. repeat split; try lia; auto.
      intros fuel _. now rewrite loop_at_unfold, Ek.
Qed.

(** What the loop returns, when it returns. *)
Lemma loop_at_result fuel :
  forall k r,
    loop_at edges fuel k = Some r ->
    exists n, changed edges n = false /\ r = Ok (V (S n)).
Proof.
  induction fuel as [|fuel IH]; intros k r; rewrite loop_at_unfold;
    destruct (changed edges k) eqn:Ek; intros Hr; try discriminate.
  - inversion Hr. eauto.
  - eauto.
  - inversion Hr. eauto.
Qed.
End Loop.

(* ================================================================== *)
(** ** Acyclic and cyclic dependency graphs *)

Lemma reads_snoc edges x y z :
  reads edges x y -> depends edges y z -> reads edges x z.
Proof.
  intros Hxy Hyz. induction Hxy as [x y Hd|x w y Hd Hwy IH].
  - eapply t1n_trans; [exact Hd|]. now apply t1n_step.
  - eapply t1n_trans; [exact Hd|]. now apply IH.
Qed.

(** A head on a cycle reads a head on a cycle. *)
Lemma cycle_successor edges h :
  reads edges h h -> exists i, depends edges h i /\ reads edges i i.
Proof.
  intros Hc. unfold reads in Hc.
  inversion Hc as [y Hd|y z Hd Hyz]; subst.
  - exists h. auto.
  - exists y. split; auto. eapply reads_snoc; eauto.
Qed.

(** On a cycle the value grows by one in every round. *)
Lemma layer_on_cycle edges k :
  forall h, reads edges h h -> layer edges k h = Z.of_nat k.
Proof.
  induction k as [|k IH]; intros h Hc; [reflexivity|].
  destruct (cycle_successor _ _ Hc) as (i & Hd & Hi).
  pose proof (layer_child edges k h i Hd) as Hge.
  pose proof (layer_le_round edges (S k) h) as Hle.
  rewrite (IH i Hi) in Hge. lia.
Qed.

Lemma cyclic_changed edges :
  cyclic edges -> forall k, changed edges k = true.
Proof.
  intros [h Hc] k.
  destruct (cycle_successor _ _ Hc) as (i & Hd & _).
  apply depends_head in Hd. apply in_map_iff in Hd.
  destruct Hd as ([h' b] & Hh & Hin). simpl in Hh. subst h'.
  apply existsb_exists. exists (h, b). split; auto. cbn [fst].
  rewrite !(layer_on_cycle edges _ h Hc).
  apply negb_true_iff. apply Z.eqb_neq. lia.
Qed.

Lemma is_chain_tail edges x t : is_chain edges (x :: t) -> is_chain edges t.
Proof. destruct t; simpl; tauto. Qed.

Lemma chain_reads edges t :
  forall x y, is_chain edges (x :: t) -> In y t -> reads edges x y.
Proof.
  induction t as [|y0 t IH]; intros x y Hch Hin; [contradiction|].
  destruct Hch as [Hd Hch]. destruct Hin as [->|Hin].
  - now apply t1n_step.
  - eapply t1n_trans; [exact Hd|]. now apply IH.
Qed.

Lemma chain_nodup edges l : acyclic edges -> is_chain edges l -> NoDup l.
Proof.
  intros Hac. induction l as [|x t IH]; intros Hch; constructor.
  - intros Hin. apply (Hac x). eapply chain_reads; eauto.
  - apply IH. eapply is_chain_tail; eauto.
Qed.

(** A head whose value is [k + 1] after [k + 1] rounds starts a chain of
    [k + 1] heads. *)
Lemma chain_exists edges k :
  forall h,
    In h (dict_keys edges) ->
    layer edges (S k) h = Z.of_nat (S k) ->
    exists l,
      List.length l = k /\ is_chain edges (h :: l) /\
      incl (h :: l) (dict_keys edges).
Proof.
  induction k as [|k IH]; intros h Hin Hl.
  - exists []. repeat split; auto. intros x [->|[]]. exact Hin.
  - destruct (layer_attained edges (S k) h) as [H1|(i & Hd & Heq)]; [lia|].
    assert (Hi : layer edges (S k) i = Z.of_nat (S k)) by lia.
    destruct (IH i (proj2 Hd) Hi) as (l & Hlen & Hch & Hincl).
    exists (i :: l). split; [|split].
    + simpl. now rewrite Hlen.
    + split; [exact Hd | exact Hch].
    + intros x [->|Hx]; auto.
Qed.

(** Without a cycle nothing changes after as many rounds as there are
    heads. *)
Lemma acyclic_settles edges :
  NoDup (dict_keys edges) ->
  acyclic edges ->
  changed edges (List.length edges) = false.
Proof.
  intros Hnd Hac. apply changed_false. intros h Hin.
  destruct (Z.eq_dec (layer edges (S (List.length edges)) h)
                     (layer edges (List.length edges) h)) as [|Hne]; auto.
  exfalso. apply layer_changes in Hne.
  destruct (chain_exists _ _ _ Hin Hne) as (l & Hlen & Hch & Hincl).
  pose proof (chain_nodup _ _ Hac Hch) as Hnodup.
  pose proof (NoDup_incl_length Hnodup Hincl) as Hle.
  unfold dict_keys in Hle. rewrite length_map in Hle. simpl in Hle. lia.
Qed.

(** For an acyclic graph the stratifier returns: the values that it
    returns are those held after some number [n] of rounds that is at most
    the number of heads, and a further round leaves them as they are. *)
Theorem stratify_acyclic_terminates edges :
  NoDup (dict_keys edges) ->
  acyclic edges ->
  exists n,
    (n <= List.length edges)%nat /\
    stratify (S (List.length edges)) edges
    = Some (Ok (tab edges (layer edges n))) /\
    relax edges (tab edges (layer edges n)) (tab edges (layer edges n))
    = tab edges (layer edges n).
Proof.
  intros Hnd Hac.
  destruct edges as [|hb rest] eqn:Ee.
  - exists 0%nat. repeat split; auto.
  - rewrite <- Ee in *.
    assert (Hne : edges <> []) by (rewrite Ee; discriminate).
    destruct (loop_at_terminates edges Hnd (List.length edges) 0
                (acyclic_settles _ Hnd Hac))
      as (n & Hn & Hc & Hrun).
    exists n. split; [lia|].
    pose proof (changed_false_tab edges n Hc) as Hfix.
    split.
    + rewrite stratify_unfold by auto. rewrite Hrun by lia.
      now rewrite Hfix.
    + rewrite relax_round by auto. exact Hfix.
Qed.

(** For a graph with a cycle the loop of the stratifier is still running
    after any number of rounds. *)
Lemma stratify_cyclic_diverges edges :
  NoDup (dict_keys edges) ->
  cyclic edges ->
  forall fuel, stratify fuel edges = None.
Proof.
  intros Hnd Hcy fuel.
  assert (Hne : edges <> []).
  { destruct Hcy as [h Hc]. destruct (cycle_successor _ _ Hc) as (i & Hd & _).
    apply depends_head in Hd. intros ->. contradiction. }
  rewrite stratify_unfold by auto.
  destruct fuel as [|fuel]; auto.
  apply loop_at_diverges; auto. now apply cyclic_changed.
Qed.

(** What the stratifier returns is a fixed point of the rounds. *)
Lemma stratify_fixed_point edges fuel r :
  NoDup (dict_keys edges) ->
  stratify fuel edges = Some r ->
  exists V,
    r = Ok V /\
    dict_keys V = dict_keys edges /\
    (forall h body,
        dict_get h edges = Some body ->
        dict_get h V = Some (layer_update V body)).
Proof.
  intros Hnd Hrun.
  destruct edges as [|hb rest] eqn:Ee.
  - rewrite stratify_no_heads in Hrun. inversion Hrun.
    exists []. repeat split; auto. intros h body Hg. discriminate.
  - rewrite <- Ee in *.
    assert (Hne : edges <> []) by (rewrite Ee; discriminate).
    rewrite stratify_unfold in Hrun by auto.
    destruct fuel as [|fuel]; [discriminate|].
    apply loop_at_result in Hrun; auto.
    destruct Hrun as (n & Hc & ->).
    exists (tab edges (layer edges (S n))). repeat split.
    + apply tab_keys.
    + intros h body Hg.
      rewrite dict_get_tab_head
        by (apply dict_get_In in Hg; apply (in_map fst) in Hg; exact Hg).
      rewrite (changed_false_tab edges n Hc).
      cbn [layer]. unfold body_of. now rewrite Hg.
Qed.

(* ================================================================== *)
(** ** The dependency graph that the parser builds *)

Lemma dict_keys_set_cases {V} (k : Z) (v : V) (d : dict V) :
  dict_keys (dict_set k v d)
  = if dict_mem k d then dict_keys d else dict_keys d ++ [k].
Proof.
  destruct (dict_mem k d) eqn:E.
  - apply dict_keys_set. now apply dict_mem_keys.
  - unfold dict_mem in E. destruct (dict_get k d) eqn:Eg; [discriminate|].
    rewrite dict_set_fresh by exact Eg.
    unfold dict_keys. now rewrite map_app.
Qed.

Lemma dict_set_keys_nodup {V} (k : Z) (v : V) (d : dict V) :
  NoDup (dict_keys d) -> NoDup (dict_keys (dict_set k v d)).
Proof.
  intros Hnd. rewrite dict_keys_set_cases.
  destruct (dict_mem k d) eqn:E; auto.
  apply NoDup_app; auto.
  - repeat constructor. intros [].
  - intros x Hx [<-|[]].
    apply dict_mem_keys in Hx. congruence.
Qed.

Lemma set_add_incl k s x : In x s -> In x (set_add k s).
Proof.
  unfold set_add. destruct (set_mem k s); auto.
  intros Hin. apply in_or_app. now left.
Qed.

Lemma set_add_in k s : In k (set_add k s).
Proof.
  unfold set_add. destruct (set_mem k s) eqn:E.
  - unfold set_mem in E. apply existsb_exists in E.
    destruct E as (y & Hin & Hy). apply Z.eqb_eq in Hy. now subst.
  - apply in_or_app. right. now left.
Qed.

Lemma set_update_incl ks :
  forall s x, In x s \/ In x ks -> In x (set_update s ks).
Proof.
  unfold set_update.
  induction ks as [|k ks IH]; intros s x [Hs|Hk]; simpl;
    try contradiction; auto.
  - apply IH. left. now apply set_add_incl.
  - destruct Hk as [->|Hk].
    + apply IH. left. apply set_add_in.
    + apply IH. now right.
Qed.

Lemma dict_mem_same_keys {A B} (k : Z) (d : dict A) (d' : dict B) :
  dict_keys d = dict_keys d' -> dict_mem k d = dict_mem k d'.
Proof.
  intros Hk. destruct (dict_mem k d') eqn:E.
  - apply dict_mem_keys. rewrite Hk. now apply dict_mem_keys.
  - destruct (dict_mem k d) eqn:E'; auto.
    apply dict_mem_keys in E'. rewrite Hk in E'.
    apply dict_mem_keys in E'. congruence.
Qed.

Lemma register_rule_graph_wf r s :
  graph_wf s ->
  graph_wf (register_head r (append_rule r (with_detected_axioms true s))).
Proof.
  intros (Hnd & Hkeys & Hcov). unfold graph_wf, register_head. simpl.
  set (v := rule_var r).
  set (ks := dict_keys (rule_preconditions r)).
  assert (He : exists nb,
             (match dict_get v (_axiom_edges s) with
              | Some body => dict_set v (set_update body ks) (_axiom_edges s)
              | None => dict_set v (set_update [] ks) (_axiom_edges s)
              end) = dict_set v nb (_axiom_edges s) /\
             incl ks nb /\
             (forall body, dict_get v (_axiom_edges s) = Some body ->
                           incl body nb)).
  { destruct (dict_get v (_axiom_edges s)) as [body|] eqn:Eg.
    - exists (set_update body ks). repeat split.
      + intros x Hx. apply set_update_incl. now right.
      + intros b Hb x Hx. inversion Hb. subst.
        apply set_update_incl. now left.
    - exists (set_update [] ks). repeat split.
      + intros x Hx. apply set_update_incl. now right.
      + intros b Hb. discriminate. }
  destruct He as (nb & -> & Hks & Hold).
  assert (Hh : exists nr,
             (match dict_get v (_axiom_heads s) with
              | Some rs => dict_set v (rs ++ [r]) (_axiom_heads s)
              | None => dict_set v [r] (_axiom_heads s)
              end) = dict_set v nr (_axiom_heads s)).
  { destruct (dict_get v (_axiom_heads s)); eauto. }
  destruct Hh as (nr & ->).
  split; [|split].
  - now apply dict_set_keys_nodup.
  - rewrite !dict_keys_set_cases.
    rewrite (dict_mem_same_keys v _ _ Hkeys). now rewrite Hkeys.
  - apply Forall_app. split.
    + eapply Forall_impl; [|exact Hcov].
      intros r' (body & Hg & Hincl). unfold rule_covered.
      destruct (Z.eq_dec (rule_var r') v) as [Heq|Hne].
      * exists nb. rewrite Heq, dict_get_set_same. split; auto.
        intros x Hx. apply (Hold body); [congruence|]. now apply Hincl.
      * exists body. rewrite dict_get_set_other by exact Hne. auto.
    + constructor; [|constructor]. exists nb.
      fold v. rewrite dict_get_set_same. auto.
Qed.

Lemma core_graph_wf s s' : core s = core s' -> graph_wf s -> graph_wf s'.
Proof.
  unfold core, graph_wf. intros Hc.
  assert (Hr : _rules s' = _rules s) by congruence.
  assert (Hh : _axiom_heads s' = _axiom_heads s) by congruence.
  assert (He : _axiom_edges s' = _axiom_edges s) by congruence.
  now rewrite Hr, Hh, He.
Qed.

Lemma parse_lines_graph_wf ls s : parse_lines ls = Some (Ok s) -> graph_wf s.
Proof.
  apply (parse_lines_invariant graph_wf).
  - repeat split; constructor.
  - intros l s0 ls0 s' ls' HI. unfold parse_block.
    destruct (l =? "begin_variable")%string.
    { intros Hrun. apply parse_variable_inv in Hrun.
      destruct Hrun as (values & layer & ->). exact HI. }
    destruct (l =? "begin_rule")%string.
    { intros Hrun. apply parse_rule_inv in Hrun.
      destruct Hrun as (r & _ & ->). now apply register_rule_graph_wf. }
    destruct (l =? "begin_operator")%string.
    { intros Hrun. eapply core_graph_wf; [|exact HI].
      exact (parse_operator_core _ _ _ _ _ Hrun). }
    destruct (l =? "begin_goal")%string.
    { intros Hrun. eapply core_graph_wf; [|exact HI].
      exact (parse_goal_core _ _ _ _ _ Hrun). }
    destruct (l =? "begin_state")%string.
    { intros Hrun. eapply core_graph_wf; [|exact HI].
      exact (parse_state_core _ _ _ _ _ Hrun). }
    intros Hrun. inversion Hrun. subst. exact HI.
Qed.

(* ================================================================== *)
(** ** The layering *)

Example parse_doc_layers : _parse doc_layers = Some (Ok sas_layers).
Proof. vm_compute. reflexivity. Qed.

Example stratify_doc_layers :
  stratify 3 (_axiom_edges sas_layers) = Some (Ok [(1, 1); (2, 2)]).
Proof. vm_compute. reflexivity. Qed.

Lemma fixed_point_layers edges fuel V :
  NoDup (dict_keys edges) ->
  stratify fuel edges = Some (Ok V) ->
  dict_keys V = dict_keys edges /\
  (forall h body,
      dict_get h edges = Some body ->
      dict_get h V = Some (1 + max_layer V body)) /\
  (forall h body i li,
      dict_get h edges = Some body ->
      In i body ->
      dict_get i V = Some li ->
      exists lh, dict_get h V = Some lh /\ li < lh).
Proof.
  intros Hnd Hrun.
  destruct (stratify_fixed_point _ _ _ Hnd Hrun) as (V' & HV & Hk & Hfix).
  inversion HV. subst V'. clear HV.
  split; [exact Hk|]. split.
  - intros h body Hg. rewrite (Hfix _ _ Hg).
    now rewrite layer_update_max_layer.
  - intros h body i li Hg Hin Hi.
    exists (layer_update V body). split; [now apply Hfix|].
    pose proof (layer_update_child V body i li Hin Hi). lia.
Qed.

Lemma depends_doc_layers h i :
  depends (_axiom_edges sas_layers) h i -> h = 2 /\ i = 1.
Proof.
  unfold depends, body_of. simpl.
  destruct (h =? 1) eqn:E1; [|destruct (h =? 2) eqn:E2].
  - intros [[<-|[]] [Hi|[Hi|[]]]]; discriminate.
  - apply Z.eqb_eq in E2. intros [[<-|[<-|[]]] [Hi|[Hi|[]]]];
      try discriminate. auto.
  - intros [[] _].
Qed.

Lemma acyclic_doc_layers : acyclic (_axiom_edges sas_layers).
Proof.
  assert (Hreads : forall x y,
             reads (_axiom_edges sas_layers) x y -> x = 2 /\ y = 1).
  { intros x y Hr. induction Hr as [x y Hd|x y z Hd Hyz IH].
    - now apply depends_doc_layers.
    - apply depends_doc_layers in Hd. lia. }
  intros h Hr. apply Hreads in Hr. lia.
Qed.

(* ================================================================== *)
(** ** Cyclic axioms *)

Example parse_doc_cycle : _parse doc_cycle = Some (Ok sas_cycle).
Proof. vm_compute. reflexivity. Qed.

Lemma cyclic_doc_cycle : cyclic (_axiom_edges sas_cycle).
Proof.
  exists 1. apply t1n_trans with (y := 2).
  - split; simpl; auto.
  - apply t1n_step. split; simpl; auto.
Qed.

Lemma handle_axioms_cyclic self e :
  _didp_variables e <> [] ->
  (forall o, In o (map snd (_didp_variables e)) -> exists v, o = IntVarH v) ->
  NoDup (dict_keys (_axiom_edges self)) ->
  cyclic (_axiom_edges self) ->
  forall fuel, _handle_axioms fuel self e = None.
Proof.
  intros Hne Hint Hnd Hcy fuel. unfold _handle_axioms.
  destruct (_didp_variables e) as [|[k o] rest]; [contradiction|].
  destruct (Hint o (or_introl eq_refl)) as [v ->]. simpl.
  now rewrite stratify_cyclic_diverges.
Qed.

(** C2. On a dependency graph with a cycle the loop of the stratifier is
    still running after any number of rounds, and so is [_handle_axioms]
    when it is called after [_handle_variables]: no error is raised. *)
Theorem cyclic_axioms_loop_forever :
  (forall edges,
      NoDup (dict_keys edges) ->
      cyclic edges ->
      forall fuel, stratify fuel edges = None) /\
  (forall self e,
      _didp_variables e <> [] ->
      (forall o, In o (map snd (_didp_variables e)) ->
                 exists v, o = IntVarH v) ->
      NoDup (dict_keys (_axiom_edges self)) ->
      cyclic (_axiom_edges self) ->
      forall fuel, _handle_axioms fuel self e = None).
Proof.
  split.
  - apply stratify_cyclic_diverges.
  - apply handle_axioms_cyclic.
Qed.

Lemma cyclic_axioms_loop_forever_witness :
  stratify 1000 (_axiom_edges sas_cycle) = None /\
  _handle_axioms 1000 sas_cycle (fst (_handle_variables sas_cycle new_enc))
  = None.
Proof.
  assert (Hnd : NoDup (dict_keys (_axiom_edges sas_cycle))).
  { vm_compute. repeat constructor; simpl; intuition discriminate. }
  split.
  - exact (proj1 cyclic_axioms_loop_forever (_axiom_edges sas_cycle)
                 Hnd cyclic_doc_cycle 1000%nat).
  - refine (proj2 cyclic_axioms_loop_forever sas_cycle
                  (fst (_handle_variables sas_cycle new_enc))
                  _ _ Hnd cyclic_doc_cycle 1000%nat).
    + vm_compute. discriminate.
    + vm_compute. intros o [<-|[]]. now exists 0%nat.
Defined.

(* ================================================================== *)
(** ** The encoder on documents without derived variables *)

Lemma dict_get_map_keys {A B} (f : Z -> B) (k : Z) (d : dict A) :
  dict_get k (map (fun iv => (fst iv, f (fst iv))) d)
  = if dict_mem k d then Some (f k) else None.
Proof.
  unfold dict_mem. induction d as [|[k' v'] d IH]; simpl; auto.
  destruct (k =? k') eqn:E; auto.
  apply Z.eqb_eq in E. now subst.
Qed.

Lemma dict_get_handles (k : Z) (vars : dict SasVariable) :
  dict_get k (handles_of vars)
  = if dict_mem k vars then Some (IntVarH (Z.to_nat k)) else None.
Proof. apply (dict_get_map_keys (fun i => IntVarH (Z.to_nat i))). Qed.

Lemma handles_of_snoc vars i v :
  vars_wf (vars ++ [(i, v)]) ->
  i = Z.of_nat (List.length vars) /\
  dict_set i (IntVarH (List.length vars)) (handles_of vars)
  = handles_of (vars ++ [(i, v)]).
Proof.
  intros Hwf.
  assert (Hi : i = Z.of_nat (List.length vars)).
  { apply (Hwf (List.length vars) i v).
    rewrite nth_error_app2 by lia. now rewrite Nat.sub_diag. }
  split; [exact Hi|].
  assert (Hwf' : vars_wf vars).
  { intros k j w Hk. apply (Hwf k j w).
    rewrite nth_error_app1; auto.
    apply nth_error_Some. congruence. }
  unfold handles_of. rewrite map_app. simpl.
  rewrite dict_set_fresh.
  - subst i. now rewrite Nat2Z.id.
  - fold (handles_of vars). rewrite dict_get_handles.
    unfold dict_mem. subst i. now rewrite (vars_wf_fresh _ Hwf').
Qed.

Lemma handle_variables_loop (self : Sas) :
  _axiom_heads self = [] ->
  forall todo done e e' r,
    vars_wf (done ++ todo) ->
    _didp_variables e = handles_of done ->
    List.length (int_vars (_model e)) = List.length done ->
    hfor_each todo
      (fun iv =>
         let '(i, variable) := iv in
         if dict_mem i (_axiom_heads self) then hret tt
         else
           target <~ hlift (dict_lookup i (_init self)) ;;
           var <~ add_int_var (var_name variable) target ;;
           set_didp i var) e
    = (e', r) ->
    (r = Ok tt /\
     _didp_variables e' = handles_of (done ++ todo) /\
     int_vars (_model e')
     = int_vars (_model e)
       ++ map (fun iv => (var_name (snd iv), initial_value self (fst iv)))
              todo /\
     bool_state_funs (_model e') = bool_state_funs (_model e) /\
     transitions (_model e') = transitions (_model e) /\
     base_cases (_model e') = base_cases (_model e) /\
     forall k, In k (dict_keys todo) ->
               dict_mem k (_init self) = true /\
               in_i32 (initial_value self k) = true) \/
    (exists k,
        r = Raise (KeyError k) /\ In k (dict_keys todo) /\
        dict_mem k (_init self) = false) \/
    (exists k,
        r = Raise OverflowError /\ In k (dict_keys todo) /\
        dict_mem k (_init self) = true /\
        in_i32 (initial_value self k) = false).
Proof.
  intros Hheads todo.
  match goal with
  | |- context [hfor_each todo ?b] => set (body := b)
  end.
  induction todo as [|[i v] todo IH]; intros done e e' r Hwf Hd Hlen Hrun.
  - cbn in Hrun. inversion Hrun; subst. left.
    rewrite !app_nil_r. repeat split; auto; contradiction.
  - cbn [hfor_each] in Hrun. unfold hbind at 1 in Hrun.
    destruct (body (i, v) e) as [e1 r1] eqn:Hb.
    unfold body in Hb. rewrite Hheads in Hb. cbn [dict_mem dict_get] in Hb.
    unfold hbind, hlift, dict_lookup, add_int_var, set_didp in Hb.
    destruct (dict_get i (_init self)) as [t|] eqn:Hi.
    + destruct (in_i32 t) eqn:Ht32.
      * cbn in Hb. inversion Hb; subst e1 r1; clear Hb.
        assert (Hwf1 : vars_wf (done ++ [(i, v)])).
        { intros k j w Hk. apply (Hwf k j w).
          change ((i, v) :: todo) with ([(i, v)] ++ todo).
          rewrite app_assoc. rewrite nth_error_app1; auto.
          apply nth_error_Some. congruence. }
        destruct (handles_of_snoc _ _ _ Hwf1) as [Hieq Hset].
        apply (IH (done ++ [(i, v)])) in Hrun.
        -- destruct Hrun
             as [(Hr & Hdd & Hiv & Hf & Ht & Hbc & Hin)
                |[(k & Hr & Hk & Hn)|(k & Hr & Hk & Hm & Hn)]].
           ++ left. cbn in Hiv, Hf, Ht, Hbc.
              rewrite <- app_assoc in Hdd. cbn in Hdd.
              rewrite <- app_assoc in Hiv. cbn in Hiv.
              split; [exact Hr|]. split; [exact Hdd|].
              split; [|split; [exact Hf|split; [exact Ht|split; [exact Hbc|]]]].
              ** rewrite Hiv. cbn. unfold initial_value. now rewrite Hi.
              ** intros k [Hk|Hk]; [|now apply Hin].
                 cbn in Hk. subst k. unfold dict_mem, initial_value.
                 rewrite Hi. auto.
           ++ right. left. exists k. repeat split; auto. now right.
           ++ right. right. exists k. repeat split; auto. now right.
        -- now rewrite <- app_assoc.
        -- cbn. rewrite Hd, Hlen. exact Hset.
        -- cbn. rewrite !length_app. cbn. lia.
      * cbn in Hb. inversion Hb; subst e1 r1; clear Hb.
        inversion Hrun; subst. right. right. exists i.
        unfold dict_mem, initial_value. rewrite Hi.
        repeat split; auto. now left.
    + cbn in Hb. inversion Hb; subst e1 r1; clear Hb.
      inversion Hrun; subst. right. left. exists i.
      repeat split; [now left|]. unfold dict_mem. now rewrite Hi.
Qed.

(** ** Floats of integers *)

Lemma round_div_1 n : round_div n 1 = n.
Proof.
  unfold round_div. rewrite Z.div_1_r, Z.mod_1_r. reflexivity.
Qed.

Lemma round_div_ge n d : 0 < d -> n / d <= round_div n d.
Proof.
  intros Hd. unfold round_div. cbv zeta.
  destruct (2 * (n mod d) <? d); [lia|].
  destruct (2 * (n mod d) =? d); [destruct (Z.even (n / d))|]; lia.
Qed.

(** Below [2^53] the float of an integer is the integer. *)
Lemma nearest_small neg num :
  2 ^ 31 <= num < 2 ^ 53 ->
  exists e p,
    e <= 0 /\ p = 2 ^ (- e) /\
    nearest_binary64 neg num 1 = S754_finite neg (Z.to_pos (num * p)) e.
Proof.
  intros [Hlo Hhi].
  assert (Hpos : 0 < num) by (change (2 ^ 31) with 2147483648 in Hlo; lia).
  pose proof (Z.log2_spec num Hpos) as [Hl1 Hl2].
  assert (HL : 31 <= Z.log2 num < 53).
  { split.
    - apply Z.log2_le_pow2; auto.
    - apply Z.log2_lt_pow2; auto. }
  set (L := Z.log2 num) in *.
  exists (L - 52), (2 ^ (- (L - 52))). split; [lia|]. split; [reflexivity|].
  unfold nearest_binary64.
  assert (Hn0 : (num =? 0) = false) by (apply Z.eqb_neq; lia).
  rewrite Hn0. change (Z.log2 1) with 0. fold L.
  replace (L - 0 - 52) with (L - 52) by lia.
  set (e1 := L - 52).
  assert (HN : 2 ^ 52 <= num * 2 ^ (- e1) < 2 ^ 53).
  { unfold e1. replace (- (L - 52)) with (52 - L) by lia. split.
    - replace (2 ^ 52) with (2 ^ L * 2 ^ (52 - L)).
      + apply Z.mul_le_mono_nonneg_r; auto. apply Z.pow_nonneg. lia.
      + rewrite <- Z.pow_add_r by lia. f_equal. lia.
    - replace (2 ^ 53) with (2 ^ Z.succ L * 2 ^ (52 - L)).
      + apply Z.mul_lt_mono_pos_r; auto. apply Z.pow_pos_nonneg; lia.
      + rewrite <- Z.pow_add_r by lia. f_equal. lia. }
  assert (Hsc : exists d, scaled num 1 e1 = (num * 2 ^ (- e1) * d, d) /\ d = 1).
  { unfold scaled. destruct (0 <=? e1) eqn:E.
    - apply Z.leb_le in E. assert (He0 : e1 = 0) by (unfold e1 in *; lia).
      rewrite He0. exists 1. split; auto.
      change (2 ^ (- 0)) with 1. change (2 ^ 0) with 1. f_equal; lia.
    - exists 1. split; auto. f_equal. lia. }
  destruct Hsc as (d & Hsc & Hd). subst d. rewrite Z.mul_1_r in Hsc.
  rewrite Hsc. rewrite Z.div_1_r.
  assert (Hlt : (num * 2 ^ (- e1) <? 2 ^ 52) = false) by (apply Z.ltb_ge; lia).
  rewrite Hlt.
  assert (Hmax : Z.max e1 (-1074) = e1) by (unfold e1; lia).
  rewrite Hmax, Hsc. rewrite round_div_1.
  assert (Hq : (num * 2 ^ (- e1) =? 2 ^ 53) = false) by (apply Z.eqb_neq; lia).
  rewrite Hq.
  assert (Hm : (num * 2 ^ (- e1) =? 0) = false).
  { apply Z.eqb_neq. change (2 ^ 52) with 4503599627370496 in HN. lia. }
  rewrite Hm.
  assert (He : (971 <? e1) = false) by (apply Z.ltb_ge; unfold e1; lia).
  rewrite He. reflexivity.
Qed.

(** From [2^53] on the float of an integer is at least [2^53]. *)
Lemma nearest_large neg num :
  2 ^ 53 <= num ->
  nearest_binary64 neg num 1 = S754_infinity neg \/
  exists m e,
    2 ^ 52 <= m /\ 1 <= e /\
    nearest_binary64 neg num 1 = S754_finite neg (Z.to_pos m) e.
Proof.
  intros Hlo.
  assert (Hpos : 0 < num) by (change (2 ^ 53) with 9007199254740992 in Hlo; lia).
  pose proof (Z.log2_spec num Hpos) as [Hl1 Hl2].
  assert (HL : 53 <= Z.log2 num) by (apply Z.log2_le_pow2; auto).
  set (L := Z.log2 num) in *.
  unfold nearest_binary64.
  assert (Hn0 : (num =? 0) = false) by (apply Z.eqb_neq; lia).
  rewrite Hn0. change (Z.log2 1) with 0. fold L.
  replace (L - 0 - 52) with (L - 52) by lia.
  set (e1 := L - 52).
  assert (He1 : 1 <= e1) by (unfold e1; lia).
  assert (Hsc : scaled num 1 e1 = (num, 2 ^ e1)).
  { unfold scaled. destruct (0 <=? e1) eqn:E.
    - now rewrite Z.mul_1_l.
    - apply Z.leb_gt in E. lia. }
  assert (Hp : 0 < 2 ^ e1) by (apply Z.pow_pos_nonneg; lia).
  assert (Hdiv : 2 ^ 52 <= num / 2 ^ e1).
  { apply Z.div_le_lower_bound; auto.
    replace (2 ^ e1 * 2 ^ 52) with (2 ^ L); auto.
    rewrite <- Z.pow_add_r by lia. f_equal. unfold e1. lia. }
  rewrite Hsc.
  assert (Hlt : (num / 2 ^ e1 <? 2 ^ 52) = false) by (apply Z.ltb_ge; lia).
  rewrite Hlt.
  assert (Hmax : Z.max e1 (-1074) = e1) by lia.
  rewrite Hmax, Hsc.
  pose proof (round_div_ge num (2 ^ e1) Hp) as Hq.
  set (q := round_div num (2 ^ e1)) in *.
  destruct (q =? 2 ^ 53) eqn:Eq.
  - change (2 ^ 52 =? 0) with false. cbv iota.
    destruct (971 <? e1 + 1); [now left|].
    right. exists (2 ^ 52), (e1 + 1). split; [lia|]. split; [lia|]. reflexivity.
  - assert (Hm : (q =? 0) = false).
    { apply Z.eqb_neq. change (2 ^ 52) with 4503599627370496 in Hdiv. lia. }
    rewrite Hm.
    destruct (971 <? e1); [now left|].
    right. exists q, e1. split; [lia|]. split; [lia|]. reflexivity.
Qed.

(** An integer of 32 bits is not the float of an integer outside 32
    bits. *)
Lemma int_eq_float_out_of_range z y :
  in_i32 z = false ->
  in_i32 y = true ->
  int_eq_float y (nearest_binary64 (z <? 0) (Z.abs z) 1) = false.
Proof.
  unfold in_i32. intros Hz Hy.
  apply andb_true_iff in Hy. destruct Hy as [Hy1 Hy2].
  apply Z.leb_le in Hy1. apply Z.ltb_lt in Hy2.
  change (2 ^ 31) with 2147483648 in *.
  assert (Hz' : z < -2147483648 \/ 2147483648 <= z).
  { apply andb_false_iff in Hz. destruct Hz as [Hz|Hz].
    - apply Z.leb_gt in Hz. lia.
    - apply Z.ltb_ge in Hz. lia. }
  destruct (Z_lt_le_dec (Z.abs z) (2 ^ 53)) as [Hs|Hl].
  - destruct (nearest_small (z <? 0) (Z.abs z)) as (e & p & He & Hp & Hn).
    { change (2 ^ 31) with 2147483648. lia. }
    rewrite Hn. unfold int_eq_float.
    assert (Hpp : 0 < p) by (subst p; apply Z.pow_pos_nonneg; lia).
    rewrite Z2Pos.id by nia.
    destruct (0 <=? e) eqn:E0.
    + apply Z.leb_le in E0. assert (He0 : e = 0) by lia. subst e.
      change (2 ^ (- 0)) with 1 in Hp. subst p. change (2 ^ 0) with 1.
      apply Z.eqb_neq. destruct (z <? 0) eqn:Es.
      * apply Z.ltb_lt in Es. lia.
      * apply Z.ltb_ge in Es. lia.
    + rewrite <- Hp. apply Z.eqb_neq. destruct (z <? 0) eqn:Es.
      * apply Z.ltb_lt in Es. nia.
      * apply Z.ltb_ge in Es. nia.
  - destruct (nearest_large (z <? 0) (Z.abs z) Hl)
      as [Hn|(m & e & Hm & He & Hn)]; rewrite Hn; [reflexivity|].
    unfold int_eq_float. change (2 ^ 52) with 4503599627370496 in Hm.
    rewrite Z2Pos.id by lia.
    assert (E0 : (0 <=? e) = true) by (apply Z.leb_le; lia).
    rewrite E0.
    assert (Hp : 2 <= 2 ^ e).
    { change 2 with (2 ^ 1) at 1. apply Z.pow_le_mono_r; lia. }
    apply Z.eqb_neq. destruct (z <? 0); nia.
Qed.

Lemma float_of_int_some z x :
  float_of_int z = Some x -> x = nearest_binary64 (z <? 0) (Z.abs z) 1.
Proof.
  unfold float_of_int.
  destruct (nearest_binary64 (z <? 0) (Z.abs z) 1); intros Hx;
    inversion Hx; reflexivity.
Qed.

(** ** The calls of the API on the values of a document *)

Lemma comparable_int_var_eq v val :
  comparable val <-> int_var_eq v val <> None.
Proof.
  unfold comparable, int_var_eq.
  destruct (in_i32 val).
  - split; [discriminate|auto].
  - destruct (float_of_int val); split; try discriminate.
    + intros _. right. discriminate.
    + intros [H|H]; congruence.
    + congruence.
Qed.

Lemma int_var_eq_encode var val c :
  int_var_eq (Z.to_nat var) val = Some c -> c = encode_condition (var, val).
Proof.
  unfold int_var_eq, encode_condition. cbn [fst snd].
  destruct (in_i32 val); [congruence|].
  destruct (float_of_int val) as [x|] eqn:Ex; [|discriminate].
  apply float_of_int_some in Ex. congruence.
Qed.

Lemma as_conditions_eq_values (items : list (Z * Z)) :
  (as_conditions (map eq_value items) = Ok (map encode_condition items) /\
   forall var val, In (var, val) items -> comparable val) \/
  (as_conditions (map eq_value items) = Raise TypeError /\
   exists var val, In (var, val) items /\ ~ comparable val).
Proof.
  induction items as [|[var val] items IH].
  - left. split; auto; intros ? ? [].
  - destruct (int_var_eq (Z.to_nat var) val) as [c|] eqn:Ec.
    + assert (Hhead : as_conditions (map eq_value ((var, val) :: items))
                      = cs <-? as_conditions (map eq_value items) ;;
                        Ok (encode_condition (var, val) :: cs)).
      { cbn [map as_conditions]. unfold eq_value at 1. cbn [fst snd].
        rewrite Ec. cbn [as_condition rbind].
        now rewrite (int_var_eq_encode _ _ _ Ec). }
      rewrite Hhead.
      destruct IH as [[Hok Hall]|(Hr & w & x & Hin & Hn)].
      * left. rewrite Hok. split; auto.
        intros w x [Hx|Hx]; [|eauto].
        injection Hx as <- <-. apply (comparable_int_var_eq (Z.to_nat var)).
        congruence.
      * right. rewrite Hr. split; auto. exists w, x. split; auto. now right.
    + assert (Hhead : as_conditions (map eq_value ((var, val) :: items))
                      = Raise TypeError).
      { cbn [map as_conditions]. unfold eq_value at 1. cbn [fst snd].
        now rewrite Ec. }
      rewrite Hhead. right. split; auto.
      exists var, val. split; [now left|].
      intros Hc. apply (comparable_int_var_eq (Z.to_nat var)) in Hc.
      contradiction.
Qed.

Lemma as_effects_map (items : list (Z * Z)) :
  (as_effects (map (fun vv => (IntVarH (Z.to_nat (fst vv)), snd vv)) items)
   = Ok (map encode_effect items) /\
   forall var val, In (var, val) items -> in_i32 val = true) \/
  (as_effects (map (fun vv => (IntVarH (Z.to_nat (fst vv)), snd vv)) items)
   = Raise TypeError /\
   exists var val, In (var, val) items /\ in_i32 val = false).
Proof.
  induction items as [|[var val] items IH].
  - left. split; auto; intros ? ? [].
  - assert (Hhead :
        as_effects (map (fun vv => (IntVarH (Z.to_nat (fst vv)), snd vv))
                        ((var, val) :: items))
        = if in_i32 val
          then rest <-? as_effects
                          (map (fun vv => (IntVarH (Z.to_nat (fst vv)),
                                           snd vv)) items) ;;
               Ok (encode_effect (var, val) :: rest)
          else Raise TypeError).
    { cbn [map as_effects as_int_var fst snd rbind].
      destruct (in_i32 val); reflexivity. }
    rewrite Hhead. destruct (in_i32 val) eqn:Ev.
    + destruct IH as [[Hok Hall]|(Hr & w & x & Hin & Hn)].
      * left. rewrite Hok. split; auto.
        intros w x [Hx|Hx]; [|eauto]. injection Hx as <- <-. exact Ev.
      * right. rewrite Hr. split; auto. exists w, x. split; auto. now right.
    + right. split; auto. exists var, val. split; auto. now left.
Qed.

Lemma operator_preconditions_supported self vars items :
  _axiom_heads self = [] ->
  (operator_preconditions self (handles_of vars) items
   = Ok (map eq_value (constrained items)) /\
   forall k val, In (k, val) (constrained items) -> dict_mem k vars = true) \/
  (exists k val,
      operator_preconditions self (handles_of vars) items
      = Raise (KeyError k) /\
      In (k, val) (constrained items) /\ dict_mem k vars = false).
Proof.
  intros Hheads.
  induction items as [|[var val] items IH].
  - left. split; auto; intros ? ? [].
  - cbn [operator_preconditions operator_precondition constrained filter snd].
    fold (constrained items).
    destruct (val =? -1) eqn:Hv; cbn [negb rbind].
    + destruct IH as [[Hok Hin]|(k & w & Hr & Hin & Hn)].
      * left. rewrite Hok. cbn. split; auto.
      * right. exists k, w. rewrite Hr. cbn. auto.
    + rewrite Hheads. cbn [dict_mem dict_get negb].
      unfold dict_lookup. rewrite dict_get_handles.
      destruct (dict_mem var vars) eqn:Hm; cbn [rbind obj_eq_int].
      * assert (Hval : forall T (k : PyVal -> result T),
                   (c <-? match int_var_eq (Z.to_nat var) val with
                          | Some c => Ok (ObjV (CondH c))
                          | None => Ok (BoolV false)
                          end ;; k c)
                   = k (eq_value (var, val))).
        { intros T k. unfold eq_value. cbn [fst snd].
          destruct (int_var_eq (Z.to_nat var) val); reflexivity. }
        rewrite Hval.
        destruct IH as [[Hok Hin]|(k & w & Hr & Hin & Hn)].
        -- left. rewrite Hok. cbn. split; auto.
           intros k w [Hk|Hk]; [congruence|eauto].
        -- right. exists k, w. rewrite Hr. cbn. auto.
      * right. exists var, val. cbn. auto.
Qed.

Lemma operator_effects_supported self vars items :
  _axiom_heads self = [] ->
  (operator_effects self (handles_of vars) items
   = Ok (map (fun vv => (IntVarH (Z.to_nat (fst vv)), snd vv)) items) /\
   forall k val, In (k, val) items -> dict_mem k vars = true) \/
  (exists k val,
      operator_effects self (handles_of vars) items = Raise (KeyError k) /\
      In (k, val) items /\ dict_mem k vars = false).
Proof.
  intros Hheads.
  induction items as [|[var val] items IH].
  - left. split; auto; intros ? ? [].
  - cbn [operator_effects]. rewrite Hheads.
    cbn [dict_mem dict_get negb rassert rbind].
    unfold dict_lookup. rewrite dict_get_handles.
    destruct (dict_mem var vars) eqn:Hm; cbn [rbind].
    + destruct IH as [[Hok Hin]|(k & w & Hr & Hin & Hn)].
      * left. rewrite Hok. cbn. split; auto.
        intros k w [Hk|Hk]; [congruence|eauto].
      * right. exists k, w. rewrite Hr. cbn. auto.
    + right. exists var, val. cbn. auto.
Qed.

Lemma goal_conditions_supported self vars items :
  _axiom_heads self = [] ->
  (goal_conditions self (handles_of vars) items
   = Ok (map eq_value items) /\
   forall k val, In (k, val) items -> dict_mem k vars = true) \/
  (exists k val,
      goal_conditions self (handles_of vars) items = Raise (KeyError k) /\
      In (k, val) items /\ dict_mem k vars = false).
Proof.
  intros Hheads.
  induction items as [|[var val] items IH].
  - left. split; auto; intros ? ? [].
  - cbn [goal_conditions goal_condition]. rewrite Hheads.
    cbn [dict_mem dict_get].
    unfold dict_lookup. rewrite dict_get_handles.
    destruct (dict_mem var vars) eqn:Hm; cbn [rbind obj_eq_int].
    + assert (Hval : forall T (k : PyVal -> result T),
                 (c <-? match int_var_eq (Z.to_nat var) val with
                        | Some c => Ok (ObjV (CondH c))
                        | None => Ok (BoolV false)
                        end ;; k c)
                 = k (eq_value (var, val))).
      { intros T k. unfold eq_value. cbn [fst snd].
        destruct (int_var_eq (Z.to_nat var) val); reflexivity. }
      rewrite Hval.
      destruct IH as [[Hok Hin]|(k & w & Hr & Hin & Hn)].
      * left. rewrite Hok. cbn. split; auto.
        intros k w [Hk|Hk]; [congruence|eauto].
      * right. exists k, w. rewrite Hr. cbn. auto.
    + right. exists var, val. cbn. auto.
Qed.

(** One round of the operators loop on a document without derived
    variables: the operator becomes its transition, or the round fails
    and leaves the encoder as it was. *)
Lemma handle_operator_supported (self : Sas) (vars : dict SasVariable) op e :
  _axiom_heads self = [] ->
  _didp_variables e = handles_of vars ->
  (operator_in_range vars op /\
   (e0 <~ hget ;;
    preconditions <~
      hlift (operator_preconditions self (_didp_variables e0)
                                    (op_preconditions op)) ;;
    effects <~
      hlift (operator_effects self (_didp_variables e0) (op_effects op)) ;;
    cost <~ hlift (plus_state_cost (op_cost op)) ;;
    didp_action <~
      hlift (make_transition (op_name op) cost preconditions effects) ;;
    add_transition didp_action) e
   = (mkEnc (mkModel (int_vars (_model e)) (bool_state_funs (_model e))
                     (transitions (_model e) ++ [encode_operator op])
                     (base_cases (_model e)))
            (_didp_variables e), Ok tt)) \/
  (exists x,
      operator_failure vars op x /\
      (e0 <~ hget ;;
       preconditions <~
         hlift (operator_preconditions self (_didp_variables e0)
                                       (op_preconditions op)) ;;
       effects <~
         hlift (operator_effects self (_didp_variables e0) (op_effects op)) ;;
       cost <~ hlift (plus_state_cost (op_cost op)) ;;
       didp_action <~
         hlift (make_transition (op_name op) cost preconditions effects) ;;
       add_transition didp_action) e
      = (e, Raise x)).
Proof.
  intros Hheads Hd.
  unfold hbind, hget, hlift. rewrite Hd.
  destruct (operator_preconditions_supported self vars
              (op_preconditions op) Hheads)
    as [[Hp Hpin]|(k & w & Hp & Hpin & Hn)]; rewrite Hp.
  2:{ right. exists (KeyError k). split; auto.
      left. exists k, w. auto. }
  destruct (operator_effects_supported self vars (op_effects op) Hheads)
    as [[He Hein]|(k & w & He & Hein & Hn)]; rewrite He.
  2:{ right. exists (KeyError k). split; auto.
      left. exists k, w. auto. }
  unfold plus_state_cost.
  destruct (in_i32 (op_cost op)) eqn:Hc.
  - unfold make_transition.
    destruct (as_conditions_eq_values (constrained (op_preconditions op)))
      as [[Hcs Hcmp]|(Hcs & var & val & Hin & Hcmp)]; rewrite Hcs;
      cbn [rbind].
    2:{ right. exists TypeError. split; auto.
        right. left. split; auto. right. right. eauto. }
    destruct (as_effects_map (op_effects op))
      as [[Hes Hr32]|(Hes & var & val & Hin & Hr32)]; rewrite Hes;
      cbn [rbind].
    2:{ right. exists TypeError. split; auto.
        right. left. split; auto. right. left. eauto. }
    left. split; [|unfold add_transition; cbn [t_cost]; now rewrite Hd].
    split; [|split; [exact Hc|split; [exact Hr32|exact Hcmp]]].
    intros k val [Hk|Hk]; eauto.
  - destruct (float_of_int (op_cost op)) as [x|] eqn:Hf.
    + unfold make_transition.
      destruct (as_conditions_eq_values (constrained (op_preconditions op)))
        as [[Hcs Hcmp]|(Hcs & var & val & Hin & Hcmp)]; rewrite Hcs;
        cbn [rbind].
      2:{ right. exists TypeError. split; auto.
          right. left. split; auto. right. right. eauto. }
      destruct (as_effects_map (op_effects op))
        as [[Hes Hr32]|(Hes & var & val & Hin & Hr32)]; rewrite Hes;
        cbn [rbind].
      2:{ right. exists TypeError. split; auto.
          right. left. split; auto. right. left. eauto. }
      right. exists RuntimeError. split; auto.
      right. right. split; auto.
    + right. exists TypeError. split; auto.
      right. left. split; auto.
Qed.

(** The operators loop on a document without derived variables: every
    operator becomes its transition, or the loop fails at an operator. *)
Lemma handle_operators_supported (self : Sas) (vars : dict SasVariable) :
  _axiom_heads self = [] ->
  forall ops e e' r,
    _didp_variables e = handles_of vars ->
    hfor_each ops
      (fun op =>
         e <~ hget ;;
         preconditions <~
           hlift (operator_preconditions self (_didp_variables e)
                                         (op_preconditions op)) ;;
         effects <~
           hlift (operator_effects self (_didp_variables e)
                                   (op_effects op)) ;;
         cost <~ hlift (plus_state_cost (op_cost op)) ;;
         didp_action <~
           hlift (make_transition (op_name op) cost preconditions effects) ;;
         add_transition didp_action) e
    = (e', r) ->
    (r = Ok tt /\
     _didp_variables e' = _didp_variables e /\
     int_vars (_model e') = int_vars (_model e) /\
     bool_state_funs (_model e') = bool_state_funs (_model e) /\
     transitions (_model e')
     = transitions (_model e) ++ map encode_operator ops /\
     base_cases (_model e') = base_cases (_model e) /\
     forall op, In op ops -> operator_in_range vars op) \/
    (exists x op,
        r = Raise x /\ In op ops /\ operator_failure vars op x).
Proof.
  intros Hheads ops.
  match goal with
  | |- context [hfor_each ops ?b] => set (body := b)
  end.
  induction ops as [|op ops IH]; intros e e' r Hd Hrun.
  - cbn in Hrun. inversion Hrun; subst. left.
    rewrite app_nil_r.
    split; auto. split; auto. split; auto. split; auto. split; auto.
    split; auto. intros op [].
  - cbn [hfor_each] in Hrun. unfold hbind at 1 in Hrun.
    destruct (handle_operator_supported self vars op e Hheads Hd)
      as [[Hok Hb]|(x & Hx & Hb)]; fold (body op) in Hb; rewrite Hb in Hrun.
    2:{ inversion Hrun; subst. right. exists x, op.
        split; auto. split; auto. now left. }
    apply IH in Hrun; [|exact Hd].
    destruct Hrun
      as [(Hr & Hdd & Hiv & Hf & Ht & Hbc & Hin)|(x & op' & Hr & Hop & Hx)].
    + left. cbn in Hdd, Hiv, Hf, Ht, Hbc.
      rewrite <- app_assoc in Ht.
      split; [exact Hr|]. split; [exact Hdd|]. split; [exact Hiv|].
      split; [exact Hf|]. split; [exact Ht|]. split; [exact Hbc|].
      intros op' [Hop|Hop]; [subst op'; exact Hok|eauto].
    + right. exists x, op'. split; auto. split; auto. now right.
Qed.

(** [transform] on a fresh model, for a transformer without derived
    variables and with both flags down: the model of the document, or
    the exception of the first call that fails. *)
Lemma transform_supported (self : Sas) :
  vars_wf (_variables self) ->
  _axiom_heads self = [] ->
  _detected_axioms self = false ->
  _detected_conditional_effects self = false ->
  (closed self /\ in_api_range self /\
   transform self new_enc
   = (mkEnc (model_of self) (handles_of (_variables self)),
      Ok (model_of self))) \/
  (exists x,
      failure self x /\
      snd (transform self new_enc) = Raise x).
Proof.
  intros Hwf Hheads Hax Hce.
  destruct (transform self new_enc) as [e' r] eqn:HT.
  unfold transform in HT. rewrite Hax, Hce in HT. cbn [orb] in HT.
  unfold _handle_variables, _handle_operators, _handle_goal in HT.
  unfold hbind at 1 in HT.
  unfold hbind at 1 in HT.
  match type of HT with
  | context [hfor_each (_variables self) ?b ?e] =>
      destruct (hfor_each (_variables self) b e) as [e1 r1] eqn:Hv
  end.
  apply (handle_variables_loop self Hheads (_variables self) []) in Hv;
    auto.
  destruct Hv
    as [(Hr & Hd1 & Hiv1 & Hf1 & Ht1 & Hb1 & Hin1)
       |[(k & Hr & Hk & Hn)|(k & Hr & Hk & Hm & Hn)]].
  2:{ right. exists (KeyError k). subst r1. inversion HT; subst. cbn.
      split; auto. left. exists k. split; auto.
      left. split; auto. apply dict_mem_keys. exact Hk. }
  2:{ right. exists OverflowError. subst r1. inversion HT; subst. cbn.
      split; auto. right. left. split; auto. exists k.
      split; auto. apply dict_mem_keys. exact Hk. }
  subst r1. cbn [app] in Hd1. cbn in Hiv1, Hf1, Ht1, Hb1.
  unfold hbind at 1 in HT.
  match type of HT with
  | context [hfor_each (_operators self) ?b ?e] =>
      destruct (hfor_each (_operators self) b e) as [e2 r2] eqn:Ho
  end.
  apply (handle_operators_supported self (_variables self) Hheads) in Ho;
    auto.
  destruct Ho
    as [(Hr & Hd2 & Hiv2 & Hf2 & Ht2 & Hb2 & Hin2)|(x & op & Hr & Hop & Hx)].
  2:{ right. exists x. subst r2. inversion HT; subst. cbn.
      split; auto.
      destruct Hx as [(k & w & Hx & Hk & Hn)|[[Hx Hk]|[Hx Hk]]]; subst x.
      - left. exists k. split; auto. right. split; auto.
        left. exists op, w. auto.
      - right. right. left. split; auto. left. exists op. auto.
      - right. right. right. split; auto. exists op. auto. }
  subst r2. unfold hbind, hget, hlift in HT.
  rewrite Hd2, Hd1 in HT.
  destruct (goal_conditions_supported self (_variables self) (_goal self)
              Hheads)
    as [[Hg Hgin]|(k & w & Hg & Hgin & Hn)]; rewrite Hg in HT.
  2:{ right. exists (KeyError k). inversion HT; subst. cbn.
      split; auto. left. exists k. split; auto.
      right. split; auto. right. exists w. auto. }
  unfold add_base_case in HT.
  destruct (as_conditions_eq_values (_goal self))
    as [[Hcs Hcmp]|(Hcs & var & val & Hin & Hcmp)]; rewrite Hcs in HT.
  2:{ right. exists TypeError. inversion HT; subst. cbn.
      split; auto. right. right. left. split; auto. right. eauto. }
  unfold hret in HT. cbn [_model] in HT.
  rewrite Hiv2, Hf2, Ht2, Hb2, Hiv1, Hf1, Ht1, Hb1, Hd2, Hd1 in HT.
  cbn in HT.
  left. split; [|split].
  - split.
    + intros k Hk. apply Hin1. now apply dict_mem_keys.
    + intros k [(op & w & Hop & Hk)|(w & Hk)]; [|eauto].
      apply (proj1 (Hin2 op Hop) k w Hk).
  - split; [|split].
    + intros k Hk. apply Hin1. now apply dict_mem_keys.
    + intros op Hop. exact (proj2 (Hin2 op Hop)).
    + exact Hcmp.
  - symmetry. exact HT.
Qed.

Lemma failure_in_range self x :
  in_api_range self -> failure self x ->
  exists k, x = KeyError k /\ missing self k.
Proof.
  intros (Hinit & Hops & Hgoal)
         [(k & Hx & Hm)
         |[(Hx & k & Hk & Hn)
          |[(Hx & [(op & Hop & [[Hc _]|[(var & val & Hin & Hn)
                                      |(var & val & Hin & Hn)]])
                  |(var & val & Hin & Hn)])
           |(Hx & op & Hop & Hc)]]].
  - eauto.
  - rewrite (Hinit k Hk) in Hn. discriminate.
  - rewrite (proj1 (Hops op Hop)) in Hc. discriminate.
  - rewrite (proj1 (proj2 (Hops op Hop)) var val Hin) in Hn. discriminate.
  - exfalso. apply Hn. apply (proj2 (proj2 (Hops op Hop)) var val Hin).
  - exfalso. apply Hn. apply (Hgoal var val Hin).
  - rewrite (proj1 (Hops op Hop)) in Hc. discriminate.
Qed.

Lemma closed_not_missing self k : closed self -> ~ missing self k.
Proof.
  intros [Hinit Hdecl] [[Hd Hn]|[Hm Hn]].
  - apply Hinit in Hd. congruence.
  - apply Hdecl in Hm. congruence.
Qed.

(** What the parser guarantees for a document with both flags down. *)
Lemma parsed_supported sas_content s :
  _parse sas_content = Some (Ok s) ->
  _detected_axioms s = false ->
  vars_wf (_variables s) /\ _axiom_heads s = [].
Proof.
  intros Hp Hax. split.
  - apply (parse_lines_ir_wf _ _ Hp).
  - destruct (heads_need_axioms_flag _ _ Hp); congruence.
Qed.

(** A model is returned only for a document of the supported fragment,
    and it is the model of that document. *)
Lemma translate_returns sas_content m :
  translate sas_content = Some (Ok m) ->
  exists s,
    _parse sas_content = Some (Ok s) /\
    _detected_axioms s = false /\
    _detected_conditional_effects s = false /\
    closed s /\
    in_api_range s /\
    transform s new_enc
    = (mkEnc (model_of s) (handles_of (_variables s)), Ok m) /\
    m = model_of s.
Proof.
  unfold translate. intros Ht.
  destruct (_parse sas_content) as [[s|x]|] eqn:Hp; try discriminate.
  exists s. split; auto.
  destruct (_detected_axioms s) eqn:Hax.
  { rewrite transform_gate in Ht by (rewrite Hax; reflexivity).
    discriminate. }
  destruct (_detected_conditional_effects s) eqn:Hce.
  { rewrite transform_gate in Ht by (rewrite Hax, Hce; reflexivity).
    discriminate. }
  destruct (parsed_supported _ _ Hp Hax) as [Hwf Hheads].
  destruct (transform_supported s Hwf Hheads Hax Hce)
    as [(Hc & Hr & HT)|(x & Hx & HT)].
  - rewrite HT in Ht. cbn in Ht. inversion Ht; subst m.
    split; [reflexivity|]. split; [reflexivity|]. split; [exact Hc|].
    split; [exact Hr|]. split; [exact HT|reflexivity].
  - inversion Ht as [Ht']. rewrite Ht' in HT. discriminate.
Qed.

(** X1. Whenever the translation returns a model, the document was parsed
    with both feature flags down and the model is the one read off the
    parsed document: the [k]-th declared variable is the [k]-th integer
    variable, named as declared and started at its initial value; there
    is no boolean state function; the transitions are the operators in
    order, each with its name, with its cost added to the state cost,
    with one comparison for each precondition whose value is not -1 and
    with its effects as assignments; and there is one base case, with one
    comparison for each goal entry.  A comparison is with the integer of
    the document when it has 32 bits and with the float nearest to it
    otherwise.  The initial values, the costs and the values of the
    effects have 32 bits, and every value that is compared has a float.
    The encoder ends with the handle of the [i]-th integer variable
    stored under the variable id [i]. *)
Theorem translation_is_model_of :
  forall sas_content m,
    translate sas_content = Some (Ok m) ->
    exists s,
      _parse sas_content = Some (Ok s) /\
      _detected_axioms s = false /\
      _detected_conditional_effects s = false /\
      m = model_of s /\
      fst (transform s new_enc)
      = mkEnc (model_of s) (handles_of (_variables s)) /\
      in_api_range s.
Proof.
  intros sas_content m Ht.
  destruct (translate_returns _ _ Ht)
    as (s & Hp & Hax & Hce & Hc & Hr & HT & Hm).
  exists s. rewrite HT.
  split; [exact Hp|]. split; [exact Hax|]. split; [exact Hce|].
  split; [exact Hm|]. split; [reflexivity|exact Hr].
Qed.

Lemma translation_is_model_of_witness :
  (exists s,
      _parse doc_two_vars = Some (Ok s) /\
      _detected_axioms s = false /\
      _detected_conditional_effects s = false /\
      mkModel [(Some "var0", 0); (Some "var1", 0)] []
              [ mkTransition (Some "set-b") (PlusStateCost 1)
                             [CEq (EVar 0) (EConst 0)] [(1%nat, 1)] ]
              [ [CEq (EVar 1) (EConst 1)] ]
      = model_of s /\
      fst (transform s new_enc)
      = mkEnc (model_of s) (handles_of (_variables s)) /\
      in_api_range s) /\
  (exists s,
      _parse doc_wide_goal = Some (Ok s) /\
      _detected_axioms s = false /\
      _detected_conditional_effects s = false /\
      mkModel [(Some "var0", 0)] [] []
              [ [CEqF (EVar 0) (S754_finite false 4503599627370496 1)] ]
      = model_of s /\
      fst (transform s new_enc)
      = mkEnc (model_of s) (handles_of (_variables s)) /\
      in_api_range s).
Proof.
  split.
  - apply (translation_is_model_of doc_two_vars).
    vm_compute. reflexivity.
  - apply (translation_is_model_of doc_wide_goal).
    vm_compute. reflexivity.
Defined.

(** X2. For a document that the parser accepts with both feature flags
    down, the translation on a fresh model ends, and it returns the model
    of the document exactly when every declared variable has an initial
    value, every variable named by a kept precondition, an effect or the
    goal is declared, and the numbers of the document are in the range of
    the modelling API: initial values, costs and values of effects of 32
    bits, and compared values of 32 bits or with a float.  An exception
    tells what is wrong: [KeyError] carries a variable id whose lookup
    fails, a declared variable without initial value or an undeclared
    variable that an operator or the goal names; [OverflowError] means an
    initial value outside 32 bits; [RuntimeError] a cost outside 32 bits;
    [TypeError] a value of an effect outside 32 bits, or a cost or a
    compared value without a float.  No other exception is raised.  When
    the numbers are in range, the translation fails exactly when a lookup
    fails, with [KeyError]. *)
Theorem translation_fails_only_on_lookups :
  forall sas_content s,
    _parse sas_content = Some (Ok s) ->
    _detected_axioms s = false ->
    _detected_conditional_effects s = false ->
    (closed s /\ in_api_range s
     <-> translate sas_content = Some (Ok (model_of s))) /\
    (~ (closed s /\ in_api_range s)
     <-> exists x,
          failure s x /\ translate sas_content = Some (Raise x)) /\
    (in_api_range s ->
     (closed s <-> translate sas_content = Some (Ok (model_of s))) /\
     (~ closed s <->
      exists k,
        missing s k /\ translate sas_content = Some (Raise (KeyError k)))).
Proof.
  intros sas_content s Hp Hax Hce.
  destruct (parsed_supported _ _ Hp Hax) as [Hwf Hheads].
  unfold translate. rewrite Hp.
  destruct (transform_supported s Hwf Hheads Hax Hce)
    as [(Hc & Hr & HT)|(x & Hx & HT)]; rewrite HT.
  - cbn. split; [|split].
    + split; auto.
    + split.
      * intros Hn. exfalso. apply Hn. auto.
      * intros (x & _ & Hk). discriminate.
    + intros _. split; split; auto.
      * intros Hn. contradiction.
      * intros (k & _ & Hk). discriminate.
  - assert (Hno : ~ (closed s /\ in_api_range s)).
    { intros [Hc Hr].
      destruct (failure_in_range _ _ Hr Hx) as (k & _ & Hm).
      exact (closed_not_missing _ _ Hc Hm). }
    split; [|split].
    + split; [intros Hc; contradiction|discriminate].
    + split; [|auto]. intros _. exists x. auto.
    + intros Hr.
      destruct (failure_in_range _ _ Hr Hx) as (k & -> & Hm).
      split; split.
      * intros Hc. exfalso. exact (closed_not_missing _ _ Hc Hm).
      * discriminate.
      * intros _. exists k. auto.
      * intros _ Hc. exact (closed_not_missing _ _ Hc Hm).
Qed.

Lemma translation_fails_only_on_lookups_witness :
  ((closed sas_two_vars /\ in_api_range sas_two_vars
    <-> translate doc_two_vars = Some (Ok (model_of sas_two_vars))) /\
   (~ (closed sas_two_vars /\ in_api_range sas_two_vars)
    <-> exists x,
         failure sas_two_vars x /\ translate doc_two_vars = Some (Raise x)) /\
   (in_api_range sas_two_vars ->
    (closed sas_two_vars
     <-> translate doc_two_vars = Some (Ok (model_of sas_two_vars))) /\
    (~ closed sas_two_vars <->
     exists k,
       missing sas_two_vars k /\
       translate doc_two_vars = Some (Raise (KeyError k))))) /\
  ((closed sas_no_state /\ in_api_range sas_no_state
    <-> translate doc_no_state = Some (Ok (model_of sas_no_state))) /\
   (~ (closed sas_no_state /\ in_api_range sas_no_state)
    <-> exists x,
         failure sas_no_state x /\ translate doc_no_state = Some (Raise x)) /\
   (in_api_range sas_no_state ->
    (closed sas_no_state
     <-> translate doc_no_state = Some (Ok (model_of sas_no_state))) /\
    (~ closed sas_no_state <->
     exists k,
       missing sas_no_state k /\
       translate doc_no_state = Some (Raise (KeyError k))))).
Proof.
  split.
  - apply (translation_fails_only_on_lookups doc_two_vars sas_two_vars);
      vm_compute; reflexivity.
  - apply (translation_fails_only_on_lookups doc_no_state sas_no_state);
      vm_compute; reflexivity.
Defined.

(** The translation of the four documents with a number outside 32 bits:
    the goal is compared as a float; the initial value, the cost and the
    value of the effect are refused. *)
Lemma translation_of_wide_numbers :
  translate doc_wide_goal
  = Some (Ok (mkModel [(Some "var0", 0)] [] []
                      [[CEqF (EVar 0)
                             (S754_finite false 4503599627370496 1)]])) /\
  translate doc_wide_initial = Some (Raise OverflowError) /\
  translate doc_wide_cost = Some (Raise RuntimeError) /\
  translate doc_wide_effect = Some (Raise TypeError).
Proof. repeat split; vm_compute; reflexivity. Qed.

Lemma in_i32_neq z y : in_i32 z = false -> in_i32 y = true -> y <> z.
Proof. intros Hz Hy Heq. subst y. congruence. Qed.

Lemma eval_encode_condition st f var val :
  in_i32 (st (Z.to_nat var)) = true \/ in_i32 val = true ->
  eval_cond st f (encode_condition (var, val)) = true
  <-> st (Z.to_nat var) = val.
Proof.
  intros Hr. unfold encode_condition. cbn [fst snd].
  destruct (in_i32 val) eqn:Ev; cbn [eval_cond eval_int].
  - apply Z.eqb_eq.
  - destruct Hr as [Hr|Hr]; [|discriminate].
    rewrite (int_eq_float_out_of_range _ _ Ev Hr).
    split; [discriminate|]. intros Heq.
    exfalso. exact (in_i32_neq _ _ Ev Hr Heq).
Qed.

Lemma forallb_encode_condition m st items :
  int_state st \/ narrow items ->
  forallb (eval_cond st (fun_values m st)) (map encode_condition items) = true
  <-> satisfies st items.
Proof.
  intros Hr.
  assert (Hr' : forall var val,
             In (var, val) items ->
             in_i32 (st (Z.to_nat var)) = true \/ in_i32 val = true).
  { intros var val Hin. destruct Hr as [Hr|Hr]; [left; apply Hr|].
    right. exact (Hr var val Hin). }
  rewrite forallb_forall. unfold satisfies. split.
  - intros Hall var val Hin.
    specialize (Hall (encode_condition (var, val))
                     (in_map encode_condition _ _ Hin)).
    exact (proj1 (eval_encode_condition st (fun_values m st) var val
                                        (Hr' _ _ Hin)) Hall).
  - intros Hall c Hc. apply in_map_iff in Hc.
    destruct Hc as ([var val] & Heq & Hin). subst c.
    apply (proj2 (eval_encode_condition st (fun_values m st) var val
                                        (Hr' _ _ Hin))). auto.
Qed.

(** X3. In a model that the translation returns there is exactly one base
    case, with one condition for each goal entry.  It holds in a state
    exactly when the state gives every variable of the goal the value that
    the goal asks for; this is so for the states of the model, whose
    values have 32 bits, and for every assignment of integers when the
    values of the goal have 32 bits.  With no goal entry the base case is
    empty and holds in every state. *)
Theorem primitive_goal_is_faithful :
  forall sas_content s m,
    _parse sas_content = Some (Ok s) ->
    translate sas_content = Some (Ok m) ->
    exists base_case,
      base_cases m = [base_case] /\
      List.length base_case = List.length (_goal s) /\
      (forall st,
          int_state st \/ narrow (_goal s) ->
          (base_case_holds m st base_case = true
           <-> satisfies st (_goal s))) /\
      (_goal s = [] -> forall st, base_case_holds m st base_case = true).
Proof.
  intros sas_content s m Hp Ht.
  destruct (translate_returns _ _ Ht)
    as (s' & Hp' & Hax & Hce & Hc & Hr & HT & Hm).
  assert (s' = s) by congruence. subst s' m.
  exists (map encode_condition (_goal s)).
  split; [reflexivity|]. split; [apply length_map|]. split.
  - intros st Hst. now apply forallb_encode_condition.
  - intros Hg st. rewrite Hg. reflexivity.
Qed.

Lemma primitive_goal_is_faithful_witness :
  (exists base_case,
      base_cases (model_of sas_two_vars) = [base_case] /\
      List.length base_case = List.length (_goal sas_two_vars) /\
      (forall st,
          int_state st \/ narrow (_goal sas_two_vars) ->
          (base_case_holds (model_of sas_two_vars) st base_case = true
           <-> satisfies st (_goal sas_two_vars))) /\
      (_goal sas_two_vars = [] ->
       forall st,
         base_case_holds (model_of sas_two_vars) st base_case = true)) /\
  (exists base_case,
      base_cases (model_of sas_wide_goal) = [base_case] /\
      List.length base_case = List.length (_goal sas_wide_goal) /\
      (forall st,
          int_state st \/ narrow (_goal sas_wide_goal) ->
          (base_case_holds (model_of sas_wide_goal) st base_case = true
           <-> satisfies st (_goal sas_wide_goal))) /\
      (_goal sas_wide_goal = [] ->
       forall st,
         base_case_holds (model_of sas_wide_goal) st base_case = true)).
Proof.
  split.
  - apply (primitive_goal_is_faithful doc_two_vars sas_two_vars);
      vm_compute; reflexivity.
  - apply (primitive_goal_is_faithful doc_wide_goal sas_wide_goal);
      vm_compute; reflexivity.
Defined.

(** X4. In a model that the translation returns the transitions are the
    operators of the document, in order.  Each transition carries the name
    of its operator and its cost, of 32 bits, added to the state cost; it
    is applicable in a state exactly when the state gives every variable
    of a precondition whose value is not -1 that value, so that an entry
    with value -1 never constrains; this is so for the states of the
    model, whose values have 32 bits, and for every assignment of integers
    when the values of the preconditions have 32 bits.  The transition
    assigns to every variable of an effect the post-value of the effect,
    of 32 bits. *)
Theorem transitions_are_faithful :
  forall sas_content s m,
    _parse sas_content = Some (Ok s) ->
    translate sas_content = Some (Ok m) ->
    Forall2
      (fun op t =>
         t_name t = op_name op /\
         t_cost t = PlusStateCost (op_cost op) /\
         in_i32 (op_cost op) = true /\
         (forall st,
             int_state st \/ narrow (op_preconditions op) ->
             (applicable m st t = true
              <-> forall var val,
                  In (var, val) (op_preconditions op) ->
                  val <> -1 -> st (Z.to_nat var) = val)) /\
         t_effects t
         = map (fun vv => (Z.to_nat (fst vv), snd vv)) (op_effects op) /\
         narrow (op_effects op))
      (_operators s) (transitions m).
Proof.
  intros sas_content s m Hp Ht.
  destruct (translate_returns _ _ Ht)
    as (s' & Hp' & Hax & Hce & Hc & (_ & Hr & _) & HT & Hm).
  assert (s' = s) by congruence. subst s' m.
  cbn [model_of transitions].
  induction (_operators s) as [|op ops IH]; cbn [map]; constructor.
  2:{ apply IH. intros op' Hop'. apply Hr. now right. }
  destruct (Hr op (or_introl eq_refl)) as (Hcost & Heff & _).
  cbn [encode_operator t_name t_cost t_effects].
  split; [reflexivity|]. split; [reflexivity|]. split; [exact Hcost|].
  split; [|split; [reflexivity|exact Heff]].
  intros st Hst. unfold applicable, encode_operator. cbn [t_preconditions].
  rewrite forallb_encode_condition.
  - unfold satisfies, constrained. split.
    + intros Hs var val Hin Hv. apply Hs. apply filter_In. split; auto.
      cbn. apply negb_true_iff. now apply Z.eqb_neq.
    + intros Hs var val Hin. apply filter_In in Hin.
      destruct Hin as [Hin Hv].
      apply Hs; auto. cbn in Hv. apply negb_true_iff in Hv.
      now apply Z.eqb_neq.
  - destruct Hst as [Hst|Hst]; [now left|]. right.
    intros var val Hin. apply filter_In in Hin. apply (Hst var val).
    apply Hin.
Qed.

Lemma transitions_are_faithful_witness :
  Forall2
    (fun op t =>
       t_name t = op_name op /\
       t_cost t = PlusStateCost (op_cost op) /\
       in_i32 (op_cost op) = true /\
       (forall st,
           int_state st \/ narrow (op_preconditions op) ->
           (applicable (model_of sas_two_vars) st t = true
            <-> forall var val,
                In (var, val) (op_preconditions op) ->
                val <> -1 -> st (Z.to_nat var) = val)) /\
       t_effects t
       = map (fun vv => (Z.to_nat (fst vv), snd vv)) (op_effects op) /\
       narrow (op_effects op))
    (_operators sas_two_vars) (transitions (model_of sas_two_vars)).
Proof.
  apply (transitions_are_faithful doc_two_vars sas_two_vars);
    vm_compute; reflexivity.
Defined.

(* ================================================================== *)
(** ** Lines outside blocks *)

Lemma parse_block_other l :
  is_header l = false -> parse_block l = ret tt.
Proof.
  unfold is_header, parse_block. intros Hh.
  repeat (apply orb_false_iff in Hh; destruct Hh as [Hh ?]).
  repeat match goal with
         | H : (_ =? _)%string = false |- _ => rewrite H; clear H
         end.
  reflexivity.
Qed.

(** The result of the loop does not depend on the bound, once the bound
    exceeds the number of lines. *)
Lemma parse_loop_fuel fuel :
  forall fuel' s ls,
    (List.length ls < fuel)%nat -> (List.length ls < fuel')%nat ->
    parse_loop fuel s ls = parse_loop fuel' s ls.
Proof.
  induction fuel as [|fuel IH]; intros fuel' s ls Hf Hf'; [lia|].
  destruct fuel' as [|fuel']; [lia|].
  cbn [parse_loop].
  destruct (parse_step s ls) as [[[s1 ls1]|]|e] eqn:E; auto.
  apply parse_step_shrinks in E. apply IH; lia.
Qed.

Lemma parse_loop_skip fuel s l ls :
  is_header (remove_newlines l) = false ->
  parse_loop (S fuel) s (l :: ls) = parse_loop fuel s ls.
Proof.
  intros Hh. cbn [parse_loop]. unfold parse_step, get_line.
  now rewrite (parse_block_other _ Hh).
Qed.

(** X5. The parsing loop looks for the five block headers and skips every
    other line that it meets between blocks: lines put in front of a
    document that are not headers do not change the result of the parser,
    so the version and metric sections and the counts of variables,
    operators and rules are never read.  The loop ends on every input:
    any bound above the number of lines gives the same result. *)
Theorem lines_outside_blocks_are_skipped :
  (forall junk ls,
      Forall (fun l => is_header (remove_newlines l) = false) junk ->
      parse_lines (junk ++ ls) = parse_lines ls) /\
  (forall fuel ls,
      (List.length ls < fuel)%nat ->
      parse_loop fuel new_sas ls = parse_lines ls /\
      exists r, parse_lines ls = Some r).
Proof.
  split.
  - intros junk ls Hj. unfold parse_lines.
    induction Hj as [|l junk Hl Hj IH]; [reflexivity|].
    cbn [app List.length]. rewrite parse_loop_skip by exact Hl. exact IH.
  - intros fuel ls Hf. split.
    + unfold parse_lines. apply parse_loop_fuel; lia.
    + apply parse_lines_total.
Qed.

Lemma lines_outside_blocks_are_skipped_witness :
  parse_lines (preamble ++ splitlines doc_axiom)
  = parse_lines (splitlines doc_axiom) /\
  parse_loop 100 new_sas (splitlines doc_axiom)
  = parse_lines (splitlines doc_axiom) /\
  exists r, parse_lines (splitlines doc_axiom) = Some r.
Proof.
  split.
  - apply (proj1 lines_outside_blocks_are_skipped).
    repeat constructor.
  - apply (proj2 lines_outside_blocks_are_skipped 100%nat
                  (splitlines doc_axiom)).
    vm_compute. lia.
Defined.

(* ================================================================== *)
(** ** The lines of a document *)

Lemma no_linebreak_snoc cur c :
  no_linebreak cur -> is_linebreak c = false -> no_linebreak (snoc cur c).
Proof.
  unfold no_linebreak, snoc. intros Hc Hb x Hx.
  induction cur as [|a cur IH]; cbn in Hx.
  - destruct Hx as [Hx|[]]. now subst.
  - destruct Hx as [Hx|Hx].
    + subst x. apply Hc. now left.
    + apply IH; auto. intros y Hy. apply Hc. now right.
Qed.

Lemma splitlines_from_no_linebreak (n : nat) :
  forall s cur,
    (String.length s <= n)%nat ->
    no_linebreak cur ->
    Forall no_linebreak (splitlines_from cur s).
Proof.
  assert (Hempty : no_linebreak EmptyString) by (intros c []).
  induction n as [|n IH]; intros s cur Hlen Hcur.
  - destruct s; [|cbn in Hlen; lia].
    cbn. destruct cur; repeat constructor; auto.
  - destruct s as [|c s'].
    + cbn. destruct cur; repeat constructor; auto.
    + cbn [splitlines_from]. cbn in Hlen.
      destruct (code c =? 13)%nat eqn:E13.
      * destruct s' as [|c2 s''].
        -- repeat constructor; auto.
        -- cbn in Hlen.
           destruct (code c2 =? 10)%nat; constructor; auto;
             apply IH; auto; cbn; lia.
      * destruct (is_linebreak c) eqn:Eb.
        -- constructor; auto. apply IH; auto. lia.
        -- apply IH; [lia|]. now apply no_linebreak_snoc.
Qed.

Lemma remove_newlines_id l : no_linebreak l -> remove_newlines l = l.
Proof.
  unfold no_linebreak. induction l as [|c l IH]; intros Hl; cbn; auto.
  assert (Hc : is_linebreak c = false) by (apply Hl; now left).
  destruct (code c =? 10)%nat eqn:E.
  - apply Nat.eqb_eq in E. unfold is_linebreak in Hc. rewrite E in Hc.
    discriminate.
  - f_equal. apply IH. intros x Hx. apply Hl. now right.
Qed.

(** X6. No line that [splitlines] returns holds a character that ends a
    line, so the [replace] of [get_line] changes no line of a document:
    the line that the loop compares with the block headers, and every
    line that a block reads, is the line of the document as it is. *)
Theorem get_line_returns_the_line :
  forall sas_content l,
    In l (splitlines sas_content) ->
    no_linebreak l /\
    remove_newlines l = l /\
    forall s rest, get_line s (l :: rest) = Ok (Some l, s, rest).
Proof.
  intros sas_content l Hin.
  assert (Hl : no_linebreak l).
  { pose proof (splitlines_from_no_linebreak
                  (String.length sas_content) sas_content EmptyString
                  (le_n _)) as Hall.
    rewrite Forall_forall in Hall. apply Hall; auto. intros c []. }
  split; [exact Hl|]. split; [now apply remove_newlines_id|].
  intros s rest. unfold get_line. now rewrite remove_newlines_id.
Qed.

Lemma get_line_returns_the_line_witness :
  no_linebreak "begin_variable" /\
  remove_newlines "begin_variable" = "begin_variable" /\
  forall s rest,
    get_line s ("begin_variable" :: rest)
    = Ok (Some "begin_variable", s, rest).
Proof.
  apply (get_line_returns_the_line doc_two_vars).
  vm_compute. tauto.
Defined.

(* ================================================================== *)
(** ** The state block *)

Lemma for_each_app {X A} (xs ys : list X) (body : X -> A -> P A) :
  forall a s ls,
    for_each (xs ++ ys) body a s ls
    = (a' <- for_each xs body a ;; for_each ys body a') s ls.
Proof.
  induction xs as [|x xs IH]; intros a s ls; cbn [app for_each].
  - reflexivity.
  - unfold bind. destruct (body x a s ls) as [[[a1 s1] ls1]|e]; auto.
Qed.

Lemma with_init_same s : with_init (_init s) s = s.
Proof. now destruct s. Qed.

Lemma store_initial_get ints :
  forall start init i,
    dict_get i (store_initial ints start init)
    = if (Z.of_nat start <=? i) && (i <? Z.of_nat (start + List.length ints))
      then nth_error ints (Z.to_nat i - start)
      else dict_get i init.
Proof.
  unfold store_initial.
  induction ints as [|v ints IH]; intros start init i; cbn [List.length seq combine fold_left fst snd].
  - replace ((Z.of_nat start <=? i) && (i <? Z.of_nat (start + 0))) with false;
      auto.
    symmetry. apply andb_false_iff.
    destruct (Z.leb_spec (Z.of_nat start) i); auto.
    right. apply Z.ltb_ge. lia.
  - rewrite IH.
    destruct (Z.leb_spec (Z.of_nat (S start)) i) as [H1|H1];
      destruct (Z.ltb_spec i (Z.of_nat (S start + List.length ints)))
        as [H2|H2]; cbn [andb].
    + replace ((Z.of_nat start <=? i)
               && (i <? Z.of_nat (start + S (List.length ints)))) with true.
      * replace (Z.to_nat i - start)%nat
          with (S (Z.to_nat i - S start)) by lia.
        reflexivity.
      * symmetry. apply andb_true_iff. split;
          [apply Z.leb_le|apply Z.ltb_lt]; lia.
    + replace ((Z.of_nat start <=? i)
               && (i <? Z.of_nat (start + S (List.length ints)))) with false.
      * apply dict_get_set_other. lia.
      * symmetry. apply andb_false_iff. right. apply Z.ltb_ge. lia.
    + destruct (Z.eq_dec i (Z.of_nat start)) as [->|Hne].
      * rewrite dict_get_set_same.
        replace ((Z.of_nat start <=? Z.of_nat start)
                 && (Z.of_nat start
                     <? Z.of_nat (start + S (List.length ints))))
          with true.
        -- rewrite Nat2Z.id, Nat.sub_diag. reflexivity.
        -- symmetry. apply andb_true_iff. split;
             [apply Z.leb_le|apply Z.ltb_lt]; lia.
      * rewrite dict_get_set_other by exact Hne.
        replace (Z.of_nat start <=? i) with false; auto.
        symmetry. apply Z.leb_gt. lia.
    + destruct (Z.eq_dec i (Z.of_nat start)) as [->|Hne]; [lia|].
      rewrite dict_get_set_other by exact Hne.
      replace (Z.of_nat start <=? i) with false; auto.
      symmetry. apply Z.leb_gt. lia.
Qed.

(** The loop of the state block on lines that hold integers. *)
Lemma state_loop vals ints :
  int_lines vals ints ->
  forall start s rest,
    for_each (map Z.of_nat (seq start (List.length ints)))
      (fun var (_ : unit) =>
         l <- get_line ;;
         val <- lift (int_of_line l) ;;
         self <- get_self ;;
         modify (with_init (dict_set var val (_init self))))
      tt s (vals ++ rest)
    = Ok (tt, with_init (store_initial ints start (_init s)) s, rest).
Proof.
  induction 1 as [|l v vals ints Hl Hf IH]; intros start s rest.
  - cbn. now rewrite with_init_same.
  - cbn [List.length seq map for_each app].
    unfold bind at 1. unfold bind at 1. cbn [get_line].
    unfold bind at 1. cbn [int_of_line]. rewrite Hl. cbn [lift ret].
    unfold bind at 1. cbn [get_self modify].
    rewrite IH. reflexivity.
Qed.

Lemma int_line_not_end_state l v :
  py_int (remove_newlines l) = Ok v ->
  line_eqb (Some (remove_newlines l)) "end_state" = false.
Proof.
  intros Hl. cbn [line_eqb].
  destruct (remove_newlines l =? "end_state")%string eqn:E; auto.
  apply String.eqb_eq in E. rewrite E in Hl. vm_compute in Hl. discriminate.
Qed.

Lemma int_lines_split vals ints :
  int_lines vals ints ->
  forall n,
    (n < List.length ints)%nat ->
    exists vals1 ints1 l v vals2,
      vals = vals1 ++ l :: vals2 /\
      int_lines vals1 ints1 /\ List.length ints1 = n /\
      py_int (remove_newlines l) = Ok v.
Proof.
  induction 1 as [|l v vals ints Hl Hf IH]; intros n Hlen;
    [cbn in Hlen; lia|].
  destruct n as [|n].
  - exists [], [], l, v, vals. repeat split; auto. constructor.
  - cbn in Hlen. destruct (IH n ltac:(lia))
      as (vals1 & ints1 & l' & v' & vals2 & He & Hi & Hn & Hp).
    exists (l :: vals1), (v :: ints1), l', v', vals2.
    repeat split; auto.
    + now rewrite He.
    + constructor; auto.
    + cbn. now rewrite Hn.
Qed.

(** X7. A state block stores the integer of its [k]-th line as the
    initial value of the variable with id [k], for the variables declared
    so far, leaves the other entries of the initial state and every other
    field alone, and ends at its [end_state] line.  The number of lines is
    not free: with fewer values than declared variables the block reads
    [end_state] as a number and fails with [ValueError]; with more, the
    line after the last value read is not [end_state] and the block fails
    its assertion. *)
Theorem state_block_sets_initial_values :
  forall s vals ints rest,
    int_lines vals ints ->
    (List.length ints = List.length (_variables s) ->
     parse_state s (vals ++ "end_state" :: rest)
     = Ok (tt, with_init (store_initial ints 0 (_init s)) s, rest) /\
     (forall k v,
         nth_error ints k = Some v ->
         dict_get (Z.of_nat k) (store_initial ints 0 (_init s)) = Some v) /\
     (forall i,
         ~ (0 <= i < Z.of_nat (List.length ints)) ->
         dict_get i (store_initial ints 0 (_init s)) = dict_get i (_init s)))
    /\
    ((List.length ints < List.length (_variables s))%nat ->
     parse_state s (vals ++ "end_state" :: rest) = Raise ValueError) /\
    ((List.length (_variables s) < List.length ints)%nat ->
     parse_state s (vals ++ "end_state" :: rest)
     = Raise (AssertionError no_msg)).
Proof.
  intros s vals ints rest Hv. split; [|split].
  - intros Hlen. split; [|split].
    + unfold parse_state. unfold bind at 1. cbn [get_self].
      unfold bind at 1. unfold py_range. rewrite Nat2Z.id, <- Hlen.
      rewrite (state_loop vals ints Hv).
      unfold bind. cbn. reflexivity.
    + intros k v Hk. rewrite store_initial_get.
      assert (k < List.length ints)%nat
        by (apply nth_error_Some; congruence).
      replace ((Z.of_nat 0 <=? Z.of_nat k)
               && (Z.of_nat k <? Z.of_nat (0 + List.length ints)))
        with true.
      * now rewrite Nat2Z.id, Nat.sub_0_r.
      * symmetry. apply andb_true_iff. split;
          [apply Z.leb_le|apply Z.ltb_lt]; lia.
    + intros i Hi. rewrite store_initial_get.
      replace ((Z.of_nat 0 <=? i) && (i <? Z.of_nat (0 + List.length ints)))
        with false; auto.
      symmetry. apply andb_false_iff.
      destruct (Z.leb_spec (Z.of_nat 0) i); auto.
      right. apply Z.ltb_ge. cbn in *. lia.
  - intros Hlen.
    unfold parse_state. unfold bind at 1. cbn [get_self].
    unfold bind at 1. unfold py_range. rewrite Nat2Z.id.
    replace (List.length (_variables s))
      with (List.length ints
            + S (List.length (_variables s) - S (List.length ints)))%nat
      by lia.
    rewrite seq_app, map_app, for_each_app.
    unfold bind at 1. rewrite (state_loop vals ints Hv).
    cbn [seq map for_each]. unfold bind at 1. unfold bind at 1.
    cbn [get_line]. unfold bind at 1. reflexivity.
  - intros Hlen.
    unfold parse_state. unfold bind at 1. cbn [get_self].
    unfold bind at 1. unfold py_range. rewrite Nat2Z.id.
    destruct (int_lines_split _ _ Hv _ Hlen)
      as (vals1 & ints1 & l & v & vals2 & -> & Hi & Hn & Hp).
    rewrite <- Hn. rewrite <- app_assoc. cbn [app].
    rewrite (state_loop vals1 ints1 Hi).
    unfold bind at 1. cbn [get_line].
    rewrite (int_line_not_end_state _ _ Hp). reflexivity.
Qed.

Lemma state_block_sets_initial_values_witness :
  (parse_state sas_two_vars (["1"; "0"] ++ "end_state" :: ["tail"])
   = Ok (tt,
         with_init (store_initial [1; 0] 0 (_init sas_two_vars))
                   sas_two_vars,
         ["tail"]) /\
   (forall k v,
       nth_error [1; 0] k = Some v ->
       dict_get (Z.of_nat k) (store_initial [1; 0] 0 (_init sas_two_vars))
       = Some v) /\
   (forall i,
       ~ (0 <= i < Z.of_nat (List.length [1; 0])) ->
       dict_get i (store_initial [1; 0] 0 (_init sas_two_vars))
       = dict_get i (_init sas_two_vars))) /\
  parse_state sas_two_vars (["1"] ++ "end_state" :: ["tail"])
  = Raise ValueError /\
  parse_state sas_two_vars (["1"; "0"; "1"] ++ "end_state" :: ["tail"])
  = Raise (AssertionError no_msg).
Proof.
  split; [|split].
  - apply (state_block_sets_initial_values sas_two_vars ["1"; "0"] [1; 0]);
      [repeat constructor|reflexivity].
  - apply (state_block_sets_initial_values sas_two_vars ["1"] [1]);
      [repeat constructor|vm_compute; lia].
  - apply (state_block_sets_initial_values sas_two_vars
             ["1"; "0"; "1"] [1; 0; 1]);
      [repeat constructor|vm_compute; lia].
Defined.

(* ================================================================== *)
(** ** The maps of an operator *)

Lemma for_each_acc_invariant {X A} (I : A -> Prop) (xs : list X)
      (body : X -> A -> P A) :
  (forall x a s ls a' s' ls',
      I a -> body x a s ls = Ok (a', s', ls') -> I a') ->
  forall a s ls a' s' ls',
    I a -> for_each xs body a s ls = Ok (a', s', ls') -> I a'.
Proof.
  intros Hb. induction xs as [|x xs IH]; intros a s ls a' s' ls' Ha Hrun.
  - inversion Hrun. now subst.
  - cbn [for_each] in Hrun. apply bind_inv in Hrun.
    destruct Hrun as (a1 & s1 & ls1 & H1 & Hrun).
    eapply IH; [|exact Hrun]. eapply Hb; eauto.
Qed.

Lemma assignment_pair_inv d s ls d' s' ls' :
  assignment_pair d s ls = Ok (d', s', ls') ->
  exists var val, dict_mem var d = false /\ d' = dict_set var val d.
Proof.
  unfold assignment_pair. intros Hrun. pinv.
  match goal with
  | H : negb (dict_mem ?v _) = true |- _ =>
      apply negb_true_iff in H; eauto
  end.
Qed.

Lemma effect_record_inv pre eff s ls pre' eff' s' ls' :
  effect_record (pre, eff) s ls = Ok ((pre', eff'), s', ls') ->
  (pre' = pre /\ eff' = eff) \/
  (exists var p post,
      dict_mem var pre = false /\ dict_mem var eff = false /\
      pre' = dict_set var p pre /\ eff' = dict_set var post eff).
Proof.
  unfold effect_record. intros Hrun. pinv.
  match type of Hrun with
  | (if ?b then _ else _) _ _ = _ => destruct b eqn:Hc
  end; pinv.
  - left. match goal with H : (_, _) = (_, _) |- _ => inversion H end. auto.
  - right.
    repeat match goal with
           | H : negb _ = true |- _ => apply negb_true_iff in H
           | H : (_, _) = (_, _) |- _ => inversion H; clear H
           end.
    eauto 10.
Qed.

Lemma dict_keys_set_fresh {V} (k : Z) (v : V) (d : dict V) :
  dict_mem k d = false -> dict_keys (dict_set k v d) = dict_keys d ++ [k].
Proof. intros Hm. now rewrite dict_keys_set_cases, Hm. Qed.

Lemma effect_record_wf pre eff s ls pre' eff' s' ls' :
  operator_wf (mkOperator None pre eff 0) ->
  effect_record (pre, eff) s ls = Ok ((pre', eff'), s', ls') ->
  operator_wf (mkOperator None pre' eff' 0).
Proof.
  intros (Hp & He & Hi) Hrun. apply effect_record_inv in Hrun.
  destruct Hrun as [[-> ->]|(var & p & post & Hmp & Hme & -> & ->)].
  - repeat split; auto.
  - unfold operator_wf. cbn [op_preconditions op_effects] in *.
    split; [|split].
    + now apply dict_set_keys_nodup.
    + now apply dict_set_keys_nodup.
    + rewrite !dict_keys_set_fresh by assumption.
      intros x Hx. apply in_app_iff in Hx. apply in_app_iff.
      destruct Hx as [Hx|Hx]; auto.
Qed.

Lemma parse_operator_inv s ls u s' ls' :
  parse_operator s ls = Ok (u, s', ls') ->
  exists op,
    operator_wf op /\ _operators s' = _operators s ++ [op] /\
    _goal s' = _goal s /\ _init s' = _init s.
Proof.
  intros Hrun.
  pose proof (parse_operator_init _ _ _ _ _ Hrun) as Hinit.
  assert (Hgoal : respects (same_on _goal) parse_operator).
  { unfold parse_operator, assignment_pair, effect_record, parse_cost.
    frame_tac. }
  apply Hgoal in Hrun as Hg. unfold same_on in Hinit, Hg. cbn in Hinit, Hg.
  unfold parse_operator in Hrun.
  apply bind_inv in Hrun. destruct Hrun as (name & s1 & ls1 & H1 & Hrun).
  apply bind_inv in Hrun. destruct Hrun as (l & s2 & ls2 & H2 & Hrun).
  apply bind_inv in Hrun. destruct Hrun as (npre & s3 & ls3 & H3 & Hrun).
  apply bind_inv in Hrun. destruct Hrun as (pre & s4 & ls4 & H4 & Hrun).
  apply bind_inv in Hrun. destruct Hrun as (l5 & s5 & ls5 & H5 & Hrun).
  apply bind_inv in Hrun. destruct Hrun as (neff & s6 & ls6 & H6 & Hrun).
  apply bind_inv in Hrun. destruct Hrun as ([pre' eff] & s7 & ls7 & H7 & Hrun).
  apply bind_inv in Hrun. destruct Hrun as (cost & s8 & ls8 & H8 & Hrun).
  assert (Hpre : NoDup (dict_keys pre)).
  { refine (for_each_acc_invariant (fun d => NoDup (dict_keys d))
                                    _ _ _ _ _ _ _ _ _ _ H4);
      [|constructor].
    intros x a s0 ls0 a' s0' ls0' Ha Hb. apply assignment_pair_inv in Hb.
    destruct Hb as (var & val & _ & ->). now apply dict_set_keys_nodup. }
  assert (Hwf : operator_wf (mkOperator None pre' eff 0)).
  { refine (for_each_acc_invariant
                (fun pe => operator_wf (mkOperator None (fst pe) (snd pe) 0))
                _ _ _ _ _ _ (pre', eff) _ _ _ H7).
    - intros x [p e] s0 ls0 [p' e'] s0' ls0' Ha Hb.
      eapply effect_record_wf; eauto.
    - split; [exact Hpre|]. split; [constructor|]. intros x []. }
  assert (Hstate : s8 = s7).
  { unfold parse_cost in H8. pinv. reflexivity. }
  subst s8.
  assert (Ho4 : s4 = s3) by exact (assignment_pairs_state _ _ _ _ _ _ _ H4).
  assert (Ho7 : _operators s6 = _operators s7).
  { refine (respects_for_each (same_on _operators) _ _ _ _ _ _ _ _ _ H7).
    intros x [p e]. unfold effect_record. frame_tac. }
  subst s4. pinv. eexists.
  split; [|split; [cbn; rewrite <- Ho7; reflexivity|split; congruence]].
  exact Hwf.
Qed.

(** A block leaves the field [f] alone: by the frame rules. *)
Ltac block_frame :=
  unfold parse_variable, parse_rule, parse_operator, parse_goal, parse_state,
    get_lines, rule_precondition, check_head, assignment_pair, effect_record,
    parse_cost;
  frame_tac.

Lemma parse_block_operators l s ls s' ls' :
  parse_block l s ls = Ok (tt, s', ls') ->
  _operators s' = _operators s \/
  exists op, operator_wf op /\ _operators s' = _operators s ++ [op].
Proof.
  assert (Hv : respects (same_on _operators) parse_variable) by block_frame.
  assert (Hr : respects (same_on _operators) parse_rule) by block_frame.
  assert (Hg : respects (same_on _operators) parse_goal) by block_frame.
  assert (Hs : respects (same_on _operators) parse_state) by block_frame.
  unfold parse_block.
  destruct (l =? "begin_variable")%string.
  { intros Hrun. left. symmetry. exact (Hv _ _ _ _ _ Hrun). }
  destruct (l =? "begin_rule")%string.
  { intros Hrun. left. symmetry. exact (Hr _ _ _ _ _ Hrun). }
  destruct (l =? "begin_operator")%string.
  { intros Hrun. right. apply parse_operator_inv in Hrun.
    destruct Hrun as (op & Hwf & Hops & _). eauto. }
  destruct (l =? "begin_goal")%string.
  { intros Hrun. left. symmetry. exact (Hg _ _ _ _ _ Hrun). }
  destruct (l =? "begin_state")%string.
  { intros Hrun. left. symmetry. exact (Hs _ _ _ _ _ Hrun). }
  intros Hrun. inversion Hrun. now left.
Qed.

Lemma parse_lines_operators_wf ls s :
  parse_lines ls = Some (Ok s) -> Forall operator_wf (_operators s).
Proof.
  apply (parse_lines_invariant (fun s => Forall operator_wf (_operators s))).
  - constructor.
  - intros l s0 ls0 s' ls' HI Hrun.
    destruct (parse_block_operators _ _ _ _ _ Hrun)
      as [->|(op & Hwf & ->)]; auto.
    apply Forall_app. split; auto.
Qed.

Lemma NoDup_map_to_nat (l : list Z) :
  NoDup l -> (forall k, In k l -> 0 <= k) -> NoDup (map Z.to_nat l).
Proof.
  induction 1 as [|k l Hk Hnd IH]; intros Hpos; cbn; constructor.
  - intros Hin. apply in_map_iff in Hin. destruct Hin as (j & Hj & Hin).
    assert (0 <= k) by (apply Hpos; now left).
    assert (0 <= j) by (apply Hpos; now right).
    assert (j = k) by lia. subst. contradiction.
  - apply IH. intros j Hj. apply Hpos. now right.
Qed.

Lemma vars_wf_declared vars k :
  vars_wf vars -> dict_mem k vars = true -> 0 <= k.
Proof.
  intros Hwf Hm. apply dict_mem_keys in Hm.
  rewrite (vars_wf_keys _ Hwf) in Hm. apply in_map_iff in Hm.
  destruct Hm as (n & <- & _). lia.
Qed.

(** X8. In every operator of a parsed document no variable has two
    precondition entries or two effects, and every variable with an
    effect has a precondition entry, which holds its pre-value.  In a
    model that the translation returns, no transition therefore assigns
    to the same integer variable twice. *)
Theorem operator_maps_are_well_formed :
  (forall sas_content s,
      _parse sas_content = Some (Ok s) ->
      Forall operator_wf (_operators s)) /\
  (forall sas_content m t,
      translate sas_content = Some (Ok m) ->
      In t (transitions m) ->
      NoDup (map fst (t_effects t))).
Proof.
  split.
  - intros sas_content s Hp. exact (parse_lines_operators_wf _ _ Hp).
  - intros sas_content m t Ht Hin.
    destruct (translate_returns _ _ Ht)
      as (s & Hp & Hax & Hce & [_ Hdecl] & _ & HT & ->).
    cbn [model_of transitions] in Hin. apply in_map_iff in Hin.
    destruct Hin as (op & <- & Hop).
    cbn [encode_operator t_effects]. rewrite map_map. cbn [encode_effect fst].
    rewrite <- (map_map fst Z.to_nat).
    pose proof (parse_lines_operators_wf _ _ Hp) as Hwf.
    rewrite Forall_forall in Hwf. destruct (Hwf op Hop) as (_ & Hnd & _).
    apply NoDup_map_to_nat; [exact Hnd|].
    intros k Hk. apply in_map_iff in Hk. destruct Hk as ([k' post] & <- & Hk).
    apply (vars_wf_declared (_variables s)).
    + apply (parse_lines_ir_wf _ _ Hp).
    + apply Hdecl. left. exists op, post. auto.
Qed.

Lemma operator_maps_are_well_formed_witness :
  Forall operator_wf (_operators sas_two_vars) /\
  NoDup (map fst (t_effects
                    (mkTransition (Some "set-b") (PlusStateCost 1)
                                  [CEq (EVar 0) (EConst 0)] [(1%nat, 1)]))).
Proof.
  split.
  - apply (proj1 operator_maps_are_well_formed doc_two_vars).
    vm_compute. reflexivity.
  - apply (proj2 operator_maps_are_well_formed doc_two_vars
                 (model_of sas_two_vars)).
    + vm_compute. reflexivity.
    + vm_compute. auto.
Defined.

(* ================================================================== *)
(** ** The initial state covers a prefix of the variables *)

Lemma keys_prefix_set (k a : nat) (v : Z) (d : dict Z) :
  dict_keys d = map Z.of_nat (seq 0 k) ->
  (a <= k)%nat ->
  dict_keys (dict_set (Z.of_nat a) v d)
  = map Z.of_nat (seq 0 (Nat.max k (S a))).
Proof.
  intros Hk Ha. rewrite dict_keys_set_cases.
  destruct (dict_mem (Z.of_nat a) d) eqn:Hm.
  - apply dict_mem_keys in Hm. rewrite Hk in Hm. apply in_map_iff in Hm.
    destruct Hm as (j & Hj & Hin). apply in_seq in Hin.
    assert (j = a) by lia. subst j.
    rewrite Hk. f_equal. f_equal. lia.
  - assert (Hak : a = k).
    { destruct (Nat.eq_dec a k) as [|Hne]; auto. exfalso.
      assert (Hin : In (Z.of_nat a) (dict_keys d)).
      { rewrite Hk. apply in_map. apply in_seq. lia. }
      apply dict_mem_keys in Hin. congruence. }
    subst a. rewrite Hk. replace (Nat.max k (S k)) with (S k) by lia.
    rewrite seq_S, map_app. reflexivity.
Qed.

Lemma state_loop_prefix (m : nat) :
  forall a k s ls u s' ls',
    dict_keys (_init s) = map Z.of_nat (seq 0 k) ->
    (a <= k)%nat ->
    for_each (map Z.of_nat (seq a m))
      (fun var (_ : unit) =>
         l <- get_line ;;
         val <- lift (int_of_line l) ;;
         self <- get_self ;;
         modify (with_init (dict_set var val (_init self))))
      tt s ls
    = Ok (u, s', ls') ->
    dict_keys (_init s') = map Z.of_nat (seq 0 (Nat.max k (a + m))) /\
    _variables s' = _variables s.
Proof.
  induction m as [|m IH]; intros a k s ls u s' ls' Hk Ha Hrun.
  - inversion Hrun; subst. split; auto. rewrite Hk. f_equal. f_equal. lia.
  - cbn [seq map for_each] in Hrun.
    apply bind_inv in Hrun. destruct Hrun as ([] & s1 & ls1 & H1 & Hrun).
    pinv.
    apply (IH (S a) (Nat.max k (S a))) in Hrun.
    + destruct Hrun as [Hkeys Hvars]. cbn in Hvars. split; auto.
      rewrite Hkeys. f_equal. f_equal. lia.
    + cbn. now apply keys_prefix_set.
    + lia.
Qed.

Lemma parse_state_prefix s ls u s' ls' :
  init_prefix s ->
  parse_state s ls = Ok (u, s', ls') ->
  init_prefix s'.
Proof.
  intros (k & Hk & Hkeys) Hrun. unfold parse_state in Hrun.
  apply bind_inv in Hrun. destruct Hrun as (self & s1 & ls1 & H1 & Hrun).
  apply get_self_inv in H1. destruct H1 as (-> & -> & ->).
  apply bind_inv in Hrun. destruct Hrun as (u2 & s2 & ls2 & H2 & Hrun).
  unfold py_range in H2. rewrite Nat2Z.id in H2.
  apply (state_loop_prefix _ 0 k) in H2; auto; [|lia].
  destruct H2 as [Hkeys2 Hvars]. pinv.
  exists (Nat.max k (0 + List.length (_variables s))). split.
  - rewrite Hvars. lia.
  - exact Hkeys2.
Qed.

Lemma dict_set_length_ge {V} (k : Z) (v : V) (d : dict V) :
  (List.length d <= List.length (dict_set k v d))%nat.
Proof.
  induction d as [|[k' v'] d IH]; cbn; [lia|].
  destruct (k =? k'); cbn; lia.
Qed.

Lemma parse_lines_init_prefix ls s :
  parse_lines ls = Some (Ok s) -> init_prefix s.
Proof.
  apply (parse_lines_invariant init_prefix).
  - exists 0%nat. split; auto.
  - intros l s0 ls0 s' ls' HI.
    assert (Hkeep : _init s0 = _init s' ->
                    (List.length (_variables s0)
                     <= List.length (_variables s'))%nat ->
                    init_prefix s').
    { intros Hi Hv. destruct HI as (k & Hk & Hkeys). exists k.
      rewrite <- Hi. split; auto. lia. }
    assert (Hr : respects (same_on _variables) parse_rule) by block_frame.
    assert (Ho : respects (same_on _variables) parse_operator)
      by block_frame.
    assert (Hg : respects (same_on _variables) parse_goal) by block_frame.
    unfold parse_block.
    destruct (l =? "begin_variable")%string.
    { intros Hrun. apply Hkeep.
      - exact (parse_variable_init _ _ _ _ _ Hrun).
      - apply parse_variable_inv in Hrun.
        destruct Hrun as (values & layer & ->). cbn [with_variables _variables].
        apply dict_set_length_ge. }
    destruct (l =? "begin_rule")%string.
    { intros Hrun. apply Hkeep.
      - exact (parse_rule_init _ _ _ _ _ Hrun).
      - pose proof (Hr _ _ _ _ _ Hrun) as E. unfold same_on in E.
        cbn in E. rewrite E. lia. }
    destruct (l =? "begin_operator")%string.
    { intros Hrun. apply Hkeep.
      - exact (parse_operator_init _ _ _ _ _ Hrun).
      - pose proof (Ho _ _ _ _ _ Hrun) as E. unfold same_on in E.
        cbn in E. rewrite E. lia. }
    destruct (l =? "begin_goal")%string.
    { intros Hrun. apply Hkeep.
      - exact (parse_goal_init _ _ _ _ _ Hrun).
      - pose proof (Hg _ _ _ _ _ Hrun) as E. unfold same_on in E.
        cbn in E. rewrite E. lia. }
    destruct (l =? "begin_state")%string.
    { intros Hrun. eapply parse_state_prefix; eauto. }
    intros Hrun. inversion Hrun. subst. exact HI.
Qed.

Lemma hfor_each_app {X} (xs ys : list X) (body : X -> H unit) e :
  hfor_each (xs ++ ys) body e
  = (hfor_each xs body ;;~ hfor_each ys body) e.
Proof.
  revert e. induction xs as [|x xs IH]; intros e; cbn [app hfor_each].
  - reflexivity.
  - unfold hbind. destruct (body x e) as [e1 [[]|x1]]; auto.
Qed.

Lemma hbind_raise {A B} (m : H A) (k : A -> H B) e x :
  snd (m e) = Raise x -> snd (hbind m k e) = Raise x.
Proof.
  unfold hbind. destruct (m e) as [e1 [a|y]]; cbn; intros Hm;
    [discriminate|inversion Hm; reflexivity].
Qed.

Lemma vars_wf_app_l (vars rest : dict SasVariable) :
  vars_wf (vars ++ rest) -> vars_wf vars.
Proof.
  intros Hwf k j w Hk. apply (Hwf k j w).
  rewrite nth_error_app1; auto. apply nth_error_Some. congruence.
Qed.

(** [_handle_variables] on a document whose initial state covers the first
    [k] variables: it stops at the first initial value outside 32 bits,
    and at the variable [k] when there is none. *)
Lemma handle_variables_first_missing s (k : nat) :
  vars_wf (_variables s) ->
  _axiom_heads s = [] ->
  dict_keys (_init s) = map Z.of_nat (seq 0 k) ->
  (k <= List.length (_variables s))%nat ->
  (narrow (_init s) ->
   (k < List.length (_variables s))%nat ->
   snd (_handle_variables s new_enc) = Raise (KeyError (Z.of_nat k))) /\
  ((exists i v, In (i, v) (_init s) /\ in_i32 v = false) ->
   snd (_handle_variables s new_enc) = Raise OverflowError).
Proof.
  intros Hwf Hheads Hkeys Hk.
  pose proof (firstn_skipn k (_variables s)) as Hv.
  set (pre := firstn k (_variables s)) in *.
  set (post := skipn k (_variables s)) in *.
  assert (Hlen : List.length pre = k) by (apply firstn_length_le; exact Hk).
  rewrite <- Hv in Hwf.
  assert (Hkpre : dict_keys pre = dict_keys (_init s)).
  { rewrite (vars_wf_keys _ (vars_wf_app_l _ _ Hwf)), Hlen. now symmetry. }
  assert (Hnd : NoDup (dict_keys (_init s))).
  { rewrite Hkeys. apply Finite.Injective_map_NoDup; [|apply seq_NoDup].
    intros a b Hab. lia. }
  remember (snd (_handle_variables s new_enc)) as R eqn:HR.
  unfold _handle_variables in HR. unfold hbind at 1 in HR.
  rewrite <- Hv, hfor_each_app in HR. unfold hbind at 1 in HR.
  match type of HR with
  | context [hfor_each pre ?b ?e0] =>
      destruct (hfor_each pre b e0) as [e1 r1] eqn:Hpre
  end.
  apply (handle_variables_loop s Hheads pre []) in Hpre;
    [|exact (vars_wf_app_l _ _ Hwf)|reflexivity|reflexivity].
  destruct Hpre
    as [(-> & _ & _ & _ & _ & _ & Hin)
       |[(j & _ & Hj & Hm)|(j & -> & Hj & Hm & Hn)]].
  - split.
    + intros _ Hlt.
      destruct post as [|[i v] post'].
      { rewrite app_nil_r in Hv. rewrite <- Hv in Hlt. lia. }
      assert (Hi : i = Z.of_nat k).
      { apply (Hwf k i v). rewrite nth_error_app2 by lia.
        rewrite Hlen, Nat.sub_diag. reflexivity. }
      subst i.
      cbn [hfor_each] in HR. unfold hbind at 1 in HR. rewrite Hheads in HR.
      cbn [dict_mem dict_get] in HR. unfold hbind at 1 in HR.
      unfold hlift, dict_lookup in HR.
      assert (Hnone : dict_get (Z.of_nat k) (_init s) = None).
      { apply dict_get_None_keys. rewrite Hkeys. intros Hin'.
        apply in_map_iff in Hin'. destruct Hin' as (j & Hj & Hin').
        apply in_seq in Hin'. lia. }
      rewrite Hnone in HR. exact HR.
    + intros (i & v & Hiv & Hbad). exfalso.
      assert (Hi : In i (dict_keys pre)).
      { rewrite Hkpre. apply (in_map fst) in Hiv. exact Hiv. }
      destruct (Hin i Hi) as [_ Hok].
      unfold initial_value in Hok.
      rewrite (dict_get_nodup_in _ _ _ Hnd Hiv) in Hok. congruence.
  - exfalso. rewrite Hkpre in Hj. apply dict_mem_keys in Hj. congruence.
  - split.
    + intros Hnar _. exfalso.
      unfold dict_mem in Hm. unfold initial_value in Hn.
      destruct (dict_get j (_init s)) as [v|] eqn:Hg; [|discriminate].
      apply dict_get_In in Hg. rewrite (Hnar _ _ Hg) in Hn. discriminate.
    + intros _. exact HR.
Qed.

(** X9. The initial state of a parsed document covers a prefix of the
    declared variables: its keys are the ids 0 to [k - 1] for some [k] up
    to the number of declared variables, so that it never names an
    undeclared variable.  When the document passes the gate of
    [transform], the translation fails with [OverflowError] if some
    initial value is outside 32 bits.  If all have 32 bits and some
    declared variable is left without initial value, because it is
    declared after the last state block, the translation fails with
    [KeyError] on the first such variable, whose id is the number of
    initial values. *)
Theorem first_variable_without_value :
  forall sas_content s,
    _parse sas_content = Some (Ok s) ->
    init_prefix s /\
    (_detected_axioms s = false ->
     _detected_conditional_effects s = false ->
     narrow (_init s) ->
     (List.length (_init s) < List.length (_variables s))%nat ->
     translate sas_content
     = Some (Raise (KeyError (Z.of_nat (List.length (_init s)))))) /\
    (_detected_axioms s = false ->
     _detected_conditional_effects s = false ->
     (exists i v, In (i, v) (_init s) /\ in_i32 v = false) ->
     translate sas_content = Some (Raise OverflowError)).
Proof.
  intros sas_content s Hp.
  pose proof (parse_lines_init_prefix _ _ Hp) as Hpre.
  split; [exact Hpre|].
  destruct Hpre as (k & Hk & Hkeys).
  assert (Hl : List.length (_init s) = k).
  { pose proof (f_equal (@List.length Z) Hkeys) as E.
    unfold dict_keys in E. now rewrite !length_map, length_seq in E. }
  split.
  - intros Hax Hce Hnar Hlen.
    destruct (parsed_supported _ _ Hp Hax) as [Hwf Hheads].
    unfold translate. rewrite Hp. f_equal.
    unfold transform. rewrite Hax, Hce. cbn [orb].
    apply hbind_raise. rewrite Hl.
    apply (handle_variables_first_missing s k Hwf Hheads Hkeys Hk); auto.
    lia.
  - intros Hax Hce Hbad.
    destruct (parsed_supported _ _ Hp Hax) as [Hwf Hheads].
    unfold translate. rewrite Hp. f_equal.
    unfold transform. rewrite Hax, Hce. cbn [orb].
    apply hbind_raise.
    apply (handle_variables_first_missing s k Hwf Hheads Hkeys Hk); auto.
Qed.

Example parse_doc_late_variable :
  _parse doc_late_variable = Some (Ok sas_three_vars).
Proof. vm_compute. reflexivity. Qed.

Example parse_doc_wide_late_variable :
  _parse doc_wide_late_variable = Some (Ok sas_wide_late_variable).
Proof. vm_compute. reflexivity. Qed.

Lemma first_variable_without_value_witness :
  (init_prefix sas_three_vars /\
   (_detected_axioms sas_three_vars = false ->
    _detected_conditional_effects sas_three_vars = false ->
    narrow (_init sas_three_vars) ->
    (List.length (_init sas_three_vars)
     < List.length (_variables sas_three_vars))%nat ->
    translate doc_late_variable
    = Some (Raise (KeyError
                     (Z.of_nat (List.length (_init sas_three_vars)))))) /\
   (_detected_axioms sas_three_vars = false ->
    _detected_conditional_effects sas_three_vars = false ->
    (exists i v, In (i, v) (_init sas_three_vars) /\ in_i32 v = false) ->
    translate doc_late_variable = Some (Raise OverflowError))) /\
  translate doc_late_variable = Some (Raise (KeyError 2)) /\
  translate doc_wide_late_variable = Some (Raise OverflowError).
Proof.
  split; [|split].
  - apply (first_variable_without_value doc_late_variable sas_three_vars).
    vm_compute. reflexivity.
  - apply (proj1 (proj2 (first_variable_without_value
                           doc_late_variable sas_three_vars
                           parse_doc_late_variable))); try reflexivity.
    + intros var val Hin.
      cbn in Hin. destruct Hin as [Hin|[Hin|[]]];
        injection Hin as <- <-; reflexivity.
    + cbn. lia.
  - apply (proj2 (proj2 (first_variable_without_value
                           doc_wide_late_variable sas_wide_late_variable
                           parse_doc_wide_late_variable))); try reflexivity.
    exists 0, 2147483648. split; [now left|reflexivity].
Defined.

(* ================================================================== *)
(** ** The registry of rules *)

Lemma register_rule_heads_wf r s :
  heads_wf s ->
  heads_wf (register_head r (append_rule r (with_detected_axioms true s))).
Proof.
  intros (Hfiled & Hall & Hflag).
  unfold heads_wf, register_head.
  cbn [_axiom_heads _rules _detected_axioms append_rule with_detected_axioms].
  set (v := rule_var r).
  assert (Hh : exists nr,
             (match dict_get v (_axiom_heads s) with
              | Some rs => dict_set v (rs ++ [r]) (_axiom_heads s)
              | None => dict_set v [r] (_axiom_heads s)
              end) = dict_set v nr (_axiom_heads s) /\
             In r nr /\
             (forall r', In r' nr ->
                         r' = r \/
                         exists rs, dict_get v (_axiom_heads s) = Some rs /\
                                    In r' rs) /\
             (forall rs, dict_get v (_axiom_heads s) = Some rs ->
                         incl rs nr)).
  { destruct (dict_get v (_axiom_heads s)) as [rs|] eqn:Eg.
    - exists (rs ++ [r]). repeat split.
      + apply in_app_iff. right. now left.
      + intros r' Hr'. apply in_app_iff in Hr'.
        destruct Hr' as [Hr'|[Hr'|[]]]; eauto.
      + intros rs' E x Hx. inversion E; subst.
        apply in_app_iff. now left.
    - exists [r]. repeat split.
      + now left.
      + intros r' [Hr'|[]]. now left.
      + discriminate. }
  destruct Hh as (nr & -> & Hin & Hfrom & Hold).
  split; [|split].
  - intros h rs Hg.
    destruct (Z.eq_dec h v) as [->|Hne].
    + rewrite dict_get_set_same in Hg. inversion Hg; subst rs. split.
      * intros E. rewrite E in Hin. contradiction.
      * intros r' Hr'. destruct (Hfrom r' Hr') as [->|(rs & Eg & Hrs)].
        -- split; auto. apply in_app_iff. right. now left.
        -- destruct (Hfiled _ _ Eg) as [_ Hf]. destruct (Hf _ Hrs).
           split; auto. apply in_app_iff. now left.
    + rewrite dict_get_set_other in Hg by exact Hne.
      destruct (Hfiled _ _ Hg) as [Hne' Hf]. split; auto.
      intros r' Hr'. destruct (Hf _ Hr'). split; auto.
      apply in_app_iff. now left.
  - intros r' Hr'. apply in_app_iff in Hr'.
    destruct Hr' as [Hr'|[<-|[]]].
    + destruct (Hall _ Hr') as (rs & Eg & Hrs).
      destruct (Z.eq_dec (rule_var r') v) as [Heq|Hne].
      * exists nr. rewrite Heq, dict_get_set_same. split; auto.
        apply (Hold rs); [congruence|exact Hrs].
      * exists rs. rewrite dict_get_set_other by exact Hne. auto.
    + exists nr. fold v. rewrite dict_get_set_same. auto.
  - split; auto. intros _ E. apply app_eq_nil in E. destruct E; discriminate.
Qed.

Lemma core_heads_wf s s' : core s = core s' -> heads_wf s -> heads_wf s'.
Proof.
  unfold core, heads_wf. intros Hc.
  assert (Hr : _rules s' = _rules s) by congruence.
  assert (Hh : _axiom_heads s' = _axiom_heads s) by congruence.
  assert (Hd : _detected_axioms s' = _detected_axioms s) by congruence.
  now rewrite Hr, Hh, Hd.
Qed.

Lemma parse_lines_heads_wf ls s : parse_lines ls = Some (Ok s) -> heads_wf s.
Proof.
  apply (parse_lines_invariant heads_wf).
  - split; [|split].
    + intros h rs E. discriminate.
    + intros r [].
    + split; [discriminate|]. intros E. now contradiction E.
  - intros l s0 ls0 s' ls' HI. unfold parse_block.
    destruct (l =? "begin_variable")%string.
    { intros Hrun. apply parse_variable_inv in Hrun.
      destruct Hrun as (values & layer & ->). exact HI. }
    destruct (l =? "begin_rule")%string.
    { intros Hrun. apply parse_rule_inv in Hrun.
      destruct Hrun as (r & _ & ->). now apply register_rule_heads_wf. }
    destruct (l =? "begin_operator")%string.
    { intros Hrun. eapply core_heads_wf; [|exact HI].
      exact (parse_operator_core _ _ _ _ _ Hrun). }
    destruct (l =? "begin_goal")%string.
    { intros Hrun. eapply core_heads_wf; [|exact HI].
      exact (parse_goal_core _ _ _ _ _ Hrun). }
    destruct (l =? "begin_state")%string.
    { intros Hrun. eapply core_heads_wf; [|exact HI].
      exact (parse_state_core _ _ _ _ _ Hrun). }
    intros Hrun. inversion Hrun. subst. exact HI.
Qed.

Lemma dict_keys_nil {V} (d : dict V) : dict_keys d = [] -> d = [].
Proof. destruct d; [auto|discriminate]. Qed.

(** X10. In a parsed document every rule is filed under its head in
    [_axiom_heads], every list filed there is non-empty and holds only
    rules of that head that are in [_rules], and the heads are the nodes
    of the dependency graph.  The flag for axioms is up exactly when
    there is a rule.  Hence whenever [transform] returns a model there is
    no derived variable at all: the branches of the encoder for derived
    variables are never taken on the way to a model. *)
Theorem rules_are_filed_under_their_heads :
  forall sas_content s,
    _parse sas_content = Some (Ok s) ->
    heads_wf s /\
    dict_keys (_axiom_heads s) = dict_keys (_axiom_edges s) /\
    (_detected_axioms s = false ->
     _rules s = [] /\ _axiom_heads s = [] /\ _axiom_edges s = []) /\
    (forall e e' m,
        transform s e = (e', Ok m) ->
        forall var, dict_mem var (_axiom_heads s) = false).
Proof.
  intros sas_content s Hp.
  pose proof (parse_lines_heads_wf _ _ Hp) as Hwf.
  destruct (parse_lines_graph_wf _ _ Hp) as (_ & Hkeys & _).
  assert (Hdown : _detected_axioms s = false ->
                  _rules s = [] /\ _axiom_heads s = [] /\
                  _axiom_edges s = []).
  { intros Hax. destruct Hwf as (_ & _ & Hflag).
    assert (Hh : _axiom_heads s = []).
    { destruct (heads_need_axioms_flag _ _ Hp); congruence. }
    split; [|split]; auto.
    - destruct (_rules s) eqn:E; auto.
      assert (_detected_axioms s = true)
        by (apply Hflag; discriminate).
      congruence.
    - apply dict_keys_nil. rewrite <- Hkeys, Hh. reflexivity. }
  split; [exact Hwf|]. split; [exact Hkeys|]. split; [exact Hdown|].
  intros e e' m HT var.
  destruct (_detected_axioms s) eqn:Hax.
  { rewrite transform_gate in HT by (rewrite Hax; reflexivity).
    inversion HT. }
  destruct (Hdown eq_refl) as (_ & -> & _). reflexivity.
Qed.

Lemma rules_are_filed_under_their_heads_witness :
  heads_wf sas_layers /\
  dict_keys (_axiom_heads sas_layers) = dict_keys (_axiom_edges sas_layers) /\
  (_detected_axioms sas_layers = false ->
   _rules sas_layers = [] /\ _axiom_heads sas_layers = [] /\
   _axiom_edges sas_layers = []) /\
  (forall e e' m,
      transform sas_layers e = (e', Ok m) ->
      forall var, dict_mem var (_axiom_heads sas_layers) = false).
Proof.
  apply (rules_are_filed_under_their_heads doc_layers sas_layers).
  vm_compute. reflexivity.
Defined.

(* ================================================================== *)
(** ** The stratifier and the order of a set *)

Lemma layer_update_same_body (V : dict Z) (body body' : pyset) :
  (forall i, In i body <-> In i body') ->
  layer_update V body = layer_update V body'.
Proof.
  intros Hsame.
  assert (Hle : forall b b',
             (forall i, In i b -> In i b') ->
             layer_update V b <= layer_update V b').
  { intros b b' Hin.
    destruct (layer_update_attained V b) as [->|(i & c & Hi & Hc & ->)].
    - apply layer_update_ge_1.
    - apply (layer_update_child V b' i c); auto. }
  apply Z.le_antisymm; apply Hle; intros i; apply Hsame.
Qed.

Lemma relax_same_graph edges edges' cur_V :
  same_graph edges edges' ->
  forall new_V, relax edges cur_V new_V = relax edges' cur_V new_V.
Proof.
  unfold relax. induction 1 as [|[h b] [h' b'] edges edges' [Hh Hb] Hf IH];
    intros new_V; cbn [fold_left fst snd]; auto.
  cbn in Hh, Hb. subst h'.
  rewrite (layer_update_same_body cur_V b b' Hb). apply IH.
Qed.

Lemma stratify_loop_same_graph edges edges' :
  same_graph edges edges' ->
  forall fuel cur_V new_V,
    stratify_loop fuel edges cur_V new_V
    = stratify_loop fuel edges' cur_V new_V.
Proof.
  intros Hs. induction fuel as [|fuel IH]; intros cur_V new_V;
    cbn [stratify_loop]; destruct (is_diff cur_V new_V) as [[|]|]; auto.
  rewrite (relax_same_graph _ _ _ Hs). apply IH.
Qed.

(** X11. The layering does not depend on the order in which a body set is
    iterated: the update of a head is the same for two bodies with the
    same elements, and two graphs with the same heads in the same order
    and the same elements in each body get the same result from the
    stratification loop, after any number of rounds, be it a layering, an
    exception or no answer yet. *)
Theorem layering_ignores_set_order :
  (forall V body body',
      (forall i, In i body <-> In i body') ->
      layer_update V body = layer_update V body') /\
  (forall edges edges',
      same_graph edges edges' ->
      forall fuel, stratify fuel edges = stratify fuel edges').
Proof.
  split.
  - exact layer_update_same_body.
  - intros edges edges' Hs fuel. unfold stratify.
    rewrite (stratify_loop_same_graph _ _ Hs).
    assert (Hk : forall (A : Type) (f : Z -> Z * A),
               map (fun hb => f (fst hb)) edges
               = map (fun hb => f (fst hb)) edges').
    { intros A f. induction Hs as [|hb hb' l l' [Hh _] Hf IH];
        cbn [map]; auto.
      f_equal; [f_equal; exact Hh|exact IH]. }
    rewrite (Hk _ (fun h => (h, @None Z))), (Hk _ (fun h => (h, 0))).
    reflexivity.
Qed.

Lemma layering_ignores_set_order_witness :
  layer_update [(1, 1); (2, 2)] [0; 1; 2]
  = layer_update [(1, 1); (2, 2)] [2; 1; 0; 1] /\
  stratify 3 [(1, [0]); (2, [0; 1])] = stratify 3 [(1, [0; 0]); (2, [1; 0])].
Proof.
  split.
  - apply (proj1 layering_ignores_set_order).
    intros i. cbn. tauto.
  - apply (proj2 layering_ignores_set_order).
    unfold same_graph.
    repeat (apply Forall2_cons; [split; [reflexivity|cbn; tauto]|]).
    apply Forall2_nil.
Defined.

(* ================================================================== *)
(** ** Layers are the lengths of the longest chains *)

Lemma layer_chain edges k :
  forall h,
    In h (dict_keys edges) ->
    exists c,
      is_chain edges (h :: c) /\
      Z.of_nat (List.length (h :: c)) = layer edges (S k) h.
Proof.
  induction k as [|k IH]; intros h Hh.
  - exists []. split; [exact I|].
    destruct (layer_attained edges 0 h) as [->|(i & _ & ->)]; reflexivity.
  - destruct (layer_attained edges (S k) h) as [E|(i & Hd & E)].
    + exists []. split; [exact I|]. now rewrite E.
    + destruct (IH i (proj2 Hd)) as (c & Hc & Hlen).
      exists (i :: c). split; [split; assumption|].
      rewrite E, <- Hlen. cbn [List.length]. lia.
Qed.

Lemma chain_below_fixed_point edges n :
  (forall h, In h (dict_keys edges) ->
             layer edges (S n) h = layer edges n h) ->
  forall c h,
    In h (dict_keys edges) ->
    is_chain edges (h :: c) ->
    Z.of_nat (List.length (h :: c)) <= layer edges n h.
Proof.
  intros Hfix. induction c as [|i c IH]; intros h Hh Hc.
  - rewrite <- (Hfix h Hh). apply layer_ge_1.
  - destruct Hc as [Hd Hc].
    specialize (IH i (proj2 Hd) Hc).
    pose proof (layer_child edges n h i Hd) as Hch.
    rewrite (Hfix h Hh) in Hch.
    cbn [List.length] in *. lia.
Qed.

(** X12. When no derived variable reads itself through the rules, the
    stratification loop returns within [|heads| + 1] rounds, and the
    layer that it gives to a head is the number of heads on the longest
    chain of dependencies that starts at this head: a chain of that
    length exists and none is longer.  Every layer lies between 1 and the
    number of heads. *)
Theorem layers_are_longest_chains :
  forall edges,
    NoDup (dict_keys edges) ->
    acyclic edges ->
    exists V,
      stratify (S (List.length edges)) edges = Some (Ok V) /\
      dict_keys V = dict_keys edges /\
      forall h,
        In h (dict_keys edges) ->
        exists l,
          dict_get h V = Some l /\
          1 <= l <= Z.of_nat (List.length edges) /\
          (exists c,
              is_chain edges (h :: c) /\
              Z.of_nat (List.length (h :: c)) = l) /\
          (forall c,
              is_chain edges (h :: c) ->
              Z.of_nat (List.length (h :: c)) <= l).
Proof.
  intros edges Hnd Hac.
  destruct (stratify_acyclic_terminates edges Hnd Hac)
    as (n & Hn & Hs & Hfixed).
  exists (tab edges (layer edges n)).
  split; [exact Hs|]. split; [apply tab_keys|].
  assert (Hfix : forall h, In h (dict_keys edges) ->
                           layer edges (S n) h = layer edges n h).
  { intros h Hh. rewrite (relax_round edges Hnd n) in Hfixed.
    pose proof (f_equal (dict_get h) Hfixed) as E.
    rewrite !dict_get_tab_head in E by exact Hh. congruence. }
  intros h Hh. exists (layer edges n h).
  split; [now apply dict_get_tab_head|]. split; [|split].
  - split.
    + rewrite <- (Hfix h Hh). apply layer_ge_1.
    + pose proof (layer_le_round edges n h). lia.
  - destruct (layer_chain edges n h Hh) as (c & Hc & Hlen).
    exists c. split; auto. now rewrite Hlen, Hfix.
  - intros c Hc. now apply chain_below_fixed_point.
Qed.

Lemma layers_are_longest_chains_witness :
  exists V,
    stratify (S (List.length (_axiom_edges sas_layers)))
             (_axiom_edges sas_layers)
    = Some (Ok V) /\
    dict_keys V = dict_keys (_axiom_edges sas_layers) /\
    forall h,
      In h (dict_keys (_axiom_edges sas_layers)) ->
      exists l,
        dict_get h V = Some l /\
        1 <= l <= Z.of_nat (List.length (_axiom_edges sas_layers)) /\
        (exists c,
            is_chain (_axiom_edges sas_layers) (h :: c) /\
            Z.of_nat (List.length (h :: c)) = l) /\
        (forall c,
            is_chain (_axiom_edges sas_layers) (h :: c) ->
            Z.of_nat (List.length (h :: c)) <= l).
Proof.
  apply (layers_are_longest_chains (_axiom_edges sas_layers)).
  - repeat constructor; cbn; intuition discriminate.
  - exact acyclic_doc_layers.
Defined.

(* ================================================================== *)
(** ** Loops of the encoder *)

Lemma hfor_each_progress {X} (I : list X -> Enc -> Prop)
      (body : X -> H unit) (all : list X) :
  (forall done x rest e,
      all = done ++ x :: rest -> I done e ->
      exists e', body x e = (e', Ok tt) /\ I (done ++ [x]) e') ->
  forall e,
    I [] e -> exists e', hfor_each all body e = (e', Ok tt) /\ I all e'.
Proof.
  intros Hstep.
  assert (Hgen : forall todo done e,
             all = done ++ todo -> I done e ->
             exists e', hfor_each todo body e = (e', Ok tt) /\ I all e').
  { induction todo as [|x todo IH]; intros done e Hall HI.
    - rewrite app_nil_r in Hall. subst. exists e. split; auto.
    - destruct (Hstep done x todo e Hall HI) as (e1 & Hb & HI1).
      destruct (IH (done ++ [x]) e1) as (e' & Hrun & HI'); auto.
      { rewrite <- app_assoc. exact Hall. }
      exists e'. split; auto.
      cbn [hfor_each]. unfold hbind. rewrite Hb. exact Hrun. }
  intros e HI. apply (Hgen all [] e); auto.
Qed.

Lemma hfor_each_invariant {X} (I : list X -> Enc -> Prop)
      (body : X -> H unit) :
  (forall done x e e',
      I done e -> body x e = (e', Ok tt) -> I (done ++ [x]) e') ->
  forall todo done e e',
    I done e -> hfor_each todo body e = (e', Ok tt) -> I (done ++ todo) e'.
Proof.
  intros Hstep. induction todo as [|x todo IH]; intros done e e' HI Hrun.
  - inversion Hrun; subst. now rewrite app_nil_r.
  - cbn [hfor_each] in Hrun. unfold hbind in Hrun.
    destruct (body x e) as [e1 [[]|x1]] eqn:Hb; [|discriminate].
    change (x :: todo) with ([x] ++ todo). rewrite app_assoc.
    eapply IH; [|exact Hrun]. eapply Hstep; eauto.
Qed.

(* ================================================================== *)
(** ** [_handle_variables] with derived variables *)

Lemma handle_variables_prim self e1 :
  _handle_variables self new_enc = (e1, Ok tt) -> prim_enc self e1.
Proof.
  unfold _handle_variables. unfold hbind at 1. intros Hrun.
  match type of Hrun with
  | hfor_each _ ?b ?e0 = _ => set (body := b) in *; set (e0' := e0) in *
  end.
  pose (I := fun (done : dict SasVariable) (e : Enc) =>
               bool_state_funs (_model e) = [] /\
               (forall var o,
                   dict_get var (_didp_variables e) = Some o ->
                   (exists n, o = IntVarH n) /\
                   dict_mem var (_axiom_heads self) = false) /\
               (forall var,
                   In var (dict_keys done) ->
                   dict_mem var (_axiom_heads self) = false ->
                   exists n,
                     dict_get var (_didp_variables e) = Some (IntVarH n))).
  assert (HI : I ([] ++ _variables self) e1).
  { apply (hfor_each_invariant I body) with (e := e0'); [| |exact Hrun].
    - intros done [i v] e e' (Hf & Hint & Hprim) Hb. unfold body in Hb.
      destruct (dict_mem i (_axiom_heads self)) eqn:Hh.
      + inversion Hb; subst e'. split; [|split]; auto.
        intros var Hin Hv. apply Hprim; auto.
        unfold dict_keys in Hin. rewrite map_app in Hin.
        apply in_app_iff in Hin. destruct Hin as [Hin|[<-|[]]]; auto.
        cbn in Hv. congruence.
      + unfold hbind, hlift, dict_lookup, add_int_var, set_didp in Hb.
        destruct (dict_get i (_init self)) as [t|]; [|discriminate].
        destruct (in_i32 t); [|discriminate].
        inversion Hb; subst e'; clear Hb. cbn. split; [|split]; auto.
        * intros var o Hg. cbn [_didp_variables _model] in Hg.
          destruct (Z.eq_dec var i) as [->|Hne].
          -- rewrite dict_get_set_same in Hg. inversion Hg; subst. eauto.
          -- rewrite dict_get_set_other in Hg by exact Hne. eauto.
        * intros var Hin Hv. cbn [_didp_variables _model].
          destruct (Z.eq_dec var i) as [->|Hne].
          -- rewrite dict_get_set_same. eauto.
          -- rewrite dict_get_set_other by exact Hne. apply Hprim; auto.
             unfold dict_keys in Hin. rewrite map_app in Hin.
             apply in_app_iff in Hin. destruct Hin as [Hin|[Heq|[]]]; auto.
             cbn in Heq. congruence.
    - split; [reflexivity|]. split.
      + intros var o Hg. discriminate.
      + intros var []. }
  destruct HI as (Hf & Hint & Hprim). split; [|split]; auto.
  intros var Hv. apply Hprim. now apply dict_mem_keys.
Qed.

(* ================================================================== *)
(** ** The bodies of the rules as conditions *)

Lemma narrow_cons vv items :
  narrow (vv :: items) -> in_i32 (snd vv) = true /\ narrow items.
Proof.
  intros Hn. split.
  - destruct vv as [var val]. apply (Hn var val). now left.
  - intros var val Hin. apply (Hn var val). now right.
Qed.

Lemma get_atom_ready self didp j vv :
  atom_ready self didp j vv ->
  exists c,
    get_atom self didp vv = Ok (ObjV (CondH c)) /\
    refs_below j c /\
    forall st fv,
      int_state st \/ in_i32 (snd vv) = true ->
      (eval_cond st fv c = true <-> atom_holds didp st fv vv).
Proof.
  destruct vv as [var val]. unfold atom_ready, get_atom, atom_holds.
  cbn [fst snd].
  intros [(Hh & Hcmp & n & Hg)|(Hh & Hval & j' & Hj & Hg)]; rewrite Hh;
    cbn [negb].
  - unfold dict_lookup. rewrite Hg. cbn [rbind obj_eq_int].
    apply (comparable_int_var_eq n) in Hcmp.
    destruct (int_var_eq n val) as [c|] eqn:Ec; [|congruence].
    exists c. split; [reflexivity|].
    unfold int_var_eq in Ec.
    destruct (in_i32 val) eqn:Ev.
    + inversion Ec; subst c. split; [exact I|].
      intros st fv _. cbn. apply Z.eqb_eq.
    + destruct (float_of_int val) as [x|] eqn:Ex; [|discriminate].
      inversion Ec; subst c. split; [exact I|].
      intros st fv [Hst|Hst]; [|discriminate].
      cbn [eval_cond eval_int].
      rewrite (float_of_int_some _ _ Ex).
      rewrite (int_eq_float_out_of_range _ _ Ev (Hst n)).
      split; [discriminate|]. intros Heq. exfalso.
      exact (in_i32_neq _ _ Ev (Hst n) Heq).
  - unfold dict_lookup. rewrite Hg.
    destruct Hval as [->| ->]; cbn.
    + eexists. split; [reflexivity|]. split; [exact Hj|].
      intros st fv _. cbn. tauto.
    + eexists. split; [reflexivity|]. split; [exact Hj|].
      intros st fv _. cbn. apply negb_true_iff.
Qed.

Lemma rule_body_ready self didp j items :
  Forall (atom_ready self didp j) items ->
  forall a,
    refs_below j a ->
    exists c,
      rule_body self didp (Some (ObjV (CondH a))) items
      = Ok (Some (ObjV (CondH c))) /\
      refs_below j c /\
      forall st fv,
        int_state st \/ narrow items ->
        (eval_cond st fv c = true
         <-> eval_cond st fv a = true /\
             forall vv, In vv items -> atom_holds didp st fv vv).
Proof.
  induction 1 as [|vv items Hvv Hitems IH]; intros a Ha.
  - exists a. split; [reflexivity|]. split; [exact Ha|].
    intros st fv _. split; [|tauto]. intros Hc. split; auto. intros vv [].
  - destruct (get_atom_ready _ _ _ _ Hvv) as (b & Hb & Hrb & Hsem).
    destruct (IH (CAnd a b)) as (c & Hc & Hrc & Hsemc); [split; auto|].
    exists c. cbn [rule_body]. rewrite Hb. cbn [rbind obj_and].
    split; [exact Hc|]. split; [exact Hrc|].
    intros st fv Hst.
    assert (Hst1 : int_state st \/ in_i32 (snd vv) = true).
    { destruct Hst as [Hst|Hst]; [now left|].
      right. apply (narrow_cons _ _ Hst). }
    assert (Hst2 : int_state st \/ narrow items).
    { destruct Hst as [Hst|Hst]; [now left|].
      right. apply (narrow_cons _ _ Hst). }
    rewrite (Hsemc st fv Hst2). cbn [eval_cond].
    rewrite andb_true_iff, (Hsem st fv Hst1). split.
    + intros [[Ha' Hb'] Hall]. split; auto.
      intros w [<-|Hw]; auto.
    + intros [Ha' Hall]. split; [split|]; auto.
      * apply Hall. now left.
      * intros w Hw. apply Hall. now right.
Qed.

Lemma rule_body_first self didp j items :
  items <> [] ->
  Forall (atom_ready self didp j) items ->
  exists c,
    rule_body self didp None items = Ok (Some (ObjV (CondH c))) /\
    refs_below j c /\
    forall st fv,
      int_state st \/ narrow items ->
      (eval_cond st fv c = true
       <-> forall vv, In vv items -> atom_holds didp st fv vv).
Proof.
  destruct items as [|vv items]; [congruence|]. intros _ Hall.
  inversion Hall as [|? ? Hvv Hitems]; subst.
  destruct (get_atom_ready _ _ _ _ Hvv) as (b & Hb & Hrb & Hsem).
  destruct (rule_body_ready _ _ _ _ Hitems b Hrb) as (c & Hc & Hrc & Hsemc).
  exists c. cbn [rule_body]. rewrite Hb. cbn [rbind].
  split; [exact Hc|]. split; [exact Hrc|].
  intros st fv Hst.
  assert (Hst1 : int_state st \/ in_i32 (snd vv) = true).
  { destruct Hst as [Hst|Hst]; [now left|].
    right. apply (narrow_cons _ _ Hst). }
  assert (Hst2 : int_state st \/ narrow items).
  { destruct Hst as [Hst|Hst]; [now left|].
    right. apply (narrow_cons _ _ Hst). }
  rewrite (Hsemc st fv Hst2), (Hsem st fv Hst1). split.
  - intros [Hb' Hall'] w [<-|Hw]; auto.
  - intros Hall'. split.
    + apply Hall'. now left.
    + intros w Hw. apply Hall'. now right.
Qed.

(** The loop over the rules of a head. *)
Lemma collect_bodies_ready self didp j h rs :
  Forall (fun r => rule_var r = h /\
                   Forall (atom_ready self didp j) (rule_preconditions r))
         rs ->
  forall cs0,
    exists bt,
      collect_bodies self didp h (map (fun c => ObjV (CondH c)) cs0) rs
      = Ok bt /\
      (snd bt = true -> exists r, In r rs /\ rule_preconditions r = []) /\
      (snd bt = false ->
       exists cs,
         fst bt = map (fun c => ObjV (CondH c)) (cs0 ++ cs) /\
         Forall2 (fun r c =>
                    rule_preconditions r <> [] /\
                    refs_below j c /\
                    forall st fv,
                      int_state st \/ narrow (rule_preconditions r) ->
                      (eval_cond st fv c = true
                       <-> forall vv, In vv (rule_preconditions r) ->
                                      atom_holds didp st fv vv))
                 rs cs).
Proof.
  induction 1 as [|r rs [Hvar Hr] Hrs IH]; intros cs0.
  - eexists. split; [reflexivity|]. split; [discriminate|].
    intros _. exists []. rewrite app_nil_r. split; [reflexivity|constructor].
  - cbn [collect_bodies]. rewrite Hvar, Z.eqb_refl. cbn [rassert rbind].
    destruct (rule_preconditions r) as [|vv items] eqn:Hitems.
    + eexists. cbn. split; [reflexivity|]. split; [|discriminate].
      intros _. exists r. split; [now left|exact Hitems].
    + cbn [List.length Nat.eqb].
      destruct (rule_body_first self didp j (vv :: items))
        as (c & Hc & Hrc & Hsem); [discriminate|exact Hr|].
      rewrite Hc. cbn [rbind].
      change (map (fun c => ObjV (CondH c)) cs0 ++ [ObjV (CondH c)])
        with (map (fun c => ObjV (CondH c)) cs0
              ++ map (fun c => ObjV (CondH c)) [c]).
      rewrite <- map_app.
      destruct (IH (cs0 ++ [c])) as (bt & Hbt & Htriv & Hbodies).
      exists bt. split; [exact Hbt|]. split.
      * intros Ht. destruct (Htriv Ht) as (r' & Hin & He).
        exists r'. split; [now right|exact He].
      * intros Ht. destruct (Hbodies Ht) as (cs & Hfst & Hall).
        exists (c :: cs). rewrite Hfst, <- app_assoc. split; [reflexivity|].
        constructor; auto. rewrite Hitems.
        split; [discriminate|]. auto.
Qed.

Lemma or_all_ready j cs :
  Forall (refs_below j) cs ->
  forall t,
    refs_below j t ->
    exists c,
      or_all (ObjV (CondH t)) (map (fun c => ObjV (CondH c)) cs)
      = Ok (ObjV (CondH c)) /\
      refs_below j c /\
      forall st fv,
        eval_cond st fv c = true
        <-> eval_cond st fv t = true \/
            exists b, In b cs /\ eval_cond st fv b = true.
Proof.
  induction 1 as [|b cs Hb Hcs IH]; intros t Ht.
  - exists t. split; [reflexivity|]. split; [exact Ht|].
    intros st fv. split; [tauto|]. intros [Hc|(b & [] & _)]. exact Hc.
  - destruct (IH (COr t b)) as (c & Hc & Hrc & Hsem); [split; auto|].
    exists c. cbn [map or_all obj_or rbind].
    split; [exact Hc|]. split; [exact Hrc|].
    intros st fv. rewrite Hsem. cbn [eval_cond]. rewrite orb_true_iff.
    split.
    + intros [[Ht'|Hb']|(b' & Hin & Hb')]; auto.
      * right. exists b. split; [now left|exact Hb'].
      * right. exists b'. split; [now right|exact Hb'].
    + intros [Ht'|(b' & [<-|Hin] & Hb')]; auto.
      right. exists b'. auto.
Qed.

Lemma disjunction_ready j cs :
  cs <> [] ->
  Forall (refs_below j) cs ->
  exists c,
    disjunction (map (fun c => ObjV (CondH c)) cs) = Ok (ObjV (CondH c)) /\
    refs_below j c /\
    forall st fv,
      eval_cond st fv c = true
      <-> exists b, In b cs /\ eval_cond st fv b = true.
Proof.
  destruct cs as [|t cs]; [congruence|]. intros _ Hall.
  inversion Hall as [|? ? Ht Hcs]; subst.
  destruct (or_all_ready j cs Hcs t Ht) as (c & Hc & Hrc & Hsem).
  exists c. cbn [map disjunction]. split; [exact Hc|]. split; [exact Hrc|].
  intros st fv. rewrite Hsem. split.
  - intros [Ht'|(b & Hin & Hb)].
    + exists t. split; [now left|exact Ht'].
    + exists b. split; [now right|exact Hb].
  - intros (b & [<-|Hin] & Hb); auto. right. exists b. auto.
Qed.

(* ================================================================== *)
(** ** The definition of one head *)

Lemma atom_holds_extends didp didp' st fv vv :
  dict_extends didp didp' ->
  dict_get (fst vv) didp <> None ->
  atom_holds didp st fv vv <-> atom_holds didp' st fv vv.
Proof.
  intros Hext Hsome. unfold atom_holds.
  destruct (dict_get (fst vv) didp) as [o|] eqn:Hg; [|congruence].
  rewrite (Hext _ _ Hg). tauto.
Qed.

Lemma head_def_extends self didp didp' h j d :
  dict_extends didp didp' ->
  head_def self didp h j d -> head_def self didp' h j d.
Proof.
  intros Hext (Hsome & Hsem & Htriv). split; [|split; [|exact Htriv]].
  - intros rs r vv Hrs Hr Hvv.
    destruct (Hsome rs r vv Hrs Hr Hvv) as [Hne Hc].
    destruct (dict_get (fst vv) didp) as [o|] eqn:Hg; [|congruence].
    rewrite (Hext _ _ Hg). split; [discriminate|exact Hc].
  - intros st fv Hst. rewrite (Hsem st fv Hst). unfold derivable.
    split; intros (rs & r & Hrs & Hr & Hall); exists rs, r;
      (split; [exact Hrs|split; [exact Hr|]]);
      intros vv Hvv;
      apply (atom_holds_extends didp didp' st fv vv Hext
               (proj1 (Hsome rs r vv Hrs Hr Hvv)));
      auto.
Qed.

Lemma Forall2_impl_in {A B} (P Q : A -> B -> Prop) l l' :
  Forall2 P l l' ->
  (forall a b, In a l -> P a b -> Q a b) ->
  Forall2 Q l l'.
Proof.
  induction 1 as [|a b l l' Hab Hall IH]; intros Himp; constructor.
  - apply Himp; [now left|exact Hab].
  - apply IH. intros a' b' Hin. apply Himp. now right.
Qed.

Lemma dict_extends_set didp h o :
  dict_get h didp = None -> dict_extends didp (dict_set h o didp).
Proof.
  intros Hn k o' Hg. rewrite dict_get_set_other; auto. congruence.
Qed.

Lemma define_head_step self e1 D e h v0 :
  heads_wf self ->
  dict_mem h (_axiom_heads self) = true ->
  ~ In h D ->
  (forall rs r,
      dict_get h (_axiom_heads self) = Some rs ->
      In r rs ->
      Forall (atom_ready self (_didp_variables e) (List.length D))
             (rule_preconditions r)) ->
  axioms_inv self e1 D e ->
  exists e',
    define_head self (ObjV (CondH (CEq (EVar v0) (EVar v0)))) h e
    = (e', Ok tt) /\
    axioms_inv self e1 (D ++ [h]) e'.
Proof.
  intros (Hfiled & _ & _) Hh HnD Hready
         (Hiv & Ht & Hb & Hprim & Hundef & Hlen & Hdef).
  assert (Hex : exists rs, dict_get h (_axiom_heads self) = Some rs).
  { unfold dict_mem in Hh.
    destruct (dict_get h (_axiom_heads self)) as [rs|]; [eauto|discriminate]. }
  destruct Hex as [rs Hrs].
  destruct (Hfiled h rs Hrs) as [Hne Hrules].
  assert (Hall : Forall (fun r =>
                           rule_var r = h /\
                           Forall (atom_ready self (_didp_variables e)
                                              (List.length D))
                                  (rule_preconditions r)) rs).
  { apply Forall_forall. intros r Hr. split.
    - apply (Hrules r Hr).
    - apply (Hready rs r Hrs Hr). }
  destruct (collect_bodies_ready self (_didp_variables e) (List.length D)
                                 h rs Hall [])
    as ([bodies trivial] & Hbt & Htriv & Hbodies).
  cbn [map fst snd] in Hbt, Htriv, Hbodies.
  assert (Htrigger :
            exists d,
              (if trivial then Ok (ObjV (CondH (CEq (EVar v0) (EVar v0))))
               else disjunction bodies) = Ok (ObjV (CondH d)) /\
              refs_below (List.length D) d /\
              (forall st fv,
                  int_state st \/ rules_narrow self ->
                  (eval_cond st fv d = true
                   <-> derivable self (_didp_variables e) st fv h)) /\
              ((exists rs r,
                   dict_get h (_axiom_heads self) = Some rs /\ In r rs /\
                   rule_preconditions r = []) ->
               forall st fv, eval_cond st fv d = true)).
  { destruct trivial.
    - destruct (Htriv eq_refl) as (r & Hr & Hempty).
      eexists. split; [reflexivity|]. split; [exact I|]. split.
      + intros st fv _. cbn. rewrite Z.eqb_refl. split; auto.
        intros _. exists rs, r. split; [exact Hrs|]. split; [exact Hr|].
        rewrite Hempty. intros vv [].
      + intros _ st fv. cbn. apply Z.eqb_refl.
    - destruct (Hbodies eq_refl) as (cs & -> & Hcs).
      assert (Hcsne : cs <> []).
      { intros ->. inversion Hcs; subst. congruence. }
      assert (Hrefs : Forall (refs_below (List.length D)) cs).
      { clear - Hcs. induction Hcs as [|r c rs cs (_ & Hr & _) _ IH];
          constructor; auto. }
      destruct (disjunction_ready _ cs Hcsne Hrefs) as (c & Hc & Hrc & Hsem).
      exists c. split; [exact Hc|]. split; [exact Hrc|]. split.
      2:{ intros (rs' & r & Hrs' & Hr & Hempty). exfalso.
          assert (rs' = rs) by congruence. subst rs'.
          clear - Hcs Hr Hempty.
          induction Hcs as [|r0 c rs cs (Hne & _) _ IH]; [contradiction|].
          destruct Hr as [<-|Hr]; [contradiction|auto]. }
      intros st fv Hst.
      assert (Hcs' : Forall2 (fun r c =>
                                eval_cond st fv c = true
                                <-> forall vv,
                                    In vv (rule_preconditions r) ->
                                    atom_holds (_didp_variables e) st fv vv)
                             rs cs).
      { apply (Forall2_impl_in _ _ _ _ Hcs).
        intros r b Hr (_ & _ & Hs). apply Hs.
        destruct Hst as [Hst|Hst]; [now left|].
        right. apply Hst. apply (Hrules r Hr). }
      clear Hcs. rename Hcs' into Hcs.
      rewrite Hsem. unfold derivable. split.
      + intros (b & Hin & Hbv).
        assert (Hex : exists r, In r rs /\
                                forall vv, In vv (rule_preconditions r) ->
                                           atom_holds (_didp_variables e)
                                                      st fv vv).
        { clear - Hcs Hin Hbv.
          induction Hcs as [|r c rs cs Hs _ IH]; [contradiction|].
          destruct Hin as [<-|Hin].
          - exists r. split; [now left|]. now apply Hs.
          - destruct (IH Hin) as (r' & Hr' & Hall).
            exists r'. split; [now right|exact Hall]. }
        destruct Hex as (r & Hr & Hall'). exists rs, r. auto.
      + intros (rs' & r & Hrs' & Hr & Hall').
        assert (rs' = rs) by congruence. subst rs'.
        clear - Hcs Hr Hall'.
        induction Hcs as [|r0 c rs cs Hs _ IH]; [contradiction|].
        destruct Hr as [<-|Hr].
        * exists c. split; [now left|]. now apply Hs.
        * destruct (IH Hr) as (b & Hb & Hbv).
          exists b. split; [now right|exact Hbv]. }
  destruct Htrigger as (d & Htrig & Hrd & Hsem & Halways).
  assert (Hfresh : dict_get h (_didp_variables e) = None).
  { apply Hundef; auto. }
  eexists. split.
  - unfold define_head, hbind, hget, hlift, dict_lookup.
    rewrite Hrs, Hbt. cbn [snd fst]. rewrite Htrig.
    unfold add_bool_state_fun. cbn [as_condition]. unfold set_didp.
    cbn [_model _didp_variables]. reflexivity.
  - set (didp' := dict_set h
                    (CondH (CFun (List.length (bool_state_funs (_model e)))))
                    (_didp_variables e)).
    assert (Hext : dict_extends (_didp_variables e) didp')
      by (apply dict_extends_set; exact Hfresh).
    unfold axioms_inv. cbn [_model _didp_variables int_vars transitions
                              base_cases bool_state_funs].
    fold didp'.
    split; [exact Hiv|]. split; [exact Ht|]. split; [exact Hb|].
    split; [|split; [|split]].
    + intros var Hv. unfold didp'. rewrite dict_get_set_other.
      * now apply Hprim.
      * intros ->. congruence.
    + intros h' Hh' Hn. unfold didp'. rewrite dict_get_set_other.
      * apply Hundef; auto. intros Hin. apply Hn. apply in_app_iff. now left.
      * intros ->. apply Hn. apply in_app_iff. right. now left.
    + rewrite !length_app. cbn. now rewrite Hlen.
    + intros j h' Hj.
      destruct (Nat.lt_ge_cases j (List.length D)) as [Hlt|Hge].
      * rewrite nth_error_app1 in Hj by exact Hlt.
        destruct (Hdef j h' Hj) as (Hg & d' & Hd' & Hrd' & Hhd).
        split; [exact (Hext _ _ Hg)|].
        exists d'. split; [|split; [exact Hrd'|]].
        -- rewrite nth_error_app1; [exact Hd'|].
           apply nth_error_Some. congruence.
        -- exact (head_def_extends _ _ _ _ _ _ Hext Hhd).
      * rewrite nth_error_app2 in Hj by exact Hge.
        destruct (j - List.length D)%nat as [|k] eqn:Hk;
          [|destruct k; discriminate].
        cbn in Hj. inversion Hj; subst h'.
        assert (j = List.length D) by lia. subst j.
        split.
        -- unfold didp'. rewrite dict_get_set_same, Hlen. reflexivity.
        -- exists d. split; [|split; [exact Hrd|]].
           ++ rewrite nth_error_app2 by lia. rewrite Hlen, Nat.sub_diag.
              reflexivity.
           ++ apply (head_def_extends _ _ _ _ _ _ Hext).
              split; [|split; [exact Hsem|exact Halways]].
              intros rs' r vv Hrs' Hr Hvv.
              pose proof (Hready rs' r Hrs' Hr) as Hat.
              rewrite Forall_forall in Hat.
              destruct (Hat vv Hvv)
                as [(_ & _ & n & Hg)|(_ & _ & j' & Hj' & Hg)]; rewrite Hg.
              ** split; [discriminate|]. intros c Hc. discriminate.
              ** split; [discriminate|]. intros c Hc.
                 inversion Hc; subst. eauto.
Qed.

(* ================================================================== *)
(** ** The heads of a layer *)

Lemma heads_at_snoc V h v i :
  heads_at (V ++ [(h, v)]) i
  = heads_at V i ++ (if v =? i then [h] else []).
Proof.
  unfold heads_at. rewrite filter_app, map_app. cbn [filter snd].
  destruct (v =? i); reflexivity.
Qed.

Lemma group_by_layer_snoc V h v :
  group_by_layer (V ++ [(h, v)])
  = match dict_get v (group_by_layer V) with
    | Some hs => dict_set v (hs ++ [h]) (group_by_layer V)
    | None => dict_set v [h] (group_by_layer V)
    end.
Proof. unfold group_by_layer. rewrite fold_left_app. reflexivity. Qed.

Lemma group_by_layer_get V :
  forall i,
    dict_get i (group_by_layer V)
    = match heads_at V i with
      | [] => None
      | hs => Some hs
      end.
Proof.
  induction V as [|[h v] V IH] using rev_ind; intros i; [reflexivity|].
  rewrite group_by_layer_snoc, heads_at_snoc, (IH v).
  destruct (Z.eq_dec i v) as [->|Hne].
  - rewrite Z.eqb_refl.
    destruct (heads_at V v) as [|x xs]; cbn [app];
      rewrite dict_get_set_same; reflexivity.
  - replace (v =? i) with false by (symmetry; apply Z.eqb_neq; congruence).
    rewrite app_nil_r.
    destruct (heads_at V v); rewrite dict_get_set_other by exact Hne;
      apply IH.
Qed.

Lemma heads_at_in V h i : In h (heads_at V i) <-> In (h, i) V.
Proof.
  unfold heads_at. rewrite in_map_iff. split.
  - intros ([h' v] & <- & Hin). apply filter_In in Hin.
    destruct Hin as [Hin Hv]. cbn in Hv. apply Z.eqb_eq in Hv.
    now subst.
  - intros Hin. exists (h, i). split; auto. apply filter_In.
    split; auto. cbn. apply Z.eqb_refl.
Qed.

Lemma heads_at_nodup V i : NoDup (dict_keys V) -> NoDup (heads_at V i).
Proof.
  unfold heads_at, dict_keys.
  induction V as [|[h v] V IH]; cbn [map filter snd]; intros Hnd;
    [constructor|].
  inversion Hnd as [|? ? Hh Hrest]; subst.
  destruct (v =? i); cbn [map fst]; auto.
  constructor; auto. intros Hin. apply Hh.
  apply in_map_iff in Hin. destruct Hin as (x & Hx & Hin).
  apply filter_In in Hin. apply in_map_iff. exists x. tauto.
Qed.

Lemma fold_min_spec l : forall a,
    In (fold_left Z.min l a) (a :: l) /\
    forall x, In x (a :: l) -> fold_left Z.min l a <= x.
Proof.
  induction l as [|y l IH]; intros a; cbn [fold_left].
  - split; [now left|]. intros x [<-|[]]. lia.
  - destruct (IH (Z.min a y)) as [Hin Hle]. split.
    + destruct Hin as [Hin|Hin]; [|right; now right].
      rewrite <- Hin. destruct (Z.min_spec a y) as [[_ ->]|[_ ->]];
        [now left|right; now left].
    + intros x Hx.
      assert (fold_left Z.min l (Z.min a y) <= Z.min a y)
        by (apply Hle; now left).
      destruct Hx as [<-|[<-|Hx]]; try lia.
      apply Hle. now right.
Qed.

Lemma fold_max_spec l : forall a,
    In (fold_left Z.max l a) (a :: l) /\
    forall x, In x (a :: l) -> x <= fold_left Z.max l a.
Proof.
  induction l as [|y l IH]; intros a; cbn [fold_left].
  - split; [now left|]. intros x [<-|[]]. lia.
  - destruct (IH (Z.max a y)) as [Hin Hle]. split.
    + destruct Hin as [Hin|Hin]; [|right; now right].
      rewrite <- Hin. destruct (Z.max_spec a y) as [[_ ->]|[_ ->]];
        [right; now left|now left].
    + intros x Hx.
      assert (Z.max a y <= fold_left Z.max l (Z.max a y))
        by (apply Hle; now left).
      destruct Hx as [<-|[<-|Hx]]; try lia.
      apply Hle. now right.
Qed.

Lemma min_max_value_spec V :
  V <> [] ->
  exists lo hi,
    min_value V = Some lo /\ max_value V = Some hi /\
    In lo (map snd V) /\ In hi (map snd V) /\
    forall v, In v (map snd V) -> lo <= v <= hi.
Proof.
  destruct V as [|[h v] V]; [congruence|]. intros _.
  destruct (fold_min_spec (map snd V) v) as [Hmin Hle].
  destruct (fold_max_spec (map snd V) v) as [Hmax Hge].
  exists (fold_left Z.min (map snd V) v), (fold_left Z.max (map snd V) v).
  cbn [min_value max_value map snd]. repeat split; auto.
Qed.

Lemma layers_between_in lo hi i :
  In i (layers_between lo hi) <-> lo <= i <= hi.
Proof.
  unfold layers_between. rewrite in_map_iff. split.
  - intros (k & <- & Hk). apply in_seq in Hk. lia.
  - intros Hi. exists (Z.to_nat (i - lo)). split; [lia|].
    apply in_seq. lia.
Qed.

Lemma layers_between_split lo hi done i rest :
  layers_between lo hi = done ++ i :: rest ->
  lo <= i <= hi /\ forall j, lo <= j < i -> In j done.
Proof.
  intros Hsplit. split.
  - apply layers_between_in. rewrite Hsplit. apply in_app_iff.
    right. now left.
  - unfold layers_between in Hsplit.
    set (n := Z.to_nat (hi + 1 - lo)) in *.
    assert (Hnth : forall k, (k < n)%nat ->
                             nth_error (map (fun k => lo + Z.of_nat k)
                                            (seq 0 n)) k
                             = Some (lo + Z.of_nat k)).
    { intros k Hk. rewrite nth_error_map, nth_error_seq.
      destruct (Nat.ltb_spec k n); [reflexivity|lia]. }
    assert (Hlen : (List.length done < n)%nat).
    { pose proof (f_equal (@List.length Z) Hsplit) as E.
      rewrite length_map, length_seq, length_app in E. cbn in E. lia. }
    assert (Hi : i = lo + Z.of_nat (List.length done)).
    { pose proof (Hnth _ Hlen) as E. rewrite Hsplit in E.
      rewrite nth_error_app2, Nat.sub_diag in E by lia.
      cbn in E. congruence. }
    intros j Hj.
    assert (Hk : (Z.to_nat (j - lo) < List.length done)%nat) by lia.
    pose proof (Hnth (Z.to_nat (j - lo)) ltac:(lia)) as E.
    rewrite Hsplit, nth_error_app1 in E by exact Hk.
    apply nth_error_In in E.
    replace (lo + Z.of_nat (Z.to_nat (j - lo))) with j in E by lia.
    exact E.
Qed.

(** Below a layer that is inhabited, every layer down to 1 is inhabited. *)
Lemma layers_have_no_gap edges V :
  layering_of edges V ->
  forall n h l,
    dict_get h V = Some l ->
    1 <= l - Z.of_nat n ->
    exists h', dict_get h' V = Some (l - Z.of_nat n).
Proof.
  intros [Hkeys Hfix]. induction n as [|n IH]; intros h l Hh Hl.
  - exists h. rewrite Hh. f_equal. lia.
  - destruct (IH h l Hh) as (h' & Hh'); [lia|].
    assert (Hin : In h' (dict_keys edges)).
    { rewrite <- Hkeys. apply dict_mem_keys. unfold dict_mem.
      now rewrite Hh'. }
    apply dict_mem_keys in Hin. unfold dict_mem in Hin.
    destruct (dict_get h' edges) as [body|] eqn:Hb; [|discriminate].
    specialize (Hfix h' body Hb). rewrite Hh' in Hfix.
    destruct (layer_update_attained V body) as [E|(i & c & Hi & Hc & E)].
    + rewrite E in Hfix. inversion Hfix. lia.
    + rewrite E in Hfix. exists i. rewrite Hc. f_equal.
      inversion Hfix. lia.
Qed.

Lemma layering_ge_1 edges V h l :
  layering_of edges V -> dict_get h V = Some l -> 1 <= l.
Proof.
  intros [Hkeys Hfix] Hh.
  assert (Hin : In h (dict_keys edges)).
  { rewrite <- Hkeys. apply dict_mem_keys. unfold dict_mem. now rewrite Hh. }
  apply dict_mem_keys in Hin. unfold dict_mem in Hin.
  destruct (dict_get h edges) as [body|] eqn:Hb; [|discriminate].
  specialize (Hfix h body Hb). rewrite Hh in Hfix. inversion Hfix.
  apply layer_update_ge_1.
Qed.

(* ================================================================== *)
(** ** The loops that define the heads *)

Lemma dict_mem_get {V} (k : Z) (d : dict V) :
  dict_mem k d = true -> exists v, dict_get k d = Some v.
Proof.
  unfold dict_mem. destruct (dict_get k d); [eauto|discriminate].
Qed.

Lemma atoms_ready self e1 V D e h i :
  heads_wf self ->
  graph_wf self ->
  rules_closed self ->
  prim_enc self e1 ->
  layering_of (_axiom_edges self) V ->
  axioms_inv self e1 D e ->
  dict_get h V = Some i ->
  (forall h' l', dict_get h' V = Some l' -> l' < i -> In h' D) ->
  forall rs r,
    dict_get h (_axiom_heads self) = Some rs ->
    In r rs ->
    Forall (atom_ready self (_didp_variables e) (List.length D))
           (rule_preconditions r).
Proof.
  intros (Hfiled & _ & _) (Hnd & Hkeys & Hcov) Hclosed (_ & _ & Hprim)
         [HkV Hfix] (_ & _ & _ & Hsame & _ & _ & Hdef) Hh Hlow rs r Hrs Hr.
  destruct (Hfiled h rs Hrs) as [_ Hrules].
  destruct (Hrules r Hr) as [Hvar Hin].
  rewrite Forall_forall in Hcov.
  destruct (Hcov r Hin) as (body & Hbody & Hincl). rewrite Hvar in Hbody.
  pose proof (Hfix h body Hbody) as Hl. rewrite Hh in Hl.
  apply Forall_forall. intros [var val] Hvv. unfold atom_ready. cbn [fst snd].
  destruct (Hclosed r var val Hin Hvv)
    as [[Hhead Hval]|(Hhead & Hdecl & Hcmp)].
  - right. split; [exact Hhead|]. split; [exact Hval|].
    assert (HinV : In var (dict_keys V)).
    { rewrite HkV, <- Hkeys. now apply dict_mem_keys. }
    apply dict_mem_keys in HinV. destruct (dict_mem_get _ _ HinV) as [li Hli].
    assert (Hlt : li < i).
    { assert (Hb : In var body).
      { apply Hincl. apply in_map_iff. exists (var, val). auto. }
      pose proof (layer_update_child V body var li Hb Hli).
      inversion Hl. lia. }
    destruct (In_nth_error _ _ (Hlow var li Hli Hlt)) as [j' Hj'].
    exists j'. split.
    + apply nth_error_Some. congruence.
    + apply (Hdef j' var Hj').
  - left. split; [exact Hhead|]. split; [exact Hcmp|].
    destruct (Hprim var Hdecl Hhead) as [n Hn].
    exists n. rewrite Hsame; auto.
Qed.

Lemma define_heads_acyclic self e1 V v0 :
  heads_wf self ->
  graph_wf self ->
  rules_closed self ->
  prim_enc self e1 ->
  layering_of (_axiom_edges self) V ->
  exists e2 D,
    define_heads self (ObjV (CondH (CEq (EVar v0) (EVar v0)))) V e1
    = (e2, Ok tt) /\
    axioms_inv self e1 D e2 /\
    (forall h, In h D <-> dict_mem h (_axiom_heads self) = true).
Proof.
  intros Hheads Hgraph Hclosed Hprim HV.
  pose proof Hgraph as (Hnd & Hkeys & _).
  pose proof HV as [HkV Hfix].
  assert (HndV : NoDup (dict_keys V)) by (rewrite HkV; exact Hnd).
  assert (Hinit : axioms_inv self e1 [] e1).
  { destruct Hprim as (Hf & Hint & _).
    repeat split; auto.
    - intros h Hh _.
      destruct (dict_get h (_didp_variables e1)) as [o|] eqn:Hg; auto.
      destruct (Hint h o Hg) as [_ Hn]. congruence.
    - now rewrite Hf.
    - destruct j; discriminate.
    - destruct j; discriminate. }
  assert (Hhead_iff : forall h, dict_mem h (_axiom_heads self) = true
                                <-> In h (dict_keys V)).
  { intros h. rewrite HkV, <- Hkeys. apply dict_mem_keys. }
  destruct V as [|hv0 V0] eqn:EV.
  { exists e1, []. split; [reflexivity|]. split; [exact Hinit|].
    intros h. rewrite Hhead_iff. cbn. tauto. }
  rewrite <- EV in *.
  destruct (min_max_value_spec V) as (lo & hi & Hmin & Hmax & Hlo & Hhi & Hrange);
    [rewrite EV; discriminate|].
  assert (Hget : forall h l, In (h, l) V <-> dict_get h V = Some l).
  { intros h l. split; [now apply dict_get_nodup_in|apply dict_get_In]. }
  assert (Hlo1 : 1 <= lo).
  { apply in_map_iff in Hlo. destruct Hlo as ([h l] & <- & Hin).
    apply Hget in Hin. exact (layering_ge_1 _ _ _ _ HV Hin). }
  assert (Hinhabited : forall i, lo <= i <= hi -> heads_at V i <> []).
  { intros i Hi. apply in_map_iff in Hhi.
    destruct Hhi as ([h l] & Hl & Hin). cbn in Hl. subst l.
    apply Hget in Hin.
    destruct (layers_have_no_gap _ _ HV (Z.to_nat (hi - i)) h hi Hin)
      as (h' & Hh'); [lia|].
    replace (hi - Z.of_nat (Z.to_nat (hi - i))) with i in Hh' by lia.
    apply Hget, heads_at_in in Hh'. intros E. rewrite E in Hh'.
    contradiction. }
  unfold define_heads. rewrite Hmin, Hmax.
  set (TRUE := ObjV (CondH (CEq (EVar v0) (EVar v0)))).
  destruct (hfor_each_progress
              (fun done e =>
                 axioms_inv self e1 (List.concat (map (heads_at V) done)) e)
              (fun i =>
                 heads <~ hlift (dict_lookup i (group_by_layer V)) ;;
                 hfor_each heads (define_head self TRUE))
              (layers_between lo hi)) with (e := e1)
    as (e2 & Hrun & Hinv); [|exact Hinit|].
  - intros done i rest e Hsplit Hinv.
    destruct (layers_between_split _ _ _ _ _ Hsplit) as [Hi Hbelow].
    unfold hbind, hlift, dict_lookup. rewrite group_by_layer_get.
    pose proof (Hinhabited i Hi) as Hne.
    destruct (heads_at V i) as [|x xs] eqn:Eh; [congruence|].
    rewrite <- Eh in *. clear Hne.
    set (D0 := List.concat (map (heads_at V) done)) in *.
    destruct (hfor_each_progress
                (fun dh e' => axioms_inv self e1 (D0 ++ dh) e')
                (define_head self TRUE) (heads_at V i)) with (e := e)
      as (e' & Hrun' & Hinv'); [|now rewrite app_nil_r|].
    + intros dh h rest' e0 Hsplit' Hinv0.
      assert (Hhi' : dict_get h V = Some i).
      { apply Hget, heads_at_in. rewrite Hsplit'. apply in_app_iff.
        right. now left. }
      destruct (define_head_step self e1 (D0 ++ dh) e0 h v0)
        as (e'' & Hdef & Hinv''); auto.
      * apply Hhead_iff. apply dict_mem_keys. unfold dict_mem.
        now rewrite Hhi'.
      * intros Hin. apply in_app_iff in Hin. destruct Hin as [Hin|Hin].
        -- unfold D0 in Hin. apply in_concat in Hin.
           destruct Hin as (l & Hl & Hin).
           apply in_map_iff in Hl. destruct Hl as (j & <- & Hj).
           apply heads_at_in, Hget in Hin.
           assert (j = i) by congruence. subst j.
           assert (Hnd' : NoDup (layers_between lo hi)).
           { unfold layers_between. apply Finite.Injective_map_NoDup.
             - intros a b E. lia.
             - apply seq_NoDup. }
           rewrite Hsplit in Hnd'. apply NoDup_remove_2 in Hnd'.
           apply Hnd'. apply in_app_iff. now left.
        -- pose proof (heads_at_nodup V i HndV) as Hnd'.
           rewrite Hsplit' in Hnd'. apply NoDup_remove_2 in Hnd'.
           apply Hnd'. apply in_app_iff. now left.
      * apply (atoms_ready self e1 V (D0 ++ dh) e0 h i); auto.
        intros h' l' Hh' Hlt. apply in_app_iff. left.
        unfold D0. apply in_concat. exists (heads_at V l'). split.
        -- apply in_map. apply Hbelow. split; [|exact Hlt].
           apply Hrange. apply in_map_iff. exists (h', l').
           split; [reflexivity|]. now apply Hget.
        -- apply heads_at_in. now apply Hget.
      * exists e''. split; [exact Hdef|]. rewrite app_assoc. exact Hinv''.
    + exists e'. split; [exact Hrun'|].
      rewrite map_app, concat_app. cbn [map List.concat]. now rewrite app_nil_r.
  - exists e2, (List.concat (map (heads_at V) (layers_between lo hi))).
    split; [exact Hrun|]. split; [exact Hinv|].
    intros h. rewrite Hhead_iff, in_concat. split.
    + intros (l & Hl & Hin). apply in_map_iff in Hl.
      destruct Hl as (i & <- & _). apply heads_at_in in Hin.
      apply in_map_iff. exists (h, i). auto.
    + intros Hin. apply in_map_iff in Hin.
      destruct Hin as ([h' l] & Hh' & Hin). cbn in Hh'. subst h'.
      exists (heads_at V l). split.
      * apply in_map. apply layers_between_in. apply Hrange.
        apply in_map_iff. exists (h, l). auto.
      * now apply heads_at_in.
Qed.

(* ================================================================== *)
(** ** The values of the boolean state functions *)

Lemma eval_funs_prefix st defs :
  forall done,
    exists rest, eval_funs st defs done = done ++ rest.
Proof.
  induction defs as [|d defs IH]; intros done; cbn [eval_funs].
  - exists []. now rewrite app_nil_r.
  - destruct (IH (done ++ [eval_cond st (fun i => nth i done false) d]))
      as [rest Hrest].
    rewrite Hrest, <- app_assoc. eauto.
Qed.

Lemma nth_firstn_below {A} (l : list A) (x : A) :
  forall n i, (i < n)%nat -> nth i (firstn n l) x = nth i l x.
Proof.
  induction l as [|a l IH]; intros n i Hi.
  - now rewrite firstn_nil.
  - destruct n as [|n]; [lia|]. destruct i as [|i]; cbn; auto.
    apply IH. lia.
Qed.

Lemma eval_funs_nth st defs :
  forall done j d,
    nth_error defs j = Some d ->
    nth (List.length done + j) (eval_funs st defs done) false
    = eval_cond st
        (fun i => nth i (firstn (List.length done + j)
                                (eval_funs st defs done)) false)
        d.
Proof.
  induction defs as [|a defs IH]; intros done j d Hj.
  - destruct j; discriminate.
  - cbn [eval_funs]. destruct j as [|j].
    + cbn in Hj. inversion Hj; subst a. rewrite Nat.add_0_r.
      destruct (eval_funs_prefix st defs
                  (done ++ [eval_cond st (fun i => nth i done false) d]))
        as [rest Hrest].
      rewrite Hrest, <- app_assoc.
      rewrite app_nth2, Nat.sub_diag by lia. cbn [app nth].
      rewrite firstn_app, Nat.sub_diag, firstn_all. cbn [firstn].
      now rewrite app_nil_r.
    + cbn in Hj.
      specialize (IH (done ++ [eval_cond st (fun i => nth i done false) a])
                     j d Hj).
      rewrite length_app in IH. cbn [List.length] in IH.
      replace (List.length done + S j)%nat
        with (List.length done + 1 + j)%nat by lia.
      exact IH.
Qed.

Lemma eval_cond_agree st f g j c :
  refs_below j c ->
  (forall i, (i < j)%nat -> f i = g i) ->
  eval_cond st f c = eval_cond st g c.
Proof.
  intros Hr Hfg. induction c; cbn in *; auto.
  - now rewrite IHc.
  - destruct Hr. now rewrite IHc1, IHc2.
  - destruct Hr. now rewrite IHc1, IHc2.
Qed.

(** In a model without forward references every boolean state function
    has the value of its definition. *)
Lemma fun_values_fixed m st j d :
  funs_wf m ->
  nth_error (bool_state_funs m) j = Some d ->
  fun_values m st j = eval_cond st (fun_values m st) d.
Proof.
  intros Hwf Hj. unfold fun_values.
  pose proof (eval_funs_nth st (bool_state_funs m) [] j d Hj) as E.
  cbn [List.length Nat.add] in E. rewrite E.
  apply (eval_cond_agree st _ _ j); [exact (Hwf j d Hj)|].
  intros i Hi. now apply nth_firstn_below.
Qed.

Lemma keys_eqb_refl (l : list Z) : keys_eqb l l = true.
Proof.
  unfold keys_eqb.
  assert (H : forallb (fun k => set_mem k l) l = true).
  { apply forallb_forall. intros k Hk. unfold set_mem.
    apply existsb_exists. exists k. split; auto. apply Z.eqb_refl. }
  now rewrite H.
Qed.

Lemma axioms_inv_funs_wf self e1 D e :
  axioms_inv self e1 D e -> funs_wf (_model e).
Proof.
  intros (_ & _ & _ & _ & _ & Hlen & Hdef) j d Hj.
  assert (Hlt : (j < List.length D)%nat).
  { rewrite <- Hlen. apply nth_error_Some. congruence. }
  destruct (nth_error D j) as [h|] eqn:Hh;
    [|apply nth_error_None in Hh; lia].
  destruct (Hdef j h Hh) as (_ & d' & Hd' & Hr & _). congruence.
Qed.

(** [_handle_axioms] on a parsed document whose rules have no cycle. *)
Lemma handle_axioms_acyclic sas_content s e1 :
  _parse sas_content = Some (Ok s) ->
  acyclic (_axiom_edges s) ->
  rules_closed s ->
  _handle_variables s new_enc = (e1, Ok tt) ->
  _didp_variables e1 <> [] ->
  exists e2 D,
    _handle_axioms (S (List.length (_axiom_edges s))) s e1
    = Some (e2, Ok tt) /\
    axioms_inv s e1 D e2 /\
    (forall h, In h D <-> dict_mem h (_axiom_heads s) = true).
Proof.
  intros Hp Hac Hclosed Hvars Hne.
  pose proof (parse_lines_heads_wf _ _ Hp) as Hheads.
  pose proof (parse_lines_graph_wf _ _ Hp) as Hgraph.
  pose proof (handle_variables_prim _ _ Hvars) as Hprim.
  pose proof Hgraph as (Hnd & _ & _).
  unfold _handle_axioms.
  destruct (_didp_variables e1) as [|[k var] rest] eqn:Ed; [congruence|].
  assert (Hvar : exists n, var = IntVarH n).
  { destruct Hprim as (_ & Hint & _).
    apply (Hint k var). rewrite Ed. cbn. now rewrite Z.eqb_refl. }
  destruct Hvar as [n ->]. cbn [obj_eq_obj].
  destruct (stratify_acyclic_terminates _ Hnd Hac) as (r & _ & Hs & _).
  rewrite Hs.
  destruct (stratify_fixed_point _ _ _ Hnd Hs) as (V & HV & HkV & Hfix).
  inversion HV as [EV]. rewrite EV, HkV, keys_eqb_refl.
  destruct (define_heads_acyclic s e1 V n Hheads Hgraph Hclosed Hprim)
    as (e2 & D & Hrun & Hinv & HD); [split; assumption|].
  exists e2, D. rewrite Hrun. auto.
Qed.

Lemma axioms_inv_nodup self e1 D e : axioms_inv self e1 D e -> NoDup D.
Proof.
  intros (_ & _ & _ & _ & _ & _ & Hdef).
  apply NoDup_nth_error. intros i j Hi Hij.
  destruct (nth_error D i) as [h|] eqn:Hh;
    [|apply nth_error_None in Hh; lia].
  symmetry in Hij.
  destruct (Hdef i h Hh) as [Hgi _]. destruct (Hdef j h Hij) as [Hgj _].
  congruence.
Qed.

Example rules_closed_doc_layers : rules_closed sas_layers.
Proof.
  intros r var val Hr Hvv.
  destruct Hr as [<-|[<-|[]]]; cbn in Hvv.
  - destruct Hvv as [E|[]]. inversion E; subst. right.
    split; [reflexivity|]. split; [reflexivity|]. now left.
  - destruct Hvv as [E|[E|[]]]; inversion E; subst.
    + right. split; [reflexivity|]. split; [reflexivity|]. now left.
    + left. split; [reflexivity|]. now right.
Qed.

(** X13. For a parsed document in which no derived variable reads itself
    through the rules, every variable of a rule body is declared and
    derived variables are read with the values 0 or 1, and there is a
    primitive variable, [_handle_axioms] returns after [_handle_variables]
    has: it raises nothing and needs no more than [|heads| + 1] rounds.
    It leaves the integer variables and the handles of the primitive
    variables alone and registers one boolean state function for each
    head.  No function reads itself or a function registered after it:
    whenever a rule of a head reads a derived variable, that variable has
    been given its function before the head gets its own. *)
Theorem derived_variables_are_defined_in_order :
  forall sas_content s e1,
    _parse sas_content = Some (Ok s) ->
    acyclic (_axiom_edges s) ->
    rules_closed s ->
    _handle_variables s new_enc = (e1, Ok tt) ->
    _didp_variables e1 <> [] ->
    exists e2,
      _handle_axioms (S (List.length (_axiom_edges s))) s e1
      = Some (e2, Ok tt) /\
      int_vars (_model e2) = int_vars (_model e1) /\
      (forall var,
          dict_mem var (_axiom_heads s) = false ->
          dict_get var (_didp_variables e2)
          = dict_get var (_didp_variables e1)) /\
      List.length (bool_state_funs (_model e2))
      = List.length (_axiom_heads s) /\
      funs_wf (_model e2) /\
      (forall h,
          dict_mem h (_axiom_heads s) = true ->
          exists j,
            (j < List.length (bool_state_funs (_model e2)))%nat /\
            dict_get h (_didp_variables e2) = Some (CondH (CFun j)) /\
            forall rs r var val,
              dict_get h (_axiom_heads s) = Some rs ->
              In r rs ->
              In (var, val) (rule_preconditions r) ->
              dict_mem var (_axiom_heads s) = true ->
              exists j',
                (j' < j)%nat /\
                dict_get var (_didp_variables e2) = Some (CondH (CFun j'))).
Proof.
  intros sas_content s e1 Hp Hac Hclosed Hvars Hne.
  destruct (handle_axioms_acyclic _ _ _ Hp Hac Hclosed Hvars Hne)
    as (e2 & D & Hrun & Hinv & HD).
  exists e2. split; [exact Hrun|].
  pose proof (axioms_inv_funs_wf _ _ _ _ Hinv) as Hwf.
  pose proof (axioms_inv_nodup _ _ _ _ Hinv) as HndD.
  pose proof Hinv as (Hiv & _ & _ & Hsame & _ & Hlen & Hdef).
  destruct (parse_lines_graph_wf _ _ Hp) as (Hnd & Hkeys & _).
  split; [exact Hiv|]. split; [exact Hsame|]. split; [|split; [exact Hwf|]].
  - rewrite Hlen.
    assert (Hperm : Permutation D (dict_keys (_axiom_heads s))).
    { apply NoDup_Permutation; auto.
      - rewrite Hkeys. exact Hnd.
      - intros h. rewrite HD. apply dict_mem_keys. }
    rewrite (Permutation_length Hperm). unfold dict_keys.
    apply length_map.
  - intros h Hh. apply HD in Hh.
    destruct (In_nth_error _ _ Hh) as [j Hj].
    destruct (Hdef j h Hj) as (Hg & d & Hd & _ & (Hsome & _)).
    exists j. split; [|split; [exact Hg|]].
    + apply nth_error_Some. congruence.
    + intros rs r var val Hrs Hr Hvv Hvar.
      destruct (Hsome rs r (var, val) Hrs Hr Hvv) as [_ Hc].
      apply HD in Hvar. destruct (In_nth_error _ _ Hvar) as [j' Hj'].
      destruct (Hdef j' var Hj') as [Hg' _].
      destruct (Hc _ Hg') as (j'' & E & Hlt). inversion E; subst j''.
      exists j'. auto.
Qed.

Lemma derived_variables_are_defined_in_order_witness :
  exists e2,
    _handle_axioms (S (List.length (_axiom_edges sas_layers))) sas_layers
                   (fst (_handle_variables sas_layers new_enc))
    = Some (e2, Ok tt) /\
    int_vars (_model e2)
    = int_vars (_model (fst (_handle_variables sas_layers new_enc))) /\
    (forall var,
        dict_mem var (_axiom_heads sas_layers) = false ->
        dict_get var (_didp_variables e2)
        = dict_get var (_didp_variables
                          (fst (_handle_variables sas_layers new_enc)))) /\
    List.length (bool_state_funs (_model e2))
    = List.length (_axiom_heads sas_layers) /\
    funs_wf (_model e2) /\
    (forall h,
        dict_mem h (_axiom_heads sas_layers) = true ->
        exists j,
          (j < List.length (bool_state_funs (_model e2)))%nat /\
          dict_get h (_didp_variables e2) = Some (CondH (CFun j)) /\
          forall rs r var val,
            dict_get h (_axiom_heads sas_layers) = Some rs ->
            In r rs ->
            In (var, val) (rule_preconditions r) ->
            dict_mem var (_axiom_heads sas_layers) = true ->
            exists j',
              (j' < j)%nat /\
              dict_get var (_didp_variables e2) = Some (CondH (CFun j'))).
Proof.
  apply (derived_variables_are_defined_in_order doc_layers sas_layers).
  - vm_compute. reflexivity.
  - exact acyclic_doc_layers.
  - exact rules_closed_doc_layers.
  - vm_compute. reflexivity.
  - vm_compute. discriminate.
Defined.

(** X14. Under the same conditions the boolean state function of every
    head means what its rules say: it is true exactly when some rule of
    the head has a body whose atoms all hold, where an atom on a primitive
    variable holds when the variable has the value of the atom, and an
    atom on a derived variable holds when the function of that variable
    is true for the value 0 and false for the value 1.  This is so in
    every state of the model, whose values have 32 bits, and for every
    assignment of integers when the values of the rule bodies have 32
    bits.  A rule without preconditions makes its head true in every
    state. *)
Theorem derived_variables_satisfy_their_rules :
  forall sas_content s e1,
    _parse sas_content = Some (Ok s) ->
    acyclic (_axiom_edges s) ->
    rules_closed s ->
    _handle_variables s new_enc = (e1, Ok tt) ->
    _didp_variables e1 <> [] ->
    exists e2,
      _handle_axioms (S (List.length (_axiom_edges s))) s e1
      = Some (e2, Ok tt) /\
      forall h,
        dict_mem h (_axiom_heads s) = true ->
        exists j,
          dict_get h (_didp_variables e2) = Some (CondH (CFun j)) /\
          (forall st,
              int_state st \/ rules_narrow s ->
              (fun_values (_model e2) st j = true
               <-> derivable s (_didp_variables e2) st
                             (fun_values (_model e2) st) h)) /\
          ((exists rs r,
               dict_get h (_axiom_heads s) = Some rs /\ In r rs /\
               rule_preconditions r = []) ->
           forall st, fun_values (_model e2) st j = true).
Proof.
  intros sas_content s e1 Hp Hac Hclosed Hvars Hne.
  destruct (handle_axioms_acyclic _ _ _ Hp Hac Hclosed Hvars Hne)
    as (e2 & D & Hrun & Hinv & HD).
  exists e2. split; [exact Hrun|].
  pose proof (axioms_inv_funs_wf _ _ _ _ Hinv) as Hwf.
  pose proof Hinv as (_ & _ & _ & _ & _ & _ & Hdef).
  intros h Hh. apply HD in Hh.
  destruct (In_nth_error _ _ Hh) as [j Hj].
  destruct (Hdef j h Hj) as (Hg & d & Hd & _ & (_ & Hsem & Htriv)).
  exists j. split; [exact Hg|]. split.
  - intros st Hst. rewrite (fun_values_fixed _ st j d Hwf Hd).
    now apply Hsem.
  - intros Hex st. rewrite (fun_values_fixed _ st j d Hwf Hd).
    now apply Htriv.
Qed.

Example rules_narrow_doc_layers : rules_narrow sas_layers.
Proof.
  intros r Hr var val Hvv.
  destruct Hr as [<-|[<-|[]]]; cbn in Hvv.
  - destruct Hvv as [E|[]]. now inversion E.
  - destruct Hvv as [E|[E|[]]]; now inversion E.
Qed.

Lemma derived_variables_satisfy_their_rules_witness :
  exists e2,
    _handle_axioms (S (List.length (_axiom_edges sas_layers))) sas_layers
                   (fst (_handle_variables sas_layers new_enc))
    = Some (e2, Ok tt) /\
    forall h,
      dict_mem h (_axiom_heads sas_layers) = true ->
      exists j,
        dict_get h (_didp_variables e2) = Some (CondH (CFun j)) /\
        (forall st,
            int_state st \/ rules_narrow sas_layers ->
            (fun_values (_model e2) st j = true
             <-> derivable sas_layers (_didp_variables e2) st
                           (fun_values (_model e2) st) h)) /\
        ((exists rs r,
             dict_get h (_axiom_heads sas_layers) = Some rs /\ In r rs /\
             rule_preconditions r = []) ->
         forall st, fun_values (_model e2) st j = true).
Proof.
  apply (derived_variables_satisfy_their_rules doc_layers sas_layers).
  - vm_compute. reflexivity.
  - exact acyclic_doc_layers.
  - exact rules_closed_doc_layers.
  - vm_compute. reflexivity.
  - vm_compute. discriminate.
Defined.

(* ================================================================== *)
(** ** The names of the integer variables *)

Lemma str_of_nat_inj a b : str_of_nat a = str_of_nat b -> a = b.
Proof.
  unfold str_of_nat. intros E.
  apply (f_equal NilEmpty.uint_of_string) in E.
  rewrite !NilEmpty.usu in E. inversion E as [E'].
  apply (f_equal Nat.of_uint) in E'.
  now rewrite !DecimalNat.Unsigned.of_to in E'.
Qed.

(** X15. In a model that the translation returns, the [k]-th integer
    variable is named [var<k>] and starts at the initial value that the
    document gives to the variable with id [k], an integer of 32 bits.
    The names are pairwise distinct. *)
Theorem integer_variables_have_distinct_names :
  forall sas_content s m,
    _parse sas_content = Some (Ok s) ->
    translate sas_content = Some (Ok m) ->
    List.length (int_vars m) = List.length (_variables s) /\
    (forall k name target,
        nth_error (int_vars m) k = Some (name, target) ->
        name = Some ("var" ++ str_of_nat k)%string /\
        dict_get (Z.of_nat k) (_init s) = Some target /\
        in_i32 target = true) /\
    NoDup (map fst (int_vars m)).
Proof.
  intros sas_content s m Hp Ht.
  destruct (translate_returns _ _ Ht)
    as (s' & Hp' & Hax & Hce & [Hinit _] & (Hr32 & _) & _ & ->).
  assert (s' = s) by congruence. subst s'.
  pose proof (proj1 (parse_lines_ir_wf _ _ Hp)) as Hwf.
  assert (Hnames : forall k name target,
             nth_error (int_vars (model_of s)) k = Some (name, target) ->
             name = Some ("var" ++ str_of_nat k)%string /\
             dict_get (Z.of_nat k) (_init s) = Some target /\
             in_i32 target = true).
  { intros k name target Hk. cbn [model_of int_vars] in Hk.
    rewrite nth_error_map in Hk.
    destruct (nth_error (_variables s) k) as [[i v]|] eqn:Hn;
      [|discriminate].
    destruct (Hwf _ _ _ Hn) as [-> Hname]. cbn in Hk. inversion Hk; subst.
    split; [exact Hname|].
    assert (Hd : dict_mem (Z.of_nat k) (_variables s) = true).
    { apply dict_mem_keys. apply nth_error_In in Hn.
      apply in_map_iff. exists (Z.of_nat k, v). auto. }
    pose proof (Hr32 _ Hd) as H32.
    pose proof (Hinit _ Hd) as Hm.
    unfold initial_value in *. unfold dict_mem in Hm.
    destruct (dict_get (Z.of_nat k) (_init s)); [auto|discriminate]. }
  split; [|split; [exact Hnames|]].
  - cbn [model_of int_vars]. apply length_map.
  - apply NoDup_nth_error. intros i j Hi Hij.
    rewrite length_map in Hi. rewrite !nth_error_map in Hij.
    destruct (nth_error (int_vars (model_of s)) i) as [[ni ti]|] eqn:Ei;
      [|apply nth_error_None in Ei; lia].
    destruct (nth_error (int_vars (model_of s)) j) as [[nj tj]|] eqn:Ej;
      [|discriminate].
    destruct (Hnames _ _ _ Ei) as [-> _].
    destruct (Hnames _ _ _ Ej) as [-> _].
    cbn in Hij. inversion Hij as [E]. now apply str_of_nat_inj.
Qed.

Lemma integer_variables_have_distinct_names_witness :
  List.length (int_vars (model_of sas_two_vars))
  = List.length (_variables sas_two_vars) /\
  (forall k name target,
      nth_error (int_vars (model_of sas_two_vars)) k = Some (name, target) ->
      name = Some ("var" ++ str_of_nat k)%string /\
      dict_get (Z.of_nat k) (_init sas_two_vars) = Some target /\
      in_i32 target = true) /\
  NoDup (map fst (int_vars (model_of sas_two_vars))).
Proof.
  apply (integer_variables_have_distinct_names doc_two_vars sas_two_vars);
    vm_compute; reflexivity.
Defined.

(* ================================================================== *)
(** ** The lines of a plan *)

Lemma list_ascii_of_string_app (a b : string) :
  list_ascii_of_string (a ++ b)
  = list_ascii_of_string a ++ list_ascii_of_string b.
Proof. induction a as [|c a IH]; cbn; [|rewrite IH]; reflexivity. Qed.

Lemma no_linebreak_app a b :
  no_linebreak a -> no_linebreak b -> no_linebreak (a ++ b).
Proof.
  unfold no_linebreak. intros Ha Hb c Hc.
  rewrite list_ascii_of_string_app in Hc. apply in_app_iff in Hc.
  destruct Hc; auto.
Qed.

Lemma string_app_assoc (a b c : string) :
  ((a ++ b) ++ c = a ++ (b ++ c))%string.
Proof. induction a as [|x a IH]; cbn; [|rewrite IH]; reflexivity. Qed.

Lemma string_app_nil_r (a : string) : (a ++ "")%string = a.
Proof. induction a as [|x a IH]; cbn; [|rewrite IH]; reflexivity. Qed.

Lemma splitlines_from_append l :
  forall cur rest,
    no_linebreak l ->
    splitlines_from cur (l ++ rest) = splitlines_from (cur ++ l) rest.
Proof.
  induction l as [|c l IH]; intros cur rest Hl.
  - now rewrite string_app_nil_r.
  - assert (Hc : is_linebreak c = false) by (apply Hl; now left).
    assert (H13 : (code c =? 13)%nat = false).
    { destruct (code c =? 13)%nat eqn:E; auto.
      apply Nat.eqb_eq in E. unfold is_linebreak in Hc. rewrite E in Hc.
      discriminate. }
    cbn [append splitlines_from]. rewrite H13, Hc.
    rewrite IH.
    + unfold snoc. now rewrite string_app_assoc.
    + intros x Hx. apply Hl. now right.
Qed.

(** [splitlines] undoes a join of non-empty lines without line breaks. *)
Lemma splitlines_join ls :
  Forall (fun l => no_linebreak l /\ l <> ""%string) ls ->
  splitlines (String.concat (String (ascii_of_nat 10) EmptyString) ls) = ls.
Proof.
  unfold splitlines. induction 1 as [|l ls [Hl Hne] Hls IH]; [reflexivity|].
  cbn [String.concat]. destruct ls as [|l' ls].
  - rewrite <- (string_app_nil_r l) at 1.
    rewrite splitlines_from_append by exact Hl.
    cbn [append splitlines_from]. destruct l; [congruence|reflexivity].
  - rewrite splitlines_from_append by exact Hl.
    cbn [append]. cbn [splitlines_from].
    change (code (ascii_of_nat 10) =? 13)%nat with false.
    change (is_linebreak (ascii_of_nat 10)) with true.
    cbn iota. f_equal. exact IH.
Qed.

Lemma parse_operator_name s ls u s' ls' :
  parse_operator s ls = Ok (u, s', ls') ->
  exists l0 rest op,
    ls = l0 :: rest /\
    op_name op = Some (remove_newlines l0) /\
    _operators s' = _operators s ++ [op].
Proof.
  intros Hrun. unfold parse_operator in Hrun.
  apply bind_inv in Hrun. destruct Hrun as (name & s1 & ls1 & H1 & Hrun).
  apply bind_inv in Hrun. destruct Hrun as (l & s2 & ls2 & H2 & Hrun).
  apply bind_inv in Hrun. destruct Hrun as (npre & s3 & ls3 & H3 & Hrun).
  apply bind_inv in Hrun. destruct Hrun as (pre & s4 & ls4 & H4 & Hrun).
  apply bind_inv in Hrun. destruct Hrun as (l5 & s5 & ls5 & H5 & Hrun).
  apply bind_inv in Hrun. destruct Hrun as (neff & s6 & ls6 & H6 & Hrun).
  apply bind_inv in Hrun.
  destruct Hrun as ([pre' eff] & s7 & ls7 & H7 & Hrun).
  apply bind_inv in Hrun. destruct Hrun as (cost & s8 & ls8 & H8 & Hrun).
  assert (Ho4 : s4 = s3) by exact (assignment_pairs_state _ _ _ _ _ _ _ H4).
  assert (Ho7 : _operators s6 = _operators s7).
  { refine (respects_for_each (same_on _operators) _ _ _ _ _ _ _ _ _ H7).
    intros x [p e]. unfold effect_record. frame_tac. }
  assert (Hstate : s8 = s7).
  { unfold parse_cost in H8. pinv. reflexivity. }
  subst s4 s8.
  destruct ls as [|l0 rest].
  { cbn in H1. inversion H1; subst. cbn in H2. inversion H2; subst.
    cbn in H3. discriminate. }
  cbn in H1. inversion H1; subst name s1 ls1. clear H1.
  pinv. exists l0, rest. eexists.
  split; [reflexivity|]. split; [|cbn; rewrite <- Ho7; reflexivity].
  reflexivity.
Qed.

Lemma parse_block_operator_names l s ls s' ls' :
  parse_block l s ls = Ok (tt, s', ls') ->
  _operators s' = _operators s \/
  exists l0 rest op,
    ls = l0 :: rest /\
    op_name op = Some (remove_newlines l0) /\
    _operators s' = _operators s ++ [op].
Proof.
  intros Hrun. destruct (l =? "begin_operator")%string eqn:El.
  - right. unfold parse_block in Hrun.
    apply String.eqb_eq in El. subst l. cbn in Hrun.
    exact (parse_operator_name _ _ _ _ _ Hrun).
  - left. destruct (parse_block_operators _ _ _ _ _ Hrun)
      as [E|(op & _ & E)]; auto.
    exfalso. unfold parse_block in Hrun. rewrite El in Hrun.
    assert (Hv : respects (same_on _operators) parse_variable)
      by block_frame.
    assert (Hr : respects (same_on _operators) parse_rule) by block_frame.
    assert (Hg : respects (same_on _operators) parse_goal) by block_frame.
    assert (Hs : respects (same_on _operators) parse_state) by block_frame.
    assert (Hsame : _operators s = _operators s').
    { destruct (l =? "begin_variable")%string;
        [exact (Hv _ _ _ _ _ Hrun)|].
      destruct (l =? "begin_rule")%string; [exact (Hr _ _ _ _ _ Hrun)|].
      destruct (l =? "begin_goal")%string; [exact (Hg _ _ _ _ _ Hrun)|].
      destruct (l =? "begin_state")%string; [exact (Hs _ _ _ _ _ Hrun)|].
      inversion Hrun. reflexivity. }
    rewrite E in Hsame.
    apply (f_equal (@List.length Operator)) in Hsame.
    rewrite length_app in Hsame. cbn in Hsame. lia.
Qed.

Lemma parsed_operator_names sas_content s :
  _parse sas_content = Some (Ok s) -> Forall plain_name (_operators s).
Proof.
  intros Hp. unfold _parse, parse_lines in Hp.
  pose proof (parse_loop_invariant
                (fun c => Forall no_linebreak (snd c) /\
                          Forall plain_name (_operators (fst c)))) as Hinv.
  apply (Hinv) in Hp.
  - exact (proj2 Hp).
  - intros l s0 ls0 s' ls' [Hlines Hops] Hrun. cbn [fst snd] in *.
    inversion Hlines as [|? ? Hl Hls0]; subst.
    split.
    + pose proof (parse_block_suffix _ _ _ _ _ _ Hrun) as [pre Hpre].
      cbn in Hpre. rewrite Hpre in Hls0.
      apply Forall_app in Hls0. tauto.
    + destruct (parse_block_operator_names _ _ _ _ _ Hrun)
        as [->|(l0 & rest & op & -> & Hname & ->)]; auto.
      apply Forall_app. split; auto. constructor; [|constructor].
      inversion Hls0 as [|? ? Hl0 _]; subst.
      exists l0. rewrite Hname, (remove_newlines_id _ Hl0). auto.
  - cbn. split; [|constructor].
    apply (splitlines_from_no_linebreak (String.length sas_content)); auto.
    intros c [].
Qed.

(** X16. A plan is written with one line for each of its steps.  When
    the steps are transitions of a model that the translation returned,
    reading the plan back line by line gives, step by step, the name of
    the operator in parentheses: the names are lines of the document, so
    that no name breaks a line of the plan, and the operator of every
    step can be read off its line. *)
Theorem plan_lines_are_the_steps :
  forall sas_content s m ts,
    _parse sas_content = Some (Ok s) ->
    translate sas_content = Some (Ok m) ->
    incl ts (transitions m) ->
    splitlines (render_plan ts) = map plan_line ts /\
    Forall (fun t =>
              exists op n,
                In op (_operators s) /\ op_name op = Some n /\
                plan_line t = ("(" ++ n ++ ")")%string)
           ts.
Proof.
  intros sas_content s m ts Hp Ht Hincl.
  destruct (translate_returns _ _ Ht)
    as (s' & Hp' & _ & _ & _ & _ & _ & ->).
  assert (s' = s) by congruence. subst s'.
  pose proof (parsed_operator_names _ _ Hp) as Hnames.
  rewrite Forall_forall in Hnames.
  assert (Hstep : forall t, In t ts ->
                            exists op n,
                              In op (_operators s) /\ op_name op = Some n /\
                              no_linebreak n /\
                              plan_line t = ("(" ++ n ++ ")")%string).
  { intros t Hin. apply Hincl in Hin. cbn [model_of transitions] in Hin.
    apply in_map_iff in Hin. destruct Hin as (op & <- & Hop).
    destruct (Hnames op Hop) as (n & Hn & Hnl).
    exists op, n. unfold plan_line, encode_operator. cbn [t_name].
    rewrite Hn. auto. }
  split.
  - unfold render_plan. apply splitlines_join.
    apply Forall_forall. intros l Hl. apply in_map_iff in Hl.
    destruct Hl as (t & <- & Hin).
    destruct (Hstep t Hin) as (op & n & _ & _ & Hnl & ->). split.
    + apply (no_linebreak_app "(" (n ++ ")")).
      * intros c [<-|[]]. reflexivity.
      * apply no_linebreak_app; auto. intros c [<-|[]]. reflexivity.
    + discriminate.
  - apply Forall_forall. intros t Hin.
    destruct (Hstep t Hin) as (op & n & Hop & Hn & _ & Hline). eauto.
Qed.

Lemma plan_lines_are_the_steps_witness :
  splitlines (render_plan (transitions (model_of sas_two_vars)
                           ++ transitions (model_of sas_two_vars)))
  = map plan_line (transitions (model_of sas_two_vars)
                   ++ transitions (model_of sas_two_vars)) /\
  Forall (fun t =>
            exists op n,
              In op (_operators sas_two_vars) /\ op_name op = Some n /\
              plan_line t = ("(" ++ n ++ ")")%string)
         (transitions (model_of sas_two_vars)
          ++ transitions (model_of sas_two_vars)).
Proof.
  apply (plan_lines_are_the_steps doc_two_vars sas_two_vars
                                  (model_of sas_two_vars)).
  - vm_compute. reflexivity.
  - vm_compute. reflexivity.
  - intros t Hin. apply in_app_iff in Hin. tauto.
Defined.

(* ================================================================== *)
(** ** The files that the driver writes *)

Lemma string_app_inv_l (a b c : string) :
  (a ++ b = a ++ c)%string -> b = c.
Proof.
  induction a as [|x a IH]; cbn; intros E; [exact E|].
  inversion E. auto.
Qed.

Lemma string_app_neq (a b : string) :
  b <> ""%string -> a <> (a ++ b)%string.
Proof.
  intros Hb. induction a as [|x a IH]; cbn; intros E.
  - now apply Hb.
  - inversion E. auto.
Qed.

Lemma intermediate_file_inj plan_file a b :
  intermediate_file plan_file a = intermediate_file plan_file b -> a = b.
Proof.
  unfold intermediate_file. intros E.
  apply string_app_inv_l in E. cbn in E. inversion E.
  now apply str_of_nat_inj.
Qed.

Lemma intermediate_file_other plan_file k :
  plan_file <> intermediate_file plan_file k.
Proof. apply string_app_neq. discriminate. Qed.

Lemma write_file_same path content fs :
  write_file path content fs path = Some content.
Proof. unfold write_file. now rewrite String.eqb_refl. Qed.

Lemma write_file_other path content fs p :
  p <> path -> write_file path content fs p = fs p.
Proof.
  unfold write_file. intros Hne.
  destruct (p =? path)%string eqn:E; auto.
  apply String.eqb_eq in E. contradiction.
Qed.

(** The search loop from any point. *)
Lemma search_loop_files plan_file answers :
  forall d0 d,
    search_loop plan_file answers d0 = Some d ->
    plans_found d
    = (plans_found d0 + List.length (plans_of answers))%nat /\
    (forall k sol,
        nth_error (plans_of answers) k = Some sol ->
        files d (intermediate_file plan_file (plans_found d0 + k))
        = Some (render_plan (sol_transitions sol))) /\
    (forall p,
        (forall k, (k < List.length (plans_of answers))%nat ->
                   p <> intermediate_file plan_file (plans_found d0 + k)) ->
        files d p = files d0 p) /\
    (plans_of answers = [] -> plan d = plan d0) /\
    (forall pre sol,
        plans_of answers = pre ++ [sol] ->
        plan d = Some (render_plan (sol_transitions sol))).
Proof.
  induction answers as [|[solution terminated] answers IH]; intros d0 d Hrun;
    [discriminate|].
  cbn [search_loop plans_of] in *.
  destruct (negb (time_out solution) && negb (is_infeasible solution)).
  2:{ inversion Hrun; subst d. cbn.
      repeat split; auto.
      - intros k sol Hk. destruct k; discriminate.
      - intros pre sol E. destruct pre; discriminate. }
  set (p := render_plan (sol_transitions solution)) in *.
  set (d' := mkDriver (Some p) (S (plans_found d0))
                      (write_file
                         (intermediate_file plan_file (plans_found d0))
                         p (files d0))) in *.
  assert (Hd' : forall later d,
             plans_found d = (plans_found d' + List.length later)%nat ->
             (forall k sol,
                 nth_error later k = Some sol ->
                 files d (intermediate_file plan_file (plans_found d' + k))
                 = Some (render_plan (sol_transitions sol))) ->
             (forall q,
                 (forall k, (k < List.length later)%nat ->
                            q <> intermediate_file plan_file
                                   (plans_found d' + k)) ->
                 files d q = files d' q) ->
             (later = [] -> plan d = plan d') ->
             (forall pre sol, later = pre ++ [sol] ->
                              plan d = Some (render_plan
                                               (sol_transitions sol))) ->
             plans_found d
             = (plans_found d0 + List.length (solution :: later))%nat /\
             (forall k sol,
                 nth_error (solution :: later) k = Some sol ->
                 files d (intermediate_file plan_file (plans_found d0 + k))
                 = Some (render_plan (sol_transitions sol))) /\
             (forall q,
                 (forall k, (k < List.length (solution :: later))%nat ->
                            q <> intermediate_file plan_file
                                   (plans_found d0 + k)) ->
                 files d q = files d0 q) /\
             (solution :: later = [] -> plan d = plan d0) /\
             (forall pre sol,
                 solution :: later = pre ++ [sol] ->
                 plan d = Some (render_plan (sol_transitions sol)))).
  { intros later d1 Hn Hfiles Hother Hnil Hlast.
    cbn [plans_found d'] in Hn, Hfiles, Hother.
    split; [|split; [|split; [|split]]].
    - cbn [List.length]. lia.
    - intros k sol Hk. destruct k as [|k].
      + cbn in Hk. inversion Hk; subst sol. rewrite Nat.add_0_r.
        rewrite Hother.
        * cbn [files d']. apply write_file_same.
        * intros k _ E. apply intermediate_file_inj in E. lia.
      + cbn in Hk. replace (plans_found d0 + S k)%nat
          with (S (plans_found d0) + k)%nat by lia.
        now apply Hfiles.
    - intros q Hq. rewrite Hother.
      + cbn [files d']. apply write_file_other.
        specialize (Hq 0%nat). rewrite Nat.add_0_r in Hq.
        apply Hq. cbn. lia.
      + intros k Hk.
        replace (S (plans_found d0) + k)%nat
          with (plans_found d0 + S k)%nat by lia.
        apply Hq. cbn. lia.
    - discriminate.
    - intros pre sol E. destruct pre as [|x pre].
      + cbn in E. inversion E; subst. rewrite Hnil; auto.
      + cbn in E. inversion E; subst. eapply Hlast; eauto. }
  destruct terminated.
  - inversion Hrun; subst d. apply (Hd' [] d'); cbn; auto.
    + intros k sol Hk. destruct k; discriminate.
    + intros pre sol E. destruct pre; discriminate.
  - destruct (IH d' d Hrun) as (Hn & Hfiles & Hother & Hnil & Hlast).
    apply (Hd' (plans_of answers) d); auto.
Qed.

Lemma search_loop_asks_again plan_file answers :
  forall d0,
    search_loop plan_file answers d0 = None <->
    Forall (fun a => time_out (fst a) = false /\
                     is_infeasible (fst a) = false /\ snd a = false)
           answers.
Proof.
  induction answers as [|[solution terminated] answers IH]; intros d0.
  - cbn. split; auto.
  - cbn [search_loop].
    destruct (time_out solution) eqn:Et; cbn [negb andb].
    { split; [discriminate|]. intros Hall. inversion Hall as [|? ? Ha _].
      cbn in Ha. destruct Ha as (E & _). congruence. }
    destruct (is_infeasible solution) eqn:Ei; cbn [negb].
    { split; [discriminate|]. intros Hall. inversion Hall as [|? ? Ha _].
      cbn in Ha. destruct Ha as (_ & E & _). congruence. }
    destruct terminated.
    { split; [discriminate|]. intros Hall. inversion Hall as [|? ? Ha _].
      cbn in Ha. destruct Ha as (_ & _ & E). discriminate. }
    rewrite IH. split.
    + intros Hall. constructor; auto.
    + intros Hall. now inversion Hall.
Qed.

(** X17. The search loop of the driver stops at the first answer of the
    solver that is a time-out, is infeasible or ends the search, and asks
    again after any other answer.  It writes the [k]-th plan that it
    meets to the [k]-th intermediate file, counting from 0; the files are
    distinct from each other and from the final plan file, so that no
    plan overwrites another.  The count of plans is the number of plans
    met.  When there is one, the final plan file is written without error
    and holds the last plan found, the same text as the last intermediate
    file; without a plan nothing is written.  No other file is
    touched. *)
Theorem final_plan_is_the_last_plan_found :
  forall plan_file answers fs,
    (solve plan_file answers fs = None <->
     Forall (fun a => time_out (fst a) = false /\
                      is_infeasible (fst a) = false /\ snd a = false)
            answers) /\
    forall r,
      solve plan_file answers fs = Some r ->
      exists d,
        r = Ok d /\
        plans_found d = List.length (plans_of answers) /\
        (forall k sol,
            nth_error (plans_of answers) k = Some sol ->
            files d (intermediate_file plan_file k)
            = Some (render_plan (sol_transitions sol))) /\
        (forall pre sol,
            plans_of answers = pre ++ [sol] ->
            plan d = Some (render_plan (sol_transitions sol)) /\
            files d plan_file = Some (render_plan (sol_transitions sol)) /\
            files d plan_file
            = files d (intermediate_file plan_file (List.length pre))) /\
        (plans_of answers = [] -> forall p, files d p = fs p) /\
        (forall p,
            p <> plan_file ->
            (forall k, (k < List.length (plans_of answers))%nat ->
                       p <> intermediate_file plan_file k) ->
            files d p = fs p).
Proof.
  intros plan_file answers fs. split.
  { unfold solve. rewrite <- (search_loop_asks_again plan_file answers
                                (mkDriver None 0 fs)).
    destruct (search_loop plan_file answers (mkDriver None 0 fs));
      split; congruence. }
  intros r Hsolve. unfold solve in Hsolve.
  destruct (search_loop plan_file answers (mkDriver None 0 fs))
    as [d|] eqn:Hloop; [|discriminate].
  inversion Hsolve; subst r; clear Hsolve.
  destruct (search_loop_files _ _ _ _ Hloop)
    as (Hn & Hfiles & Hother & Hnil & Hlast).
  cbn [plans_found files plan Nat.add] in Hn, Hfiles, Hother, Hnil.
  unfold write_final_plan.
  destruct (plans_of answers) as [|sol0 sols] eqn:Eplans.
  - cbn in Hn. rewrite Hn. exists d. split; [reflexivity|].
    split; [exact Hn|]. split; [|split; [|split]].
    + intros k sol Hk. destruct k; discriminate.
    + intros pre sol E. destruct pre; discriminate.
    + intros _ p. apply Hother. cbn. intros k Hk. lia.
    + intros p _ _. apply Hother. cbn. intros k Hk. lia.
  - destruct (exists_last (l := sol0 :: sols)) as (pre & sol & Elast);
      [discriminate|].
    pose proof (Hlast pre sol Elast) as Hplan.
    rewrite Hn, Hplan. cbn [List.length].
    eexists. split; [reflexivity|].
    cbn [plans_found files plan].
    assert (Hpre : nth_error (sol0 :: sols) (List.length pre) = Some sol).
    { rewrite Elast, nth_error_app2, Nat.sub_diag by lia. reflexivity. }
    split; [reflexivity|]. split; [|split; [|split]].
    + intros k sol' Hk. rewrite write_file_other.
      * now apply Hfiles.
      * intros E. symmetry in E. exact (intermediate_file_other _ _ E).
    + intros pre' sol' E. rewrite Elast in E.
      apply app_inj_tail in E. destruct E as [-> ->].
      split; [reflexivity|]. rewrite write_file_same.
      split; [reflexivity|]. rewrite write_file_other.
      * symmetry. now apply Hfiles.
      * intros E. symmetry in E. exact (intermediate_file_other _ _ E).
    + discriminate.
    + intros p Hp Hk. rewrite write_file_other by exact Hp.
      apply Hother. exact Hk.
Qed.

Lemma final_plan_is_the_last_plan_found_witness :
  exists d,
    Ok (mkDriver (Some "(b)") 2
                 (write_file "sas_plan" "(b)"
                    (write_file "sas_plan.1" "(b)"
                       (write_file "sas_plan.0" "(a)" (fun _ => None)))))
    = Ok d /\
    plans_found d = List.length (plans_of answers_two_plans) /\
    (forall k sol,
        nth_error (plans_of answers_two_plans) k = Some sol ->
        files d (intermediate_file "sas_plan" k)
        = Some (render_plan (sol_transitions sol))) /\
    (forall pre sol,
        plans_of answers_two_plans = pre ++ [sol] ->
        plan d = Some (render_plan (sol_transitions sol)) /\
        files d "sas_plan" = Some (render_plan (sol_transitions sol)) /\
        files d "sas_plan"
        = files d (intermediate_file "sas_plan" (List.length pre))) /\
    (plans_of answers_two_plans = [] -> forall p, files d p = None) /\
    (forall p,
        p <> "sas_plan"%string ->
        (forall k, (k < List.length (plans_of answers_two_plans))%nat ->
                   p <> intermediate_file "sas_plan" k) ->
        files d p = None).
Proof.
  apply (proj2 (final_plan_is_the_last_plan_found
                  "sas_plan" answers_two_plans (fun _ => None))).
  reflexivity.
Defined.

(* ================================================================== *)
(** * The blocks of a document *)

(** ** From a block on the way to the end of the loop *)

Lemma parse_reaches_shorter c c' :
  parse_reaches c c' -> (List.length (snd c') <= List.length (snd c))%nat.
Proof.
  induction 1 as [c|s ls s' ls' c Hstep Hr IH]; [lia|].
  apply parse_step_shrinks in Hstep. cbn [snd] in *. lia.
Qed.

Lemma parse_reaches_loop c c' :
  parse_reaches c c' ->
  forall fuel,
    (List.length (snd c) < fuel)%nat ->
    parse_loop fuel (fst c) (snd c) = parse_loop fuel (fst c') (snd c').
Proof.
  induction 1 as [c|s ls s' ls' c Hstep Hr IH]; intros fuel Hf; [reflexivity|].
  cbn [fst snd] in *. destruct fuel as [|fuel]; [lia|].
  pose proof (parse_step_shrinks _ _ _ _ Hstep) as Hlt.
  pose proof (parse_reaches_shorter _ _ Hr) as Hle. cbn [snd] in Hle.
  transitivity (parse_loop fuel s' ls').
  { cbn [parse_loop]. now rewrite Hstep. }
  rewrite IH by lia. apply parse_loop_fuel; lia.
Qed.

(** The result of the parser, seen from a block that it meets. *)
Lemma dispatches_parse sas_content block s rest :
  dispatches sas_content block s rest ->
  _parse sas_content
  = match parse_block block s rest with
    | Ok (_, s', ls') => parse_loop (S (List.length ls')) s' ls'
    | Raise e => Some (Raise e)
    end.
Proof.
  intros (l & Hr & Hl). unfold _parse, parse_lines.
  rewrite (parse_reaches_loop _ _ Hr) by (cbn; lia). cbn [fst snd].
  pose proof (parse_reaches_shorter _ _ Hr) as Hle. cbn [snd] in Hle.
  set (n := List.length (splitlines sas_content)) in *.
  assert (Hstep : parse_loop (S n) s (l :: rest)
                  = match parse_block block s rest with
                    | Ok (_, s', ls') => parse_loop n s' ls'
                    | Raise e => Some (Raise e)
                    end).
  { cbn [parse_loop]. unfold parse_step, get_line. rewrite Hl.
    destruct (parse_block block s rest) as [[[u s'] ls']|e]; reflexivity. }
  rewrite Hstep.
  destruct (parse_block block s rest) as [[[u s'] ls']|e] eqn:Hb; [|reflexivity].
  pose proof (parse_block_suffix _ _ _ _ _ _ Hb) as [pre Hpre].
  cbn [snd] in Hpre.
  apply (f_equal (@List.length string)) in Hpre.
  rewrite length_app in Hpre. cbn [List.length] in Hle.
  apply parse_loop_fuel; lia.
Qed.

(** A block that raises ends the parser with its exception. *)
Lemma dispatches_raise sas_content block s rest e :
  dispatches sas_content block s rest ->
  parse_block block s rest = Raise e ->
  _parse sas_content = Some (Raise e).
Proof.
  intros Hd Hb. rewrite (dispatches_parse _ _ _ _ Hd), Hb. reflexivity.
Qed.

(** In a parsed document every block that the parser meets returns, and
    what holds after it and is kept by every block holds at the end. *)
Lemma dispatches_ok (I : Sas -> Prop) sas_content block s rest r :
  dispatches sas_content block s rest ->
  _parse sas_content = Some (Ok r) ->
  (forall l s ls s' ls',
      I s -> parse_block l s ls = Ok (tt, s', ls') -> I s') ->
  (forall s' ls', parse_block block s rest = Ok (tt, s', ls') -> I s') ->
  I r.
Proof.
  intros Hd Hp Hkeep Hblock. rewrite (dispatches_parse _ _ _ _ Hd) in Hp.
  destruct (parse_block block s rest) as [[[[] s'] ls']|e] eqn:Hb;
    [|discriminate].
  apply (parse_loop_invariant (fun c => I (fst c))) in Hp; auto.
  - intros l s0 ls0 s1 ls1 HI Hb1. cbn [fst] in *. eapply Hkeep; eauto.
  - cbn. eapply Hblock; eauto.
Qed.

Lemma dispatches_returns sas_content block s rest r :
  dispatches sas_content block s rest ->
  _parse sas_content = Some (Ok r) ->
  exists s' ls', parse_block block s rest = Ok (tt, s', ls').
Proof.
  intros Hd Hp. rewrite (dispatches_parse _ _ _ _ Hd) in Hp.
  destruct (parse_block block s rest) as [[[[] s'] ls']|e] eqn:Hb;
    [eauto|discriminate].
Qed.

(** ** Operator blocks *)

Lemma dict_set_keeps {V} (k k' : Z) (v v' : V) (d : dict V) :
  In (k', v') d -> dict_mem k d = false -> In (k', v') (dict_set k v d).
Proof.
  intros Hin Hm. rewrite dict_set_fresh.
  - apply in_app_iff. now left.
  - unfold dict_mem in Hm. destruct (dict_get k d); [discriminate|reflexivity].
Qed.

Lemma dict_set_in {V} (k : Z) (v : V) (d : dict V) :
  In (k, v) (dict_set k v d).
Proof. apply dict_get_In, dict_get_set_same. Qed.

(** An effect record with guard count 0 stores its pre-value among the
    preconditions and its post-value among the effects. *)
Lemma effect_record_unguarded pre eff s l rest acc' s' ls' var p post :
  effect_record (pre, eff) s (l :: rest) = Ok (acc', s', ls') ->
  effect_tokens l 0 var p post ->
  acc' = (dict_set var p pre, dict_set var post eff) /\
  dict_mem var pre = false /\ dict_mem var eff = false.
Proof.
  intros Hrun (H0 & H1 & H2 & H3).
  destruct (dict_mem var pre) eqn:Hp.
  - exfalso. revert Hrun. unfold effect_record.
    unfold bind at 1. simpl get_line. cbv iota beta.
    unfold bind at 1. simpl split_line. simpl lift. unfold ret at 1.
    cbv iota beta.
    unfold bind at 1. rewrite H0. simpl lift. unfold ret at 1. cbv iota beta.
    unfold bind at 1. rewrite H1. simpl lift. unfold ret at 1. cbv iota beta.
    unfold bind at 1. rewrite H2. simpl lift. unfold ret at 1. cbv iota beta.
    unfold bind at 1. rewrite H3. simpl lift. unfold ret at 1. cbv iota beta.
    simpl negb. cbv iota.
    unfold bind. rewrite Hp. discriminate.
  - destruct (dict_mem var eff) eqn:He.
    + exfalso. revert Hrun. unfold effect_record.
      unfold bind at 1. simpl get_line. cbv iota beta.
      unfold bind at 1. simpl split_line. simpl lift. unfold ret at 1.
      cbv iota beta.
      unfold bind at 1. rewrite H0. simpl lift. unfold ret at 1.
      cbv iota beta.
      unfold bind at 1. rewrite H1. simpl lift. unfold ret at 1.
      cbv iota beta.
      unfold bind at 1. rewrite H2. simpl lift. unfold ret at 1.
      cbv iota beta.
      unfold bind at 1. rewrite H3. simpl lift. unfold ret at 1.
      cbv iota beta.
      simpl negb. cbv iota.
      unfold bind. rewrite Hp, He. discriminate.
    + rewrite (effect_record_stores _ _ _ _ _ _ _ _ H0 H1 H2 H3 Hp He) in Hrun.
      inversion Hrun. auto.
Qed.

(** The loop over the effect records of an operator block. *)
Lemma effect_records_store (xs : list Z) :
  forall effs tail pre eff s pre' eff' s' ls',
    List.length xs = List.length effs ->
    for_each xs (fun _ => effect_record) (pre, eff) s (effs ++ tail)
    = Ok ((pre', eff'), s', ls') ->
    ls' = tail /\
    incl pre pre' /\ incl eff eff' /\
    forall l var p post,
      In l effs ->
      effect_tokens l 0 var p post ->
      In (var, p) pre' /\ In (var, post) eff'.
Proof.
  induction xs as [|x xs IH];
    intros effs tail pre eff s pre' eff' s' ls' Hlen Hrun;
    destruct effs as [|l0 effs]; try discriminate.
  - inversion Hrun; subst. repeat split; auto using incl_refl.
    all: contradiction.
  - cbn [for_each app] in Hrun. apply bind_inv in Hrun.
    destruct Hrun as ([pre1 eff1] & s1 & ls1 & H1 & H2).
    destruct (effect_record_one_line _ _ _ _ _ _ H1) as [l1 Hl1].
    inversion Hl1. subst l1 ls1. clear Hl1.
    apply IH in H2; [|cbn in Hlen; lia].
    destruct H2 as (-> & Hp & He & Hall).
    assert (Hstep : incl pre pre1 /\ incl eff eff1).
    { destruct (effect_record_inv _ _ _ _ _ _ _ _ H1)
        as [[-> ->]|(var & p & post & Hfp & Hfe & -> & ->)].
      - split; apply incl_refl.
      - split; intros [k v] Hin; now apply dict_set_keeps. }
    destruct Hstep as [Hp1 He1].
    split; [reflexivity|]. split; [|split].
    + intros kv Hin. apply Hp, Hp1, Hin.
    + intros kv Hin. apply He, He1, Hin.
    + intros l var p post [<-|Hin] Htok.
      * destruct (effect_record_unguarded _ _ _ _ _ _ _ _ _ _ _ H1 Htok)
          as (Hacc & _ & _).
        inversion Hacc; subst pre1 eff1. split.
        -- apply Hp, dict_set_in.
        -- apply He, dict_set_in.
      * now apply (Hall l).
Qed.

(** The steps of an operator block whose two counts announce the lines
    [pres] and [effs]: the loop over the effect records starts from the
    preconditions of the pairs, and the operator that is filed has the
    name of the first line, the maps that the loop returns and the cost of
    the line after the records. *)
Lemma parse_operator_layout s name npre pres neff effs cost tail u s' ls' :
  counts npre pres ->
  counts neff effs ->
  parse_operator s (name :: npre :: pres ++ neff :: effs ++ cost :: tail)
  = Ok (u, s', ls') ->
  exists pre0 pre eff s1 z,
    for_each (py_range (Z.of_nat (List.length effs)))
             (fun _ => effect_record) (pre0, []) s (effs ++ cost :: tail)
    = Ok ((pre, eff), s1, cost :: tail) /\
    parse_cost s1 (cost :: tail) = Ok (z, s1, tail) /\
    _operators s'
    = _operators s
      ++ [mkOperator (Some (remove_newlines name)) pre eff z].
Proof.
  intros Hnpre Hneff Hrun. unfold counts in *. unfold parse_operator in Hrun.
  apply bind_inv in Hrun. destruct Hrun as (nm & s1 & ls1 & H1 & Hrun).
  apply get_line_inv in H1. destruct H1 as (-> & -> & ->).
  cbn [hd_error option_map tl] in Hrun.
  apply bind_inv in Hrun. destruct Hrun as (l1 & s1 & ls1 & H1 & Hrun).
  apply get_line_inv in H1. destruct H1 as (-> & -> & ->).
  cbn [hd_error option_map tl] in Hrun.
  apply bind_inv in Hrun. destruct Hrun as (n1 & s1 & ls1 & H1 & Hrun).
  apply lift_inv in H1. destruct H1 as (H1 & -> & ->).
  cbn [int_of_line] in H1. rewrite Hnpre in H1. inversion H1. subst n1.
  clear H1.
  apply bind_inv in Hrun. destruct Hrun as (pre0 & s1 & ls1 & H1 & Hrun).
  pose proof (assignment_pairs_state _ _ _ _ _ _ _ H1) as ->.
  apply (for_each_consumes _ _ (fun _ => assignment_pair_one_line)) in H1.
  destruct H1 as (taken & Happ & Hlen). rewrite py_range_length in Hlen.
  apply app_same_length in Happ; [|lia]. destruct Happ as [_ <-].
  apply bind_inv in Hrun. destruct Hrun as (l2 & s1 & ls1 & H1 & Hrun).
  apply get_line_inv in H1. destruct H1 as (-> & -> & ->).
  cbn [hd_error option_map tl] in Hrun.
  apply bind_inv in Hrun. destruct Hrun as (n2 & s1 & ls1 & H1 & Hrun).
  apply lift_inv in H1. destruct H1 as (H1 & -> & ->).
  cbn [int_of_line] in H1. rewrite Hneff in H1. inversion H1. subst n2.
  clear H1.
  apply bind_inv in Hrun. destruct Hrun as ([pre eff] & s1 & ls1 & H1 & Hrun).
  pose proof H1 as Hloop.
  apply effect_records_store in H1; [|now rewrite py_range_length].
  destruct H1 as (-> & _).
  assert (Hops : _operators s1 = _operators s).
  { assert (Hk : respects (same_on _operators)
                   (for_each (py_range (Z.of_nat (List.length effs)))
                             (fun _ : Z => effect_record) (pre0, []))).
    { apply respects_for_each; [typeclasses eauto|].
      intros x a. unfold effect_record. frame_tac. }
    symmetry. exact (Hk _ _ _ _ _ Hloop). }
  apply bind_inv in Hrun. destruct Hrun as (z & s2 & ls2 & H1 & Hrun).
  pose proof H1 as Hcost. rewrite parse_cost_eq in H1.
  destruct (py_float (remove_newlines cost)) as [x|]; [|discriminate].
  destruct (cost_of_float x) as [z'|]; [|discriminate].
  inversion H1. subst z' s2 ls2. clear H1.
  pinv.
  exists pre0, pre, eff, s1, z.
  split; [exact Hloop|]. split; [exact Hcost|].
  cbn. now rewrite Hops.
Qed.

(** The operator of a block that a parsed document holds: it is filed at
    the position of the block among the operator blocks. *)
Lemma dispatched_operator sas_content s name npre pres neff effs cost tail r :
  dispatches sas_content "begin_operator" s
             (name :: npre :: pres ++ neff :: effs ++ cost :: tail) ->
  counts npre pres ->
  counts neff effs ->
  _parse sas_content = Some (Ok r) ->
  exists pre0 pre eff s1 z,
    for_each (py_range (Z.of_nat (List.length effs)))
             (fun _ => effect_record) (pre0, []) s (effs ++ cost :: tail)
    = Ok ((pre, eff), s1, cost :: tail) /\
    parse_cost s1 (cost :: tail) = Ok (z, s1, tail) /\
    nth_error (_operators r) (List.length (_operators s))
    = Some (mkOperator (Some (remove_newlines name)) pre eff z).
Proof.
  intros Hd Hnpre Hneff Hp.
  destruct (dispatches_returns _ _ _ _ _ Hd Hp) as (s' & ls' & Hb).
  pose proof Hb as Hb'.
  change (parse_block "begin_operator") with parse_operator in Hb.
  destruct (parse_operator_layout _ _ _ _ _ _ _ _ _ _ _ Hnpre Hneff Hb)
    as (pre0 & pre & eff & s1 & z & Hloop & Hcost & Hops).
  exists pre0, pre, eff, s1, z. split; [exact Hloop|]. split; [exact Hcost|].
  apply (dispatches_ok
           (fun s'' =>
              nth_error (_operators s'') (List.length (_operators s))
              = Some (mkOperator (Some (remove_newlines name)) pre eff z))
           _ _ _ _ _ Hd Hp).
  - intros l s0 ls0 s2 ls2 HI Hb0.
    destruct (parse_block_operators _ _ _ _ _ Hb0) as [->|(op & _ & ->)];
      [exact HI|].
    rewrite nth_error_app1; [exact HI|].
    apply nth_error_Some. congruence.
  - intros s2 ls2 Hb2.
    rewrite Hb' in Hb2. inversion Hb2. subst s2 ls2.
    rewrite Hops, nth_error_app2, Nat.sub_diag by lia. reflexivity.
Qed.

Example operator_block_of_doc_negative_cost :
  dispatches doc_negative_cost "begin_operator" sas_before_operator
             ("flip" :: "0" :: [] ++ "1" :: ["0 0 0 1"]
                     ++ "-1" :: ["end_operator"]).
Proof.
  exists "begin_operator". split; [|reflexivity].
  do 3 (eapply reaches_step; [vm_compute; reflexivity|]).
  apply reaches_here.
Qed.

Example operator_block_of_doc_fractional_cost :
  dispatches doc_fractional_cost "begin_operator" sas_before_operator
             ("flip" :: "0" :: [] ++ "1" :: ["0 0 0 1"]
                     ++ "0.5" :: ["end_operator"]).
Proof.
  exists "begin_operator". split; [|reflexivity].
  do 3 (eapply reaches_step; [vm_compute; reflexivity|]).
  apply reaches_here.
Qed.

Example operator_block_of_doc_two_vars :
  dispatches doc_two_vars "begin_operator" sas_two_vars_before_operator
             ("set-b" :: "1" :: ["0 0"] ++ "1" :: ["0 1 -1 1"]
                      ++ "1" :: ["end_operator"; "0"]).
Proof.
  exists "begin_operator". split; [|reflexivity].
  do 13 (eapply reaches_step; [vm_compute; reflexivity|]).
  apply reaches_here.
Qed.

(** C4, amended. The cost line of an operator is accepted exactly when the
    float it denotes has an integer value, of either sign, and that integer
    is the cost; a finite float with a fractional part fails the assertion
    [action costs must be int].  In a parsed document the operator filed
    for an operator block has the name of the block and, as its cost, the
    integer value of the float on the cost line of the block; a document
    with an operator block whose cost line does not denote an integer is
    not parsed: the parser, and with it the translation, raises. *)
Theorem cost_accepted_iff_integral :
  (forall s l rest z s' rest',
      parse_cost s (l :: rest) = Ok (z, s', rest') <->
      (exists x, py_float (remove_newlines l) = Ok x /\ float_value_is x z)
      /\ s' = s /\ rest' = rest) /\
  (forall s l rest sg m e,
      py_float (remove_newlines l) = Ok (S754_finite sg m e) ->
      (forall z, ~ float_value_is (S754_finite sg m e) z) ->
      parse_cost s (l :: rest)
      = Raise (AssertionError "action costs must be int")) /\
  (forall sas_content s name npre pres neff effs cost tail r,
      dispatches sas_content "begin_operator" s
                 (name :: npre :: pres ++ neff :: effs ++ cost :: tail) ->
      counts npre pres ->
      counts neff effs ->
      _parse sas_content = Some (Ok r) ->
      exists x op,
        py_float (remove_newlines cost) = Ok x /\
        float_value_is x (op_cost op) /\
        nth_error (_operators r) (List.length (_operators s)) = Some op /\
        op_name op = Some (remove_newlines name)) /\
  (forall sas_content s name npre pres neff effs cost tail,
      dispatches sas_content "begin_operator" s
                 (name :: npre :: pres ++ neff :: effs ++ cost :: tail) ->
      counts npre pres ->
      counts neff effs ->
      (forall x z,
          py_float (remove_newlines cost) = Ok x -> ~ float_value_is x z) ->
      exists e,
        _parse sas_content = Some (Raise e) /\
        translate sas_content = Some (Raise e)).
Proof.
  split; [|split; [|split]].
  - intros s l rest z s' rest'. rewrite parse_cost_eq. split.
    + destruct (py_float (remove_newlines l)) as [x|e]; [|discriminate].
      destruct (cost_of_float x) as [z'|e] eqn:Ec; [|discriminate].
      intros Heq. inversion Heq. subst. repeat split; auto.
      exists x. split; auto. now apply cost_of_float_integral.
    + intros [(x & Hx & Hv) [-> ->]]. rewrite Hx.
      apply cost_of_float_integral in Hv. now rewrite Hv.
  - intros s l rest sg m e Hx Hfrac. rewrite parse_cost_eq, Hx.
    now rewrite cost_of_float_fractional.
  - intros sas_content s name npre pres neff effs cost tail r
           Hd Hnpre Hneff Hp.
    destruct (dispatched_operator _ _ _ _ _ _ _ _ _ _ Hd Hnpre Hneff Hp)
      as (pre0 & pre & eff & s1 & z & _ & Hcost & Hnth).
    rewrite parse_cost_eq in Hcost.
    destruct (py_float (remove_newlines cost)) as [x|]; [|discriminate].
    destruct (cost_of_float x) as [z'|] eqn:Ec; [|discriminate].
    inversion Hcost. subst z'.
    exists x, (mkOperator (Some (remove_newlines name)) pre eff z).
    split; [reflexivity|]. split; [|split; [exact Hnth|reflexivity]].
    now apply cost_of_float_integral.
  - intros sas_content s name npre pres neff effs cost tail
           Hd Hnpre Hneff Hfrac.
    assert (Hraise : exists e, _parse sas_content = Some (Raise e)).
    { destruct (parse_block "begin_operator" s
                  (name :: npre :: pres ++ neff :: effs ++ cost :: tail))
        as [[[u s'] ls']|e] eqn:Hb.
      - exfalso.
        change (parse_block "begin_operator") with parse_operator in Hb.
        destruct (parse_operator_layout _ _ _ _ _ _ _ _ _ _ _ Hnpre Hneff Hb)
          as (pre0 & pre & eff & s1 & z & _ & Hcost & _).
        rewrite parse_cost_eq in Hcost.
        destruct (py_float (remove_newlines cost)) as [x|] eqn:Hx;
          [|discriminate].
        destruct (cost_of_float x) as [z'|] eqn:Ec; [|discriminate].
        apply cost_of_float_integral in Ec.
        exact (Hfrac x z' eq_refl Ec).
      - exists e. exact (dispatches_raise _ _ _ _ _ Hd Hb). }
    destruct Hraise as [e He]. exists e. split; [exact He|].
    unfold translate. now rewrite He.
Qed.

Lemma cost_accepted_iff_integral_witness :
  parse_cost new_sas ["-1"; "end_operator"]
  = Ok (-1, new_sas, ["end_operator"]) /\
  parse_cost new_sas ["0.5"; "end_operator"]
  = Raise (AssertionError "action costs must be int") /\
  (exists x op,
      py_float (remove_newlines "-1") = Ok x /\
      float_value_is x (op_cost op) /\
      nth_error (_operators sas_negative_cost)
                (List.length (_operators sas_before_operator)) = Some op /\
      op_name op = Some (remove_newlines "flip")) /\
  (exists e,
      _parse doc_fractional_cost = Some (Raise e) /\
      translate doc_fractional_cost = Some (Raise e)).
Proof.
  split; [|split; [|split]].
  - apply (proj1 cost_accepted_iff_integral). repeat split.
    exists (S754_finite true 4503599627370496 (-52)). split.
    + vm_compute. reflexivity.
    + vm_compute. reflexivity.
  - apply (proj1 (proj2 cost_accepted_iff_integral))
      with (sg := false) (m := 4503599627370496%positive) (e := -53).
    + vm_compute. reflexivity.
    + intros z Hz. simpl in Hz. lia.
  - apply (proj1 (proj2 (proj2 cost_accepted_iff_integral))
             doc_negative_cost sas_before_operator
             "flip" "0" [] "1" ["0 0 0 1"] "-1" ["end_operator"]
             sas_negative_cost operator_block_of_doc_negative_cost).
    + reflexivity.
    + reflexivity.
    + vm_compute. reflexivity.
  - apply (proj2 (proj2 (proj2 cost_accepted_iff_integral))
             doc_fractional_cost sas_before_operator
             "flip" "0" [] "1" ["0 0 0 1"] "0.5" ["end_operator"]
             operator_block_of_doc_fractional_cost).
    + reflexivity.
    + reflexivity.
    + intros x z Hx Hz. vm_compute in Hx. inversion Hx. subst x.
      simpl in Hz. lia.
Defined.

(** C5, amended. The parser stores the pre-value [-1] of an unguarded
    effect record in the precondition map of the operator, like any other
    pre-value: in a parsed document the operator filed for an operator
    block holds, for every record of the block with guard count 0, the
    pre-value of the record under its variable among the preconditions
    and the post-value among the effects.  The encoder skips the entries
    whose value is [-1]: the preconditions of each registered transition
    are the conditions of the other entries of its operator, one for
    each, also in the model that the translation returns. *)
Theorem dont_care_dropped_by_encoder :
  (forall pre eff s l rest var post,
      int_tok 0 (py_split (remove_newlines l)) = Ok 0 ->
      int_tok 1 (py_split (remove_newlines l)) = Ok var ->
      int_tok 2 (py_split (remove_newlines l)) = Ok (-1) ->
      int_tok 3 (py_split (remove_newlines l)) = Ok post ->
      dict_mem var pre = false ->
      dict_mem var eff = false ->
      effect_record (pre, eff) s (l :: rest)
      = Ok ((dict_set var (-1) pre, dict_set var post eff), s, rest)) /\
  (forall self e e',
      _handle_operators self e = (e', Ok tt) ->
      exists ts,
        transitions (_model e') = transitions (_model e) ++ ts /\
        Forall2 (fun op t =>
                   t_name t = op_name op /\
                   conditions_of self (_didp_variables e)
                                 (op_preconditions op) (t_preconditions t))
                (_operators self) ts) /\
  (forall sas_content s name npre pres neff effs cost tail r l var p post,
      dispatches sas_content "begin_operator" s
                 (name :: npre :: pres ++ neff :: effs ++ cost :: tail) ->
      counts npre pres ->
      counts neff effs ->
      _parse sas_content = Some (Ok r) ->
      In l effs ->
      effect_tokens l 0 var p post ->
      exists op,
        nth_error (_operators r) (List.length (_operators s)) = Some op /\
        op_name op = Some (remove_newlines name) /\
        In (var, p) (op_preconditions op) /\
        In (var, post) (op_effects op)) /\
  (forall sas_content s m,
      _parse sas_content = Some (Ok s) ->
      translate sas_content = Some (Ok m) ->
      Forall2 (fun op t =>
                 t_name t = op_name op /\
                 t_preconditions t
                 = map encode_condition
                       (filter (fun vv => negb (snd vv =? -1))
                               (op_preconditions op)))
              (_operators s) (transitions m)).
Proof.
  split; [|split; [|split]].
  - intros pre eff s l rest var post. apply effect_record_stores.
  - intros self e e' Hrun. unfold _handle_operators in Hrun.
    apply handle_operators_loop in Hrun. apply Hrun.
  - intros sas_content s name npre pres neff effs cost tail r l var p post
           Hd Hnpre Hneff Hp Hin Htok.
    destruct (dispatched_operator _ _ _ _ _ _ _ _ _ _ Hd Hnpre Hneff Hp)
      as (pre0 & pre & eff & s1 & z & Hloop & _ & Hnth).
    apply effect_records_store in Hloop; [|now rewrite py_range_length].
    destruct Hloop as (_ & _ & _ & Hall).
    destruct (Hall l var p post Hin Htok) as [Hpre Heff].
    eexists. split; [exact Hnth|]. split; [reflexivity|]. split; assumption.
  - intros sas_content s m Hp Ht.
    destruct (translate_returns _ _ Ht)
      as (s' & Hp' & _ & _ & _ & _ & _ & ->).
    assert (s' = s) by congruence. subst s'.
    cbn [model_of transitions].
    induction (_operators s) as [|op ops IH]; cbn [map]; constructor; auto.
Qed.

Lemma dont_care_dropped_by_encoder_witness :
  effect_record ([(0, 0)], []) new_sas ["0 1 -1 1"]
  = Ok (([(0, 0); (1, -1)], [(1, 1)]), new_sas, []) /\
  (exists ts,
      transitions (_model (fst (_handle_operators sas_two_vars
                                  (fst (_handle_variables sas_two_vars
                                                          new_enc)))))
      = [] ++ ts /\
      Forall2 (fun op t =>
                 t_name t = op_name op /\
                 conditions_of sas_two_vars [(0, IntVarH 0); (1, IntVarH 1)]
                               (op_preconditions op) (t_preconditions t))
              (_operators sas_two_vars) ts) /\
  (exists op,
      nth_error (_operators sas_two_vars)
                (List.length (_operators sas_two_vars_before_operator))
      = Some op /\
      op_name op = Some (remove_newlines "set-b") /\
      In (1, -1) (op_preconditions op) /\
      In (1, 1) (op_effects op)) /\
  Forall2 (fun op t =>
             t_name t = op_name op /\
             t_preconditions t
             = map encode_condition
                   (filter (fun vv => negb (snd vv =? -1))
                           (op_preconditions op)))
          (_operators sas_two_vars)
          [ mkTransition (Some "set-b") (PlusStateCost 1)
                         [CEq (EVar 0) (EConst 0)] [(1%nat, 1)] ].
Proof.
  split; [|split; [|split]].
  - apply (proj1 dont_care_dropped_by_encoder [(0, 0)] [] new_sas
                 "0 1 -1 1" [] 1 1); vm_compute; reflexivity.
  - apply (proj1 (proj2 dont_care_dropped_by_encoder) sas_two_vars
                 (fst (_handle_variables sas_two_vars new_enc))).
    vm_compute. reflexivity.
  - apply (proj1 (proj2 (proj2 dont_care_dropped_by_encoder))
             doc_two_vars sas_two_vars_before_operator
             "set-b" "1" ["0 0"] "1" ["0 1 -1 1"] "1" ["end_operator"; "0"]
             sas_two_vars "0 1 -1 1" 1 (-1) 1
             operator_block_of_doc_two_vars).
    + reflexivity.
    + reflexivity.
    + vm_compute. reflexivity.
    + now left.
    + repeat split; vm_compute; reflexivity.
  - apply (proj2 (proj2 (proj2 dont_care_dropped_by_encoder))
             doc_two_vars sas_two_vars (model_of sas_two_vars)).
    + vm_compute. reflexivity.
    + vm_compute. reflexivity.
Defined.

(** ** Rule blocks *)

Lemma rule_precondition_one_line d s ls d' s' ls' :
  rule_precondition d s ls = Ok (d', s', ls') -> exists l, ls = l :: ls'.
Proof.
  unfold rule_precondition. intros Hrun. pinv.
  match goal with
  | Hs : split_line _ = Ok _ |- _ =>
      apply split_line_some in Hs; destruct Hs as [? Hx];
      apply hd_tl_some in Hx
  end.
  pinv. assumption.
Qed.

(** The steps of a rule block whose count announces the lines [pres]: the
    line after them holds three tokens, the head is its first token, the
    value that the rule sets is its third token and is 0, and the rule is
    queued after the checks on its head. *)
Lemma parse_rule_layout s npre pres head tail u s' ls' :
  counts npre pres ->
  parse_rule s (npre :: pres ++ head :: tail) = Ok (u, s', ls') ->
  exists pre var,
    List.length (py_split (remove_newlines head)) = 3%nat /\
    int_tok 0 (py_split (remove_newlines head)) = Ok var /\
    int_tok 2 (py_split (remove_newlines head)) = Ok 0 /\
    head_ok (_variables s) (mkRule pre var 0) /\
    _rules s' = _rules s ++ [mkRule pre var 0].
Proof.
  intros Hn Hrun. unfold counts in Hn. unfold parse_rule in Hrun.
  apply bind_inv in Hrun. destruct Hrun as (u0 & s1 & ls1 & H1 & Hrun).
  apply modify_inv in H1. destruct H1 as (-> & ->).
  apply bind_inv in Hrun. destruct Hrun as (l1 & s1 & ls1 & H1 & Hrun).
  apply get_line_inv in H1. destruct H1 as (-> & -> & ->).
  cbn [hd_error option_map tl] in Hrun.
  apply bind_inv in Hrun. destruct Hrun as (n1 & s1 & ls1 & H1 & Hrun).
  apply lift_inv in H1. destruct H1 as (H1 & -> & ->).
  cbn [int_of_line] in H1. rewrite Hn in H1. inversion H1. subst n1.
  clear H1.
  apply bind_inv in Hrun. destruct Hrun as (pre & s1 & ls1 & H1 & Hrun).
  pose proof (rule_preconditions_state _ _ _ _ _ _ _ H1) as ->.
  apply (for_each_consumes _ _ (fun _ => rule_precondition_one_line)) in H1.
  destruct H1 as (taken & Happ & Hlen). rewrite py_range_length in Hlen.
  apply app_same_length in Happ; [|lia]. destruct Happ as [_ <-].
  apply bind_inv in Hrun. destruct Hrun as (l2 & s1 & ls1 & H1 & Hrun).
  apply get_line_inv in H1. destruct H1 as (-> & -> & ->).
  cbn [hd_error option_map tl] in Hrun.
  apply bind_inv in Hrun. destruct Hrun as (toks & s1 & ls1 & H1 & Hrun).
  apply lift_inv in H1. destruct H1 as (H1 & -> & ->).
  cbn [split_line] in H1. inversion H1. subst toks. clear H1.
  apply bind_inv in Hrun. destruct Hrun as (u1 & s1 & ls1 & H1 & Hrun).
  apply assert_inv in H1. destruct H1 as (Hlen3 & -> & ->).
  apply Nat.eqb_eq in Hlen3.
  apply bind_inv in Hrun. destruct Hrun as (var & s1 & ls1 & H1 & Hrun).
  apply lift_inv in H1. destruct H1 as (Hvar & -> & ->).
  apply bind_inv in Hrun. destruct Hrun as (val & s1 & ls1 & H1 & Hrun).
  apply lift_inv in H1. destruct H1 as (Hval & -> & ->).
  apply bind_inv in Hrun. destruct Hrun as (self & s1 & ls1 & H1 & Hrun).
  apply get_self_inv in H1. destruct H1 as (-> & -> & ->).
  apply bind_inv in Hrun. destruct Hrun as (u2 & s1 & ls1 & H1 & Hrun).
  apply check_head_inv in H1. destruct H1 as (Hok & -> & ->).
  destruct Hok as [Hdom Hzero]. cbn in Hdom, Hzero. subst val.
  pinv.
  exists pre, var. split; [exact Hlen3|]. split; [exact Hvar|].
  split; [exact Hval|]. split; [split; [exact Hdom|reflexivity]|].
  reflexivity.
Qed.

(** A rule block whose third head token is not 0 raises. *)
Lemma parse_rule_false_head s npre pres head tail val :
  counts npre pres ->
  int_tok 2 (py_split (remove_newlines head)) = Ok val ->
  val <> 0 ->
  exists e, parse_rule s (npre :: pres ++ head :: tail) = Raise e.
Proof.
  intros Hn Hval Hne.
  destruct (parse_rule s (npre :: pres ++ head :: tail))
    as [[[u s'] ls']|e] eqn:Hrun; [|eauto].
  exfalso.
  destruct (parse_rule_layout _ _ _ _ _ _ _ _ Hn Hrun)
    as (pre & var & _ & _ & Hzero & _).
  congruence.
Qed.

Lemma rule_preconditions_run (xs : list Z) :
  forall pres rest d s,
    List.length xs = List.length pres ->
    Forall pair_line pres ->
    exists d',
      for_each xs (fun _ => rule_precondition) d s (pres ++ rest)
      = Ok (d', s, rest).
Proof.
  induction xs as [|x xs IH]; intros pres rest d s Hlen Hall;
    destruct pres as [|l pres]; try discriminate.
  - exists d. reflexivity.
  - inversion Hall as [|? ? (a & b & va & vb & Hs & Ha & Hb) Hrest]; subst.
    cbn [for_each app]. unfold bind at 1.
    rewrite (rule_precondition_overwrites _ _ _ _ _ _ _ _ Hs Ha Hb).
    apply IH; [cbn in Hlen; lia|exact Hrest].
Qed.

(** With well-formed precondition pairs and a head whose domain is
    boolean, the exception is the assertion error of [assert val == 0]. *)
Lemma parse_rule_false_head_assert s npre pres head tail t0 t1 t2 var val v :
  counts npre pres ->
  Forall pair_line pres ->
  py_split (remove_newlines head) = [t0; t1; t2] ->
  py_int t0 = Ok var ->
  py_int t2 = Ok val ->
  dict_get var (_variables s) = Some v ->
  boolean_domain v ->
  val <> 0 ->
  parse_rule s (npre :: pres ++ head :: tail)
  = Raise (AssertionError no_msg).
Proof.
  intros Hn Hall Htoks Hvar Hval Hg Hdom Hne. unfold counts in Hn.
  unfold parse_rule.
  unfold bind at 1. unfold modify at 1. cbv iota beta.
  unfold bind at 1. simpl get_line. cbv iota beta.
  unfold bind at 1. simpl int_of_line. rewrite Hn. simpl lift.
  unfold ret at 1. cbv iota beta.
  destruct (rule_preconditions_run
              (py_range (Z.of_nat (List.length pres))) pres (head :: tail)
              [] (with_detected_axioms true s)
              (py_range_length _) Hall) as [d Hloop].
  unfold bind at 1. rewrite Hloop.
  unfold bind at 1. simpl get_line. cbv iota beta.
  unfold bind at 1. simpl split_line. rewrite Htoks. simpl lift.
  unfold ret at 1. cbv iota beta.
  unfold bind at 1. simpl assert_. unfold ret at 1. cbv iota beta.
  unfold bind at 1. cbn [int_tok nth_error]. rewrite Hvar. simpl lift.
  unfold ret at 1. cbv iota beta.
  unfold bind at 1. rewrite Hval. simpl lift. unfold ret at 1.
  cbv iota beta.
  unfold bind at 1. unfold get_self at 1. cbv iota beta.
  unfold bind at 1.
  rewrite (check_head_false_head (with_detected_axioms true s) var val
                                 _ _ v Hg Hdom Hne).
  reflexivity.
Qed.

Lemma parse_block_rules l s ls s' ls' :
  parse_block l s ls = Ok (tt, s', ls') ->
  _rules s' = _rules s \/ exists r, _rules s' = _rules s ++ [r].
Proof.
  assert (Hc : forall a b, core a = core b -> _rules b = _rules a).
  { unfold core. intros a b E. congruence. }
  unfold parse_block.
  destruct (l =? "begin_variable")%string.
  { intros Hrun. apply parse_variable_inv in Hrun.
    destruct Hrun as (values & layer & ->). now left. }
  destruct (l =? "begin_rule")%string.
  { intros Hrun. apply parse_rule_inv in Hrun.
    destruct Hrun as (r & _ & ->). right. now exists r. }
  destruct (l =? "begin_operator")%string.
  { intros Hrun. left. apply Hc. exact (parse_operator_core _ _ _ _ _ Hrun). }
  destruct (l =? "begin_goal")%string.
  { intros Hrun. left. apply Hc. exact (parse_goal_core _ _ _ _ _ Hrun). }
  destruct (l =? "begin_state")%string.
  { intros Hrun. left. apply Hc. exact (parse_state_core _ _ _ _ _ Hrun). }
  intros Hrun. inversion Hrun. now left.
Qed.

Example rule_block_of_doc_axiom :
  dispatches doc_axiom "begin_rule" sas_axiom_before_rule
             ("1" :: ["0 1"] ++ "1 1 0" :: ["end_rule"]).
Proof.
  exists "begin_rule". split; [|reflexivity].
  do 6 (eapply reaches_step; [vm_compute; reflexivity|]).
  apply reaches_here.
Qed.

Example false_rule_block_of_doc_false_rule :
  dispatches doc_false_rule "begin_rule" sas_axiom_before_rule
             ("1" :: ["0 1"] ++ "1 0 1" :: ["end_rule"]).
Proof.
  exists "begin_rule". split; [|reflexivity].
  do 4 (eapply reaches_step; [vm_compute; reflexivity|]).
  apply reaches_here.
Qed.

(** C7. A rule block is validated while it is parsed: every rule of a
    parsed document has a declared head whose domain has exactly two
    values, [Atom ...] at index 0 and [NegatedAtom ...] at index 1, and
    sets its head to 0; a rule block is queued only after these checks; and
    a rule that sets its head to another value raises at once, with an
    assertion error when the head has such a domain.  In a parsed document
    the rule queued for a rule block has the first token of the head line
    as its head, declared with such a domain before the block, and the
    third token of the head line is 0.  A document with a rule block
    whose head line has another third token is not parsed: the parser,
    and with it the translation, raises, with an assertion error when the
    precondition pairs of the block are well formed and the head is
    declared with such a domain. *)
Theorem rule_heads_validated_at_parse_time :
  (forall sas_content s,
      _parse sas_content = Some (Ok s) ->
      Forall (head_ok (_variables s)) (_rules s)) /\
  (forall s ls u s' ls',
      parse_rule s ls = Ok (u, s', ls') ->
      exists r, head_ok (_variables s) r /\ _rules s' = _rules s ++ [r]) /\
  (forall self var val s ls,
      val <> 0 ->
      (exists e, check_head self var val s ls = Raise e) /\
      (forall v,
          dict_get var (_variables self) = Some v ->
          boolean_domain v ->
          check_head self var val s ls = Raise (AssertionError no_msg))) /\
  (forall sas_content s npre pres head tail r,
      dispatches sas_content "begin_rule" s (npre :: pres ++ head :: tail) ->
      counts npre pres ->
      _parse sas_content = Some (Ok r) ->
      exists rule,
        nth_error (_rules r) (List.length (_rules s)) = Some rule /\
        int_tok 0 (py_split (remove_newlines head)) = Ok (rule_var rule) /\
        int_tok 2 (py_split (remove_newlines head)) = Ok 0 /\
        rule_val rule = 0 /\
        head_ok (_variables s) rule) /\
  (forall sas_content s npre pres head tail val,
      dispatches sas_content "begin_rule" s (npre :: pres ++ head :: tail) ->
      counts npre pres ->
      int_tok 2 (py_split (remove_newlines head)) = Ok val ->
      val <> 0 ->
      exists e,
        _parse sas_content = Some (Raise e) /\
        translate sas_content = Some (Raise e)) /\
  (forall sas_content s npre pres head tail t0 t1 t2 var val v,
      dispatches sas_content "begin_rule" s (npre :: pres ++ head :: tail) ->
      counts npre pres ->
      Forall pair_line pres ->
      py_split (remove_newlines head) = [t0; t1; t2] ->
      py_int t0 = Ok var ->
      py_int t2 = Ok val ->
      dict_get var (_variables s) = Some v ->
      boolean_domain v ->
      val <> 0 ->
      _parse sas_content = Some (Raise (AssertionError no_msg)) /\
      translate sas_content = Some (Raise (AssertionError no_msg))).
Proof.
  split; [|split; [|split; [|split; [|split]]]].
  - intros sas_content s Hp. apply parse_lines_ir_wf in Hp. apply Hp.
  - intros s ls u s' ls' Hrun. apply parse_rule_inv in Hrun.
    destruct Hrun as (r & Hok & ->). exists r. split; auto.
  - intros self var val s ls Hval. split.
    + now apply check_head_rejects_false.
    + intros v Hg Hd. eapply check_head_false_head; eauto.
  - intros sas_content s npre pres head tail r Hd Hn Hp.
    destruct (dispatches_returns _ _ _ _ _ Hd Hp) as (s' & ls' & Hb).
    pose proof Hb as Hb'.
    change (parse_block "begin_rule") with parse_rule in Hb.
    destruct (parse_rule_layout _ _ _ _ _ _ _ _ Hn Hb)
      as (pre & var & _ & Hvar & Hzero & Hok & Hrules).
    exists (mkRule pre var 0).
    split; [|split; [exact Hvar|split; [exact Hzero|split;
                                          [reflexivity|exact Hok]]]].
    apply (dispatches_ok
             (fun s'' =>
                nth_error (_rules s'') (List.length (_rules s))
                = Some (mkRule pre var 0))
             _ _ _ _ _ Hd Hp).
    + intros l s0 ls0 s2 ls2 HI Hb0.
      destruct (parse_block_rules _ _ _ _ _ Hb0) as [->|(r0 & ->)];
        [exact HI|].
      rewrite nth_error_app1; [exact HI|].
      apply nth_error_Some. congruence.
    + intros s2 ls2 Hb2. rewrite Hb' in Hb2. inversion Hb2. subst s2 ls2.
      rewrite Hrules, nth_error_app2, Nat.sub_diag by lia. reflexivity.
  - intros sas_content s npre pres head tail val Hd Hn Hval Hne.
    destruct (parse_rule_false_head s npre pres head tail val Hn Hval Hne)
      as [e He].
    exists e.
    assert (Hp : _parse sas_content = Some (Raise e))
      by exact (dispatches_raise _ _ _ _ _ Hd He).
    split; [exact Hp|]. unfold translate. now rewrite Hp.
  - intros sas_content s npre pres head tail t0 t1 t2 var val v
           Hd Hn Hall Htoks Hvar Hval Hg Hdom Hne.
    assert (Hp : _parse sas_content = Some (Raise (AssertionError no_msg))).
    { apply (dispatches_raise _ _ _ _ _ Hd).
      exact (parse_rule_false_head_assert _ _ _ _ _ _ _ _ _ _ _
               Hn Hall Htoks Hvar Hval Hg Hdom Hne). }
    split; [exact Hp|]. unfold translate. now rewrite Hp.
Qed.

Lemma rule_heads_validated_at_parse_time_witness :
  Forall (head_ok (_variables sas_axiom)) (_rules sas_axiom) /\
  (exists r,
      head_ok (_variables sas_axiom_before_rule) r /\
      _rules sas_axiom = _rules sas_axiom_before_rule ++ [r]) /\
  (exists e, check_head sas_axiom 1 1 sas_axiom [] = Raise e) /\
  check_head sas_axiom 1 1 sas_axiom [] = Raise (AssertionError no_msg) /\
  (exists rule,
      nth_error (_rules sas_axiom)
                (List.length (_rules sas_axiom_before_rule)) = Some rule /\
      int_tok 0 (py_split (remove_newlines "1 1 0")) = Ok (rule_var rule) /\
      int_tok 2 (py_split (remove_newlines "1 1 0")) = Ok 0 /\
      rule_val rule = 0 /\
      head_ok (_variables sas_axiom_before_rule) rule) /\
  (exists e,
      _parse doc_false_rule = Some (Raise e) /\
      translate doc_false_rule = Some (Raise e)) /\
  _parse doc_false_rule = Some (Raise (AssertionError no_msg)) /\
  translate doc_false_rule = Some (Raise (AssertionError no_msg)).
Proof.
  split; [|split; [|split; [|split; [|split; [|split]]]]].
  - apply (proj1 rule_heads_validated_at_parse_time doc_axiom).
    vm_compute. reflexivity.
  - apply (proj1 (proj2 rule_heads_validated_at_parse_time)
                 sas_axiom_before_rule ["1"; "0 1"; "1 1 0"; "end_rule"]
                 tt sas_axiom []).
    vm_compute. reflexivity.
  - apply (proj1 (proj2 (proj2 rule_heads_validated_at_parse_time))
                 sas_axiom 1 1 sas_axiom []).
    lia.
  - apply (proj2 (proj1 (proj2 (proj2 rule_heads_validated_at_parse_time))
                    sas_axiom 1 1 sas_axiom [] ltac:(lia)))
      with (v := mkVariable (Some "var1")
                            [Some "Atom q()"; Some "NegatedAtom q()"] 0).
    + reflexivity.
    + exists "Atom q()", "NegatedAtom q()". repeat split.
  - apply (proj1 (proj2 (proj2 (proj2 rule_heads_validated_at_parse_time)))
             doc_axiom sas_axiom_before_rule "1" ["0 1"] "1 1 0"
             ["end_rule"] sas_axiom rule_block_of_doc_axiom).
    + reflexivity.
    + vm_compute. reflexivity.
  - apply (proj1 (proj2 (proj2 (proj2
                   (proj2 rule_heads_validated_at_parse_time))))
             doc_false_rule sas_axiom_before_rule "1" ["0 1"] "1 0 1"
             ["end_rule"] 1 false_rule_block_of_doc_false_rule).
    + reflexivity.
    + vm_compute. reflexivity.
    + lia.
  - apply (proj2 (proj2 (proj2 (proj2
                   (proj2 rule_heads_validated_at_parse_time))))
             doc_false_rule sas_axiom_before_rule "1" ["0 1"] "1 0 1"
             ["end_rule"] "1" "0" "1" 1 1
             (mkVariable (Some "var1")
                         [Some "Atom q()"; Some "NegatedAtom q()"] 0)
             false_rule_block_of_doc_false_rule).
    + reflexivity.
    + constructor; [|constructor].
      exists "0", "1", 0, 1. repeat split; vm_compute; reflexivity.
    + vm_compute. reflexivity.
    + vm_compute. reflexivity.
    + vm_compute. reflexivity.
    + reflexivity.
    + exists "Atom q()", "NegatedAtom q()". repeat split.
    + lia.
Defined.

(** ** Variable blocks *)

Lemma reaches_counting_reaches k c c' :
  reaches_counting k c c' -> parse_reaches c c'.
Proof.
  induction 1 as [c|s l ls s' ls' c k Hstep Hr IH].
  - apply reaches_here.
  - eapply reaches_step; eauto.
Qed.

Lemma counting_step_other s l ls s' ls' c k :
  (remove_newlines l =? "begin_variable")%string = false ->
  parse_step s (l :: ls) = Ok (Some (s', ls')) ->
  reaches_counting k (s', ls') c ->
  reaches_counting k (s, l :: ls) c.
Proof.
  intros Hl Hstep Hr. pose proof (counting_step _ _ _ _ _ _ _ Hstep Hr) as E.
  now rewrite Hl in E.
Qed.

Lemma counting_step_variable s l ls s' ls' c k :
  (remove_newlines l =? "begin_variable")%string = true ->
  parse_step s (l :: ls) = Ok (Some (s', ls')) ->
  reaches_counting k (s', ls') c ->
  reaches_counting (S k) (s, l :: ls) c.
Proof.
  intros Hl Hstep Hr. pose proof (counting_step _ _ _ _ _ _ _ Hstep Hr) as E.
  now rewrite Hl in E.
Qed.

(** A variable block declares one variable, no other block declares
    any. *)
Lemma parse_block_variables_length l s ls s' ls' :
  ir_wf s ->
  parse_block l s ls = Ok (tt, s', ls') ->
  List.length (_variables s')
  = (List.length (_variables s)
     + if (l =? "begin_variable")%string then 1 else 0)%nat.
Proof.
  intros [Hwf _].
  assert (Hc : forall a b, core a = core b ->
                           List.length (_variables b)
                           = (List.length (_variables a) + 0)%nat).
  { unfold core. intros a b E.
    assert (Hv : _variables b = _variables a) by congruence.
    rewrite Hv. lia. }
  unfold parse_block.
  destruct (l =? "begin_variable")%string.
  { intros Hrun.
    destruct (parse_variable_appends _ _ _ _ _ Hwf Hrun) as (v & _ & -> & _).
    rewrite length_app. reflexivity. }
  destruct (l =? "begin_rule")%string.
  { intros Hrun. apply parse_rule_inv in Hrun.
    destruct Hrun as (r & _ & ->). cbn. lia. }
  destruct (l =? "begin_operator")%string.
  { intros Hrun. apply Hc. exact (parse_operator_core _ _ _ _ _ Hrun). }
  destruct (l =? "begin_goal")%string.
  { intros Hrun. apply Hc. exact (parse_goal_core _ _ _ _ _ Hrun). }
  destruct (l =? "begin_state")%string.
  { intros Hrun. apply Hc. exact (parse_state_core _ _ _ _ _ Hrun). }
  intros Hrun. inversion Hrun. lia.
Qed.

Lemma parse_step_inv s l ls s' ls' :
  parse_step s (l :: ls) = Ok (Some (s', ls')) ->
  parse_block (remove_newlines l) s ls = Ok (tt, s', ls').
Proof.
  unfold parse_step, get_line.
  destruct (parse_block (remove_newlines l) s ls) as [[[[] s1] ls1]|e];
    intros Heq; inversion Heq; reflexivity.
Qed.

(** The number of declared variables is the number of variable blocks
    that were parsed. *)
Lemma reaches_counting_variables k c c' :
  reaches_counting k c c' ->
  ir_wf (fst c) ->
  ir_wf (fst c') /\
  List.length (_variables (fst c'))
  = (List.length (_variables (fst c)) + k)%nat.
Proof.
  induction 1 as [c|s l ls s' ls' c k Hstep Hr IH]; intros Hwf.
  - split; [exact Hwf|lia].
  - cbn [fst] in *. apply parse_step_inv in Hstep.
    pose proof (parse_block_ir_wf _ _ _ _ _ Hwf Hstep) as Hwf'.
    pose proof (parse_block_variables_length _ _ _ _ _ Hwf Hstep) as Hlen.
    destruct (IH Hwf') as [Hwfc Hlenc]. split; [exact Hwfc|].
    rewrite Hlenc, Hlen.
    destruct (remove_newlines l =? "begin_variable")%string; lia.
Qed.

Lemma ir_wf_new_sas : ir_wf new_sas.
Proof.
  split; [|constructor]. intros k i v Hn. destruct k; discriminate.
Qed.

Lemma variable_block_dispatches sas_content k s rest :
  variable_block sas_content k s rest ->
  dispatches sas_content "begin_variable" s rest /\
  ir_wf s /\
  List.length (_variables s) = k.
Proof.
  intros (l & Hr & Hl). split; [|exact
    (reaches_counting_variables _ _ _ Hr ir_wf_new_sas)].
  exists l. split; [|exact Hl]. exact (reaches_counting_reaches _ _ _ Hr).
Qed.

(** The name that a variable block declares is [var] followed by the
    number of variables declared before it. *)
Lemma parse_variable_name s name rest u s' ls' :
  parse_variable s (name :: rest) = Ok (u, s', ls') ->
  remove_newlines name
  = ("var" ++ str_of_nat (List.length (_variables s)))%string.
Proof.
  intros Hrun. unfold parse_variable in Hrun.
  apply bind_inv in Hrun. destruct Hrun as (nm & s1 & ls1 & H1 & Hrun).
  apply get_line_inv in H1. destruct H1 as (-> & -> & ->).
  cbn [hd_error option_map tl] in Hrun.
  pinv.
  match goal with
  | Hg : get_lines _ _ _ = Ok _ |- _ => apply get_lines_state in Hg; subst
  end.
  pinv.
  match goal with
  | Hn : line_eqb (Some _) (_ ++ _)%string = true |- _ =>
      apply line_eqb_true in Hn; injection Hn as Hn; exact Hn
  end.
Qed.

Example second_variable_block_of_doc_two_vars :
  variable_block doc_two_vars 1 sas_one_var
                 [ "var1"; "-1"; "2"; "Atom b()"; "NegatedAtom b()";
                   "end_variable"; "0";
                   "begin_state"; "0"; "0"; "end_state";
                   "begin_goal"; "1"; "1 1"; "end_goal";
                   "1";
                   "begin_operator"; "set-b"; "1"; "0 0"; "1"; "0 1 -1 1";
                   "1"; "end_operator"; "0" ].
Proof.
  exists "begin_variable". split; [|reflexivity].
  let ls := eval vm_compute in (splitlines doc_two_vars) in
  change (splitlines doc_two_vars) with ls.
  do 7 (eapply counting_step_other;
        [reflexivity|vm_compute; reflexivity|]).
  eapply counting_step_variable; [reflexivity|vm_compute; reflexivity|].
  apply counting_here.
Qed.

Example second_variable_block_of_doc_misnamed_variable :
  variable_block doc_misnamed_variable 1 sas_one_var
                 ("var5" :: "-1" :: "2" :: ["Atom b()"; "NegatedAtom b()"]
                         ++ "end_variable" :: []).
Proof.
  exists "begin_variable". split; [|reflexivity].
  let ls := eval vm_compute in (splitlines doc_misnamed_variable) in
  change (splitlines doc_misnamed_variable) with ls.
  eapply counting_step_variable; [reflexivity|vm_compute; reflexivity|].
  apply counting_here.
Qed.

(** C9. The id of a variable is the position of its block among the
    variable blocks, never a number read from the text: in every parsed
    document the [k]-th variable has id [k] and name [var<k>]; a variable
    block appends one variable under the number of variables declared
    before it; and a block whose declared name is not [var] followed by
    that number fails an assertion.  When the parser meets a variable
    block after [k] other variable blocks, [k] variables are declared; in
    a parsed document the name line of the block is [var<k>] and the
    variable of the block is the [k]-th variable, with id [k] and the
    name of the name line; a document in which the name line of the block
    is anything else is not parsed: the parser, and with it the
    translation, fails an assertion. *)
Theorem variable_ids_are_positions :
  (forall sas_content s,
      _parse sas_content = Some (Ok s) -> vars_wf (_variables s)) /\
  (forall s ls u s' ls',
      vars_wf (_variables s) ->
      parse_variable s ls = Ok (u, s', ls') ->
      exists v,
        var_name v
        = Some ("var" ++ str_of_nat (List.length (_variables s)))%string /\
        _variables s'
        = _variables s ++ [(Z.of_nat (List.length (_variables s)), v)]) /\
  (forall s name layer n vals rest lz,
      py_int (remove_newlines layer) = Ok lz ->
      py_int (remove_newlines n) = Ok (Z.of_nat (List.length vals)) ->
      remove_newlines name
      <> ("var" ++ str_of_nat (List.length (_variables s)))%string ->
      parse_variable s (name :: layer :: n :: vals ++ "end_variable" :: rest)
      = Raise (AssertionError no_msg)) /\
  (forall sas_content k s name rest,
      variable_block sas_content k s (name :: rest) ->
      List.length (_variables s) = k /\
      forall r,
        _parse sas_content = Some (Ok r) ->
        remove_newlines name = ("var" ++ str_of_nat k)%string /\
        exists v,
          nth_error (_variables r) k = Some (Z.of_nat k, v) /\
          var_name v = Some (remove_newlines name)) /\
  (forall sas_content k s name layer n vals rest lz,
      variable_block sas_content k s
                     (name :: layer :: n :: vals ++ "end_variable" :: rest) ->
      py_int (remove_newlines layer) = Ok lz ->
      py_int (remove_newlines n) = Ok (Z.of_nat (List.length vals)) ->
      remove_newlines name <> ("var" ++ str_of_nat k)%string ->
      _parse sas_content = Some (Raise (AssertionError no_msg)) /\
      translate sas_content = Some (Raise (AssertionError no_msg))).
Proof.
  split; [|split; [|split; [|split]]].
  - intros sas_content s Hp. apply parse_lines_ir_wf in Hp. apply Hp.
  - intros s ls u s' ls' Hwf Hrun.
    destruct (parse_variable_appends _ _ _ _ _ Hwf Hrun) as (v & Hn & Hv & _).
    eauto.
  - apply parse_variable_mismatch.
  - intros sas_content k s name rest Hvb.
    destruct (variable_block_dispatches _ _ _ _ Hvb) as (Hd & Hwf & Hk).
    split; [exact Hk|]. intros r Hp.
    destruct (dispatches_returns _ _ _ _ _ Hd Hp) as (s' & ls' & Hb).
    pose proof Hb as Hb'.
    change (parse_block "begin_variable") with parse_variable in Hb.
    pose proof (parse_variable_name _ _ _ _ _ _ Hb) as Hname.
    rewrite Hk in Hname. split; [exact Hname|].
    assert (Hlen : (k < List.length (_variables r))%nat).
    { apply (dispatches_ok
               (fun s'' => ir_wf s'' /\ (k < List.length (_variables s''))%nat)
               _ _ _ _ _ Hd Hp).
      - intros l s0 ls0 s2 ls2 [Hwf0 Hlt] Hb0. split.
        + exact (parse_block_ir_wf _ _ _ _ _ Hwf0 Hb0).
        + rewrite (parse_block_variables_length _ _ _ _ _ Hwf0 Hb0). lia.
      - intros s2 ls2 Hb2. split.
        + exact (parse_block_ir_wf _ _ _ _ _ Hwf Hb2).
        + rewrite (parse_block_variables_length _ _ _ _ _ Hwf Hb2).
          cbn. lia. }
    pose proof (proj1 (parse_lines_ir_wf _ _ Hp)) as Hwfr.
    destruct (nth_error (_variables r) k) as [[i v]|] eqn:Hn;
      [|apply nth_error_None in Hn; lia].
    destruct (Hwfr _ _ _ Hn) as [-> Hv].
    exists v. split; [reflexivity|]. now rewrite Hname.
  - intros sas_content k s name layer n vals rest lz Hvb Hlayer Hn Hname.
    destruct (variable_block_dispatches _ _ _ _ Hvb) as (Hd & Hwf & Hk).
    assert (Hp : _parse sas_content = Some (Raise (AssertionError no_msg))).
    { apply (dispatches_raise _ _ _ _ _ Hd).
      change (parse_block "begin_variable") with parse_variable.
      apply (parse_variable_mismatch _ _ _ _ _ _ lz); auto.
      now rewrite Hk. }
    split; [exact Hp|]. unfold translate. now rewrite Hp.
Qed.

Lemma variable_ids_are_positions_witness :
  vars_wf (_variables sas_two_vars) /\
  (exists v,
      var_name v
      = Some ("var" ++ str_of_nat (List.length (_variables sas_two_vars)))%string /\
      _variables sas_three_vars
      = _variables sas_two_vars
        ++ [(Z.of_nat (List.length (_variables sas_two_vars)), v)]) /\
  parse_variable sas_two_vars
    ("var5" :: "-1" :: "2" :: ["Atom c()"; "NegatedAtom c()"]
       ++ "end_variable" :: [])
  = Raise (AssertionError no_msg) /\
  (List.length (_variables sas_one_var) = 1%nat /\
   forall r,
     _parse doc_two_vars = Some (Ok r) ->
     remove_newlines "var1" = ("var" ++ str_of_nat 1)%string /\
     exists v,
       nth_error (_variables r) 1 = Some (Z.of_nat 1, v) /\
       var_name v = Some (remove_newlines "var1")) /\
  _parse doc_misnamed_variable = Some (Raise (AssertionError no_msg)) /\
  translate doc_misnamed_variable = Some (Raise (AssertionError no_msg)).
Proof.
  assert (Hwf : vars_wf (_variables sas_two_vars)).
  { apply (proj1 variable_ids_are_positions doc_two_vars).
    vm_compute. reflexivity. }
  split; [exact Hwf|]. split; [|split; [|split]].
  - apply (proj1 (proj2 variable_ids_are_positions) sas_two_vars
                 ["var2"; "-1"; "2"; "Atom c()"; "NegatedAtom c()";
                  "end_variable"]
                 tt sas_three_vars [] Hwf).
    vm_compute. reflexivity.
  - apply (proj1 (proj2 (proj2 variable_ids_are_positions)))
      with (lz := -1).
    + vm_compute. reflexivity.
    + vm_compute. reflexivity.
    + vm_compute. discriminate.
  - exact (proj1 (proj2 (proj2 (proj2 variable_ids_are_positions)))
             doc_two_vars 1%nat sas_one_var "var1" _
             second_variable_block_of_doc_two_vars).
  - apply (proj2 (proj2 (proj2 (proj2 variable_ids_are_positions)))
             doc_misnamed_variable 1%nat sas_one_var "var5" "-1" "2"
             ["Atom b()"; "NegatedAtom b()"] [] (-1)
             second_variable_block_of_doc_misnamed_variable).
    + vm_compute. reflexivity.
    + vm_compute. reflexivity.
    + vm_compute. discriminate.
Defined.

(** ** The dependency graph is the graph of the rules *)

Lemma set_add_in_inv k s x : In x (set_add k s) -> x = k \/ In x s.
Proof.
  unfold set_add. destruct (set_mem k s); auto.
  intros Hin. apply in_app_iff in Hin. destruct Hin as [Hin|[<-|[]]]; auto.
Qed.

Lemma set_update_in_inv ks :
  forall s x, In x (set_update s ks) -> In x s \/ In x ks.
Proof.
  unfold set_update.
  induction ks as [|k ks IH]; intros s x Hin; cbn [fold_left] in Hin; auto.
  apply IH in Hin. destruct Hin as [Hin|Hin]; [|right; now right].
  apply set_add_in_inv in Hin. destruct Hin as [->|Hin]; auto.
  right. now left.
Qed.

Lemma In_body_vars rules h i :
  In i (body_vars rules h)
  <-> exists r,
      In r rules /\ rule_var r = h /\
      In i (dict_keys (rule_preconditions r)).
Proof.
  unfold body_vars. rewrite in_concat. split.
  - intros (l & Hl & Hi). apply in_map_iff in Hl.
    destruct Hl as (r & <- & Hr). apply filter_In in Hr.
    destruct Hr as [Hr Hh]. apply Z.eqb_eq in Hh. eauto.
  - intros (r & Hr & Hh & Hi).
    exists (dict_keys (rule_preconditions r)). split; [|exact Hi].
    apply (in_map (fun r => dict_keys (rule_preconditions r))).
    apply filter_In. split; [exact Hr|].
    now apply Z.eqb_eq.
Qed.

Lemma register_rule_graph_exact r s :
  graph_exact s ->
  graph_exact (register_head r (append_rule r (with_detected_axioms true s))).
Proof.
  intros [Hkeys Hbody]. unfold graph_exact, register_head.
  cbn [_axiom_edges _rules append_rule with_detected_axioms].
  set (v := rule_var r).
  set (ks := dict_keys (rule_preconditions r)).
  assert (He : exists nb,
             (match dict_get v (_axiom_edges s) with
              | Some body => dict_set v (set_update body ks) (_axiom_edges s)
              | None => dict_set v (set_update [] ks) (_axiom_edges s)
              end) = dict_set v nb (_axiom_edges s) /\
             forall i, In i nb <-> In i (body_vars (_rules s) v) \/ In i ks).
  { destruct (dict_get v (_axiom_edges s)) as [body|] eqn:Eg.
    - exists (set_update body ks). split; [reflexivity|].
      intros i. rewrite <- (Hbody v body Eg). split.
      + apply set_update_in_inv.
      + apply set_update_incl.
    - exists (set_update [] ks). split; [reflexivity|].
      intros i. split.
      + intros Hin. apply set_update_in_inv in Hin.
        destruct Hin as [[]|Hin]. now right.
      + intros [Hin|Hin]; [|apply set_update_incl; now right].
        exfalso. apply In_body_vars in Hin.
        destruct Hin as (r' & Hr' & Hv & _).
        apply dict_get_None_keys in Eg. apply Eg, Hkeys. eauto. }
  destruct He as (nb & -> & Hnb).
  split.
  - intros h. rewrite dict_keys_set_cases.
    assert (Hiff : In h (if dict_mem v (_axiom_edges s)
                         then dict_keys (_axiom_edges s)
                         else dict_keys (_axiom_edges s) ++ [v])
                   <-> In h (dict_keys (_axiom_edges s)) \/ h = v).
    { destruct (dict_mem v (_axiom_edges s)) eqn:Em.
      - split; auto. intros [Hin| ->]; auto. now apply dict_mem_keys.
      - rewrite in_app_iff. cbn. intuition. }
    rewrite Hiff, Hkeys. split.
    + intros [(r' & Hr' & Hh)| ->].
      * exists r'. split; [apply in_app_iff; now left|exact Hh].
      * exists r. split; [apply in_app_iff; right; now left|reflexivity].
    + intros (r' & Hr' & Hh). apply in_app_iff in Hr'.
      destruct Hr' as [Hr'|[<-|[]]]; [left; eauto|right; now symmetry].
  - intros h body Hg i.
    assert (Hsnoc : In i (body_vars (_rules s ++ [r]) h)
                    <-> In i (body_vars (_rules s) h) \/ (h = v /\ In i ks)).
    { rewrite !In_body_vars. split.
      - intros (r' & Hr' & Hh & Hi). apply in_app_iff in Hr'.
        destruct Hr' as [Hr'|[<-|[]]]; [left; eauto|right; auto].
      - intros [(r' & Hr' & Hh & Hi)|[-> Hi]].
        + exists r'. split; [apply in_app_iff; now left|auto].
        + exists r. split; [apply in_app_iff; right; now left|auto]. }
    rewrite Hsnoc.
    destruct (Z.eq_dec h v) as [->|Hne].
    + rewrite dict_get_set_same in Hg. inversion Hg. subst body.
      rewrite Hnb. intuition.
    + rewrite dict_get_set_other in Hg by exact Hne.
      rewrite (Hbody h body Hg). intuition.
Qed.

Lemma core_graph_exact s s' :
  core s = core s' -> graph_exact s -> graph_exact s'.
Proof.
  unfold core, graph_exact. intros Hc.
  assert (Hr : _rules s' = _rules s) by congruence.
  assert (He : _axiom_edges s' = _axiom_edges s) by congruence.
  now rewrite Hr, He.
Qed.

Lemma parse_lines_graph_exact ls s :
  parse_lines ls = Some (Ok s) -> graph_exact s.
Proof.
  apply (parse_lines_invariant graph_exact).
  - split.
    + intros h. cbn. split; [intros []|intros (r & [] & _)].
    + intros h body Hg. discriminate.
  - intros l s0 ls0 s' ls' HI. unfold parse_block.
    destruct (l =? "begin_variable")%string.
    { intros Hrun. apply parse_variable_inv in Hrun.
      destruct Hrun as (values & layer & ->). exact HI. }
    destruct (l =? "begin_rule")%string.
    { intros Hrun. apply parse_rule_inv in Hrun.
      destruct Hrun as (r & _ & ->). now apply register_rule_graph_exact. }
    destruct (l =? "begin_operator")%string.
    { intros Hrun. eapply core_graph_exact; [|exact HI].
      exact (parse_operator_core _ _ _ _ _ Hrun). }
    destruct (l =? "begin_goal")%string.
    { intros Hrun. eapply core_graph_exact; [|exact HI].
      exact (parse_goal_core _ _ _ _ _ Hrun). }
    destruct (l =? "begin_state")%string.
    { intros Hrun. eapply core_graph_exact; [|exact HI].
      exact (parse_state_core _ _ _ _ _ Hrun). }
    intros Hrun. inversion Hrun. subst. exact HI.
Qed.

Lemma max_layer_same_body (V : dict Z) (body body' : pyset) :
  (forall i, In i body <-> In i body') ->
  max_layer V body = max_layer V body'.
Proof.
  intros Hsame.
  pose proof (layer_update_same_body V body body' Hsame) as E.
  rewrite !layer_update_max_layer in E. lia.
Qed.

(** The layering of a parsed document, read on its rules. *)
Lemma layering_of_rules sas_content s fuel V :
  _parse sas_content = Some (Ok s) ->
  stratify fuel (_axiom_edges s) = Some (Ok V) ->
  (forall h,
      In h (dict_keys V) <-> exists r, In r (_rules s) /\ rule_var r = h) /\
  (forall r,
      In r (_rules s) ->
      dict_get (rule_var r) V
      = Some (1 + max_layer V (body_vars (_rules s) (rule_var r)))) /\
  (forall r r' i v,
      In r (_rules s) ->
      In (i, v) (rule_preconditions r) ->
      In r' (_rules s) ->
      rule_var r' = i ->
      exists li lh,
        dict_get i V = Some li /\
        dict_get (rule_var r) V = Some lh /\
        li < lh) /\
  (forall r lh,
      In r (_rules s) ->
      dict_get (rule_var r) V = Some lh ->
      lh = 1 \/
      exists r' i v li,
        In r' (_rules s) /\ rule_var r' = rule_var r /\
        In (i, v) (rule_preconditions r') /\
        dict_get i V = Some li /\
        lh = li + 1).
Proof.
  intros Hp Hrun.
  destruct (parse_lines_graph_wf _ _ Hp) as (Hnd & _ & _).
  destruct (parse_lines_graph_exact _ _ Hp) as [Hkeys Hbody].
  destruct (stratify_fixed_point _ _ _ Hnd Hrun) as (V' & HV & Hk & Hfix).
  inversion HV. subst V'. clear HV.
  assert (Hedge : forall r,
             In r (_rules s) ->
             exists body,
               dict_get (rule_var r) (_axiom_edges s) = Some body /\
               forall i, In i body
                         <-> In i (body_vars (_rules s) (rule_var r))).
  { intros r Hr.
    assert (Hin : In (rule_var r) (dict_keys (_axiom_edges s)))
      by (apply Hkeys; eauto).
    apply dict_mem_keys in Hin. destruct (dict_mem_get _ _ Hin) as [body Hg].
    exists body. split; [exact Hg|]. exact (Hbody _ _ Hg). }
  assert (Hlayer : forall r,
             In r (_rules s) ->
             dict_get (rule_var r) V
             = Some (layer_update V (body_vars (_rules s) (rule_var r)))).
  { intros r Hr. destruct (Hedge r Hr) as (body & Hg & Hsame).
    rewrite (Hfix _ _ Hg). f_equal. now apply layer_update_same_body. }
  split; [|split; [|split]].
  - intros h. rewrite Hk. apply Hkeys.
  - intros r Hr. rewrite (Hlayer r Hr). now rewrite layer_update_max_layer.
  - intros r r' i v Hr Hi Hr' Hh.
    assert (HiV : exists li, dict_get i V = Some li).
    { subst i. rewrite (Hlayer r' Hr'). eauto. }
    destruct HiV as [li Hli].
    exists li, (layer_update V (body_vars (_rules s) (rule_var r))).
    split; [exact Hli|]. split; [exact (Hlayer r Hr)|].
    assert (Hin : In i (body_vars (_rules s) (rule_var r))).
    { apply In_body_vars. exists r. split; [exact Hr|].
      split; [reflexivity|]. apply (in_map fst) in Hi. exact Hi. }
    pose proof (layer_update_child V _ i li Hin Hli). lia.
  - intros r lh Hr Hlh. rewrite (Hlayer r Hr) in Hlh. inversion Hlh.
    destruct (layer_update_attained V (body_vars (_rules s) (rule_var r)))
      as [E|(i & c & Hin & Hc & E)]; [now left|].
    right. apply In_body_vars in Hin. destruct Hin as (r' & Hr' & Hh & Hi).
    apply in_map_iff in Hi. destruct Hi as ([i' v] & Hfst & Hi).
    cbn in Hfst. subst i'.
    exists r', i, v, c. auto.
Qed.

(** C8. At the fixed point that the stratifier returns, the layer of every
    head is 1 plus the largest layer among the derived variables of its
    rule bodies, 0 standing for none; hence, in every parsed document,
    every derived variable in the body of a rule has a layer strictly
    below the layer of the head of the rule.  The fixed point is reached
    whenever the dependency graph has no cycle.  In a parsed document the
    graph is the graph of the rules: the variables that have a layer are
    the heads of the rules; the layer of the head of a rule is 1 plus the
    largest layer among the variables that the bodies of the rules of
    that head read, 0 standing for none; it is above the layer of every
    head of a rule that such a body reads, and it is 1 or one more than
    the layer of one of them. *)
Theorem layering_well_founded :
  (forall edges fuel V,
      NoDup (dict_keys edges) ->
      stratify fuel edges = Some (Ok V) ->
      dict_keys V = dict_keys edges /\
      (forall h body,
          dict_get h edges = Some body ->
          dict_get h V = Some (1 + max_layer V body)) /\
      (forall h body i li,
          dict_get h edges = Some body ->
          In i body ->
          dict_get i V = Some li ->
          exists lh, dict_get h V = Some lh /\ li < lh)) /\
  (forall sas_content s fuel V,
      _parse sas_content = Some (Ok s) ->
      stratify fuel (_axiom_edges s) = Some (Ok V) ->
      forall r i v,
        In r (_rules s) ->
        In (i, v) (rule_preconditions r) ->
        dict_mem i (_axiom_heads s) = true ->
        exists li lh,
          dict_get i V = Some li /\
          dict_get (rule_var r) V = Some lh /\
          li < lh) /\
  (forall sas_content s,
      _parse sas_content = Some (Ok s) ->
      acyclic (_axiom_edges s) ->
      exists V,
        stratify (S (List.length (_axiom_edges s))) (_axiom_edges s)
        = Some (Ok V)) /\
  (forall sas_content s fuel V,
      _parse sas_content = Some (Ok s) ->
      stratify fuel (_axiom_edges s) = Some (Ok V) ->
      (forall h,
          In h (dict_keys V)
          <-> exists r, In r (_rules s) /\ rule_var r = h) /\
      (forall r,
          In r (_rules s) ->
          dict_get (rule_var r) V
          = Some (1 + max_layer V (body_vars (_rules s) (rule_var r)))) /\
      (forall r r' i v,
          In r (_rules s) ->
          In (i, v) (rule_preconditions r) ->
          In r' (_rules s) ->
          rule_var r' = i ->
          exists li lh,
            dict_get i V = Some li /\
            dict_get (rule_var r) V = Some lh /\
            li < lh) /\
      (forall r lh,
          In r (_rules s) ->
          dict_get (rule_var r) V = Some lh ->
          lh = 1 \/
          exists r' i v li,
            In r' (_rules s) /\ rule_var r' = rule_var r /\
            In (i, v) (rule_preconditions r') /\
            dict_get i V = Some li /\
            lh = li + 1)).
Proof.
  split; [|split; [|split]].
  - apply fixed_point_layers.
  - intros sas_content s fuel V Hp Hrun r i v Hr Hi Hd.
    destruct (parse_lines_graph_wf _ _ Hp) as (Hnd & Hkeys & Hcov).
    destruct (fixed_point_layers _ _ _ Hnd Hrun) as (Hk & _ & Hlt).
    rewrite Forall_forall in Hcov.
    destruct (Hcov r Hr) as (body & Hg & Hincl).
    assert (Hin : In i body).
    { apply Hincl. apply (in_map fst) in Hi. exact Hi. }
    assert (HiV : exists li, dict_get i V = Some li).
    { rewrite (dict_mem_same_keys i _ V) in Hd by congruence.
      unfold dict_mem in Hd. destruct (dict_get i V); [eauto|discriminate]. }
    destruct HiV as (li & HiV).
    destruct (Hlt _ _ _ _ Hg Hin HiV) as (lh & Hh & Hlt').
    exists li, lh. auto.
  - intros sas_content s Hp Hac.
    destruct (parse_lines_graph_wf _ _ Hp) as (Hnd & _ & _).
    destruct (stratify_acyclic_terminates _ Hnd Hac) as (n & _ & Hrun & _).
    eauto.
  - apply layering_of_rules.
Qed.

Lemma layering_well_founded_witness :
  (dict_keys [(1, 1); (2, 2)] = dict_keys (_axiom_edges sas_layers) /\
   (forall h body,
       dict_get h (_axiom_edges sas_layers) = Some body ->
       dict_get h [(1, 1); (2, 2)]
       = Some (1 + max_layer [(1, 1); (2, 2)] body)) /\
   (forall h body i li,
       dict_get h (_axiom_edges sas_layers) = Some body ->
       In i body ->
       dict_get i [(1, 1); (2, 2)] = Some li ->
       exists lh, dict_get h [(1, 1); (2, 2)] = Some lh /\ li < lh)) /\
  (exists li lh,
      dict_get 1 [(1, 1); (2, 2)] = Some li /\
      dict_get (rule_var rule_r) [(1, 1); (2, 2)] = Some lh /\
      li < lh) /\
  (exists V,
      stratify (S (List.length (_axiom_edges sas_layers)))
               (_axiom_edges sas_layers)
      = Some (Ok V)) /\
  ((forall h,
       In h (dict_keys [(1, 1); (2, 2)])
       <-> exists r, In r (_rules sas_layers) /\ rule_var r = h) /\
   (forall r,
       In r (_rules sas_layers) ->
       dict_get (rule_var r) [(1, 1); (2, 2)]
       = Some (1 + max_layer [(1, 1); (2, 2)]
                             (body_vars (_rules sas_layers) (rule_var r)))) /\
   (forall r r' i v,
       In r (_rules sas_layers) ->
       In (i, v) (rule_preconditions r) ->
       In r' (_rules sas_layers) ->
       rule_var r' = i ->
       exists li lh,
         dict_get i [(1, 1); (2, 2)] = Some li /\
         dict_get (rule_var r) [(1, 1); (2, 2)] = Some lh /\
         li < lh) /\
   (forall r lh,
       In r (_rules sas_layers) ->
       dict_get (rule_var r) [(1, 1); (2, 2)] = Some lh ->
       lh = 1 \/
       exists r' i v li,
         In r' (_rules sas_layers) /\ rule_var r' = rule_var r /\
         In (i, v) (rule_preconditions r') /\
         dict_get i [(1, 1); (2, 2)] = Some li /\
         lh = li + 1)).
Proof.
  split; [|split; [|split]].
  - apply (proj1 layering_well_founded (_axiom_edges sas_layers) 3%nat).
    + vm_compute. repeat constructor; simpl; intuition discriminate.
    + vm_compute. reflexivity.
  - apply (proj1 (proj2 layering_well_founded) doc_layers sas_layers 3%nat
                 [(1, 1); (2, 2)])
      with (v := 1).
    + vm_compute. reflexivity.
    + vm_compute. reflexivity.
    + simpl. right. left. reflexivity.
    + simpl. right. left. reflexivity.
    + reflexivity.
  - apply (proj1 (proj2 (proj2 layering_well_founded)) doc_layers sas_layers).
    + vm_compute. reflexivity.
    + exact acyclic_doc_layers.
  - apply (proj2 (proj2 (proj2 layering_well_founded)) doc_layers sas_layers
                 3%nat).
    + vm_compute. reflexivity.
    + vm_compute. reflexivity.
Defined.

(** ** The message of the gate *)

Example has_rule_block_doc_axiom : has_rule_block doc_axiom.
Proof. eexists. eexists. exact rule_block_of_doc_axiom. Qed.

Example has_guarded_effect_doc_guarded_effect :
  has_guarded_effect doc_guarded_effect.
Proof.
  unfold has_guarded_effect, dispatches.
  eexists. exists "flip", "0", [], "1", ["1 0 0 0 -1 1"],
    ["1"; "end_operator"], "1 0 0 0 -1 1", 1.
  split; [|split; [reflexivity|split; [reflexivity|split; [now left|]]]].
  - exists "begin_operator". split; [|reflexivity].
    do 3 (eapply reaches_step; [vm_compute; reflexivity|]).
    apply reaches_here.
  - split; [vm_compute; reflexivity|discriminate].
Qed.

Example parse_doc_guarded_effect :
  _parse doc_guarded_effect = Some (Ok sas_guarded_effect).
Proof. vm_compute. reflexivity. Qed.

Example no_guarded_effect_in_doc_axiom : ~ has_guarded_effect doc_axiom.
Proof.
  intros Hg.
  pose proof (guarded_effect_sets_flag _ _ parse_doc_axiom Hg) as E.
  discriminate.
Qed.

Example no_rule_block_in_doc_guarded_effect :
  ~ has_rule_block doc_guarded_effect.
Proof.
  intros Hr.
  pose proof (rule_block_sets_flag _ _ parse_doc_guarded_effect Hr) as E.
  discriminate.
Qed.

(** C3, as stated, fails: the error does not name the feature that
    triggered it.  A document with a rule block and no guarded effect and
    a document with a guarded effect and no rule block end with the same
    exception, so that no reading of the exception tells which of the two
    features a document has. *)
Lemma unsupported_error_names_no_feature :
  ~ (exists names : exn -> bool * bool,
        forall sas_content e,
          translate sas_content = Some (Raise e) ->
          has_rule_block sas_content \/ has_guarded_effect sas_content ->
          (fst (names e) = true <-> has_rule_block sas_content) /\
          (snd (names e) = true <-> has_guarded_effect sas_content)).
Proof.
  intros (names & Hall).
  assert (Ha : translate doc_axiom
               = Some (Raise (NotImplementedError unsupported_msg)))
    by (vm_compute; reflexivity).
  assert (Hg : translate doc_guarded_effect
               = Some (Raise (NotImplementedError unsupported_msg)))
    by (vm_compute; reflexivity).
  destruct (Hall _ _ Ha (or_introl has_rule_block_doc_axiom)) as [[_ H1] _].
  destruct (Hall _ _ Hg (or_intror has_guarded_effect_doc_guarded_effect))
    as [[H2 _] _].
  exact (no_rule_block_in_doc_guarded_effect
           (H2 (H1 has_rule_block_doc_axiom))).
Qed.
